(** * tiko-essentia-audio-service: staged artist analysis and profile lifecycle

    A shallow embedding of the resolution-and-staged-aggregation pipeline:
    - [server.js]: the [/api/analyze-artist] handler (track selection, the
      preview resolver [acquirePreviewForTrack], the two analysis rounds and
      the gate between them, [buildGenreMapping], the response and the
      [artist_genre_profiles] upsert);
    - [batch-artist-audio-coverage.js] (the revision with staged profiles):
      the per-artist body of the main loop;
    - [scripts/essentia_flag_scanner.js]: the scan and the [--clear] repair;
    - the migration script that copies the legacy top-level
      [essentiaTrackMatrix] into [essentiaAudioProfile.trackMatrix];
    - [enhanced-audio-sources.js]: the fallback aggregator and
      [inferAudioFeaturesFromGenres];
    - the [/api/batch] and [/api/analyze] handlers of [server.js] and two
      repair scripts.

    Conventions.  A MongoDB document is a finite map from field names to
    values; a collection is a finite map from [_id] to documents.  JavaScript
    numbers that the code only compares or counts are integers ([Z]); the
    quotients it forms are exact rationals ([Q]), with [None] standing for
    [NaN].  Strings are byte strings, read as ASCII text: [toLowerCase],
    [trim] and the [\s] class are the ASCII ones, and a statement that
    depends on the case of a name says so with [Js.isAscii].  Code that can
    throw lives in a state and exception monad whose state survives a
    [throw], as JavaScript's assignments do; [try { .. } catch (e) {}] is
    [try_]. *)

From Stdlib Require Import ZArith QArith String Ascii List Bool Lia.
From stdpp Require Import base option list gmap strings.
Import ListNotations.

#[local] Open Scope string_scope.
#[local] Open Scope Z_scope.

(* ================================================================== *)
(** ** JavaScript strings *)
(* ================================================================== *)

Module Js.

Definition lowerChar (c : ascii) : ascii :=
  let n := nat_of_ascii c in
  if ((65 <=? n) && (n <=? 90))%nat then ascii_of_nat (n + 32) else c.

(** [s.toLowerCase()].  On ASCII text this is JavaScript's function; a
    byte above 127 stays as it is, where JavaScript lower-cases the letter
    it belongs to. *)
Fixpoint toLowerCase (s : string) : string :=
  match s with
  | EmptyString => EmptyString
  | String c r => String (lowerChar c) (toLowerCase r)
  end.

(** the string is ASCII text *)
Definition isAscii (s : string) : bool :=
  forallb (λ c, (nat_of_ascii c <? 128)%nat) (list_ascii_of_string s).

(** [s.indexOf(sub)], [None] for [-1] *)
Definition indexOf (s sub : string) : option nat := String.index 0 sub s.

(** [s.includes(sub)] *)
Definition includes (s sub : string) : bool :=
  match indexOf s sub with Some _ => true | None => false end.

(** [s.startsWith(p)] *)
Definition startsWith (s p : string) : bool := String.prefix p s.

(** the class [\s], ASCII part: tab, line feed, vertical tab, form feed,
    carriage return, space *)
Definition isSpace (c : ascii) : bool :=
  let n := nat_of_ascii c in
  ((9 <=? n) && (n <=? 13) || (n =? 32))%nat.

Fixpoint dropSpaces (l : list ascii) : list ascii :=
  match l with
  | c :: r => if isSpace c then dropSpaces r else l
  | [] => []
  end.

(** [s.trim()] *)
Definition trim (s : string) : string :=
  string_of_list_ascii
    (rev (dropSpaces (rev (dropSpaces (list_ascii_of_string s))))).

(** [s.replace(/\s+/g, ' ')]: every maximal run of white space becomes one
    space; [inRun] says that the previous character was white space *)
Fixpoint collapseSpacesFrom (inRun : bool) (l : list ascii) : list ascii :=
  match l with
  | [] => []
  | c :: r =>
      if isSpace c then
        if inRun then collapseSpacesFrom true r
        else " "%char :: collapseSpacesFrom true r
      else c :: collapseSpacesFrom false r
  end.

Definition collapseSpaces (s : string) : string :=
  string_of_list_ascii (collapseSpacesFrom false (list_ascii_of_string s)).

(** [s.replace(/\s{2,}/g, ' ')]: only runs of two or more are replaced, a
    single white-space character stays what it is; [skipping] says that the
    run the scan is in has been replaced already *)
Fixpoint collapseRunsFrom (skipping : bool) (l : list ascii) : list ascii :=
  match l with
  | [] => []
  | c :: r =>
      if isSpace c then
        if skipping then collapseRunsFrom true r
        else
          match r with
          | d :: _ =>
              if isSpace d then " "%char :: collapseRunsFrom true r
              else c :: collapseRunsFrom false r
          | [] => [c]
          end
      else c :: collapseRunsFrom false r
  end.

Definition collapseRuns (s : string) : string :=
  string_of_list_ascii (collapseRunsFrom false (list_ascii_of_string s)).

(** [s.replace(/\([^)]*\)/gi, '')]: an opening parenthesis is removed
    together with everything up to the next closing one; without a closing
    one later in the string it stays.  [skipping] says that the scan is
    inside a parenthesis being removed. *)
Definition hasClose (l : list ascii) : bool :=
  existsb (Ascii.eqb ")"%char) l.

Fixpoint stripParensFrom (skipping : bool) (l : list ascii) : list ascii :=
  match l with
  | [] => []
  | c :: r =>
      if skipping then stripParensFrom (negb (Ascii.eqb c ")"%char)) r
      else if Ascii.eqb c "("%char && hasClose r then stripParensFrom true r
      else c :: stripParensFrom false r
  end.

Definition stripParens (s : string) : string :=
  string_of_list_ascii (stripParensFrom false (list_ascii_of_string s)).

(** [s.substring(0, n)] and [s.substring(n)] *)
Definition substringTo (n : nat) (s : string) : string := String.substring 0 n s.
Definition substringFrom (n : nat) (s : string) : string :=
  String.substring n (String.length s - n) s.

(** JavaScript truthiness of a possibly absent string: [undefined], [null]
    and [""] are falsy *)
Definition truthy (o : option string) : bool :=
  match o with
  | Some s => negb (String.eqb s "")
  | None => false
  end.

(** a template literal prints an absent value as ["undefined"] *)
Definition show (o : option string) : string := default "undefined" o.

End Js.

(* ================================================================== *)
(** ** Track profiles and stored values *)
(* ================================================================== *)

(** The feature vector of one track, as far as the service reads it back:
    [calculateAverageFeatures] looks at these five keys.  [None] is a key
    that is [undefined] or [NaN]. *)
Record Features : Type := mkFeatures {
  energy : option Q;
  danceability : option Q;
  valence : option Q;
  tempo : option Q;
  spectral_centroid : option Q
}.

(** [alternativeSourceInfo] of a resolved track *)
Record AlternativeSourceInfo : Type := mkAlternativeSourceInfo {
  source : string;
  confidence : option Q;
  forced : bool;
  simplified : bool;
  artistOnly : bool;
  totalSources : option Z
}.

(** One entry of a [trackMatrix] (server.js, [trackProfiles.push]) *)
Record TrackProfile : Type := mkTrackProfile {
  trackId : string;
  name : string;
  artist : option string;
  popularity : option Z;
  isRecentRelease : bool;
  albumInfo : option string;
  previewUrl : option string;
  audioSource : option string;
  alternativeSourceInfo : option AlternativeSourceInfo;
  essentiaFeatures : Features;
  analyzedAt : Z;
  analysisRound : Z
}.

(** [genreMapping] as [buildGenreMapping] returns it; [genreConfidence] is a
    percentage (1.0 is 100) *)
Record GenreMapping : Type := mkGenreMapping {
  inferredGenres : list string;
  genreSource : string;
  genreConfidence : Z
}.

(** The [essentiaAudioProfile] sub-document.  [trackMatrix = None] is a
    profile without the field; the scripts only ever store an array there. *)
Record Profile : Type := mkProfile {
  trackMatrix : option (list TrackProfile);
  genreMapping : option GenreMapping;
  recentEvolution : option string;
  averageFeatures : option Features;
  spectralFeatures : option Features;
  metadataVersion : option string
}.

(** A field value of a stored document *)
Inductive value : Type :=
| VNull
| VBool (b : bool)
| VNum (n : Z)
| VStr (s : string)
| VDate (t : Z)
| VStrings (l : list string)
| VTracks (m : list TrackProfile)
| VProfile (p : Profile)
| VGenres (g : GenreMapping)
| VFeatures (f : Features)
| VCounts (c : gmap string Z).

#[global] Instance Q_eq_dec : EqDecision Q.
Proof. solve_decision. Defined.
#[global] Instance Features_eq_dec : EqDecision Features.
Proof. solve_decision. Defined.
#[global] Instance AlternativeSourceInfo_eq_dec : EqDecision AlternativeSourceInfo.
Proof. solve_decision. Defined.
#[global] Instance TrackProfile_eq_dec : EqDecision TrackProfile.
Proof. solve_decision. Defined.
#[global] Instance GenreMapping_eq_dec : EqDecision GenreMapping.
Proof. solve_decision. Defined.
#[global] Instance Profile_eq_dec : EqDecision Profile.
Proof. solve_decision. Defined.
#[global] Instance value_eq_dec : EqDecision value.
Proof. solve_decision. Defined.

(** the track identities of a matrix, in order *)
Definition trackIds (m : list TrackProfile) : list string := map trackId m.

(* ================================================================== *)
(** ** The document store *)
(* ================================================================== *)

Module Mongo.

Abbreviation Doc := (gmap string value).
Abbreviation Collection := (gmap string (gmap string value)).

(** [doc.essentiaAudioProfile && doc.essentiaAudioProfile.trackMatrix],
    when it is an array *)
Definition trackMatrixOf (d : Doc) : option (list TrackProfile) :=
  match d !! "essentiaAudioProfile" with
  | Some (VProfile p) => trackMatrix p
  | _ => None
  end.

(** truthiness of a field *)
Definition truthyField (d : Doc) (k : string) : bool :=
  match d !! k with
  | None | Some VNull | Some (VBool false) | Some (VNum 0) | Some (VStr "") => false
  | Some _ => true
  end.

(** An update document: the [$set] pairs, then the [$unset] names.  The
    two lists of one update never name the same field here. *)
Record Update : Type := mkUpdate {
  set_ : list (string * value);
  unset_ : list string
}.

(** [$set] of one path.  The only dotted path the scripts write is
    ["essentiaAudioProfile.trackMatrix"]: it creates the sub-document when
    the field is absent, replaces the array when the field is a
    sub-document, and is a write error ([None]) on any other value. *)
Definition setPath (k : string) (v : value) (d : Doc) : option Doc :=
  if String.eqb k "essentiaAudioProfile.trackMatrix" then
    match v, d !! "essentiaAudioProfile" with
    | VTracks m, None =>
        Some (<["essentiaAudioProfile" :=
                 VProfile (mkProfile (Some m) None None None None None)]> d)
    | VTracks m, Some (VProfile p) =>
        Some (<["essentiaAudioProfile" :=
                 VProfile (mkProfile (Some m) (genreMapping p) (recentEvolution p)
                             (averageFeatures p) (spectralFeatures p)
                             (metadataVersion p))]> d)
    | _, _ => None
    end
  else Some (<[k := v]> d).

Fixpoint setAll (l : list (string * value)) (d : Doc) : option Doc :=
  match l with
  | [] => Some d
  | (k, v) :: r =>
      match setPath k v d with
      | Some d' => setAll r d'
      | None => None
      end
  end.

Definition unsetAll (l : list string) (d : Doc) : Doc :=
  foldr (λ k acc, delete k acc) d l.

(** the document after the update, [None] on a write error *)
Definition applyUpdate (u : Update) (d : Doc) : option Doc :=
  unsetAll (unset_ u) <$> setAll (set_ u) d.

(** [{ matchedCount, modifiedCount }] *)
Record UpdateResult : Type := mkUpdateResult {
  matchedCount : Z;
  modifiedCount : Z
}.

(** [col.updateOne({ _id: id }, u)], no upsert.  [id = None] is an
    [undefined] id, which matches nothing.  A document that the update
    leaves as it was is matched but not modified.  A write error leaves
    the collection as it was; the caller sees it as a throw. *)
Definition updateOne (id : option string) (u : Update) (col : Collection)
  : option (UpdateResult * Collection) :=
  match id with
  | None => Some (mkUpdateResult 0 0, col)
  | Some i =>
      match col !! i with
      | None => Some (mkUpdateResult 0 0, col)
      | Some d =>
          match applyUpdate u d with
          | None => None
          | Some d' =>
              if decide (d' = d) then Some (mkUpdateResult 1 0, col)
              else Some (mkUpdateResult 1 1, <[i := d']> col)
          end
      end
  end.

(** [col.updateMany({ _id: { $in: ids } }, u)] for an update without a
    dotted path (no write errors): the new collection and [modifiedCount] *)
Definition updateManyIn (ids : list string) (u : Update) (col : Collection)
  : Collection :=
  map_imap (λ i d,
    Some (if bool_decide (i ∈ ids) then default d (applyUpdate u d) else d)) col.

(** A collection whose [_id]s the driver generates, in insertion order *)
Abbreviation Heap := (list (gmap string value)).

(** [$set] of plain field names *)
Definition setFields (l : list (string * value)) (d : Doc) : Doc :=
  fold_left (λ acc kv, <[kv.1 := kv.2]> acc) l d.

(** [col.updateOne({ k: v }, { $set: l }, { upsert: true })]: the first
    document whose field [k] equals [v] is updated; when there is none, a
    document is inserted, made of the filter's field and then the [$set] *)
Definition upsertOne (k : string) (v : value) (l : list (string * value)) (col : Heap)
  : Heap :=
  match list_find (λ d, d !! k = Some v) col with
  | Some (i, d) => <[i := setFields l d]> col
  | None => col ++ [setFields l {[k := v]}]
  end.

End Mongo.

(* ================================================================== *)
(** ** scripts/essentia_flag_scanner.js *)
(* ================================================================== *)

Module Scanner.
Import Mongo.

(** [Array.isArray(doc.essentiaAudioProfile &&
    doc.essentiaAudioProfile.trackMatrix) && ....length > 0] *)
Definition hasMatrix (d : Doc) : bool :=
  match trackMatrixOf d with
  | Some (_ :: _) => true
  | _ => false
  end.

(** the query [{ essentiaProfileBuilt: true }] *)
Definition isBuilt (d : Doc) : bool :=
  bool_decide (d !! "essentiaProfileBuilt" = Some (VBool true)).

(** the cursor of [col.find({ essentiaProfileBuilt: true })] *)
Definition cursor (col : Collection) : list (string * Doc) :=
  filter (λ p, isBuilt p.2 = true) (map_to_list col).

(** the loop [while (await cursor.hasNext() && checked < limit)]: the [_id]s
    pushed to [toClear].  [limit] is [parseInt] of the argument; a limit
    that is not positive checks nothing. *)
Definition toClear (limit : Z) (col : Collection) : list string :=
  map fst (filter (λ p, hasMatrix p.2 = false) (take (Z.to_nat limit) (cursor col))).

(** [{ $unset: { essentiaProfileBuilt: '', essentiaProfileDate: '' } }] *)
Definition clearOp : Update :=
  mkUpdate [] ["essentiaProfileBuilt"; "essentiaProfileDate"].

(** the whole run: the collection after it *)
Definition run (clear dryRun : bool) (limit : Z) (col : Collection) : Collection :=
  let ids := toClear limit col in
  if clear && (0 <? Z.of_nat (length ids)) then
    if dryRun then col else updateManyIn ids clearOp col
  else col.

End Scanner.

(* ================================================================== *)
(** ** Code that can throw: state and exceptions *)
(* ================================================================== *)

(** What a call comes back with.  A provider or store call that fails (a
    network error, a rejected promise) is [Throws]. *)
Inductive outcome (A : Type) : Type :=
| Returns (a : A)
| Throws (e : string).
Arguments Returns {A} a.
Arguments Throws {A} e.

(** A computation over a mutable state [S].  The state after a throw is the
    state at the throw: assignments made before it stay. *)
Definition M (S A : Type) : Type := S → outcome A * S.

Definition ret {S A : Type} (a : A) : M S A := λ s, (Returns a, s).

Definition bind {S A B : Type} (m : M S A) (f : A → M S B) : M S B :=
  λ s, match m s with
       | (Returns a, s') => f a s'
       | (Throws e, s') => (Throws e, s')
       end.

Definition throw {S A : Type} (e : string) : M S A := λ s, (Throws e, s).

(** [try { m } catch (e) { h(e) }] *)
Definition try_catch {S A : Type} (m : M S A) (h : string → M S A) : M S A :=
  λ s, match m s with
       | (Returns a, s') => (Returns a, s')
       | (Throws e, s') => h e s'
       end.

(** [try { m } catch (e) {}] *)
Definition try_ {S : Type} (m : M S unit) : M S unit :=
  try_catch m (λ _, ret tt).

Definition get {S : Type} : M S S := λ s, (Returns s, s).
Definition modify {S : Type} (f : S → S) : M S unit := λ s, (Returns tt, f s).

(** lift a call's outcome into the computation *)
Definition call {S A : Type} (o : outcome A) : M S A := λ s, (o, s).

(** [if (c) { m }] *)
Definition when_ {S : Type} (c : bool) (m : M S unit) : M S unit :=
  if c then m else ret tt.

Notation "x <- m ;; k" := (bind m (λ x, k))
  (at level 100, m at next level, right associativity, only parsing).
Notation "m ;;; k" := (bind m (λ _, k))
  (at level 100, right associativity, only parsing).

(** [for (const x of l) { body(x) }] *)
Fixpoint forEach {S A : Type} (l : list A) (body : A → M S unit) : M S unit :=
  match l with
  | [] => ret tt
  | x :: r => body x ;;; forEach r body
  end.

(* ================================================================== *)
(** ** The migration of the legacy top-level essentiaTrackMatrix *)
(* ================================================================== *)

Module Migration.
Import Mongo.

(** the filter [{ essentiaTrackMatrix: { $exists: true } }] *)
Definition hasLegacy (d : Doc) : bool :=
  match d !! "essentiaTrackMatrix" with Some _ => true | None => false end.

(** [const top = doc.essentiaTrackMatrix || []], then the guard
    [!Array.isArray(top) || top.length === 0]: the array to copy, if any *)
Definition legacyMatrix (d : Doc) : option (list TrackProfile) :=
  match d !! "essentiaTrackMatrix" with
  | Some (VTracks (t :: r)) => Some (t :: r)
  | _ => None
  end.

(** the update pushed to the batch for a document with the array [top] *)
Definition migrationUpdate (removeOld : bool) (now : Z) (top : list TrackProfile)
  : Update :=
  mkUpdate
    [("essentiaAudioProfile.trackMatrix", VTracks top);
     ("essentiaProfileBuilt", VBool true);
     ("essentiaProfileDate", VDate now)]
    (if removeOld then ["essentiaTrackMatrix"] else []).

(** what the [updateOne] of a run with [--apply] does to one document:
    documents outside the filter, and those with an empty or non-array
    legacy field, are not written; a write error (the profile field holds a
    non-document) leaves the document as it was.  [now] is the value of
    [new Date()] for this document. *)
Definition migrateDoc (removeOld : bool) (now : Z) (d : Doc) : Doc :=
  if hasLegacy d then
    match legacyMatrix d with
    | Some top => default d (applyUpdate (migrationUpdate removeOld now top) d)
    | None => d
    end
  else d.

(** the cursor of [col.find(filter)]: the documents that have the legacy
    field.  Every write of the run is on the [_id] of a document the cursor
    has handed out already, so the cursor reads each document as it was at
    the start. *)
Definition cursor (col : Collection) : list (string * Doc) :=
  filter (λ p, hasLegacy p.2 = true) (map_to_list col).

(** the body of the [for] loop: the operation pushed to [batch] for a
    document of the cursor, none for a document that is skipped.
    [clock id] is the value of [new Date()] when the loop is at the
    document [id]. *)
Definition batchOp (removeOld : bool) (clock : string → Z) (p : string * Doc)
  : option (string * Update) :=
  (λ top, (p.1, migrationUpdate removeOld (clock p.1) top)) <$> legacyMatrix p.2.

(** the [updateOne] operations of one [bulkWrite] with [ordered: false]:
    every operation is tried, also after one that failed.  The flag says
    that none had a write error. *)
Fixpoint writeAll (batch : list (string * Update)) (col : Collection)
  : bool * Collection :=
  match batch with
  | [] => (true, col)
  | (id, u) :: rest =>
      match updateOne (Some id) u col with
      | Some (_, col') => writeAll rest col'
      | None => (false, (writeAll rest col).2)
      end
  end.

(** [await col.bulkWrite(batch, { ordered: false })]: with a write error
    the promise rejects once every operation has been tried *)
Definition bulkWrite (batch : list (string * Update)) : M Collection unit :=
  λ col,
    let r := writeAll batch col in
    (if r.1 then Returns tt else Throws "BulkWriteError", r.2).

(** the documents the [while] loop takes from the cursor in each of its
    rounds: [n] at a time, the last round what is left *)
Fixpoint chunks {A : Type} (fuel n : nat) (l : list A) : list (list A) :=
  match fuel, l with
  | S fuel', _ :: _ => take n l :: chunks fuel' n (drop n l)
  | _, _ => []
  end.

(** one round of the [while] loop: the batch is written when it is not
    empty *)
Definition applyBatch (removeOld : bool) (clock : string → Z)
    (docs : list (string * Doc)) : M Collection unit :=
  let batch := omap (batchOp removeOld clock) docs in
  when_ (0 <? length batch)%nat (bulkWrite batch).

(** The run: the collection after it, and whether it ended normally.
    Nothing is written when no document has the legacy field and in a dry
    run (without [--apply]).  The script awaits [bulkWrite] outside any
    [try]: a rejected batch ends the run, and the batches after it are not
    written.  [batchSize] is [--batch] (200 when absent), taken positive: with
    another value the [for] loop takes no document and the [while] loop does
    not end. *)
Definition run (apply removeOld : bool) (clock : string → Z) (batchSize : positive)
  : M Collection unit :=
  col <- get ;;
  let docs := cursor col in
  if (length docs =? 0)%nat then ret tt
  else if negb apply then ret tt
  else forEach (chunks (length docs) (Pos.to_nat batchSize) docs)
         (applyBatch removeOld clock).

End Migration.

(* ================================================================== *)
(** ** The response of /api/analyze-artist *)
(* ================================================================== *)

Module Resp.

(** The JSON body with its HTTP status.  Absent keys are [None]. *)
Record t : Type := mk {
  status : Z;
  success : bool;
  partial : bool;
  error : option string;
  failSubtype : option string;
  trackMatrix : option (list TrackProfile);
  genreMapping : option GenreMapping;
  recentEvolution : option string;
  averageFeatures : option Features;
  spectralFeatures : option Features;
  metadataVersion : option string;
  tracksAttempted : option Z;
  totalTracksAnalyzed : option Z;
  analysisRounds : option Z
}.

End Resp.

(* ================================================================== *)
(** ** batch-artist-audio-coverage.js *)
(* ================================================================== *)

Module Batch.
Import Mongo.

(** the command line *)
Record Cli : Type := mkCli {
  maxTracks : Z;
  appleFirst : bool;
  soundcloudPass : bool;
  soundcloudOnly : bool;
  dryRun : bool;
  force : bool;
  fastModeFlag : bool
}.

(** the body [callAnalyze] posts *)
Record AnalyzeBody : Type := mkAnalyzeBody {
  artistName : string;
  spotifyId : option string;
  existingGenres : list string;
  bodyMaxTracks : Z;
  fastMode : bool;
  previewStrategy : string;
  forceSoundCloudTest : bool
}.

(** one write sent to [artistGenres]: the filter's id, the update, and the
    result ([None] when the call threw) *)
Record WriteEvent : Type := mkWriteEvent {
  evId : option string;
  evUpdate : Update;
  evResult : option UpdateResult;
  evAfter : Collection
}.

(** The driver's state: the collection, the summary counters, whether each
    coming store write fails (an empty list: none does), and the writes
    sent so far, oldest first. *)
Record World : Type := mkWorld {
  artistCol : Collection;
  faults : list bool;
  writes : list WriteEvent;
  requests : list AnalyzeBody;
  improved : Z;
  skipped : Z;
  scTriggered : Z;
  errors : Z;
  writesSucceeded : Z;
  writesFailed : Z;
  stagedCreated : Z
}.

Definition withStore (w : World) (col : Collection) (fs : list bool) (e : WriteEvent)
  : World :=
  mkWorld col fs (writes w ++ [e]) (requests w) (improved w) (skipped w)
    (scTriggered w) (errors w) (writesSucceeded w) (writesFailed w) (stagedCreated w).

Definition withRequest (b : AnalyzeBody) (w : World) : World :=
  mkWorld (artistCol w) (faults w) (writes w) (requests w ++ [b]) (improved w)
    (skipped w) (scTriggered w) (errors w) (writesSucceeded w) (writesFailed w)
    (stagedCreated w).

Definition bump_improved (w : World) : World :=
  mkWorld (artistCol w) (faults w) (writes w) (requests w) (improved w + 1)
    (skipped w) (scTriggered w) (errors w) (writesSucceeded w) (writesFailed w)
    (stagedCreated w).
Definition bump_skipped (w : World) : World :=
  mkWorld (artistCol w) (faults w) (writes w) (requests w) (improved w)
    (skipped w + 1) (scTriggered w) (errors w) (writesSucceeded w) (writesFailed w)
    (stagedCreated w).
Definition bump_scTriggered (w : World) : World :=
  mkWorld (artistCol w) (faults w) (writes w) (requests w) (improved w)
    (skipped w) (scTriggered w + 1) (errors w) (writesSucceeded w) (writesFailed w)
    (stagedCreated w).
Definition bump_errors (w : World) : World :=
  mkWorld (artistCol w) (faults w) (writes w) (requests w) (improved w)
    (skipped w) (scTriggered w) (errors w + 1) (writesSucceeded w) (writesFailed w)
    (stagedCreated w).
Definition bump_writesSucceeded (w : World) : World :=
  mkWorld (artistCol w) (faults w) (writes w) (requests w) (improved w)
    (skipped w) (scTriggered w) (errors w) (writesSucceeded w + 1) (writesFailed w)
    (stagedCreated w).
Definition bump_writesFailed (w : World) : World :=
  mkWorld (artistCol w) (faults w) (writes w) (requests w) (improved w)
    (skipped w) (scTriggered w) (errors w) (writesSucceeded w) (writesFailed w + 1)
    (stagedCreated w).
Definition bump_stagedCreated (w : World) : World :=
  mkWorld (artistCol w) (faults w) (writes w) (requests w) (improved w)
    (skipped w) (scTriggered w) (errors w) (writesSucceeded w) (writesFailed w)
    (stagedCreated w + 1).

(** [await artistCol.updateOne({ _id: id }, u)] *)
Definition updateOne (id : option string) (u : Update) : M World UpdateResult :=
  λ w,
    let fails := match faults w with b :: _ => b | [] => false end in
    let fs := tail (faults w) in
    if fails then
      (Throws "store write failed",
       withStore w (artistCol w) fs (mkWriteEvent id u None (artistCol w)))
    else
      match Mongo.updateOne id u (artistCol w) with
      | None =>
          (Throws "write error",
           withStore w (artistCol w) fs (mkWriteEvent id u None (artistCol w)))
      | Some (r, col') =>
          (Returns r, withStore w col' fs (mkWriteEvent id u (Some r) col'))
      end.

(** an entry of the loaded [artists] array: a document of [artistGenres]
    with its [_id], or [{ name }] read from a file ([_id] absent) *)
Record Artist : Type := mkArtist {
  _id : option string;
  doc : Doc
}.

(** what the loop reads from outside for one artist: the two
    [audioCol.countDocuments] results and the clock *)
Record Inputs : Type := mkInputs {
  existingVectors : Z;
  postAppleVectors : Z;
  now : Z
}.

(** the [status] pushed to [results] for the artist *)
Inductive Status : Type :=
| missing_name
| already_staged_built
| skip_profile
| skip
| dry_skip
| done
| error.

Definition strField (d : Doc) (k : string) : option string :=
  match d !! k with
  | Some (VStr s) => if String.eqb s "" then None else Some s
  | _ => None
  end.

(** [artist.name || artist.artistName || artist.displayName ||
    (artist._id && artist._id.toString()) || null] *)
Definition aName (a : Artist) : option string :=
  match strField (doc a) "name" with
  | Some s => Some s
  | None =>
      match strField (doc a) "artistName" with
      | Some s => Some s
      | None =>
          match strField (doc a) "displayName" with
          | Some s => Some s
          | None => _id a
          end
      end
  end.

Definition genresOf (d : Doc) : list string :=
  match d !! "genres" with
  | Some (VStrings l) => l
  | _ => []
  end.

(** [Array.isArray(..trackMatrix) ? ..trackMatrix.length : 0] *)
Definition stagedLen (a : Artist) : Z :=
  match trackMatrixOf (doc a) with
  | Some m => Z.of_nat (length m)
  | None => 0
  end.

(** [Math.max(0, maxTracks - stagedLen)] *)
Definition remainingTracks (cli : Cli) (a : Artist) : Z :=
  Z.max 0 (maxTracks cli - stagedLen a).

(** [remainingTracks || maxTracks] *)
Definition requestedTracks (cli : Cli) (a : Artist) : Z :=
  if remainingTracks cli a =? 0 then maxTracks cli else remainingTracks cli a.

(** [{ $set: { essentiaProfileBuilt: true, essentiaProfileDate: new Date() },
       $unset: { essentiaProfileStaged: '' } }] *)
Definition markBuilt (t : Z) : Update :=
  mkUpdate [("essentiaProfileBuilt", VBool true); ("essentiaProfileDate", VDate t)]
    ["essentiaProfileStaged"].

(** [{ $set: { essentiaProfileStaged: true, essentiaProfileDate: new Date() } }] *)
Definition markStaged (t : Z) : Update :=
  mkUpdate [("essentiaProfileStaged", VBool true); ("essentiaProfileDate", VDate t)] [].

(** the [profile] object built from [lastAnalysis] *)
Definition profileOf (r : Resp.t) : Profile :=
  mkProfile (Some (default [] (Resp.trackMatrix r))) (Resp.genreMapping r)
    (Resp.recentEvolution r) (Resp.averageFeatures r) (Resp.spectralFeatures r)
    (Resp.metadataVersion r).

(** [lastAnalysis.metadata?.version || '2.0'] *)
Definition versionOf (r : Resp.t) : string :=
  match Resp.metadataVersion r with
  | Some v => if String.eqb v "" then "2.0" else v
  | None => "2.0"
  end.

(** [{ $set: { essentiaAudioProfile: profile,
               essentiaVersion: lastAnalysis.metadata?.version || '2.0' } }] *)
Definition writeProfileOp (r : Resp.t) : Update :=
  mkUpdate
    [("essentiaAudioProfile", VProfile (profileOf r));
     ("essentiaVersion", VStr (versionOf r))]
    [].

(** the analysis service as the driver sees it: [callAnalyze] throws on a
    network failure and on a status that is not 2xx *)
Definition Service : Type := AnalyzeBody → outcome Resp.t.

Definition callAnalyze (svc : Service) (cli : Cli) (a : Artist) (nm : string)
    (strategy : string) (forceSC : bool) (n : Z) : M World Resp.t :=
  let body := mkAnalyzeBody nm (strField (doc a) "spotifyId") (genresOf (doc a)) n
                (fastModeFlag cli) strategy forceSC in
  modify (withRequest body) ;;;
  r <- call (svc body) ;;
  if (200 <=? Resp.status r) && (Resp.status r <? 300) then ret r
  else throw "analyze-artist failed".

(** lines 276-284: a staged matrix that already has [maxTracks] entries is
    marked built without an analysis *)
Definition markBuiltFromStaged (a : Artist) (t : Z) : M World unit :=
  try_catch
    (r <- updateOne (_id a) (markBuilt t) ;;
     when_ (0 <? modifiedCount r) (modify bump_writesSucceeded))
    (λ _, modify bump_writesFailed).

(** lines 338-379: write the profile, then the flag *)
Definition writeArtistProfile (cli : Cli) (a : Artist) (t : Z) (r : Resp.t)
  : M World unit :=
  try_
    (updProfileRes <- updateOne (_id a) (writeProfileOp r) ;;
     let tmLen :=
       match trackMatrix (profileOf r) with
       | Some m => Z.of_nat (length m)
       | None => 0
       end in
     if (0 <? modifiedCount updProfileRes) && (maxTracks cli <=? tmLen) then
       updateOne (_id a) (markBuilt t) ;;;
       modify bump_writesSucceeded
     else if (0 <? modifiedCount updProfileRes) && (0 <? tmLen) then
       updateOne (_id a) (markStaged t) ;;;
       modify bump_stagedCreated ;;;
       modify bump_writesSucceeded
     else modify bump_writesFailed).

(** lines 306-335: the analysis passes; the value is [lastAnalysis] *)
Definition analysisPasses (svc : Service) (cli : Cli) (inp : Inputs) (a : Artist)
    (nm : string) : M World (option Resp.t) :=
  last1 <-
    (if negb (soundcloudOnly cli) && appleFirst cli then
       r <- callAnalyze svc cli a nm "apple_primary" false (requestedTracks cli a) ;;
       ret (Some r)
     else ret None) ;;
  if soundcloudPass cli || soundcloudOnly cli then
    if postAppleVectors inp <? maxTracks cli - 1 then
      modify bump_scTriggered ;;;
      r <- callAnalyze svc cli a nm "apple_primary" true (requestedTracks cli a) ;;
      ret (Some r)
    else ret last1
  else ret last1.

(** the body of [for (const artist of artists)] *)
Definition processArtist (svc : Service) (cli : Cli) (inp : Inputs) (a : Artist)
  : M World Status :=
  match aName a with
  | None => modify bump_skipped ;;; ret missing_name
  | Some nm =>
      if (maxTracks cli <=? stagedLen a)
         && negb (truthyField (doc a) "essentiaProfileBuilt") then
        markBuiltFromStaged a (now inp) ;;;
        modify bump_skipped ;;;
        ret already_staged_built
      else if truthyField (doc a) "essentiaProfileBuilt" && negb (force cli) then
        modify bump_skipped ;;; ret skip_profile
      else if maxTracks cli <=? existingVectors inp then
        modify bump_skipped ;;; ret skip
      else if dryRun cli then
        modify bump_skipped ;;; ret dry_skip
      else
        try_catch
          (lastAnalysis <- analysisPasses svc cli inp a nm ;;
           match lastAnalysis with
           | Some r =>
               when_ (Resp.success r && negb (dryRun cli))
                 (writeArtistProfile cli a (now inp) r)
           | None => ret tt
           end ;;;
           modify bump_improved ;;;
           ret done)
          (λ _, modify bump_errors ;;; ret error)
  end.

(** the filter of the initial [find]: no profile, no matrix, an empty
    matrix, or a staged profile *)
Definition needsWork (d : Doc) : bool :=
  match d !! "essentiaAudioProfile" with
  | None => true
  | Some (VProfile p) =>
      match trackMatrix p with
      | None | Some [] => true
      | Some (_ :: _) => bool_decide (d !! "essentiaProfileStaged" = Some (VBool true))
      end
  | Some _ => true
  end.

(** the fields of the [projection]; [_id] comes with every document *)
Definition projection : list string :=
  ["name"; "spotifyId"; "genres"; "essentiaProfileBuilt"; "essentiaAudioProfile";
   "essentiaProfileStaged"].

(** [artistCol.find(baseQ, { projection }).limit(limit).toArray()] without a
    genre filter: a loaded artist has the projected fields only.  A limit of
    zero is no limit, and a negative one counts as its absolute value. *)
Definition loadArtists (limit : Z) (col : Collection) : list Artist :=
  let found := filter (λ p, needsWork p.2 = true) (map_to_list col) in
  map (λ p, mkArtist (Some p.1)
              (filter (λ kv : string * value, kv.1 ∈ projection) p.2))
    (if limit =? 0 then found else take (Z.abs_nat limit) found).

(** the main loop over the loaded artists, each with what it reads from
    outside *)
Definition mainLoop (svc : Service) (cli : Cli) (l : list (Artist * Inputs))
  : M World unit :=
  forEach l (λ p, processArtist svc cli p.2 p.1 ;;; ret tt).

Definition initialWorld (col : Collection) (fs : list bool) : World :=
  mkWorld col fs [] [] 0 0 0 0 0 0 0.

End Batch.

(* ================================================================== *)
(** ** enhanced-audio-sources.js and the catalog adapters of server.js *)
(* ================================================================== *)

Module Sources.

(** a track of the SoundCloud search response *)
Record ScTrack : Type := mkScTrack {
  verified : bool;
  username : string;
  title : string;
  stream_url : option string;
  permalink_url : string
}.

(** what an adapter of the fallback module returns *)
Record Source : Type := mkSource {
  source : string;
  url : option string;
  streamUrl : option string;
  previewUrl : option string;
  confidence : option Q
}.

(** the value of [findAlternativeAudioSource] *)
Record AlternativeResult : Type := mkAlternativeResult {
  alternativeSources : list Source;
  bestSource : option Source;
  totalSources : Z
}.

(** the iTunes search response: [ok] and the [previewUrl] of each result *)
Record ItunesResponse : Type := mkItunesResponse {
  ok : bool;
  results : option (list (option string))
}.

(** The network, as the adapters use it.  [Throws] is a rejected [fetch] or
    a body that does not parse. *)
Record Net : Type := mkNet {
  soundcloudSearch : string → outcome (option (list ScTrack));
  itunesSearch : string → Z → outcome ItunesResponse;
  youtubeSearch : string → outcome (option string);
  spotifyPreviewRecovery : string → string → outcome (option string);
  essentia : string → outcome Features
}.

(** [data.collection.find(track => track.user.verified ||
      track.user.username.toLowerCase().includes(artistName.toLowerCase()) ||
      track.title.toLowerCase().includes(trackName.toLowerCase()))]
    with an [artistName] that may be [undefined]: reading [toLowerCase] of
    it throws, at the first track that is not verified *)
Fixpoint findBestMatch (artistName : option string) (trackName : string)
    (l : list ScTrack) : outcome (option ScTrack) :=
  match l with
  | [] => Returns None
  | t :: r =>
      if verified t then Returns (Some t)
      else
        match artistName with
        | None => Throws "Cannot read properties of undefined"
        | Some a =>
            if Js.includes (Js.toLowerCase (username t)) (Js.toLowerCase a)
               || Js.includes (Js.toLowerCase (title t)) (Js.toLowerCase trackName)
            then Returns (Some t)
            else findBestMatch artistName trackName r
        end
  end.

(** [searchSoundCloudAudio(artistName, trackName)]; the client id is the
    environment's or the built-in one, so the search always runs *)
Definition searchSoundCloudAudio (net : Net) (clientId : string)
    (artistName : option string) (trackName : string) : option Source :=
  match soundcloudSearch net (Js.show artistName ++ " " ++ trackName) with
  | Throws _ => None
  | Returns None | Returns (Some []) => None
  | Returns (Some (first :: rest)) =>
      match findBestMatch artistName trackName (first :: rest) with
      | Throws _ => None
      | Returns found =>
          let bestMatch := default first found in
          Some (mkSource "soundcloud" (Some (permalink_url bestMatch))
                  (if Js.truthy (stream_url bestMatch)
                   then Some (default "" (stream_url bestMatch) ++ "?client_id=" ++ clientId)
                   else None)
                  None (Some (8 # 10)))
      end
  end.

(** [searchYouTubeAudio]: the link of the best video, [null] without an API
    key, without a result and on any error; never a stream *)
Definition searchYouTubeAudio (net : Net) (artistName : option string)
    (trackName : string) : option Source :=
  match youtubeSearch net (Js.show artistName ++ " " ++ trackName) with
  | Returns (Some u) => Some (mkSource "youtube" (Some u) None None (Some (7 # 10)))
  | _ => None
  end.

(** [searchBeatportAudio] and [searchBandcampAudio] build a search link and
    return it; they make no request *)
Definition searchBeatportAudio : option Source :=
  Some (mkSource "beatport" None None None (Some (6 # 10))).
Definition searchBandcampAudio : option Source :=
  Some (mkSource "bandcamp" None None None (Some (7 # 10))).

(** [(b.confidence || 0) - (a.confidence || 0)] is negative or zero: [a]
    stays before [b] *)
Definition keepsOrder (a b : Source) : bool :=
  Qle_bool (default 0%Q (confidence b)) (default 0%Q (confidence a)).

(** [sources.sort((a, b) => (b.confidence || 0) - (a.confidence || 0))], a
    stable sort *)
Fixpoint insertSource (x : Source) (l : list Source) : list Source :=
  match l with
  | [] => [x]
  | y :: r => if keepsOrder x y then x :: l else y :: insertSource x r
  end.

Definition sortSources (l : list Source) : list Source :=
  foldr insertSource [] l.

(** [findAlternativeAudioSource(artistName, trackName)]: the four searches
    under [Promise.allSettled], the fulfilled non-null ones sorted *)
Definition findAlternativeAudioSource (net : Net) (clientId : string)
    (artistName : option string) (trackName : string) : AlternativeResult :=
  let sources :=
    sortSources (option_list (searchYouTubeAudio net artistName trackName)
                   ++ option_list (searchSoundCloudAudio net clientId artistName trackName)
                   ++ option_list searchBeatportAudio
                   ++ option_list searchBandcampAudio) in
  mkAlternativeResult sources (head sources) (Z.of_nat (length sources)).

(** [s.replace(/[^\w\s]/gi, '')] *)
Definition isWordChar (c : ascii) : bool :=
  let n := nat_of_ascii c in
  ((48 <=? n) && (n <=? 57) || (65 <=? n) && (n <=? 90)
   || (97 <=? n) && (n <=? 122) || (n =? 95))%nat.

Definition stripPunctuation (s : string) : string :=
  string_of_list_ascii
    (List.filter (λ c, isWordChar c || Js.isSpace c) (list_ascii_of_string s)).

(** [findApplePreviewUrl]: the first result's preview, [null] on a failed
    request, a non-success response or an empty result *)
Definition findApplePreviewUrl (net : Net) (artistName trackName : string)
  : option string :=
  match itunesSearch net (stripPunctuation (artistName ++ " " ++ trackName)) 1 with
  | Throws _ => None
  | Returns r =>
      if ok r then
        match results r with
        | Some (first :: _) => first
        | _ => None
        end
      else None
  end.

(** [findApplePreviewUrlBroader]: the artist alone, the first result that
    has a preview *)
Definition findApplePreviewUrlBroader (net : Net) (artistName trackName : string)
  : option string :=
  match itunesSearch net artistName 10 with
  | Throws _ => None
  | Returns r =>
      if ok r then
        match results r with
        | Some (first :: rest) =>
            mjoin (List.find Js.truthy (first :: rest))
        | _ => None
        end
      else None
  end.

End Sources.

(* ================================================================== *)
(** ** server.js: POST /api/analyze-artist *)
(* ================================================================== *)

Module Summary.

(** [metadata.audioSources]: the profiles by audio source *)
Definition countSource (l : list TrackProfile) (src : string) : Z :=
  Z.of_nat (length (List.filter (λ p, bool_decide (audioSource p = Some src)) l)).

Definition audioSources (l : list TrackProfile) : gmap string Z :=
  list_to_map
    [("spotify", countSource l "spotify");
     ("apple", countSource l "apple" + countSource l "apple_broad");
     ("soundcloud", countSource l "soundcloud");
     ("youtube", countSource l "youtube");
     ("beatport", countSource l "beatport");
     ("bandcamp", countSource l "bandcamp");
     ("alternativeSourcesUsed",
      Z.of_nat (length (List.filter
                          (λ p, match alternativeSourceInfo p with
                                | Some _ => true | None => false end) l)))].

End Summary.

Module Track.

(** a track as the catalog returns it, with the two flags the handler adds *)
Record t : Type := mk {
  id : string;
  name : string;
  artists : list string;
  album : option string;
  popularity : option Z;
  preview_url : option string;
  applePreview : bool;
  isRecentRelease : bool
}.

End Track.

(* ================================================================== *)
(** ** enhanced-audio-sources.js: features inferred from genres *)
(* ================================================================== *)

Module Inference.
#[local] Open Scope Q_scope.

(** an entry of [genreMappings].  The numbers are exact rationals here; the
    source computes with doubles. *)
Record GenreFeatures : Type := mkGenreFeatures {
  gTempo : Q;
  gEnergy : Q;
  gDanceability : Q;
  gValence : Q;
  gLoudness : Q;
  gArousal : Q
}.

(** [genreMappings], in the order of the object literal *)
Definition genreMappings : list (string * GenreFeatures) :=
  [
   ("house", mkGenreFeatures 128 (8 # 10) (9 # 10) (7 # 10) (- 8) (8 # 10));
   ("tech house", mkGenreFeatures 126 (85 # 100) (9 # 10) (6 # 10) (- 7) (85 # 100));
   ("deep house", mkGenreFeatures 122 (7 # 10) (8 # 10) (8 # 10) (- 10) (7 # 10));
   ("progressive house", mkGenreFeatures 128 (8 # 10) (7 # 10) (7 # 10) (- 8) (75 # 100));
   ("techno", mkGenreFeatures 130 (9 # 10) (8 # 10) (5 # 10) (- 6) (9 # 10));
   ("minimal techno", mkGenreFeatures 128 (8 # 10) (7 # 10) (4 # 10) (- 8) (75 # 100));
   ("trance", mkGenreFeatures 132 (8 # 10) (7 # 10) (8 # 10) (- 7) (8 # 10));
   ("progressive trance", mkGenreFeatures 132 (85 # 100) (7 # 10) (8 # 10) (- 7) (85 # 100));
   ("uplifting trance", mkGenreFeatures 132 (9 # 10) (8 # 10) (9 # 10) (- 6) (9 # 10));
   ("psytrance", mkGenreFeatures 145 (95 # 100) (8 # 10) (6 # 10) (- 5) (95 # 100));
   ("dubstep", mkGenreFeatures 140 (9 # 10) (8 # 10) (4 # 10) (- 5) (85 # 100));
   ("brostep", mkGenreFeatures 140 (95 # 100) (9 # 10) (5 # 10) (- 4) (9 # 10));
   ("drum and bass", mkGenreFeatures 174 (9 # 10) (7 # 10) (6 # 10) (- 6) (9 # 10));
   ("liquid dnb", mkGenreFeatures 170 (8 # 10) (8 # 10) (8 # 10) (- 8) (75 # 100));
   ("neurofunk", mkGenreFeatures 174 (95 # 100) (6 # 10) (3 # 10) (- 5) (9 # 10));
   ("electro", mkGenreFeatures 128 (85 # 100) (85 # 100) (6 # 10) (- 7) (8 # 10));
   ("electro house", mkGenreFeatures 128 (9 # 10) (9 # 10) (7 # 10) (- 6) (85 # 100));
   ("big room", mkGenreFeatures 128 (95 # 100) (9 # 10) (8 # 10) (- 4) (9 # 10));
   ("future house", mkGenreFeatures 125 (85 # 100) (9 # 10) (75 # 100) (- 6) (8 # 10));
   ("bass house", mkGenreFeatures 128 (9 # 10) (95 # 100) (7 # 10) (- 5) (85 # 100));
   ("edm", mkGenreFeatures 128 (85 # 100) (9 # 10) (7 # 10) (- 6) (8 # 10));
   ("festival trap", mkGenreFeatures 140 (9 # 10) (85 # 100) (6 # 10) (- 5) (85 # 100));
   ("future bass", mkGenreFeatures 150 (8 # 10) (8 # 10) (7 # 10) (- 6) (75 # 100));
   ("melodic dubstep", mkGenreFeatures 140 (8 # 10) (7 # 10) (6 # 10) (- 7) (75 # 100));
   ("hardstyle", mkGenreFeatures 150 (95 # 100) (8 # 10) (6 # 10) (- 4) (9 # 10));
   ("hardcore", mkGenreFeatures 180 (98 # 100) (7 # 10) (4 # 10) (- 3) (95 # 100));
   ("electronic", mkGenreFeatures 120 (7 # 10) (7 # 10) (6 # 10) (- 8) (7 # 10));
   ("ambient", mkGenreFeatures 90 (3 # 10) (2 # 10) (5 # 10) (- 15) (3 # 10));
   ("downtempo", mkGenreFeatures 100 (4 # 10) (4 # 10) (6 # 10) (- 12) (4 # 10));
   ("chillout", mkGenreFeatures 95 (3 # 10) (3 # 10) (7 # 10) (- 12) (3 # 10));
   ("synthwave", mkGenreFeatures 120 (7 # 10) (6 # 10) (6 # 10) (- 8) (65 # 100));
   ("rock", mkGenreFeatures 120 (7 # 10) (4 # 10) (5 # 10) (- 8) (7 # 10));
   ("pop", mkGenreFeatures 110 (6 # 10) (6 # 10) (7 # 10) (- 10) (6 # 10));
   ("hip hop", mkGenreFeatures 90 (6 # 10) (8 # 10) (5 # 10) (- 8) (65 # 100));
   ("rap", mkGenreFeatures 95 (7 # 10) (8 # 10) (5 # 10) (- 7) (7 # 10));
   ("country", mkGenreFeatures 100 (5 # 10) (4 # 10) (7 # 10) (- 12) (5 # 10));
   ("jazz", mkGenreFeatures 100 (4 # 10) (3 # 10) (6 # 10) (- 15) (4 # 10));
   ("classical", mkGenreFeatures 90 (3 # 10) (1 # 10) (5 # 10) (- 20) (3 # 10));
   ("metal", mkGenreFeatures 140 (9 # 10) (3 # 10) (3 # 10) (- 5) (9 # 10));
   ("metalcore", mkGenreFeatures 150 (95 # 100) (4 # 10) (3 # 10) (- 4) (9 # 10));
   ("punk", mkGenreFeatures 160 (9 # 10) (5 # 10) (4 # 10) (- 6) (85 # 100));
   ("reggae", mkGenreFeatures 80 (5 # 10) (7 # 10) (8 # 10) (- 10) (5 # 10));
   ("funk", mkGenreFeatures 110 (7 # 10) (9 # 10) (8 # 10) (- 8) (75 # 100));
   ("disco", mkGenreFeatures 120 (8 # 10) (95 # 100) (9 # 10) (- 7) (8 # 10))
  ].

(** [genreMappings[k]] *)
Definition lookupGenre (k : string) : option GenreFeatures :=
  snd <$> List.find (λ e, String.eqb (fst e) k) genreMappings.

(** the state of the matching loops: [bestMatch], [bestScore],
    [matchedGenre] *)
Record Match : Type := mkMatch {
  bestMatch : option GenreFeatures;
  bestScore : nat;
  matchedGenre : string
}.

(** the inner loop, for one genre of the request: a longer key that the
    genre contains replaces the match *)
Definition matchGenre (genreLower : string) (m : Match) : Match :=
  fold_left (λ acc e,
               if Js.includes genreLower (fst e) then
                 if (bestScore acc <? String.length (fst e))%nat
                 then mkMatch (Some (snd e)) (String.length (fst e)) (fst e)
                 else acc
               else acc)
    genreMappings m.

(** the loop over [genres] *)
Definition matchGenres (genres : list string) : Match :=
  fold_left (λ acc genre, matchGenre (Js.toLowerCase genre) acc) genres
    (mkMatch None 0 "").

Definition artistHints : list (string * list string) :=
  [("techno", ["richie"; "hawtin"; "liebing"; "beyer"; "cox"; "digweed"]);
   ("house", ["solardo"; "fisher"; "green velvet"; "claude"; "patrick topping"]);
   ("trance", ["van buuren"; "corsten"; "oakenfold"; "tiesto"; "above & beyond"]);
   ("dubstep", ["skrillex"; "zomboy"; "excision"; "nero"]);
   ("dnb", ["pendulum"; "netsky"; "matrix"; "futurebound"])].

(** the loop over [artistHints]: the first hint genre that names the artist
    and has an entry in [genreMappings] replaces the match and ends the
    loop; [bestScore] stays *)
Fixpoint applyHints (hints : list (string * list string)) (artistLower : string)
    (m : Match) : Match :=
  match hints with
  | [] => m
  | (hintGenre, artists) :: rest =>
      if existsb (Js.includes artistLower) artists then
        match lookupGenre hintGenre with
        | Some g => mkMatch (Some g) (bestScore m) (hintGenre ++ " (artist_hint)")
        | None => applyHints rest artistLower m
        end
      else applyHints rest artistLower m
  end.

Definition trackHints : list (string * Q) :=
  [("remix", 1 # 10); ("extended", - (5 # 100)); ("radio", - (1 # 10));
   ("club", 15 # 100); ("vocal", 5 # 100); ("instrumental", - (5 # 100))].

(** [trackModifier] *)
Definition trackModifier (trackLower : string) : Q :=
  fold_left (λ acc h, if Js.includes trackLower (fst h) then acc + snd h else acc)
    trackHints 0.

Definition isDJ (artistLower : string) : bool :=
  Js.includes artistLower "dj " || Js.startsWith artistLower "dj"
  || Js.includes artistLower " dj".

Definition hasElectronicTerms (genres : list string) (artistLower : string) : bool :=
  existsb (λ g, Js.includes (Js.toLowerCase g) "electronic"
                || Js.includes (Js.toLowerCase g) "dance"
                || Js.includes (Js.toLowerCase g) "edm") genres
  || isDJ artistLower.

(** the match after the default of lines 268-281 *)
Definition withDefault (genres : list string) (artistLower : string) (m : Match)
  : option GenreFeatures * string :=
  match bestMatch m with
  | Some g => (Some g, matchedGenre m)
  | None =>
      if hasElectronicTerms genres artistLower
      then (lookupGenre "electronic", "electronic (fallback)")
      else (lookupGenre "pop", "pop (default)")
  end.

(** [Math.min] and [Math.max] on numbers *)
Definition qmin (a b : Q) : Q := if Qle_bool a b then a else b.
Definition qmax (a b : Q) : Q := if Qle_bool a b then b else a.

(** [addVariance(value, extraModifier)] with the draw [r] of
    [Math.random()] *)
Definition addVariance (r value extraModifier : Q) : Q :=
  qmax 0 (qmin 1 (value + (r - (1 # 2)) * (8 # 100) + extraModifier)).

(** [addTempoVariance(tempo)] *)
Definition addTempoVariance (r tempo : Q) : Q :=
  qmax 60 (qmin 200 (tempo + (r - (1 # 2)) * 8)).

(** the numbers and tags of [inferredFeatures] *)
Record Inferred : Type := mkInferred {
  tempo : Q;
  beats_per_minute : Q;
  rhythm_strength : Q;
  energy : Q;
  danceability : Q;
  valence : Q;
  arousal : Q;
  loudness : Q;
  dynamic_range : Q;
  spectral_centroid : Q;
  spectral_rolloff : Q;
  spectral_bandwidth : Q;
  mfcc_mean : Q;
  chroma_mean : Q;
  zero_crossing_rate : Q;
  harmonic_ratio : Q;
  pitch_salience : Q;
  inharmonicity : Q;
  confidence : Q;
  matched_genre : string;
  artist_is_dj : bool;
  track_modifiers : list string
}.

(** [inferAudioFeaturesFromGenres(genres, artistName, trackName)].
    [random i] is the value of the [i]-th call of [Math.random()]; the
    properties of the object literal are evaluated in their order.
    [trackName = None] is the default [null].  [None] stands for the
    [TypeError] of reading a field of an absent [bestMatch], which the table
    rules out. *)
Definition inferAudioFeaturesFromGenres (random : nat → Q) (genres : list string)
    (artistName : string) (trackName : option string) : option Inferred :=
  let artistLower := Js.toLowerCase artistName in
  let trackLower := Js.toLowerCase (default "" trackName) in
  let m := applyHints artistHints artistLower (matchGenres genres) in
  let modifier := trackModifier trackLower in
  match withDefault genres artistLower m with
  | (Some g, matched) =>
      Some
        (mkInferred
           (addTempoVariance (random 0%nat) (gTempo g))
           (addTempoVariance (random 1%nat) (gTempo g))
           (addVariance (random 2%nat) (7 # 10) (modifier * (5 # 10)))
           (addVariance (random 3%nat) (gEnergy g) modifier)
           (addVariance (random 4%nat) (gDanceability g) (modifier * (8 # 10)))
           (addVariance (random 5%nat) (gValence g) (modifier * (6 # 10)))
           (addVariance (random 6%nat)
              (if Qeq_bool (gArousal g) 0 then gEnergy g else gArousal g) modifier)
           (gLoudness g + (random 7%nat - (1 # 2)) * 4)
           (12 + (random 8%nat - (1 # 2)) * 8)
           (gEnergy g * 2500 + 1500 + (random 9%nat - (1 # 2)) * 800)
           (gEnergy g * 4000 + 3000 + (random 10%nat - (1 # 2)) * 1200)
           (gEnergy g * 1500 + 800 + (random 11%nat - (1 # 2)) * 400)
           ((random 12%nat - (1 # 2)) * 25)
           (addVariance (random 13%nat) (5 # 10) 0)
           (addVariance (random 14%nat) (1 # 10) 0)
           (addVariance (random 15%nat) (6 # 10) 0)
           (addVariance (random 16%nat) (4 # 10) 0)
           (addVariance (random 17%nat) (3 # 10) 0)
           (qmax (5 # 10) (qmin (8 # 10)
                             ((6 # 10) + inject_Z (Z.of_nat (bestScore m)) * (2 # 100))))
           matched
           (isDJ artistLower)
           (map fst (List.filter (λ h, Js.includes trackLower (fst h)) trackHints)))
  | (None, _) => None
  end.

End Inference.

Module Server.

(** [req.body] *)
Record Request : Type := mkRequest {
  artistName : string;
  spotifyId : option string;
  maxTracks : option Z;
  includeRecentReleases : bool;
  existingGenres : list string;
  fastMode : bool;
  previewStrategy : option string;
  forceSoundCloudTest : bool
}.

(** what the handler reads from the process: the environment, the token it
    ends up with, whether [db] is set, the clock ([elapsedMs] is
    [Date.now() - startTime] at the round-2 gate), and [random i], the
    [i]-th value [Math.random()] gives to [inferAudioFeaturesFromGenres] *)
Record Env : Type := mkEnv {
  SOUNDCLOUD_CLIENT_ID : option string;
  spotifyToken : option string;
  dbConnected : bool;
  storeFails : bool;
  currentYear : Z;
  now : Z;
  elapsedMs : Z;
  random : nat → Q
}.

(** a provider query made by the resolver, or the feature extraction *)
Inductive Call : Type :=
| SoundCloudQuery (artistName : option string) (trackName : string)
| AppleExact (artistName trackName : string)
| AppleBroad (artistName trackName : string)
| SpotifyRecovery (trackId : string)
| Aggregator (artistName : option string) (trackName : string)
| Essentia (url : string).

(** The mutable state of one request: [acquisitionStats] (its numeric
    counters by name, [previewSourceCounts], the SoundCloud query sample,
    the flag), [failureReasons], [trackProfiles], the three variables
    [acquirePreviewForTrack] assigns, and the calls made so far, oldest
    first (the last is not a variable of the source: it records what was
    asked of the providers). *)
Record St : Type := mkSt {
  counters : gmap string Z;
  previewSourceCounts : gmap string Z;
  queries : list string;
  spotifyRecoveryDisabled : bool;
  failureReasons : list string;
  trackProfiles : list TrackProfile;
  previewUrl : option string;
  audioSource : option string;
  alternativeSourceInfo : option AlternativeSourceInfo;
  calls : list Call
}.

Definition initialSt : St := mkSt ∅ ∅ [] false [] [] None None None [].

Definition counter (k : string) (s : St) : Z := default 0 (counters s !! k).

(** [acquisitionStats.k++] *)
Definition bump (k : string) (s : St) : St :=
  mkSt (<[k := counter k s + 1]> (counters s)) (previewSourceCounts s) (queries s)
    (spotifyRecoveryDisabled s) (failureReasons s) (trackProfiles s) (previewUrl s)
    (audioSource s) (alternativeSourceInfo s) (calls s).

(** [previewSourceCounts[k] = (previewSourceCounts[k] || 0) + 1] *)
Definition bumpSource (k : string) (s : St) : St :=
  mkSt (counters s) (<[k := default 0 (previewSourceCounts s !! k) + 1]> (previewSourceCounts s))
    (queries s) (spotifyRecoveryDisabled s) (failureReasons s) (trackProfiles s)
    (previewUrl s) (audioSource s) (alternativeSourceInfo s) (calls s).

(** the sample of SoundCloud queries: at most twelve, no repeats *)
Definition noteQuery (q : string) (s : St) : St :=
  if (length (queries s) <? 12)%nat && negb (bool_decide (q ∈ queries s)) then
    mkSt (counters s) (previewSourceCounts s) (queries s ++ [q])
      (spotifyRecoveryDisabled s) (failureReasons s) (trackProfiles s) (previewUrl s)
      (audioSource s) (alternativeSourceInfo s) (calls s)
  else s.

Definition setRecoveryDisabled (s : St) : St :=
  mkSt (counters s) (previewSourceCounts s) (queries s) true (failureReasons s)
    (trackProfiles s) (previewUrl s) (audioSource s) (alternativeSourceInfo s) (calls s).

Definition pushFailure (r : string) (s : St) : St :=
  mkSt (counters s) (previewSourceCounts s) (queries s) (spotifyRecoveryDisabled s)
    (failureReasons s ++ [r]) (trackProfiles s) (previewUrl s) (audioSource s)
    (alternativeSourceInfo s) (calls s).

Definition pushProfile (p : TrackProfile) (s : St) : St :=
  mkSt (counters s) (previewSourceCounts s) (queries s) (spotifyRecoveryDisabled s)
    (failureReasons s) (trackProfiles s ++ [p]) (previewUrl s) (audioSource s)
    (alternativeSourceInfo s) (calls s).

(** assign [previewUrl] and [audioSource] *)
Definition setPreview (u src : option string) (s : St) : St :=
  mkSt (counters s) (previewSourceCounts s) (queries s) (spotifyRecoveryDisabled s)
    (failureReasons s) (trackProfiles s) u src (alternativeSourceInfo s) (calls s).

(** assign [previewUrl] alone *)
Definition setPreviewUrl (u : option string) (s : St) : St :=
  setPreview u (audioSource s) s.

(** assign [audioSource] alone *)
Definition setAudioSource (src : option string) (s : St) : St :=
  setPreview (previewUrl s) src s.

Definition setAlternative (a : option AlternativeSourceInfo) (s : St) : St :=
  mkSt (counters s) (previewSourceCounts s) (queries s) (spotifyRecoveryDisabled s)
    (failureReasons s) (trackProfiles s) (previewUrl s) (audioSource s) a (calls s).

Definition noteCall (c : Call) (s : St) : St :=
  mkSt (counters s) (previewSourceCounts s) (queries s) (spotifyRecoveryDisabled s)
    (failureReasons s) (trackProfiles s) (previewUrl s) (audioSource s)
    (alternativeSourceInfo s) (calls s ++ [c]).

(** [a || b] on strings that may be absent *)
Definition orElse (a b : option string) : option string :=
  if Js.truthy a then a else b.

(** [c || d] on a confidence: absent and zero are falsy *)
Definition orConfidence (c : option Q) (d : Q) : Q :=
  match c with
  | Some q => if Qeq_bool q 0 then d else q
  | None => d
  end.

(** [/mzstatic|audio-ssl\.itunes\.apple\.com/i.test(url)] *)
Definition looksApple (url : string) : bool :=
  Js.includes (Js.toLowerCase url) "mzstatic"
  || Js.includes (Js.toLowerCase url) "audio-ssl.itunes.apple.com".

(** [/remix|mixed|edit|reform|version/i.test(s)] *)
Definition looksLikeMixSuffix (s : string) : bool :=
  existsb (Js.includes (Js.toLowerCase s)) ["remix"; "mixed"; "edit"; "reform"; "version"].

(** [simplifyName(name)]: the simplified name, and whether a dash suffix was
    stripped ([previewRecovery.suffixStrips++]) *)
Definition simplifyName (name : string) : string * bool :=
  if String.eqb name "" then (name, false)
  else
    let base := Js.trim (Js.stripParens name) in
    let '(base', stripped) :=
      match Js.indexOf base " - " with
      | Some dashIdx =>
          if looksLikeMixSuffix (Js.substringFrom (dashIdx + 3) base)
          then (Js.trim (Js.substringTo dashIdx base), true)
          else (base, false)
      | None => (base, false)
      end in
    (Js.trim (Js.collapseRuns base'), stripped).

(** [calculateAverageFeatures]: the mean of each of the five features over
    the profiles that have it; a feature no profile has stays absent *)
Definition mean (l : list (option Q)) : option Q :=
  match omap id l with
  | [] => None
  | v :: r => Some (Qred (fold_left Qplus (v :: r) 0%Q / inject_Z (Z.of_nat (length (v :: r)))))
  end.

Definition calculateAverageFeatures (l : list TrackProfile) : Features :=
  mkFeatures
    (mean (map (λ p, energy (essentiaFeatures p)) l))
    (mean (map (λ p, danceability (essentiaFeatures p)) l))
    (mean (map (λ p, valence (essentiaFeatures p)) l))
    (mean (map (λ p, tempo (essentiaFeatures p)) l))
    (mean (map (λ p, spectral_centroid (essentiaFeatures p)) l)).

(** [x > c] and [x < c] on a number that may be [undefined]: false then *)
Definition gt (x : option Q) (c : Q) : bool :=
  match x with Some q => negb (Qle_bool q c) | None => false end.
Definition lt (x : option Q) (c : Q) : bool :=
  match x with Some q => negb (Qle_bool c q) | None => false end.

(** [!x] on such a number: [undefined] and zero are falsy *)
Definition falsyNum (x : option Q) : bool :=
  match x with Some q => Qeq_bool q 0 | None => true end.

(** [[...new Set(l)]]: the first occurrence of each element, in order *)
Fixpoint unique (seen l : list string) : list string :=
  match l with
  | [] => []
  | x :: r =>
      if bool_decide (x ∈ seen) then unique seen r else x :: unique (x :: seen) r
  end.

(** [inferGenresFromTracks] *)
Definition inferGenresFromTracks (l : list TrackProfile) : list string :=
  match l with
  | [] => []
  | _ :: _ =>
      let avg := calculateAverageFeatures l in
      if falsyNum (energy avg) && falsyNum (tempo avg) && falsyNum (danceability avg)
      then []
      else
        let genres : list string :=
          ((if gt (energy avg) (75 # 100) && gt (tempo avg) 125 && gt (danceability avg) (65 # 100)
           then ["edm"; "electronic"; "dance"]
           else if gt (energy avg) (7 # 10) && gt (tempo avg) 120
                then ["electronic"; "dance"] else [])
          ++ (if gt (tempo avg) 115 && lt (tempo avg) 135 && gt (danceability avg) (7 # 10)
              then ["house"; "techno"] else [])
          ++ (if gt (tempo avg) 130 && gt (energy avg) (8 # 10) && gt (valence avg) (6 # 10)
              then ["trance"] else [])
          ++ (if gt (energy avg) (8 # 10) && gt (tempo avg) 140
              then ["dubstep"; "bass"] else [])
          ++ (if gt (energy avg) (6 # 10) && gt (danceability avg) (7 # 10)
                 && gt (valence avg) (5 # 10)
              then ["pop"; "dance-pop"] else [])
          ++ (if lt (valence avg) (4 # 10) && lt (energy avg) (6 # 10)
              then ["indie"; "alternative"] else [])
          ++ (if lt (tempo avg) 100 && lt (energy avg) (4 # 10)
              then ["ambient"; "downtempo"] else [])
          ++ (if gt (tempo avg) 80 && lt (tempo avg) 110 && gt (energy avg) (6 # 10)
              then ["hip-hop"; "rap"] else []))%list in
        take 3 (unique [] genres)
  end.

Definition edmArtists : list string :=
  ["deadmau5"; "skrillex"; "calvin harris"; "tiesto"; "david guetta";
   "armin van buuren"; "martin garrix"; "diplo"; "zedd"; "marshmello"; "fisher";
   "ferry corsten"; "dvbbs"; "rezz"; "porter robinson"; "richie hawtin"; "tiga";
   "above & beyond"; "eric prydz"; "deadmau5"; "swedish house mafia"; "axwell";
   "steve angello"; "sebastian ingrosso"].
Definition rockArtists : list string :=
  ["metallica"; "iron maiden"; "black sabbath"; "suffocation"; "killswitch engage";
   "parkway drive"; "beartooth"; "anvil"].
Definition hipHopArtists : list string :=
  ["wu-tang clan"; "run the jewels"; "big sean"; "russ"].
Definition popArtists : list string :=
  ["coldplay"; "shania twain"; "luke bryan"; "thomas rhett"].
Definition indieArtists : list string :=
  ["pup"; "jeff rosenstock"; "kurt vile"; "tripping daisy"; "mest"].

(** [inferGenreFromArtistName] *)
Definition inferGenreFromArtistName (artistName : string) : list string :=
  let name := Js.toLowerCase artistName in
  if existsb (Js.includes name) edmArtists then ["edm"; "electronic"; "dance"]
  else if existsb (Js.includes name) rockArtists then ["rock"; "metal"]
  else if existsb (Js.includes name) hipHopArtists then ["hip-hop"; "rap"]
  else if existsb (Js.includes name) popArtists then ["pop"]
  else if existsb (Js.includes name) indieArtists then ["indie"; "alternative"]
  else [].

(** [buildGenreMapping(trackProfiles, artistName, existingGenres)] *)
Definition buildGenreMapping (l : list TrackProfile) (artistName : string)
    (existingGenres : list string) : GenreMapping :=
  match existingGenres with
  | _ :: _ => mkGenreMapping (take 5 existingGenres) "spotify" 100
  | [] =>
      match inferGenresFromTracks l with
      | g :: gs => mkGenreMapping (g :: gs) "audio_analysis" 80
      | [] =>
          match inferGenreFromArtistName artistName with
          | g :: gs => mkGenreMapping (g :: gs) "name_inference" 60
          | [] => mkGenreMapping [] "none" 0
          end
      end
  end.

(** [calculateRecentSoundEvolution]: the [evolution] tag (the feature
    deltas of a detected evolution are not kept here) *)
Definition calculateRecentSoundEvolution (l : list TrackProfile) : string :=
  match List.filter isRecentRelease l, List.filter (λ p, negb (isRecentRelease p)) l with
  | _ :: _, _ :: _ => "detected"
  | _, _ => "insufficient_data"
  end.

Section Handler.

Variable net : Sources.Net.
Variable env : Env.
Variable req : Request.

(** [(incomingPreviewStrategy || 'apple_primary').toLowerCase()] *)
Definition strategy : string :=
  Js.toLowerCase
    (if Js.truthy (previewStrategy req) then default "" (previewStrategy req)
     else "apple_primary").

Definition useApplePrimary : bool := String.eqb strategy "apple_primary".
Definition soundcloudPrimary : bool := String.eqb strategy "soundcloud_primary".

(** [acquisitionStats.forceSoundCloudTest], the request's flag *)
Definition statsForceSoundCloudTest : bool := forceSoundCloudTest req.

(** the [const forceSoundCloudTest] declared inside [acquirePreviewForTrack]
    (line 434): it hides the handler's variable of the same name for the
    rest of the function *)
Definition innerForceSoundCloudTest : bool :=
  soundcloudPrimary || statsForceSoundCloudTest.

Definition soundcloudConfigured : bool := Js.truthy (SOUNDCLOUD_CLIENT_ID env).

(** [process.env.SOUNDCLOUD_CLIENT_ID || 'lcKC..'] inside the adapter *)
Definition clientId : string :=
  if soundcloudConfigured then default "" (SOUNDCLOUD_CLIENT_ID env)
  else "lcKCKyUaMW1dgS42vr9wdJkSmrGRZcGh".

(** [track.artists[0]?.name] *)
Definition primaryArtist (t : Track.t) : option string := head (Track.artists t).

(** [track.artists[0].name]: a [TypeError] when the track has no artist *)
Definition firstArtistName (t : Track.t) : M St string :=
  match Track.artists t with
  | a :: _ => ret a
  | [] => throw "Cannot read properties of undefined (reading 'name')"
  end.

(** [(track.preview_url && (track.applePreview || /../.test(track.preview_url)))
     ? track.preview_url : null] *)
Definition originalApplePreview (t : Track.t) : option string :=
  if Js.truthy (Track.preview_url t)
     && (Track.applePreview t || looksApple (default "" (Track.preview_url t)))
  then Track.preview_url t else None.

(** the source the known preview is counted as: ['apple'] or ['spotify'] *)
Definition knownSource (t : Track.t) : option string :=
  if Js.truthy (Track.preview_url t) then
    Some (if Js.truthy (originalApplePreview t) then "apple" else "spotify")
  else None.

(** [originalSpotifyPreview]: remembered only under [soundcloud_primary], for
    a preview counted as Spotify's *)
Definition originalSpotifyPreview (t : Track.t) : option string :=
  if Js.truthy (Track.preview_url t) && soundcloudPrimary
     && bool_decide (knownSource t = Some "spotify")
  then Track.preview_url t else None.

(** lines 393-407: the known preview, and its suppression *)
Definition startResolution (t : Track.t) : M St unit :=
  modify (setPreview (Track.preview_url t) (knownSource t)) ;;;
  modify (setAlternative None) ;;;
  s <- get ;;
  when_ (Js.truthy (previewUrl s) && soundcloudPrimary
         && bool_decide (audioSource s = Some "spotify"))
    (modify (setPreview None None) ;;;
     modify (bump "spotifyPreviewSuppressed")) ;;;
  s <- get ;;
  when_ (Js.truthy (previewUrl s) && statsForceSoundCloudTest)
    (modify (setPreview None None)).

(** one SoundCloud search as the resolver makes it: count the attempt, note
    the query text, search *)
Definition soundcloudAttempt (queryText : string) (artistName : option string)
    (trackName : string) : M St (option Sources.Source) :=
  modify (bump "soundcloudDiagnostics.attempts") ;;;
  modify (noteQuery (Js.trim (Js.collapseSpaces queryText))) ;;;
  modify (noteCall (SoundCloudQuery artistName trackName)) ;;;
  ret (Sources.searchSoundCloudAudio net clientId artistName trackName).

(** [sc && (sc.streamUrl || sc.previewUrl)] *)
Definition soundcloudUrl (sc : option Sources.Source) : option string :=
  match sc with
  | Some h => orElse (Sources.streamUrl h) (Sources.previewUrl h)
  | None => None
  end.

(** take a SoundCloud hit: assign the three variables and count the rescue *)
Definition takeSoundCloud (sc : option Sources.Source) (fallback : Q)
    (isForced isSimplified isArtistOnly : bool) : M St unit :=
  modify (setPreview (soundcloudUrl sc) (Some "soundcloud")) ;;;
  modify (setAlternative
            (Some (mkAlternativeSourceInfo "soundcloud"
                     (Some (orConfidence (mjoin (Sources.confidence <$> sc)) fallback))
                     isForced isSimplified isArtistOnly None))) ;;;
  modify (bump "soundcloudRescue") ;;;
  modify (bump "soundcloudDiagnostics.hits").

(** lines 436-457: the early, exact SoundCloud query of a forced run *)
Definition earlySoundCloud (t : Track.t) : M St unit :=
  s <- get ;;
  when_ (negb (Js.truthy (previewUrl s)) && innerForceSoundCloudTest
         && soundcloudConfigured)
    (try_
       (scEarly <- soundcloudAttempt
                     (Js.show (primaryArtist t) ++ " :: " ++ Track.name t)
                     (primaryArtist t) (Track.name t) ;;
        when_ (Js.truthy (soundcloudUrl scEarly))
          (takeSoundCloud scEarly (85 # 100) true false false))).

(** lines 459-499: the simplified-name query, then the artist-only one *)
Definition relaxedSoundCloud (t : Track.t) : M St unit :=
  s <- get ;;
  when_ (negb (Js.truthy (previewUrl s))
         && (innerForceSoundCloudTest || soundcloudPrimary)
         && soundcloudConfigured)
    (try_
       (let '(simple, stripped) := simplifyName (Track.name t) in
        when_ stripped (modify (bump "previewRecovery.suffixStrips")) ;;;
        when_ (negb (String.eqb simple "") && negb (String.eqb simple (Track.name t)))
          (scSimple <- soundcloudAttempt
                         (Js.show (primaryArtist t) ++ " :: " ++ simple)
                         (primaryArtist t) simple ;;
           s1 <- get ;;
           when_ (negb (Js.truthy (previewUrl s1)) && Js.truthy (soundcloudUrl scSimple))
             (takeSoundCloud scSimple (8 # 10) false true false)) ;;;
        s2 <- get ;;
        when_ (negb (Js.truthy (previewUrl s2)))
          (scArtistOnly <- soundcloudAttempt (Js.show (primaryArtist t))
                             (primaryArtist t) "" ;;
           when_ (Js.truthy (soundcloudUrl scArtistOnly))
             (takeSoundCloud scArtistOnly (7 # 10) false false true)))).

(** [previewUrl = await findApplePreviewUrl(artist, track.name);
     if (previewUrl) audioSource = 'apple'] *)
Definition appleExact (artistName : string) (t : Track.t) : M St unit :=
  modify (noteCall (AppleExact artistName (Track.name t))) ;;;
  let found := Sources.findApplePreviewUrl net artistName (Track.name t) in
  modify (setPreviewUrl found) ;;;
  when_ (Js.truthy found) (modify (setAudioSource (Some "apple"))).

(** lines 501-522: Apple before anything else, unless the run is forced *)
Definition applePrimary (t : Track.t) : M St unit :=
  when_ (useApplePrimary && negb innerForceSoundCloudTest)
    (s <- get ;;
     let hadSpotify := Js.truthy (previewUrl s) in
     when_ (match Track.artists t with _ :: _ => true | [] => false end
            && negb (String.eqb (Track.name t) ""))
       (s1 <- get ;;
        when_ (negb (Js.truthy (previewUrl s1)))
          (try_ (a <- firstArtistName t ;; appleExact a t)) ;;;
        s2 <- get ;;
        when_ (negb (Js.truthy (previewUrl s2)))
          (try_
             (a <- firstArtistName t ;;
              modify (noteCall (AppleBroad a (Track.name t))) ;;;
              let broad := Sources.findApplePreviewUrlBroader net a (Track.name t) in
              when_ (Js.truthy broad) (modify (setPreview broad (Some "apple_broad")))))) ;;;
     s3 <- get ;;
     when_ (Js.truthy (previewUrl s3) && Js.truthy (audioSource s3) && hadSpotify
            && Js.startsWith (default "" (audioSource s3)) "apple")
       (modify (bump "appleOverrideSpotify"))).

(** Lines 524-614, the Spotify preview recovery of the other strategies: a
    loop of searches over markets, artist candidates and query patterns
    under the per-track attempt budget, inside one [try].  Its effect on the
    resolution is the recovered preview, if any; the searches are the
    network's [spotifyPreviewRecovery], and a throw inside the loop ends it
    with nothing recovered. *)
Definition spotifyRecovery (t : Track.t) : M St unit :=
  s <- get ;;
  when_ (negb (Js.truthy (previewUrl s)) && Js.truthy (spotifyToken env)
         && negb useApplePrimary && negb innerForceSoundCloudTest
         && negb soundcloudPrimary)
    (try_
       (modify (noteCall (SpotifyRecovery (Track.id t))) ;;;
        recovered <- call (Sources.spotifyPreviewRecovery net (Track.id t) (Track.name t)) ;;
        when_ (Js.truthy recovered)
          (modify (setPreview recovered (Some "spotify")) ;;;
           modify (bump "spotifyPreviewRecovered")))).

(** lines 615-617 *)
Definition noteRecoveryDisabled : M St unit :=
  s <- get ;;
  when_ ((useApplePrimary || innerForceSoundCloudTest || soundcloudPrimary)
         && negb (Js.truthy (previewUrl s)))
    (modify setRecoveryDisabled).

Definition balancedOnly : bool :=
  negb useApplePrimary && negb innerForceSoundCloudTest && negb soundcloudPrimary.

(** step (2), lines 618-624 *)
Definition balancedAppleExact (t : Track.t) : M St unit :=
  s <- get ;;
  when_ (negb (Js.truthy (previewUrl s)) && balancedOnly)
    (try_ (a <- firstArtistName t ;; appleExact a t)).

(** step (3), lines 625-631 *)
Definition balancedAppleBroad (t : Track.t) : M St unit :=
  s <- get ;;
  when_ (negb (Js.truthy (previewUrl s)) && balancedOnly)
    (try_
       (a <- firstArtistName t ;;
        modify (noteCall (AppleBroad a (Track.name t))) ;;;
        let found := Sources.findApplePreviewUrlBroader net a (Track.name t) in
        modify (setPreviewUrl found) ;;;
        when_ (Js.truthy found) (modify (setAudioSource (Some "apple_broad"))))).

(** step (4), lines 632-651 *)
Definition explicitSoundCloud (t : Track.t) : M St unit :=
  s <- get ;;
  when_ (negb (Js.truthy (previewUrl s)) && soundcloudConfigured)
    (try_
       (sc <- soundcloudAttempt
                (Js.show (primaryArtist t) ++ " :: " ++ Track.name t)
                (primaryArtist t) (Track.name t) ;;
        when_ (Js.truthy (soundcloudUrl sc))
          (takeSoundCloud sc (8 # 10) false false false))).

(** step (5), lines 652-666 *)
Definition aggregator (t : Track.t) : M St unit :=
  s <- get ;;
  when_ (negb (Js.truthy (previewUrl s)))
    (try_
       (modify (noteCall (Aggregator (primaryArtist t) (Track.name t))) ;;;
        let alternativeResult :=
          Sources.findAlternativeAudioSource net clientId (primaryArtist t) (Track.name t) in
        match Sources.bestSource alternativeResult with
        | Some best =>
            when_ (Js.truthy (Sources.streamUrl best))
              (modify (setPreview (Sources.streamUrl best) (Some (Sources.source best))) ;;;
               modify (setAlternative
                         (Some (mkAlternativeSourceInfo (Sources.source best)
                                  (Sources.confidence best) false false false
                                  (Some (Sources.totalSources alternativeResult))))))
        | None => ret tt
        end)).

(** step (6), lines 667-671 *)
Definition fallbackOriginal (t : Track.t) : M St unit :=
  s <- get ;;
  when_ (useApplePrimary && negb innerForceSoundCloudTest && negb soundcloudPrimary
         && negb (Js.truthy (previewUrl s)) && Js.truthy (Track.preview_url t))
    (modify (setPreview (Track.preview_url t) (Some "spotify"))).

(** lines 672-676 *)
Definition restoreApple (t : Track.t) : M St unit :=
  s <- get ;;
  when_ (negb (Js.truthy (previewUrl s))
         && (soundcloudPrimary || innerForceSoundCloudTest)
         && Js.truthy (originalApplePreview t))
    (modify (setPreview (originalApplePreview t) (Some "apple"))).

(** lines 677-682 *)
Definition restoreSpotify (t : Track.t) : M St unit :=
  s <- get ;;
  when_ (negb (Js.truthy (previewUrl s)) && soundcloudPrimary
         && negb innerForceSoundCloudTest && Js.truthy (originalSpotifyPreview t))
    (modify (setPreview (originalSpotifyPreview t) (Some "spotify")) ;;;
     modify (bump "spotifySuppressedRestored")).

(** what [acquirePreviewForTrack] returns *)
Record Resolution : Type := mkResolution {
  resPreviewUrl : option string;
  resAudioSource : option string;
  resAlternativeSourceInfo : option AlternativeSourceInfo
}.

(** [acquirePreviewForTrack(track)] *)
Definition acquirePreviewForTrack (t : Track.t) : M St Resolution :=
  startResolution t ;;;
  earlySoundCloud t ;;;
  relaxedSoundCloud t ;;;
  applePrimary t ;;;
  spotifyRecovery t ;;;
  noteRecoveryDisabled ;;;
  balancedAppleExact t ;;;
  balancedAppleBroad t ;;;
  explicitSoundCloud t ;;;
  aggregator t ;;;
  fallbackOriginal t ;;;
  restoreApple t ;;;
  restoreSpotify t ;;;
  s <- get ;;
  ret (mkResolution (previewUrl s) (audioSource s) (alternativeSourceInfo s)).

(** [await analyzeAudioWithEssentia(previewUrl, ..)] *)
Definition analyzeAudioWithEssentia (url : string) : M St Features :=
  modify (noteCall (Essentia url)) ;;;
  call (Sources.essentia net url).

(** the body of the [for] loop of round [round] (lines 688-742 and
    764-818), under its [try] *)
Definition analyzeTrack (round : Z) (t : Track.t) : M St unit :=
  let r := if round =? 1 then "round1" else "round2" in
  try_
    (res <- acquirePreviewForTrack t ;;
     when_ (Js.truthy (resPreviewUrl res) && Js.truthy (resAudioSource res))
       (modify (bumpSource (default "" (resAudioSource res)))) ;;;
     if Js.truthy (resPreviewUrl res) then
       features <- analyzeAudioWithEssentia (default "" (resPreviewUrl res)) ;;
       modify (pushProfile
                 (mkTrackProfile (Track.id t) (Track.name t) (primaryArtist t)
                    (Track.popularity t) (Track.isRecentRelease t) (Track.album t)
                    (resPreviewUrl res) (resAudioSource res)
                    (resAlternativeSourceInfo res) features (now env) round)) ;;;
       modify (bump (r ++ "Success")) ;;;
       modify (bump ("analysisRounds." ++ r ++ ".withPreview"))
     else
       modify (pushFailure ("no_preview_" ++ r)) ;;;
       modify (bumpSource "none")).

(** a round: its tracks in order *)
Definition runRound (round : Z) (l : list Track.t) : M St unit :=
  forEach l (analyzeTrack round).

(** an album of the artist's album list *)
Record Album : Type := mkAlbum {
  albumId : string;
  albumName : string;
  releaseYear : Z
}.

(** The catalog requests of the track-fetching phase.  [Returns None] is a
    response that is not ok. *)
Record Catalog : Type := mkCatalog {
  topTracks : string → outcome (option (list Track.t));
  albums : string → outcome (option (list Album));
  albumTracks : string → outcome (option (list Track.t));
  searchTracks : string → outcome (option (list Track.t));
  findAppleTracksForArtist : string → Z → list Track.t
}.

Variable catalog : Catalog.

(** [try { tracks = f(await request) } catch (e) { failureReasons.push(r) }]:
    the new value of [tracks] *)
Definition fetchOr (tracks : list Track.t) (request : outcome (option (list Track.t)))
    (f : list Track.t → list Track.t) (reason : string) : M St (list Track.t) :=
  try_catch
    (r <- call request ;;
     ret (match r with Some l => f l | None => tracks end))
    (λ _, modify (pushFailure reason) ;;; ret tracks).

(** [{ ...track, album: album, isRecentRelease: true }] *)
Definition asRecent (a : Album) (t : Track.t) : Track.t :=
  Track.mk (Track.id t) (Track.name t) (Track.artists t) (Some (albumName a))
    (Track.popularity t) (Track.preview_url t) (Track.applePreview t) true.

(** the loop over [recentAlbums.slice(0, 10)] *)
Fixpoint addAlbumTracks (l : list Album) (tracks : list Track.t)
  : M St (list Track.t) :=
  match l with
  | [] => ret tracks
  | a :: r =>
      tracks' <- fetchOr tracks (albumTracks catalog (albumId a))
                   (λ items, (tracks ++ map (asRecent a) items)%list)
                   "spotify_album_tracks_error" ;;
      addAlbumTracks r tracks'
  end.

(** lines 244-345: the tracks to choose from *)
Definition fetchTracks : M St (list Track.t) :=
  let hasToken := Js.truthy (spotifyToken env) in
  tracks1 <-
    (if Js.truthy (spotifyId req) && hasToken then
       top <- fetchOr [] (topTracks catalog (default "" (spotifyId req))) (λ l, l)
                "spotify_top_tracks_error" ;;
       if includeRecentReleases req then
         try_catch
           (r <- call (albums catalog (default "" (spotifyId req))) ;;
            match r with
            | Some items =>
                let recentAlbums :=
                  List.filter (λ a, currentYear env - releaseYear a <=? 2) items in
                addAlbumTracks (take 10 recentAlbums) top
            | None => ret top
            end)
           (λ _, modify (pushFailure "spotify_recent_albums_error") ;;; ret top)
       else ret top
     else ret []) ;;
  tracks2 <-
    (match tracks1 with
     | [] =>
         if hasToken then
           fetchOr [] (searchTracks catalog (artistName req)) (λ l, l)
             "spotify_search_error"
         else ret tracks1
     | _ :: _ => ret tracks1
     end) ;;
  match tracks2 with
  | [] =>
      if negb hasToken || Js.startsWith strategy "apple" then
        let appleLimit := Z.min 50 (default 20 (maxTracks req) * 3) in
        let found := findAppleTracksForArtist catalog (artistName req) appleLimit in
        when_ (match found with [] => true | _ :: _ => false end)
          (modify (pushFailure "apple_mode_no_tracks")) ;;;
        ret found
      else ret tracks2
  | _ :: _ => ret tracks2
  end.

(** [round1Success / round1Tracks.length]: [None] is [NaN], the quotient of
    zero by zero.  For at most ten tracks the double quotient compares with
    0.4 as the exact one does: among the fractions with a denominator up to
    ten, only 2/5 and 4/10 lie between 3/8 and 3/7, and both round to the
    double that the literal 0.4 denotes. *)
Definition successRate (succeeded attempted : Z) : option Q :=
  if attempted =? 0 then None
  else Some (succeeded # Z.to_pos attempted).

(** [rate >= 0.4]; a comparison with [NaN] is false *)
Definition atLeast40Percent (rate : option Q) : bool :=
  match rate with
  | Some q => Qle_bool (4 # 10) q
  | None => false
  end.

(** [elapsedMs > 22000] *)
Definition nearingTimeout : bool := 22000 <? elapsedMs env.

(** the condition of line 754 *)
Definition round2Gate (round1Success attempted : Z) : bool :=
  negb (fastMode req) && negb nearingTimeout
  && atLeast40Percent (successRate round1Success attempted)
  && (10 <? default 20 (maxTracks req)).

(** the selection of lines 370-381 *)
Definition topOf (tracks : list Track.t) : list Track.t :=
  List.filter (λ t, negb (Track.isRecentRelease t)) tracks.
Definition recentOf (tracks : list Track.t) : list Track.t :=
  List.filter Track.isRecentRelease tracks.
Definition round1Tracks (tracks : list Track.t) : list Track.t :=
  if fastMode req then take 5 (topOf tracks)
  else (take 5 (topOf tracks) ++ take 5 (recentOf tracks))%list.
(** lines 758-760: [slice(5, 10)] of each *)
Definition round2Tracks (tracks : list Track.t) : list Track.t :=
  (take 5 (drop 5 (topOf tracks)) ++ take 5 (drop 5 (recentOf tracks)))%list.

(** the two rounds over the fetched tracks: did round 2 run, and how many
    tracks were attempted *)
Definition runRounds (tracks : list Track.t) : M St (bool * Z) :=
  runRound 1 (round1Tracks tracks) ;;;
  s <- get ;;
  let attempted1 := Z.of_nat (length (round1Tracks tracks)) in
  if round2Gate (counter "round1Success" s) attempted1 then
    runRound 2 (round2Tracks tracks) ;;;
    ret (true, attempted1 + Z.of_nat (length (round2Tracks tracks)))
  else ret (false, attempted1).

(** [metadataFeatures], read as a feature vector: the five keys of
    [Features] in the object [inferAudioFeaturesFromGenres] returns *)
Definition metadataFeatures (f : Inference.Inferred) : Features :=
  mkFeatures (Some (Inference.energy f)) (Some (Inference.danceability f))
    (Some (Inference.valence f)) (Some (Inference.tempo f))
    (Some (Inference.spectral_centroid f)).

(** the three bodies the handler answers with after the rounds.  The
    partial answer carries the features inferred from the genres of the
    mapping, as [averageFeatures] and as [spectralFeatures]; the inference
    always has a result (the table holds its defaults). *)
Definition partialResponse (g : GenreMapping) (totalAttempted : Z) : Resp.t :=
  let inferred :=
    metadataFeatures
      <$> Inference.inferAudioFeaturesFromGenres (random env) (inferredGenres g)
            (artistName req) (Some "mixed_tracks") in
  Resp.mk 200 true true None (Some "no_preview") (Some []) (Some g)
    (Some "insufficient_data") inferred inferred None (Some totalAttempted) (Some 0)
    (Some 1).

Definition failedResponse (totalAttempted : Z) : Resp.t :=
  Resp.mk 200 false false (Some "No tracks could be analyzed and no genres available")
    (Some "no_preview") None None None None None None (Some totalAttempted) None None.

Definition successResponse (s : St) (g : GenreMapping) : Resp.t :=
  let avg := calculateAverageFeatures (trackProfiles s) in
  Resp.mk 200 true false None None (Some (trackProfiles s)) (Some g)
    (Some (calculateRecentSoundEvolution (trackProfiles s))) (Some avg)
    (Some (mkFeatures None None None None
             (Some (default 0%Q (spectral_centroid avg)))))
    None None (Some (Z.of_nat (length (trackProfiles s))))
    (Some (if 0 <? counter "round2Success" s then 2 else 1)).

(** the answer to a request without tracks (line 362) *)
Definition noTracksResponse : Resp.t :=
  Resp.mk 200 false false (Some "No tracks found for artist") (Some "no_tracks")
    None None None None None None None None None.

(** the counters that belong to [acquisitionStats]: the two round tallies
    are variables of the handler *)
Definition acquisitionStats (s : St) : gmap string Z :=
  delete "round1Success" (delete "round2Success" (counters s)).

(** the [$set] of the [artist_genre_profiles] upsert (lines 930-942) *)
Definition profileFields (s : St) (r : Resp.t) : list (string * value) :=
  [("artistName", VStr (artistName req));
   ("spotifyId", match spotifyId req with
                 | Some i => if String.eqb i "" then VNull else VStr i
                 | None => VNull
                 end);
   ("updatedAt", VDate (now env));
   ("trackMatrix", VTracks (trackProfiles s));
   ("genreMapping", match Resp.genreMapping r with Some g => VGenres g | None => VNull end);
   ("averageFeatures",
    match Resp.averageFeatures r with Some f => VFeatures f | None => VNull end);
   ("spectralFeatures",
    match Resp.spectralFeatures r with Some f => VFeatures f | None => VNull end);
   ("recentEvolution",
    match Resp.recentEvolution r with Some e => VStr e | None => VNull end);
   ("acquisitionStats", VCounts (acquisitionStats s));
   ("audioSourcesSummary", VCounts (Summary.audioSources (trackProfiles s)));
   ("totalTracksAnalyzed", VNum (Z.of_nat (length (trackProfiles s))))].

(** lines 926-948: the upsert keyed by the lower-cased artist name; a
    rejected write is logged and leaves the collection as it was *)
Definition persistProfile (s : St) (r : Resp.t) (profiles : Mongo.Heap) : Mongo.Heap :=
  if dbConnected env && negb (storeFails env) then
    Mongo.upsertOne "artistName" (VStr (Js.toLowerCase (artistName req)))
      (profileFields s r) profiles
  else profiles.

(** the handler's [try] block from the track fetch on: the response and the
    [artist_genre_profiles] collection after it *)
Definition analyzeArtistBody (profiles : Mongo.Heap) : M St (Resp.t * Mongo.Heap) :=
  tracks <- fetchTracks ;;
  match tracks with
  | [] => ret (noTracksResponse, profiles)
  | _ :: _ =>
      modify (λ s, mkSt (<["analysisRounds.round1.attempted" :=
                             Z.of_nat (length (round1Tracks tracks))]> (counters s))
                     (previewSourceCounts s) (queries s) (spotifyRecoveryDisabled s)
                     (failureReasons s) (trackProfiles s) (previewUrl s)
                     (audioSource s) (alternativeSourceInfo s) (calls s)) ;;;
      rounds <- runRounds tracks ;;
      s <- get ;;
      let genreMapping :=
        buildGenreMapping (trackProfiles s) (artistName req) (existingGenres req) in
      match trackProfiles s with
      | [] =>
          match inferredGenres genreMapping with
          | _ :: _ => ret (partialResponse genreMapping rounds.2, profiles)
          | [] => ret (failedResponse rounds.2, profiles)
          end
      | _ :: _ =>
          let result := successResponse s genreMapping in
          ret (result, persistProfile s result profiles)
      end
  end.

Definition badRequest : Resp.t :=
  Resp.mk 400 false false (Some "artistName is required") None None None None None
    None None None None None.

Definition serverError (e : string) : Resp.t :=
  Resp.mk 500 false false (Some e) None None None None None None None None None None.

(** [app.post('/api/analyze-artist', ..)]: the response, the collection
    after the request, and the final request state *)
Definition analyzeArtist (profiles : Mongo.Heap) : Resp.t * Mongo.Heap * St :=
  if String.eqb (artistName req) "" then (badRequest, profiles, initialSt)
  else
    match analyzeArtistBody profiles initialSt with
    | (Returns (r, col), s) => (r, col, s)
    | (Throws e, s) => (serverError e, profiles, s)
    end.

End Handler.

End Server.

(* ================================================================== *)
(** ** Predicates of the statements below *)
(* ================================================================== *)

(** the length of the stored track matrix, zero without one *)
Definition matrixLength (d : gmap string value) : Z :=
  match Mongo.trackMatrixOf d with
  | Some m => Z.of_nat (length m)
  | None => 0
  end.

(** a write of one of the two lifecycle flags *)
Definition isFlagWrite (t : Z) (e : Batch.WriteEvent) : Prop :=
  Batch.evUpdate e = Batch.markBuilt t ∨ Batch.evUpdate e = Batch.markStaged t.





(* ================================================================== *)
(** ** Sample inputs *)
(* ================================================================== *)

(** a document flagged built whose profile holds an empty matrix *)
Definition brokenDoc : gmap string value :=
  <["essentiaProfileBuilt" := VBool true]>
    (<["essentiaProfileDate" := VDate 7]>
       (<["essentiaProfileStaged" := VBool true]>
          (<["essentiaAudioProfile" :=
               VProfile (mkProfile (Some []) None None None None (Some "2.0"))]>
             (<["name" := VStr "Rezz"]> ∅)))).

Definition repairedDoc : gmap string value :=
  delete "essentiaProfileBuilt" (delete "essentiaProfileDate" brokenDoc).


(** a profile of track [i], resolved from [src] *)
Definition sampleProfile (i : string) (src : string) : TrackProfile :=
  mkTrackProfile i ("Track " ++ i) (Some "Rezz") (Some 50) false None
    (Some ("https://audio.example/" ++ i)) (Some src) None
    (mkFeatures (Some (8 # 10)) (Some (7 # 10)) (Some (5 # 10)) (Some (128 # 1)) None)
    0 1.

(** a document that still carries the legacy top-level matrix, one track
    long *)
Definition legacyDoc : gmap string value :=
  <["essentiaTrackMatrix" := VTracks [sampleProfile "t1" "apple"]]>
    (<["name" := VStr "Rezz"]> ∅).

(** the driver's command line without arguments: [maxTracks] is 10 and
    [fastMode] is on *)
Definition defaultCli : Batch.Cli := Batch.mkCli 10 false false false false false true.

(** a run with [--maxTracks 2 --appleFirst] *)
Definition smallCli : Batch.Cli := Batch.mkCli 2 true false false false false true.

(** a staged document whose matrix already has two tracks *)
Definition stagedTwo : gmap string value :=
  <["essentiaProfileStaged" := VBool true]>
    (<["essentiaAudioProfile" :=
         VProfile (mkProfile (Some [sampleProfile "t1" "apple"; sampleProfile "t2" "apple"])
                     None None None None None)]>
       (<["name" := VStr "Rezz"]> ∅)).

Definition idleService : Batch.Service :=
  λ _, Throws "connection refused".

(** a staged document with four analysed tracks, and the answer of a service
    that analysed six other tracks of the artist *)
Definition stagedFour : gmap string value :=
  <["essentiaProfileStaged" := VBool true]>
    (<["essentiaAudioProfile" :=
         VProfile (mkProfile
                     (Some [sampleProfile "o1" "apple"; sampleProfile "o2" "apple";
                            sampleProfile "o3" "apple"; sampleProfile "o4" "apple"])
                     None None None None None)]>
       (<["name" := VStr "Rezz"]> ∅)).

Definition sixNew : list TrackProfile :=
  [sampleProfile "n1" "apple"; sampleProfile "n2" "apple"; sampleProfile "n3" "apple";
   sampleProfile "n4" "apple"; sampleProfile "n5" "apple"; sampleProfile "n6" "apple"].

Definition tenNew : list TrackProfile :=
  (sixNew ++ [sampleProfile "n7" "apple"; sampleProfile "n8" "apple";
              sampleProfile "n9" "apple"; sampleProfile "n10" "apple"])%list.

Definition answerWith (m : list TrackProfile) : Resp.t :=
  Resp.mk 200 true false None None (Some m) None None None None None None
    (Some (Z.of_nat (length m))) (Some 1).

Definition sixService : Batch.Service := λ _, Returns (answerWith sixNew).
Definition tenService : Batch.Service := λ _, Returns (answerWith tenNew).

(** a run with [--appleFirst --noFastMode] and the default target of ten *)
Definition resumeCli : Batch.Cli := Batch.mkCli 10 true false false false false false.

(** a request for a lower-case artist name with everything else left to its
    default, in an environment with a database and no SoundCloud client id *)
Definition plainRequest : Server.Request :=
  Server.mkRequest "rezz" None None true [] false None false.

Definition plainEnv : Server.Env :=
  Server.mkEnv None None true false 2025 0 1000 (λ _, 1 # 2)%Q.

(** the same environment a minute later *)
Definition laterEnv : Server.Env :=
  Server.mkEnv None None true false 2025 60000 1000 (λ _, 1 # 2)%Q.

(** the request state after six tracks were analysed *)
Definition sixAnalysed : Server.St :=
  Server.mkSt ∅ ∅ [] false [] sixNew None None None [].

(** a computation that never throws *)
Definition returns {S A : Type} (m : M S A) : Prop :=
  ∀ s, ∃ a s', m s = (Returns a, s').

(** a relation between the state before and after that a computation keeps,
    whether it returns or throws *)
Definition preserves {S A : Type} (R : S → S → Prop) (m : M S A) : Prop :=
  ∀ s, R s (m s).2.

(** a network where every search comes back empty and the extraction
    returns an empty feature vector *)
Definition quietNet : Sources.Net :=
  Sources.mkNet (λ _, Returns None)
    (λ _ _, Returns (Sources.mkItunesResponse true (Some [])))
    (λ _, Returns None) (λ _ _, Returns None)
    (λ _, Returns (mkFeatures None None None None None)).

(** a catalog track with a Spotify preview *)
Definition spotifyTrack (i : string) : Track.t :=
  Track.mk i ("Song " ++ i) ["Rezz"] None (Some 60)
    (Some ("https://p.scdn.co/mp3-preview/" ++ i)) false false.

(** the request reaches the round-2 gate exactly 22000 ms after it started *)
Definition thresholdEnv : Server.Env :=
  Server.mkEnv None (Some "token") true false 2025 0 22000 (λ _, 1 # 2)%Q.

Definition fullRequest : Server.Request :=
  Server.mkRequest "Rezz" (Some "sp1") (Some 20) true [] false None false.

Definition sixTracks : list Track.t :=
  map spotifyTrack ["s1"; "s2"; "s3"; "s4"; "s5"; "s6"].

(** a catalog track without any preview *)
Definition silentTrack (i : string) : Track.t :=
  Track.mk i ("Song " ++ i) ["Rezz"] None (Some 60) None false false.

(** a catalog whose top-track list is [top] and that has nothing else *)
Definition catalogOf (top : list Track.t) : Server.Catalog :=
  Server.mkCatalog (λ _, Returns (Some top)) (λ _, Returns (Some []))
    (λ _, Returns (Some [])) (λ _, Returns (Some [])) (λ _ _, []).

(** a request that brings three known genre tags *)
Definition taggedRequest : Server.Request :=
  Server.mkRequest "Rezz" (Some "sp1") (Some 20) true ["house"; "techno"; "trance"]
    false None false.

(** as [plainEnv], with a Spotify token *)
Definition tokenEnv : Server.Env :=
  Server.mkEnv None (Some "token") true false 2025 0 1000 (λ _, 1 # 2)%Q.

(** the top track [d1] is also on a recent album *)
Definition dupCatalog : Server.Catalog :=
  Server.mkCatalog (λ _, Returns (Some [spotifyTrack "d1"]))
    (λ _, Returns (Some [Server.mkAlbum "al1" "Nightmare" 2024]))
    (λ _, Returns (Some [spotifyTrack "d1"])) (λ _, Returns (Some [])) (λ _ _, []).

(** the request of [fullRequest] for the artist name in lower case *)
Definition lowerRequest : Server.Request :=
  Server.mkRequest "rezz" (Some "sp1") (Some 20) true [] false None false.

(** the matrix a document of [artist_genre_profiles] stores, by track id *)
Definition storedIds (d : gmap string value) : option (list string) :=
  match d !! "trackMatrix" with
  | Some (VTracks m) => Some (trackIds m)
  | _ => None
  end.

(** the provider steps a resolution has been through when it ends without a
    reference: the aggregator always; SoundCloud with a configured client id
    (the title, and in a forced run the artist alone); the two Apple
    searches for a track with an artist under [apple_primary] (not forced,
    the track named) and under the other strategies; the Spotify recovery
    under the other strategies with a token *)
Definition exhausted (env : Server.Env) (req : Server.Request) (t : Track.t)
    (cs : list Server.Call) : Prop :=
  Server.Aggregator (Server.primaryArtist t) (Track.name t) ∈ cs
  ∧ (Server.soundcloudConfigured env = true →
     Server.SoundCloudQuery (Server.primaryArtist t) (Track.name t) ∈ cs)
  ∧ (Server.soundcloudConfigured env = true →
     Server.innerForceSoundCloudTest req = true →
     Server.SoundCloudQuery (Server.primaryArtist t) "" ∈ cs)
  ∧ (∀ a, Server.primaryArtist t = Some a →
          (Server.useApplePrimary req = true
           ∧ Server.innerForceSoundCloudTest req = false
           ∧ Track.name t ≠ ""
           ∨ Server.balancedOnly req = true) →
          Server.AppleExact a (Track.name t) ∈ cs
          ∧ Server.AppleBroad a (Track.name t) ∈ cs)
  ∧ (Server.balancedOnly req = true → Js.truthy (Server.spotifyToken env) = true →
     Server.SpotifyRecovery (Track.id t) ∈ cs).

(** the profile the round loop pushes for a resolved and analysed track *)
Definition profileFor (env : Server.Env) (round : Z) (t : Track.t)
    (res : Server.Resolution) (features : Features) : TrackProfile :=
  mkTrackProfile (Track.id t) (Track.name t) (Server.primaryArtist t)
    (Track.popularity t) (Track.isRecentRelease t) (Track.album t)
    (Server.resPreviewUrl res) (Server.resAudioSource res)
    (Server.resAlternativeSourceInfo res) features (Server.now env) round.

(** the resolver leaves the accumulated profiles alone, and only adds to the
    calls *)
Definition sameProfiles (s s' : Server.St) : Prop :=
  Server.trackProfiles s' = Server.trackProfiles s.

Definition moreCalls (s s' : Server.St) : Prop :=
  Server.calls s ⊆ Server.calls s'.

(** a network where every request is rejected and the extraction fails *)
Definition downNet : Sources.Net :=
  Sources.mkNet (λ _, Throws "fetch failed") (λ _ _, Throws "fetch failed")
    (λ _, Throws "fetch failed") (λ _ _, Throws "fetch failed")
    (λ _, Throws "Essentia analysis failed").

(** the request state when the provider steps of [acquirePreviewForTrack]
    are over, before the restorations of lines 672-682 *)
Definition alternatives (net : Sources.Net) (env : Server.Env) (req : Server.Request)
    (t : Track.t) (s : Server.St) : Server.St :=
  let s := (Server.startResolution req t s).2 in
  let s := (Server.earlySoundCloud net env req t s).2 in
  let s := (Server.relaxedSoundCloud net env req t s).2 in
  let s := (Server.applePrimary net req t s).2 in
  let s := (Server.spotifyRecovery net env req t s).2 in
  let s := (Server.noteRecoveryDisabled req s).2 in
  let s := (Server.balancedAppleExact net req t s).2 in
  let s := (Server.balancedAppleBroad net req t s).2 in
  let s := (Server.explicitSoundCloud net env t s).2 in
  let s := (Server.aggregator net env t s).2 in
  (Server.fallbackOriginal req t s).2.

(** the resolution a request state holds *)
Definition resolutionOf (s : Server.St) : Server.Resolution :=
  Server.mkResolution (Server.previewUrl s) (Server.audioSource s)
    (Server.alternativeSourceInfo s).

(** an environment with a SoundCloud client id *)
Definition soundcloudEnv : Server.Env :=
  Server.mkEnv (Some "client") None true false 2025 0 1000 (λ _, 1 # 2)%Q.

(** a request with [forceSoundCloudTest] and the default strategy, and one
    for [soundcloud_primary] without the flag *)
Definition flagRequest : Server.Request :=
  Server.mkRequest "rezz" None None true [] false None true.

Definition primaryRequest : Server.Request :=
  Server.mkRequest "rezz" None None true [] false (Some "soundcloud_primary") false.

(** a track of the Apple catalog fetch, with its preview *)
Definition appleTrack (i : string) : Track.t :=
  Track.mk i ("Song " ++ i) ["Rezz"] None (Some 60)
    (Some ("https://audio-ssl.itunes.apple.com/" ++ i ++ ".m4a")) true false.

(* ================================================================== *)
(** ** scripts: clear_empty_essentia_flags and the one-off diagnosis *)
(* ================================================================== *)

Module ClearEmptyFlags.
Import Mongo.

(** [{ 'essentiaAudioProfile.trackMatrix': { $exists: false } }]: the path
    exists only in a profile sub-document that has the field *)
Definition matrixPathMissing (d : Doc) : bool :=
  match d !! "essentiaAudioProfile" with
  | Some (VProfile p) =>
      match trackMatrix p with
      | Some _ => false
      | None => true
      end
  | _ => true
  end.

(** [{ 'essentiaAudioProfile.trackMatrix': { $size: 0 } }] *)
Definition matrixSizeZero (d : Doc) : bool :=
  match d !! "essentiaAudioProfile" with
  | Some (VProfile p) =>
      match trackMatrix p with
      | Some [] => true
      | _ => false
      end
  | _ => false
  end.

(** [{ essentiaAudioProfile: { $exists: false } }] *)
Definition profileMissing (d : Doc) : bool :=
  match d !! "essentiaAudioProfile" with
  | None => true
  | Some _ => false
  end.

(** [toUpdateSelector]: [{ $and: [ { essentiaProfileBuilt: true },
    { $or: [ .., .., .. ] } ] }] *)
Definition toUpdateSelector (d : Doc) : bool :=
  Scanner.isBuilt d && (matrixPathMissing d || matrixSizeZero d || profileMissing d).

(** [col.countDocuments(toUpdateSelector)] *)
Definition toFixCount (col : Collection) : nat :=
  length (filter (λ p, toUpdateSelector p.2 = true) (map_to_list col)).

(** the run: nothing when the count is zero, else
    [col.updateMany(toUpdateSelector, { $unset: {..} })] *)
Definition run (col : Collection) : Collection :=
  if (toFixCount col =? 0)%nat then col
  else (λ d, if toUpdateSelector d then default d (applyUpdate Scanner.clearOp d) else d)
       <$> col.

End ClearEmptyFlags.

Module DiagClear.
Import Mongo.

(** [docs.filter(d => !(Array.isArray(..) && ..length > 0)).slice(0, 200)],
    by [_id] *)
Definition sample (col : Collection) : list string :=
  take 200 (map fst (filter (λ p, Scanner.hasMatrix p.2 = false) (Scanner.cursor col))).

(** [sample.slice(0, 20).map(d => d._id)] *)
Definition clearIds (col : Collection) : list string := take 20 (sample col).

(** the run: [updateMany({ _id: { $in: clearIds } }, { $unset: {..} })] when
    there is an id to clear *)
Definition run (col : Collection) : Collection :=
  if (0 <? Z.of_nat (length (clearIds col))) then
    updateManyIn (clearIds col) Scanner.clearOp col
  else col.

End DiagClear.

(** ** The migration run *)

(** a document on which the [$set] of the nested path is no write error:
    its [essentiaAudioProfile] is absent or a sub-document *)
Definition writable (d : Mongo.Doc) : bool :=
  match d !! "essentiaAudioProfile" with
  | None | Some (VProfile _) => true
  | Some _ => false
  end.

(** a document with a legacy matrix whose profile field holds a string, and
    a collection in which the cursor reaches it first *)
Definition unwritableDoc : gmap string value :=
  <["essentiaAudioProfile" := VStr "pending"]>
    (<["essentiaTrackMatrix" := VTracks [sampleProfile "t2" "apple"]]> ∅).

Definition unwritableFirst : Mongo.Collection :=
  {["b1" := unwritableDoc; "b2" := legacyDoc]}.

(* ================================================================== *)
(** ** Relations between the states of the batch driver *)
(* ================================================================== *)

(** the artists the summary has accounted for *)
Definition tally (w : Batch.World) : Z :=
  Batch.improved w + Batch.skipped w + Batch.errors w.

Definition sameTally (w w' : Batch.World) : Prop := tally w' = tally w.

(** the store, the write log and the request log are as before *)
Definition untouched (w w' : Batch.World) : Prop :=
  Batch.artistCol w' = Batch.artistCol w
  ∧ Batch.writes w' = Batch.writes w
  ∧ Batch.requests w' = Batch.requests w.

(** every write since [w] was sent with the filter [{ _id: id }], and no
    other document of the collection has changed *)
Definition wroteOnly (id : option string) (w w' : Batch.World) : Prop :=
  (∃ news : list Batch.WriteEvent,
     Batch.writes w' = (Batch.writes w ++ news)%list
     ∧ ∀ e, e ∈ news → Batch.evId e = id)
  ∧ ∀ j, id ≠ Some j → Batch.artistCol w' !! j = Batch.artistCol w !! j.

(** at most [r] requests and [n] writes since [w] *)
Definition atMost (r n : nat) (w w' : Batch.World) : Prop :=
  (∃ news : list Batch.AnalyzeBody,
     Batch.requests w' = (Batch.requests w ++ news)%list ∧ (length news ≤ r)%nat)
  ∧ (∃ news : list Batch.WriteEvent,
       Batch.writes w' = (Batch.writes w ++ news)%list ∧ (length news ≤ n)%nat).

(** no request since [w] *)
Definition sameRequests (w w' : Batch.World) : Prop :=
  Batch.requests w' = Batch.requests w.

(** what one write of the driver may be: one of the two flags, or the
    profile of an answer of the service *)
Definition flagOrProfileOf (t : Z) (answer : option Resp.t) (e : Batch.WriteEvent)
  : Prop :=
  Batch.evUpdate e = Batch.markBuilt t
  ∨ Batch.evUpdate e = Batch.markStaged t
  ∨ ∃ r, answer = Some r ∧ Resp.success r = true
         ∧ Batch.evUpdate e = Batch.writeProfileOp r.

(** the artist gets past the skip checks of the loop (lines 260-302) and
    reaches the analysis passes *)
Definition reachesPasses (cli : Batch.Cli) (p : Batch.Artist * Batch.Inputs) : bool :=
  match Batch.aName p.1 with
  | None => false
  | Some _ =>
      if (Batch.maxTracks cli <=? Batch.stagedLen p.1)
         && negb (Mongo.truthyField (Batch.doc p.1) "essentiaProfileBuilt") then false
      else if Mongo.truthyField (Batch.doc p.1) "essentiaProfileBuilt"
              && negb (Batch.force cli) then false
      else if Batch.maxTracks cli <=? Batch.existingVectors p.2 then false
      else negb (Batch.dryRun cli)
  end.

(** no request was sent, and [k] more artists count as improved *)
Definition idleRun (k : Z) (w w' : Batch.World) : Prop :=
  Batch.requests w' = Batch.requests w
  ∧ Batch.improved w' = Batch.improved w + k
  ∧ ∃ news : list Batch.WriteEvent,
      Batch.writes w' = (Batch.writes w ++ news)%list
      ∧ Forall (λ e, ∃ t, Batch.evUpdate e = Batch.markBuilt t) news.

(** ** The candidates of the fallback aggregator *)

(** the values the two search-link adapters return *)
Definition mkBeatport : Sources.Source :=
  Sources.mkSource "beatport" None None None (Some (6 # 10)%Q).
Definition mkBandcamp : Sources.Source :=
  Sources.mkSource "bandcamp" None None None (Some (7 # 10)%Q).

(** ** What a round adds *)

(** [acquisitionStats.analysisRounds.round1.attempted = round1Tracks.length],
    the assignment before the rounds *)
Definition noteAttempted (req : Server.Request) (tracks : list Track.t)
    (s : Server.St) : Server.St :=
  Server.mkSt (<["analysisRounds.round1.attempted" :=
                  Z.of_nat (length (Server.round1Tracks req tracks))]> (Server.counters s))
    (Server.previewSourceCounts s) (Server.queries s) (Server.spotifyRecoveryDisabled s)
    (Server.failureReasons s) (Server.trackProfiles s) (Server.previewUrl s)
    (Server.audioSource s) (Server.alternativeSourceInfo s) (Server.calls s).

(** the profiles and the two success tallies are as before *)
Definition sameAnalysis (s s' : Server.St) : Prop :=
  Server.trackProfiles s' = Server.trackProfiles s
  ∧ Server.counter "round1Success" s' = Server.counter "round1Success" s
  ∧ Server.counter "round2Success" s' = Server.counter "round2Success" s.

(** the number of profiles of round [round] *)
Definition ofRound (round : Z) (m : list TrackProfile) : Z :=
  Z.of_nat (length (List.filter (λ p, analysisRound p =? round) m)).

(** from [s] to [s'] the profiles [news] were added, all of round [round]
    and for tracks of [l] in the order of [l]; every one of them was
    counted in the tally of its round *)
Definition produced (round : Z) (l : list Track.t) (news : list TrackProfile)
    (s s' : Server.St) : Prop :=
  Server.trackProfiles s' = (Server.trackProfiles s ++ news)%list
  ∧ sublist (trackIds news) (map Track.id l)
  ∧ Forall (λ p, analysisRound p = round) news
  ∧ Server.counter "round1Success" s'
    = Server.counter "round1Success" s + (if round =? 1 then Z.of_nat (length news) else 0)
  ∧ Server.counter "round2Success" s'
    = Server.counter "round2Success" s + (if round =? 1 then 0 else Z.of_nat (length news)).

(** ** The handler and the database *)

(** the environment with another database: [c] says whether [db] is set,
    [f] whether the upsert is rejected *)
Definition withDb (c f : bool) (env : Server.Env) : Server.Env :=
  Server.mkEnv (Server.SOUNDCLOUD_CLIENT_ID env) (Server.spotifyToken env) c f
    (Server.currentYear env) (Server.now env) (Server.elapsedMs env)
    (Server.random env).

(** no document of the collection is found by the upsert's filter for
    [name] *)
Definition unmatched (name : string) (col : Mongo.Heap) : Prop :=
  Forall (λ d : gmap string value, d !! "artistName" ≠ Some (VStr (Js.toLowerCase name))) col.

(** the successive upserts of the analyses [runs] of one request *)
Definition persistAll (env : Server.Env) (req : Server.Request)
    (runs : list (Server.St * Resp.t)) (col : Mongo.Heap) : Mongo.Heap :=
  fold_left (λ c sr, Server.persistProfile env req sr.1 sr.2 c) runs col.

(** ** The preview sources of the attempted tracks *)

(** the sum of [acquisitionStats.previewSourceCounts] *)
Definition sourceTotal (s : Server.St) : Z :=
  map_fold (λ (_ : string) (v acc : Z), v + acc) 0 (Server.previewSourceCounts s).

(** the sources the resolver names *)
Definition resolverSources : list (option string) :=
  [Some "spotify"; Some "apple"; Some "apple_broad"; Some "soundcloud"].

(** a reference in the request state has one of these as its source *)
Definition sourced (s : Server.St) : Prop :=
  Js.truthy (Server.previewUrl s) = true → Server.audioSource s ∈ resolverSources.

(** every profile was analysed from a reference with one of these sources *)
Definition sourcedProfile (p : TrackProfile) : Prop :=
  Js.truthy (previewUrl p) = true ∧ audioSource p ∈ resolverSources.

(** a step keeps that *)
Definition keepsSourced (s s' : Server.St) : Prop := sourced s → sourced s'.

(** a step leaves [previewSourceCounts] alone *)
Definition sameSourceCounts (s s' : Server.St) : Prop :=
  Server.previewSourceCounts s' = Server.previewSourceCounts s.

(** [n] more tracks were counted *)
Definition counted (n : Z) (s s' : Server.St) : Prop :=
  sourceTotal s' = sourceTotal s + n.

(* ================================================================== *)
(** ** server.js: the other endpoints *)
(* ================================================================== *)

Module Endpoints.

(** *** POST /api/batch *)

(** A value of a JSON request body.  An object is the list of its own
    properties; none of them is callable. *)
#[local] Set Warnings "-register-all".
Inductive json : Type :=
| JNull
| JBool (b : bool)
| JNum (n : Q)
| JStr (s : string)
| JArr (l : list json)
| JObj (fields : list (string * json)).

(** Whether a template literal can print the value.  An object with an own
    [toString] property has no callable [toString], and
    [Object.prototype.valueOf] answers the object itself: the conversion
    throws a [TypeError].  An array is joined, which converts its elements
    one by one. *)
Fixpoint stringifies (v : json) : bool :=
  match v with
  | JArr l => forallb stringifies l
  | JObj fields => negb (existsb (λ kv, String.eqb kv.1 "toString") fields)
  | _ => true
  end.

(** one entry of [results]: [{ audioUrl, features, success: true }] or
    [{ audioUrl, error, success: false }], with the element of [audioUrls]
    as it came *)
Record BatchResult : Type := mkBatchResult {
  brAudioUrl : json;
  brFeatures : option Features;
  brError : option string;
  brSuccess : bool
}.

Inductive BatchAnswer : Type :=
| BatchBadRequest
| BatchDone (results : list BatchResult) (totalProcessed successful : Z)
| BatchError (e : string).

(** what an entry of [results] says about its element: analysed, with the
    features of the extraction; or failed, with the message of the
    extraction's error for a string and of the [TypeError] for another
    value *)
Definition batchResultOf (net : Sources.Net) (r : BatchResult) : Prop :=
  if brSuccess r then
    ∃ u f, brAudioUrl r = JStr u ∧ Sources.essentia net u = Returns f
           ∧ brFeatures r = Some f ∧ brError r = None
  else
    brFeatures r = None
    ∧ ((∃ u e, brAudioUrl r = JStr u ∧ Sources.essentia net u = Throws e
               ∧ brError r = Some e)
       ∨ (brAudioUrl r = JNull
          ∧ brError r = Some "Cannot read properties of null (reading 'substring')")
       ∨ ((∀ u, brAudioUrl r ≠ JStr u) ∧ brAudioUrl r ≠ JNull
          ∧ brError r = Some "audioUrl.substring is not a function")).

(** The body of the [for] loop with its [try].  The log line reads
    [audioUrl.substring(0, 50)], which throws for every element that is not
    a string.  The [catch] block prints the element in a template literal
    before it pushes the failure: when that conversion throws, the error
    leaves the loop.  The messages are those of Node's [TypeError]s. *)
Definition batchItem (net : Sources.Net) (audioUrl : json)
  : M (list BatchResult) unit :=
  try_catch
    (u <- match audioUrl with
          | JStr u => ret u
          | JNull => throw "Cannot read properties of null (reading 'substring')"
          | _ => throw "audioUrl.substring is not a function"
          end ;;
     features <- call (Sources.essentia net u) ;;
     modify (λ results,
               (results ++ [mkBatchResult audioUrl (Some features) None true])%list))
    (λ e,
       if stringifies audioUrl then
         modify (λ results,
                   (results ++ [mkBatchResult audioUrl None (Some e) false])%list)
       else throw "Cannot convert object to primitive value").

(** [app.post('/api/batch', ..)]: 400 unless [audioUrls] is an array
    ([None] is a body without the field), 500 with the message of an error
    that left the loop *)
Definition batch (net : Sources.Net) (audioUrls : option json) : BatchAnswer :=
  match audioUrls with
  | Some (JArr l) =>
      match forEach l (batchItem net) [] with
      | (Returns _, results) =>
          BatchDone results (Z.of_nat (length results))
            (Z.of_nat (length (List.filter brSuccess results)))
      | (Throws e, _) => BatchError e
      end
  | _ => BatchBadRequest
  end.

(** *** POST /api/analyze *)

Inductive AnalyzeAnswer : Type :=
| AnalyzeBadRequest
| AnalyzeOk (features source : value) (cached : bool)
| AnalyzeError (e : string).

(** [{ trackId }] as a filter.  The driver sends an [undefined] value as
    [null], which matches a field that is [null] or absent.  The fields
    hold strings or [null], as this handler writes them. *)
Definition matchesTrackId (trackId : option string) (d : gmap string value) : bool :=
  match trackId with
  | Some i => bool_decide (d !! "trackId" = Some (VStr i))
  | None =>
      match d !! "trackId" with
      | None | Some VNull => true
      | Some _ => false
      end
  end.

Definition matchesHash (audioHash : string) (d : gmap string value) : bool :=
  bool_decide (d !! "audioHash" = Some (VStr audioHash)).

(** [findOne({ $or: [ { trackId }, { audioHash } ] })] *)
Definition findCached (trackId : option string) (audioHash : string)
    (col : Mongo.Heap) : option (gmap string value) :=
  List.find (λ d, matchesTrackId trackId d || matchesHash audioHash d) col.

(** the [$set] of the upsert *)
Definition analyzeFields (audioHash audioUrl : string) (trackId : option string)
    (features : Features) (now analysisTime : Z) : list (string * value) :=
  [("audioHash", VStr audioHash);
   ("trackId", match trackId with Some i => VStr i | None => VNull end);
   ("features", VFeatures features);
   ("source", VStr "essentia");
   ("audioUrl", VStr audioUrl);
   ("analyzedAt", VDate now);
   ("analysisTime", VNum analysisTime)].

(** the handler past the cache: extract, store, answer *)
Definition analyzeFresh (net : Sources.Net) (db : option Mongo.Heap) (writeFails : bool)
    (url audioHash : string) (trackId : option string) (now analysisTime : Z)
  : AnalyzeAnswer * option Mongo.Heap * bool :=
  match Sources.essentia net url with
  | Throws err => (AnalyzeError err, db, true)
  | Returns features =>
      match db with
      | Some col =>
          if writeFails then (AnalyzeError "store write failed", db, true)
          else
            (AnalyzeOk (VFeatures features) (VStr "essentia") false,
             Some (Mongo.upsertOne "audioHash" (VStr audioHash)
                     (analyzeFields audioHash url trackId features now analysisTime)
                     col),
             true)
      | None => (AnalyzeOk (VFeatures features) (VStr "essentia") false, db, true)
      end
  end.

Section Analyze.

(** [hashAudioUrl]: the SHA-1 of the URL in hexadecimal *)
Variable hashAudioUrl : string → string.
Variable net : Sources.Net.

(** [app.post('/api/analyze', ..)]: the answer, [audio_features] after it,
    and whether the extraction was called.  [db = None] is a handler
    without a connection; [writeFails] says that the store rejects the
    write. *)
Definition analyze (db : option Mongo.Heap) (writeFails : bool)
    (audioUrl trackId : option string) (now analysisTime : Z)
  : AnalyzeAnswer * option Mongo.Heap * bool :=
  if negb (Js.truthy audioUrl) then (AnalyzeBadRequest, db, false)
  else
    let url := default "" audioUrl in
    let audioHash := hashAudioUrl url in
    let existing :=
      match db with
      | Some col => findCached trackId audioHash col
      | None => None
      end in
    match existing with
    | Some e =>
        if Mongo.truthyField e "features" then
          (AnalyzeOk (default VNull (e !! "features"))
             (if Mongo.truthyField e "source" then default VNull (e !! "source")
              else VStr "cache")
             true, db, false)
        else analyzeFresh net db writeFails url audioHash trackId now analysisTime
    | None => analyzeFresh net db writeFails url audioHash trackId now analysisTime
    end.

End Analyze.

End Endpoints.

(** a step keeps the profiles sourced *)
Definition keepsSourcedProfiles (s s' : Server.St) : Prop :=
  Forall sourcedProfile (Server.trackProfiles s) →
  Forall sourcedProfile (Server.trackProfiles s').

(** ** The providers a strategy asks *)

Definition isSpotifyRecovery (c : Server.Call) : bool :=
  match c with Server.SpotifyRecovery _ => true | _ => false end.

Definition isAppleSearch (c : Server.Call) : bool :=
  match c with Server.AppleExact _ _ | Server.AppleBroad _ _ => true | _ => false end.

Definition isSoundCloudQuery (c : Server.Call) : bool :=
  match c with Server.SoundCloudQuery _ _ => true | _ => false end.

(** no call of the kind [f] was added *)
Definition sameCallsOf (f : Server.Call → bool) (s s' : Server.St) : Prop :=
  List.filter f (Server.calls s') = List.filter f (Server.calls s).
(* ================================================================== *)
(** * Properties *)
(* ================================================================== *)

#[local] Open Scope list_scope.

(** ** The reconciliation scanner *)

Lemma applyUpdate_clearOp (d : gmap string value) :
  Mongo.applyUpdate Scanner.clearOp d
  = Some (delete "essentiaProfileBuilt" (delete "essentiaProfileDate" d)).
Proof. reflexivity. Qed.

(** an id the scan collects belongs to a stored document that carries the
    flag and has no usable matrix *)
Lemma toClear_sound limit (col : gmap string (gmap string value)) id :
  id ∈ Scanner.toClear limit col →
  ∃ d, col !! id = Some d ∧ Scanner.isBuilt d = true ∧ Scanner.hasMatrix d = false.
Proof.
  unfold Scanner.toClear, Scanner.cursor.
  intros Hin. apply list_elem_of_fmap in Hin as [[i d] [-> Hin]].
  apply list_elem_of_filter in Hin as [Hm Hin].
  apply subseteq_take in Hin.
  apply list_elem_of_filter in Hin as [Hb Hin].
  apply elem_of_map_to_list in Hin.
  exists d. simpl in *. auto.
Qed.

(** the run, document by document *)
Lemma scanner_run_lookup clear dryRun limit (col : gmap string (gmap string value)) id :
  Scanner.run clear dryRun limit col !! id
  = (λ d, if clear && negb dryRun && bool_decide (id ∈ Scanner.toClear limit col)
          then delete "essentiaProfileBuilt" (delete "essentiaProfileDate" d)
          else d) <$> col !! id.
Proof.
  unfold Scanner.run, Mongo.updateManyIn.
  destruct clear; simpl.
  2:{ destruct (col !! id); reflexivity. }
  destruct (Scanner.toClear limit col) as [|i0 ids] eqn:E.
  { simpl. destruct (col !! id); simpl; [|done]. by destruct dryRun. }
  change (0 <? Z.of_nat (length (i0 :: ids))) with true. cbv iota.
  destruct dryRun; simpl.
  { destruct (col !! id); reflexivity. }
  rewrite map_lookup_imap. destruct (col !! id) as [d|]; [|done].
  reflexivity.
Qed.

(** C9.  A run of the scanner, with or without [--clear], neither adds nor
    removes a document.  A document it changes was flagged built without a
    usable track matrix, the run had [--clear] and was no dry run, and the
    change is the removal of [essentiaProfileBuilt] and
    [essentiaProfileDate]: every other field, the profile and its
    [trackMatrix] among them, reads as before. *)
Theorem scanner_clear_touches_only_flags
    (clear dryRun : bool) (limit : Z) (col : gmap string (gmap string value))
    (id : string) :
  (Scanner.run clear dryRun limit col !! id = None ↔ col !! id = None)
  ∧ ∀ d d' : gmap string value,
      col !! id = Some d →
      Scanner.run clear dryRun limit col !! id = Some d' →
      (∀ k, k ≠ "essentiaProfileBuilt" → k ≠ "essentiaProfileDate" → d' !! k = d !! k)
      ∧ Mongo.trackMatrixOf d' = Mongo.trackMatrixOf d
      ∧ (d' = d
         ∨ (clear = true ∧ dryRun = false
            ∧ Scanner.isBuilt d = true ∧ Scanner.hasMatrix d = false
            ∧ d' = delete "essentiaProfileBuilt" (delete "essentiaProfileDate" d))).
Proof.
  rewrite scanner_run_lookup. split.
  { destruct (col !! id); simpl; split; congruence. }
  intros d d' Hd. rewrite Hd. simpl. intros [= <-].
  destruct (clear && negb dryRun && bool_decide (id ∈ Scanner.toClear limit col)) eqn:E.
  - apply andb_true_iff in E as [E Hin]. apply andb_true_iff in E as [-> Hdry].
    apply negb_true_iff in Hdry as ->. apply bool_decide_eq_true in Hin.
    apply toClear_sound in Hin as (d0 & Hd0 & Hb & Hm).
    rewrite Hd in Hd0. injection Hd0 as <-.
    split; [|split].
    + intros k Hk1 Hk2. by rewrite !lookup_delete_ne.
    + unfold Mongo.trackMatrixOf. by rewrite !lookup_delete_ne.
    + right. auto.
  - split; [done|]. split; [done|]. by left.
Qed.

Lemma scanner_clear_touches_only_flags_witness :
  Scanner.run true false 500 {["a1" := brokenDoc]} !! "a1" = Some repairedDoc
  ∧ repairedDoc !! "essentiaAudioProfile" = brokenDoc !! "essentiaAudioProfile"
  ∧ repairedDoc !! "essentiaProfileStaged" = brokenDoc !! "essentiaProfileStaged"
  ∧ Mongo.trackMatrixOf repairedDoc = Mongo.trackMatrixOf brokenDoc.
Proof.
  assert (H1 : ({["a1" := brokenDoc]} : gmap string (gmap string value)) !! "a1"
               = Some brokenDoc) by reflexivity.
  assert (H2 : Scanner.run true false 500 {["a1" := brokenDoc]} !! "a1"
               = Some repairedDoc) by (vm_compute; reflexivity).
  pose proof (proj2 (scanner_clear_touches_only_flags true false 500
                       {["a1" := brokenDoc]} "a1") brokenDoc repairedDoc H1 H2)
    as (Hframe & Hmatrix & _).
  split; [exact H2|]. split; [|split].
  - apply Hframe; discriminate.
  - apply Hframe; discriminate.
  - exact Hmatrix.
Defined.

(** ** The batch driver's writes *)

(** a store write appends one event, which records the write *)
Lemma updateOne_event id u (w : Batch.World) :
  ∃ ev,
    Batch.writes (Batch.updateOne id u w).2 = Batch.writes w ++ [ev]
    ∧ Batch.evId ev = id ∧ Batch.evUpdate ev = u
    ∧ Batch.evAfter ev = Batch.artistCol (Batch.updateOne id u w).2
    ∧ Batch.evResult ev
      = match (Batch.updateOne id u w).1 with
        | Returns r => Some r
        | Throws _ => None
        end.
Proof.
  unfold Batch.updateOne.
  destruct (match Batch.faults w with b :: _ => b | [] => false end).
  { eexists. simpl. repeat split. }
  destruct (Mongo.updateOne id u (Batch.artistCol w)) as [[r col']|].
  - eexists. simpl. repeat split.
  - eexists. simpl. repeat split.
Qed.

(** a write that throws, or that modifies nothing, leaves the collection as
    it was *)
Lemma updateOne_unchanged id u (w : Batch.World) :
  match (Batch.updateOne id u w).1 with
  | Returns r => Mongo.modifiedCount r <= 0
  | Throws _ => True
  end →
  Batch.artistCol (Batch.updateOne id u w).2 = Batch.artistCol w.
Proof.
  unfold Batch.updateOne.
  destruct (match Batch.faults w with b :: _ => b | [] => false end); [done|].
  unfold Mongo.updateOne.
  destruct id as [i|]; [|done].
  destruct (Batch.artistCol w !! i) as [d|]; [|done].
  destruct (Mongo.applyUpdate u d) as [d'|]; [|done].
  destruct (decide (d' = d)); simpl; [done|lia].
Qed.

(** what [writeArtistProfile] writes after the profile: at most one flag,
    and none unless the profile write returned with [modifiedCount > 0] *)
Lemma writeArtistProfile_flag_writes
    (cli : Batch.Cli) (a : Batch.Artist) (t : Z) (r : Resp.t) (w : Batch.World) :
  let profileWrite := Batch.updateOne (Batch._id a) (Batch.writeProfileOp r) w in
  let after := Batch.writeArtistProfile cli a t r w in
  after.1 = Returns tt
  ∧ ∃ flagWrites : list Batch.WriteEvent,
      Batch.writes after.2 = Batch.writes profileWrite.2 ++ flagWrites
      ∧ (length flagWrites ≤ 1)%nat
      ∧ (∀ e, e ∈ flagWrites → isFlagWrite t e)
      ∧ (flagWrites ≠ [] →
         ∃ res, profileWrite.1 = Returns res ∧ 0 < Mongo.modifiedCount res)
      ∧ (match profileWrite.1 with
         | Returns res => Mongo.modifiedCount res <= 0
         | Throws _ => True
         end →
         flagWrites = [] ∧ Batch.artistCol after.2 = Batch.artistCol w).
Proof.
  intros profileWrite after. subst after.
  unfold Batch.writeArtistProfile, try_, try_catch, bind.
  pose proof (updateOne_unchanged (Batch._id a) (Batch.writeProfileOp r) w) as Hsame.
  fold profileWrite in Hsame |- *.
  assert (Hnone : ∀ (w' : Batch.World) (o : outcome Mongo.UpdateResult),
             (match o with
              | Returns res => Mongo.modifiedCount res <= 0
              | Throws _ => True
              end → Batch.artistCol w' = Batch.artistCol w) →
             ∃ flagWrites : list Batch.WriteEvent,
               Batch.writes w' = Batch.writes w' ++ flagWrites
               ∧ (length flagWrites ≤ 1)%nat
               ∧ (∀ e, e ∈ flagWrites → isFlagWrite t e)
               ∧ (flagWrites ≠ [] →
                  ∃ res, o = Returns res ∧ 0 < Mongo.modifiedCount res)
               ∧ (match o with
                  | Returns res => Mongo.modifiedCount res <= 0
                  | Throws _ => True
                  end → flagWrites = [] ∧ Batch.artistCol w' = Batch.artistCol w)).
  { intros w' o Ho. exists []. rewrite app_nil_r.
    split; [done|]. split; [simpl; lia|]. split; [by intros ? ?%elem_of_nil|].
    split; [done|]. auto. }
  assert (Hone : ∀ (w1 w2 : Batch.World) res (ev : Batch.WriteEvent),
             0 < Mongo.modifiedCount res → isFlagWrite t ev →
             Batch.writes w2 = Batch.writes w1 ++ [ev] →
             ∃ flagWrites : list Batch.WriteEvent,
               Batch.writes w2 = Batch.writes w1 ++ flagWrites
               ∧ (length flagWrites ≤ 1)%nat
               ∧ (∀ e, e ∈ flagWrites → isFlagWrite t e)
               ∧ (flagWrites ≠ [] →
                  ∃ res', Returns res = Returns res' ∧ 0 < Mongo.modifiedCount res')
               ∧ (Mongo.modifiedCount res <= 0 →
                  flagWrites = [] ∧ Batch.artistCol w2 = Batch.artistCol w)).
  { intros w1 w2 res ev Hmod Hev Hw. exists [ev].
    split; [done|]. split; [simpl; lia|].
    split; [by intros e' ->%list_elem_of_singleton|].
    split; [by eauto|]. intros; lia. }
  destruct profileWrite as [[res|e] w1] eqn:E; simpl in Hsame |- *.
  2:{ split; [done|]. by apply (Hnone w1 (Throws e)). }
  destruct (0 <? Mongo.modifiedCount res) eqn:Hmod; simpl.
  2:{ split; [done|]. by apply (Hnone w1 (Returns res)). }
  apply Z.ltb_lt in Hmod.
  set (tmLen := Z.of_nat (length (default [] (Resp.trackMatrix r)))).
  destruct (Batch.maxTracks cli <=? tmLen) eqn:Hlen; simpl.
  - destruct (updateOne_event (Batch._id a) (Batch.markBuilt t) w1)
      as (ev & Hw & _ & Hu & _).
    destruct (Batch.updateOne (Batch._id a) (Batch.markBuilt t) w1) as [[r2|e2] w2];
      simpl in *; (split; [done|]); apply (Hone w1 _ res ev); auto; by left.
  - destruct (0 <? tmLen) eqn:Hpos; simpl.
    + destruct (updateOne_event (Batch._id a) (Batch.markStaged t) w1)
        as (ev & Hw & _ & Hu & _).
      destruct (Batch.updateOne (Batch._id a) (Batch.markStaged t) w1) as [[r2|e2] w2];
        simpl in *; (split; [done|]); apply (Hone w1 _ res ev); auto; by right.
    + split; [done|]. destruct (Hnone w1 (Returns res)) as (fw & H1 & H2 & H3 & H4 & H5).
      { done. }
      exists []. rewrite app_nil_r.
      split; [done|]. split; [simpl; lia|]. split; [by intros ? ?%elem_of_nil|].
      split; [done|]. intros; lia.
Qed.


(** C7.  [writeArtistProfile] (lines 348-372) never throws.  The writes it
    adds to the log are the profile write, first, and then at most one more,
    which is a write of the built or of the staged flag; a flag write is
    there only if the profile write returned and reported
    [modifiedCount > 0].  When the profile write throws or reports no
    modification, no flag is written and the collection is as it was before
    the call. *)
Theorem flag_write_follows_confirmed_profile_write
    (cli : Batch.Cli) (a : Batch.Artist) (t : Z) (r : Resp.t) (w : Batch.World) :
  let profileWrite := Batch.updateOne (Batch._id a) (Batch.writeProfileOp r) w in
  let after := Batch.writeArtistProfile cli a t r w in
  after.1 = Returns tt
  ∧ ∃ (profileEv : Batch.WriteEvent) (flagWrites : list Batch.WriteEvent),
      Batch.writes after.2 = Batch.writes w ++ profileEv :: flagWrites
      ∧ Batch.evId profileEv = Batch._id a
      ∧ Batch.evUpdate profileEv = Batch.writeProfileOp r
      ∧ Batch.evResult profileEv
        = match profileWrite.1 with
          | Returns res => Some res
          | Throws _ => None
          end
      ∧ (length flagWrites ≤ 1)%nat
      ∧ (∀ e, e ∈ flagWrites → isFlagWrite t e)
      ∧ (flagWrites ≠ [] →
         ∃ res, Batch.evResult profileEv = Some res ∧ 0 < Mongo.modifiedCount res)
      ∧ (match Batch.evResult profileEv with
         | Some res => Mongo.modifiedCount res <= 0
         | None => True
         end →
         flagWrites = [] ∧ Batch.artistCol after.2 = Batch.artistCol w).
Proof.
  intros profileWrite after.
  destruct (writeArtistProfile_flag_writes cli a t r w)
    as (Hret & flagWrites & Hw & Hlen & Hflags & Hsome & Hnone).
  destruct (updateOne_event (Batch._id a) (Batch.writeProfileOp r) w)
    as (ev & Hev & Hid & Hu & _ & Hres).
  fold profileWrite in Hw, Hsome, Hnone, Hev, Hres.
  split; [exact Hret|]. exists ev, flagWrites.
  split_and!; try done.
  - subst after. by rewrite Hw, Hev, <- app_assoc.
  - intros Hne. destruct (Hsome Hne) as (res & Hr & Hmod).
    exists res. by rewrite Hres, Hr.
  - intros Hno. apply Hnone. rewrite Hres in Hno.
    by destruct (profileWrite.1).
Qed.

(** the analysis passes talk to the service only: the collection, the write
    log and the pending faults are as before, and every request asks for
    [requestedTracks] *)
Lemma analysisPasses_frame svc cli inp a nm (w : Batch.World) :
  let after := Batch.analysisPasses svc cli inp a nm w in
  Batch.artistCol after.2 = Batch.artistCol w
  ∧ Batch.writes after.2 = Batch.writes w
  ∧ Batch.faults after.2 = Batch.faults w
  ∧ ∃ news, Batch.requests after.2 = Batch.requests w ++ news
            ∧ ∀ b, b ∈ news → Batch.bodyMaxTracks b = Batch.requestedTracks cli a.
Proof.
  unfold Batch.analysisPasses, Batch.callAnalyze, bind, modify, call, ret, throw.
  destruct (negb (Batch.soundcloudOnly cli) && Batch.appleFirst cli); simpl.
  - destruct (svc _) as [r1|e1]; simpl.
    + destruct ((200 <=? Resp.status r1) && (Resp.status r1 <? 300)); simpl.
      * destruct (Batch.soundcloudPass cli || Batch.soundcloudOnly cli); simpl.
        -- destruct (Batch.postAppleVectors inp <? Batch.maxTracks cli - 1); simpl.
           ++ destruct (svc _) as [r2|e2]; simpl.
              ** destruct ((200 <=? Resp.status r2) && (Resp.status r2 <? 300)); simpl;
                   (repeat split; try done); eexists [_; _]; rewrite <- app_assoc;
                   (split; [done|]);
                   intros b [->|[->|[]%elem_of_nil]%elem_of_cons]%elem_of_cons; done.
              ** (repeat split; try done); eexists [_; _]; rewrite <- app_assoc;
                   (split; [done|]);
                   intros b [->|[->|[]%elem_of_nil]%elem_of_cons]%elem_of_cons; done.
           ++ (repeat split; try done); eexists [_]; (split; [done|]);
                intros b [->|[]%elem_of_nil]%elem_of_cons; done.
        -- (repeat split; try done); eexists [_]; (split; [done|]);
             intros b [->|[]%elem_of_nil]%elem_of_cons; done.
      * (repeat split; try done); eexists [_]; (split; [done|]);
          intros b [->|[]%elem_of_nil]%elem_of_cons; done.
    + (repeat split; try done); eexists [_]; (split; [done|]);
        intros b [->|[]%elem_of_nil]%elem_of_cons; done.
  - destruct (Batch.soundcloudPass cli || Batch.soundcloudOnly cli); simpl.
    + destruct (Batch.postAppleVectors inp <? Batch.maxTracks cli - 1); simpl.
      * destruct (svc _) as [r2|e2]; simpl.
        -- destruct ((200 <=? Resp.status r2) && (Resp.status r2 <? 300)); simpl;
             (repeat split; try done); eexists [_]; (split; [done|]);
             intros b [->|[]%elem_of_nil]%elem_of_cons; done.
        -- (repeat split; try done); eexists [_]; (split; [done|]);
             intros b [->|[]%elem_of_nil]%elem_of_cons; done.
      * (repeat split; try done); exists []; rewrite app_nil_r; (split; [done|]);
          by intros b ?%elem_of_nil.
    + (repeat split; try done); exists []; rewrite app_nil_r; (split; [done|]);
        by intros b ?%elem_of_nil.
Qed.

Lemma applyUpdate_markBuilt t (d : gmap string value) :
  Mongo.applyUpdate (Batch.markBuilt t) d
  = Some (delete "essentiaProfileStaged"
            (<["essentiaProfileDate" := VDate t]>
               (<["essentiaProfileBuilt" := VBool true]> d))).
Proof. reflexivity. Qed.

Lemma applyUpdate_markStaged t (d : gmap string value) :
  Mongo.applyUpdate (Batch.markStaged t) d
  = Some (<["essentiaProfileDate" := VDate t]>
            (<["essentiaProfileStaged" := VBool true]> d)).
Proof. reflexivity. Qed.

Lemma applyUpdate_writeProfileOp r (d : gmap string value) :
  Mongo.applyUpdate (Batch.writeProfileOp r) d
  = Some (<["essentiaVersion" := VStr (Batch.versionOf r)]>
            (<["essentiaAudioProfile" := VProfile (Batch.profileOf r)]> d)).
Proof. reflexivity. Qed.










(** ** The migration *)

Lemma setPath_trackMatrix top (d : gmap string value) :
  Mongo.setPath "essentiaAudioProfile.trackMatrix" (VTracks top) d
  = match d !! "essentiaAudioProfile" with
    | None =>
        Some (<["essentiaAudioProfile" :=
                 VProfile (mkProfile (Some top) None None None None None)]> d)
    | Some (VProfile p) =>
        Some (<["essentiaAudioProfile" :=
                 VProfile (mkProfile (Some top) (genreMapping p) (recentEvolution p)
                             (averageFeatures p) (spectralFeatures p)
                             (metadataVersion p))]> d)
    | Some _ => None
    end.
Proof. reflexivity. Qed.




(** the run of the witness does turn the flag on, over the two stored tracks *)
Example staged_two_marked_built :
  let w := (Batch.processArtist idleService smallCli (Batch.mkInputs 0 0 9)
              (Batch.mkArtist (Some "a1") stagedTwo)
              (Batch.initialWorld {["a1" := stagedTwo]} [])).2 in
  (λ d, (d !! "essentiaProfileBuilt", matrixLength d)) <$> (Batch.artistCol w !! "a1")
  = Some (Some (VBool true), 2)
  ∧ length (Batch.writes w) = 1%nat.
Proof. vm_compute. split; reflexivity. Qed.


(** ** Writing the same analysis twice *)

#[local] Arguments Mongo.applyUpdate : simpl never.
#[local] Arguments Mongo.updateOne : simpl never.
#[local] Arguments Batch.updateOne : simpl never.

Lemma updateOne_found i u (col : gmap string (gmap string value)) d d' :
  col !! i = Some d → Mongo.applyUpdate u d = Some d' →
  Mongo.updateOne (Some i) u col
  = Some (if decide (d' = d) then (Mongo.mkUpdateResult 1 0, col)
          else (Mongo.mkUpdateResult 1 1, <[i := d']> col)).
Proof.
  intros Hd Hu. unfold Mongo.updateOne. rewrite Hd, Hu. by destruct (decide (d' = d)).
Qed.

Lemma updateOne_no_fault id u (w : Batch.World) r col' :
  Batch.faults w = [] → Mongo.updateOne id u (Batch.artistCol w) = Some (r, col') →
  Batch.updateOne id u w
  = (Returns r, Batch.withStore w col' [] (Batch.mkWriteEvent id u (Some r) col')).
Proof. intros Hf Hu. unfold Batch.updateOne. by rewrite Hf, Hu. Qed.

(** without store failures, the profile step leaves the matched document
    holding exactly the profile of the analysis *)
Lemma writeArtistProfile_stores cli a t r (w : Batch.World) i (d : gmap string value) :
  Batch.faults w = [] → Batch._id a = Some i → Batch.artistCol w !! i = Some d →
  Batch.faults (Batch.writeArtistProfile cli a t r w).2 = []
  ∧ ∃ d1,
      Batch.artistCol (Batch.writeArtistProfile cli a t r w).2 !! i = Some d1
      ∧ d1 !! "essentiaAudioProfile" = Some (VProfile (Batch.profileOf r))
      ∧ d1 !! "essentiaVersion" = Some (VStr (Batch.versionOf r)).
Proof.
  intros Hf Hi Hd.
  unfold Batch.writeArtistProfile, try_, try_catch, bind.
  rewrite Hi.
  set (d' := <["essentiaVersion" := VStr (Batch.versionOf r)]>
               (<["essentiaAudioProfile" := VProfile (Batch.profileOf r)]> d)).
  assert (Hp : d' !! "essentiaAudioProfile" = Some (VProfile (Batch.profileOf r))).
  { subst d'. by rewrite lookup_insert_ne, lookup_insert_eq. }
  assert (Hv : d' !! "essentiaVersion" = Some (VStr (Batch.versionOf r))).
  { subst d'. by rewrite lookup_insert_eq. }
  pose proof (updateOne_found i (Batch.writeProfileOp r) _ d d' Hd
                (applyUpdate_writeProfileOp r d)) as Hm.
  destruct (decide (d' = d)) as [Heq|Hne];
    rewrite (updateOne_no_fault _ _ w _ _ Hf Hm); simpl.
  { split; [done|]. exists d. rewrite Heq in Hp, Hv. done. }
  set (w1 := Batch.withStore w _ _ _).
  assert (Hf1 : Batch.faults w1 = []) by done.
  assert (Hd1 : Batch.artistCol w1 !! i = Some d') by apply lookup_insert_eq.
  destruct (Batch.maxTracks cli <=? _); simpl.
  - pose proof (updateOne_found i (Batch.markBuilt t) _ d' _ Hd1
                  (applyUpdate_markBuilt t d')) as Hm1.
    match type of Hm1 with context [decide (?x = d')] =>
      destruct (decide (x = d')) as [E|E] end;
      rewrite (updateOne_no_fault _ _ w1 _ _ Hf1 Hm1); simpl; (split; [done|]).
    + by exists d'.
    + eexists. rewrite lookup_insert_eq. split; [done|].
      by rewrite !lookup_delete_ne, !lookup_insert_ne.
  - destruct (0 <? _); simpl.
    + pose proof (updateOne_found i (Batch.markStaged t) _ d' _ Hd1
                    (applyUpdate_markStaged t d')) as Hm1.
      match type of Hm1 with context [decide (?x = d')] =>
        destruct (decide (x = d')) as [E|E] end;
        rewrite (updateOne_no_fault _ _ w1 _ _ Hf1 Hm1); simpl; (split; [done|]).
      * by exists d'.
      * eexists. rewrite lookup_insert_eq. split; [done|].
        by rewrite !lookup_insert_ne.
    + split; [done|]. by exists d'.
Qed.

(** writing the profile a document already holds changes nothing *)
Lemma writeArtistProfile_again cli a t r (w : Batch.World) i (d : gmap string value) :
  Batch.faults w = [] → Batch._id a = Some i → Batch.artistCol w !! i = Some d →
  d !! "essentiaAudioProfile" = Some (VProfile (Batch.profileOf r)) →
  d !! "essentiaVersion" = Some (VStr (Batch.versionOf r)) →
  Batch.artistCol (Batch.writeArtistProfile cli a t r w).2 = Batch.artistCol w.
Proof.
  intros Hf Hi Hd Hp Hv.
  unfold Batch.writeArtistProfile, try_, try_catch, bind.
  rewrite Hi.
  pose proof (updateOne_found i (Batch.writeProfileOp r) _ d _ Hd
                (applyUpdate_writeProfileOp r d)) as Hm.
  rewrite (insert_id d "essentiaAudioProfile") in Hm by done.
  rewrite (insert_id d "essentiaVersion") in Hm by done.
  destruct (decide (d = d)); [|done].
  by rewrite (updateOne_no_fault _ _ w _ _ Hf Hm).
Qed.

(** ** The upsert of the artist profile *)

(** [$set] over plain fields is a left-biased union with the pairs, the
    later pair winning *)
Lemma setFields_union l (d : gmap string value) :
  Mongo.setFields l d = list_to_map (reverse l) ∪ d.
Proof.
  unfold Mongo.setFields. revert d.
  induction l as [|[k v] l IH]; intros d; simpl.
  - by rewrite (left_id_L ∅ (∪)).
  - rewrite IH, reverse_cons, list_to_map_app. simpl.
    rewrite <- (assoc_L (∪)). f_equal.
    rewrite insert_empty. by rewrite <- insert_union_singleton_l.
Qed.

Lemma setFields_idemp l (d : gmap string value) :
  Mongo.setFields l (Mongo.setFields l d) = Mongo.setFields l d.
Proof.
  rewrite !setFields_union. rewrite (assoc_L (∪)). by rewrite (idemp_L (∪)).
Qed.

(** a document of the collection after an upsert was there before, or is what
    the [$set] made of one *)
Lemma upsertOne_elem k v l (col : list (gmap string value)) d :
  d ∈ Mongo.upsertOne k v l col → d ∈ col ∨ ∃ d0, d = Mongo.setFields l d0.
Proof.
  unfold Mongo.upsertOne.
  destruct (list_find _ col) as [[i d0]|] eqn:Hfind.
  - intros (j & Hj)%list_elem_of_lookup.
    apply list_lookup_insert_Some in Hj as [(-> & <- & _)|(_ & Hj)].
    + right. by exists d0.
    + left. apply list_elem_of_lookup. by exists j.
  - intros [Hin| ->%list_elem_of_singleton]%elem_of_app; [by left|].
    right. by eexists.
Qed.

(** an upsert whose [$set] writes the filter's own value back is idempotent *)
Lemma upsertOne_idemp k v l (col : list (gmap string value)) :
  (∀ d0, Mongo.setFields l d0 !! k = Some v) →
  Mongo.upsertOne k v l (Mongo.upsertOne k v l col) = Mongo.upsertOne k v l col.
Proof.
  intros Hkey. unfold Mongo.upsertOne at 2 3.
  destruct (list_find _ col) as [[i d0]|] eqn:Hfind.
  - apply list_find_Some in Hfind as (Hi & _ & Hleast).
    assert (Hlt : (i < length col)%nat) by eauto using lookup_lt_Some.
    unfold Mongo.upsertOne.
    rewrite (proj2 (list_find_Some _ (<[i := Mongo.setFields l d0]> col) i
                      (Mongo.setFields l d0))).
    + by rewrite setFields_idemp, list_insert_insert_eq.
    + split; [by apply list_lookup_insert_eq|]. split; [apply Hkey|].
      intros j y Hj Hji. rewrite list_lookup_insert_ne in Hj by lia. eauto.
  - apply list_find_None in Hfind.
    unfold Mongo.upsertOne.
    rewrite (proj2 (list_find_Some _ (col ++ [Mongo.setFields l {[k := v]}])
                      (length col) (Mongo.setFields l {[k := v]}))).
    + rewrite setFields_idemp. apply list_insert_id. by apply list_lookup_middle.
    + split; [by apply list_lookup_middle|]. split; [apply Hkey|].
      intros j y Hj Hji. rewrite lookup_app_l in Hj by done.
      by eapply (Forall_lookup_1 _ _ _ _ Hfind).
Qed.

(** a second upsert with the same filter finds the document of the first *)
Lemma upsertOne_again k v l1 l2 (col : list (gmap string value)) :
  (∀ d0, Mongo.setFields l1 d0 !! k = Some v) →
  ∃ i d0,
    Mongo.upsertOne k v l1 col !! i = Some (Mongo.setFields l1 d0)
    ∧ Mongo.upsertOne k v l2 (Mongo.upsertOne k v l1 col)
      = <[i := Mongo.setFields l2 (Mongo.setFields l1 d0)]> (Mongo.upsertOne k v l1 col).
Proof.
  intros Hkey. unfold Mongo.upsertOne at 1 3 4.
  destruct (list_find _ col) as [[i d0]|] eqn:Hfind.
  - apply list_find_Some in Hfind as (Hi & _ & Hleast).
    assert (Hlt : (i < length col)%nat) by eauto using lookup_lt_Some.
    exists i, d0. split; [by apply list_lookup_insert_eq|].
    unfold Mongo.upsertOne.
    rewrite (proj2 (list_find_Some _ (<[i := Mongo.setFields l1 d0]> col) i
                      (Mongo.setFields l1 d0))); [done|].
    split; [by apply list_lookup_insert_eq|]. split; [apply Hkey|].
    intros j y Hj Hji. rewrite list_lookup_insert_ne in Hj by lia. eauto.
  - apply list_find_None in Hfind.
    exists (length col), {[k := v]}. split; [by apply list_lookup_middle|].
    unfold Mongo.upsertOne.
    rewrite (proj2 (list_find_Some _ (col ++ [Mongo.setFields l1 {[k := v]}])
                      (length col) (Mongo.setFields l1 {[k := v]}))); [done|].
    split; [by apply list_lookup_middle|]. split; [apply Hkey|].
    intros j y Hj Hji. rewrite lookup_app_l in Hj by done.
    by eapply (Forall_lookup_1 _ _ _ _ Hfind).
Qed.

Lemma profileFields_trackMatrix env req s r (d0 : gmap string value) :
  Mongo.setFields (Server.profileFields env req s r) d0 !! "trackMatrix"
  = Some (VTracks (Server.trackProfiles s)).
Proof.
  unfold Mongo.setFields, Server.profileFields. simpl.
  rewrite !lookup_insert_ne by done. apply lookup_insert_eq.
Qed.

Lemma profileFields_artistName env req s r (d0 : gmap string value) :
  Mongo.setFields (Server.profileFields env req s r) d0 !! "artistName"
  = Some (VStr (Server.artistName req)).
Proof.
  unfold Mongo.setFields, Server.profileFields. simpl.
  rewrite !lookup_insert_ne by done. apply lookup_insert_eq.
Qed.

(** the stored matrix of a document of [artist_genre_profiles] *)
Lemma persistProfile_elem env req s r (col : list (gmap string value)) d :
  d ∈ Server.persistProfile env req s r col →
  d ∈ col ∨ d !! "trackMatrix" = Some (VTracks (Server.trackProfiles s)).
Proof.
  unfold Server.persistProfile.
  destruct (Server.dbConnected env && negb (Server.storeFails env)); [|by left].
  intros [?|[d0 ->]]%upsertOne_elem; [by left|right].
  apply profileFields_trackMatrix.
Qed.

Lemma persistProfile_idemp env req s r (col : list (gmap string value)) :
  Js.toLowerCase (Server.artistName req) = Server.artistName req →
  Server.persistProfile env req s r (Server.persistProfile env req s r col)
  = Server.persistProfile env req s r col.
Proof.
  intros Hlow. unfold Server.persistProfile.
  destruct (Server.dbConnected env && negb (Server.storeFails env)); [|done].
  apply upsertOne_idemp. intros d0. rewrite Hlow. apply profileFields_artistName.
Qed.

(** C3, as amended.  Persisting the same set of track profiles twice
    stores exactly that set as the [trackMatrix] of the artist's aggregate:
    both writes replace the matrix, so it holds a duplicate track id only
    where the set itself does, and the second write finds the aggregate of
    the first and leaves the matrix and its length as they were.  For the
    batch driver's write into a stored artist document (no store failure)
    the second write changes nothing in the collection.  For the service's
    upsert with a connected store, an artist name in ASCII lower case and
    the same profiles, whatever the clock and the rest of the answer, the
    first upsert leaves an aggregate that holds the profiles, the second
    upsert writes that same aggregate and no other, the number of aggregates
    stays, and with the same clock and answer the collection stays as a
    whole. *)
Theorem repeated_merge_stores_the_same_matrix
    (cli : Batch.Cli) (a : Batch.Artist) (t1 t2 : Z) (r : Resp.t) (w : Batch.World)
    (i : string) (d : gmap string value)
    (env1 env2 : Server.Env) (req : Server.Request) (s1 s2 : Server.St)
    (r1 r2 : Resp.t) (col : list (gmap string value)) :
  Batch.faults w = [] → Batch._id a = Some i → Batch.artistCol w !! i = Some d →
  Server.dbConnected env1 = true → Server.storeFails env1 = false →
  Server.dbConnected env2 = true → Server.storeFails env2 = false →
  Js.isAscii (Server.artistName req) = true →
  Js.toLowerCase (Server.artistName req) = Server.artistName req →
  Server.trackProfiles s2 = Server.trackProfiles s1 →
  let once := (Batch.writeArtistProfile cli a t1 r w).2 in
  let twice := (Batch.writeArtistProfile cli a t2 r once).2 in
  let merged := default [] (Resp.trackMatrix r) in
  let once' := Server.persistProfile env1 req s1 r1 col in
  let twice' := Server.persistProfile env2 req s2 r2 once' in
  (∃ d1, Batch.artistCol once !! i = Some d1 ∧ Mongo.trackMatrixOf d1 = Some merged)
  ∧ Batch.artistCol twice = Batch.artistCol once
  ∧ (∃ d2, Batch.artistCol twice !! i = Some d2
           ∧ Mongo.trackMatrixOf d2 = Some merged
           ∧ matrixLength d2 = Z.of_nat (length merged)
           ∧ (NoDup (trackIds merged)
              ↔ ∀ m, Mongo.trackMatrixOf d2 = Some m → NoDup (trackIds m)))
  ∧ (∃ (j : nat) (d1 d2 : gmap string value),
       once' !! j = Some d1 ∧ twice' !! j = Some d2
       ∧ d1 !! "trackMatrix" = Some (VTracks (Server.trackProfiles s1))
       ∧ d2 !! "trackMatrix" = Some (VTracks (Server.trackProfiles s1))
       ∧ d1 !! "artistName" = Some (VStr (Server.artistName req))
       ∧ d2 !! "artistName" = Some (VStr (Server.artistName req))
       ∧ length twice' = length once'
       ∧ ∀ j', j' ≠ j → twice' !! j' = once' !! j')
  ∧ (env2 = env1 → s2 = s1 → r2 = r1 → twice' = once').
Proof.
  intros Hf Hi Hd Hdb1 Hst1 Hdb2 Hst2 _ Hlow Hsame12 once twice merged once' twice'.
  destruct (writeArtistProfile_stores cli a t1 r w i d Hf Hi Hd)
    as (Hf1 & d1 & Hd1 & Hp1 & Hv1).
  fold once in Hf1, Hd1.
  assert (Hm1 : Mongo.trackMatrixOf d1 = Some merged).
  { unfold Mongo.trackMatrixOf. by rewrite Hp1. }
  assert (Hsame : Batch.artistCol twice = Batch.artistCol once).
  { by apply (writeArtistProfile_again cli a t2 r once i d1). }
  split; [by exists d1|]. split; [exact Hsame|]. split.
  { exists d1. rewrite Hsame. split; [done|]. split; [done|]. split.
    - unfold matrixLength. by rewrite Hm1.
    - split.
      + intros Hnd m Hm. rewrite Hm1 in Hm. by injection Hm as <-.
      + intros Hall. by apply Hall. }
  subst once' twice'. unfold Server.persistProfile.
  rewrite Hdb1, Hst1, Hdb2, Hst2. cbn [negb andb].
  split.
  - destruct (upsertOne_again "artistName"
                (VStr (Js.toLowerCase (Server.artistName req)))
                (Server.profileFields env1 req s1 r1)
                (Server.profileFields env2 req s2 r2) col)
      as (j & d0 & Hj & ->).
    { intros d0. rewrite Hlow. apply profileFields_artistName. }
    assert (Hlt : (j < length (Mongo.upsertOne "artistName"
                                 (VStr (Js.toLowerCase (Server.artistName req)))
                                 (Server.profileFields env1 req s1 r1) col))%nat)
      by eauto using lookup_lt_Some.
    eexists j, _, _. split; [exact Hj|].
    split; [by apply list_lookup_insert_eq|].
    split; [apply profileFields_trackMatrix|].
    split; [rewrite <- Hsame12; apply profileFields_trackMatrix|].
    split; [apply profileFields_artistName|].
    split; [apply profileFields_artistName|].
    split; [apply length_insert|].
    intros j' Hj'. by apply list_lookup_insert_ne.
  - intros -> -> ->. apply upsertOne_idemp.
    intros d0. rewrite Hlow. apply profileFields_artistName.
Qed.

Lemma repeated_merge_stores_the_same_matrix_witness :
  let w := Batch.initialWorld {["a1" := stagedTwo]} [] in
  let a := Batch.mkArtist (Some "a1") stagedTwo in
  let once := (Batch.writeArtistProfile defaultCli a 1 (answerWith sixNew) w).2 in
  let twice := (Batch.writeArtistProfile defaultCli a 2 (answerWith sixNew) once).2 in
  let once' := Server.persistProfile plainEnv plainRequest sixAnalysed
                 (answerWith sixNew) [] in
  let twice' := Server.persistProfile laterEnv plainRequest sixAnalysed
                  (answerWith sixNew) once' in
  (∃ d1, Batch.artistCol once !! "a1" = Some d1 ∧ Mongo.trackMatrixOf d1 = Some sixNew)
  ∧ Batch.artistCol twice = Batch.artistCol once
  ∧ (∃ d2 m, Batch.artistCol twice !! "a1" = Some d2
             ∧ Mongo.trackMatrixOf d2 = Some m
             ∧ matrixLength d2 = 6
             ∧ NoDup (trackIds m))
  ∧ (∃ (j : nat) (d1 d2 : gmap string value),
       once' !! j = Some d1 ∧ twice' !! j = Some d2
       ∧ d1 !! "trackMatrix" = Some (VTracks sixNew)
       ∧ d2 !! "trackMatrix" = Some (VTracks sixNew))
  ∧ length once' = 1%nat ∧ length twice' = 1%nat
  ∧ (once' !! 0%nat ≫= lookup "updatedAt") = Some (VDate 0)
  ∧ (twice' !! 0%nat ≫= lookup "updatedAt") = Some (VDate 60000).
Proof.
  intros w a once twice once' twice'.
  destruct (repeated_merge_stores_the_same_matrix defaultCli a 1 2 (answerWith sixNew) w
              "a1" stagedTwo plainEnv laterEnv plainRequest sixAnalysed sixAnalysed
              (answerWith sixNew) (answerWith sixNew) []
              eq_refl eq_refl eq_refl eq_refl eq_refl eq_refl eq_refl eq_refl eq_refl
              eq_refl)
    as (H1 & H2 & (d2 & Hd2 & Hm & Hlen & Hnd)
        & (j & e1 & e2 & He1 & He2 & Hm1 & Hm2 & _ & _ & Hlen' & _) & _).
  split; [exact H1|]. split; [exact H2|]. split.
  { exists d2, sixNew. split; [exact Hd2|]. split; [exact Hm|]. split; [exact Hlen|].
    apply (λ H, proj1 Hnd H sixNew Hm).
    apply (bool_decide_unpack _). vm_compute. exact I. }
  split.
  { exists j, e1, e2. split; [exact He1|]. split; [exact He2|].
    split; [exact Hm1|exact Hm2]. }
  assert (Hone : length once' = 1%nat) by (vm_compute; reflexivity).
  split; [exact Hone|]. split; [by rewrite <- Hone|].
  split; vm_compute; reflexivity.
Defined.

(** C3, as stated, fails on the duplicates: the writes replace the matrix and
    merge nothing by track id.  The service analyses a track that is on the
    top-track list and on a recent album twice (C10); persisting that
    analysis twice leaves one aggregate whose matrix holds the id twice.
    The batch driver stores the matrix of such an answer as it is. *)
Lemma merged_matrix_keeps_duplicate_ids :
  let once := (Server.analyzeArtist quietNet tokenEnv lowerRequest dupCatalog []).1.2 in
  let twice := (Server.analyzeArtist quietNet tokenEnv lowerRequest dupCatalog once).1.2 in
  let answer := (Server.analyzeArtist quietNet tokenEnv lowerRequest dupCatalog []).1.1 in
  let w := Batch.initialWorld {["a1" := stagedTwo]} [] in
  let a := Batch.mkArtist (Some "a1") stagedTwo in
  let stored := (Batch.writeArtistProfile defaultCli a 1 answer w).2 in
  let stored' := (Batch.writeArtistProfile defaultCli a 2 answer stored).2 in
  map storedIds once = [Some ["d1"; "d1"]]
  ∧ map storedIds twice = [Some ["d1"; "d1"]]
  ∧ (trackIds <$> (Batch.artistCol stored' !! "a1" ≫= Mongo.trackMatrixOf))
    = Some ["d1"; "d1"]
  ∧ ¬ NoDup ["d1"; "d1"].
Proof.
  split; [vm_compute; reflexivity|]. split; [vm_compute; reflexivity|].
  split; [vm_compute; reflexivity|].
  intros H. apply NoDup_cons in H as [H _]. apply H. apply elem_of_cons. by left.
Qed.

(** ** Resuming a staged profile *)

(** the part of a resume the code keeps: the passes of a resumed artist ask
    the service for the remaining [maxTracks - k] tracks *)
Lemma resume_requests_remainder svc cli inp a nm (w : Batch.World) (k : Z) :
  Batch.stagedLen a = k → 0 <= k < Batch.maxTracks cli →
  ∃ news,
    Batch.requests (Batch.analysisPasses svc cli inp a nm w).2
    = Batch.requests w ++ news
    ∧ ∀ b, b ∈ news → Batch.bodyMaxTracks b = Batch.maxTracks cli - k.
Proof.
  intros Hk Hlt.
  destruct (analysisPasses_frame svc cli inp a nm w) as (_ & _ & _ & news & Hr & Hb).
  exists news. split; [done|]. intros b Hin. rewrite (Hb b Hin).
  unfold Batch.requestedTracks, Batch.remainingTracks. rewrite Hk.
  destruct (Z.max 0 (Batch.maxTracks cli - k) =? 0) eqn:E; [|lia].
  apply Z.eqb_eq in E. lia.
Qed.

(** C4 on the code: a staged profile of four tracks is resumed with a target
    of ten.  The driver asks for six tracks; the six new profiles replace the
    stored four, and the profile is staged again with six.  When the service
    answers with ten, the profile is built from those ten alone. *)
Lemma resume_discards_staged_tracks :
  let a := Batch.mkArtist (Some "a1") stagedFour in
  let w := Batch.initialWorld {["a1" := stagedFour]} [] in
  let six := (Batch.processArtist sixService resumeCli (Batch.mkInputs 0 0 9) a w).2 in
  let ten := (Batch.processArtist tenService resumeCli (Batch.mkInputs 0 0 9) a w).2 in
  map Batch.bodyMaxTracks (Batch.requests six) = [6]
  ∧ (λ d, (trackIds <$> Mongo.trackMatrixOf d, d !! "essentiaProfileBuilt",
           d !! "essentiaProfileStaged")) <$> (Batch.artistCol six !! "a1")
    = Some (Some ["n1"; "n2"; "n3"; "n4"; "n5"; "n6"], None, Some (VBool true))
  ∧ (λ d, (trackIds <$> Mongo.trackMatrixOf d, d !! "essentiaProfileBuilt",
           d !! "essentiaProfileStaged")) <$> (Batch.artistCol ten !! "a1")
    = Some (Some ["n1"; "n2"; "n3"; "n4"; "n5"; "n6"; "n7"; "n8"; "n9"; "n10"],
            Some (VBool true), None).
Proof. vm_compute. repeat split; reflexivity. Qed.

(** ** Computations that never throw *)

Section Returns.
Context {S : Type}.

Lemma returns_ret {A} (a : A) : returns (ret a : M S A).
Proof. intros s. by exists a, s. Qed.

Lemma returns_get : returns (get : M S S).
Proof. intros s. by exists s, s. Qed.

Lemma returns_modify (f : S → S) : returns (modify f).
Proof. intros s. by exists tt, (f s). Qed.

Lemma returns_bind {A B} (m : M S A) (f : A → M S B) :
  returns m → (∀ a, returns (f a)) → returns (bind m f).
Proof.
  intros Hm Hf s. unfold bind. destruct (Hm s) as (a & s' & ->). apply Hf.
Qed.

Lemma returns_try_catch {A} (m : M S A) (h : string → M S A) :
  (∀ e, returns (h e)) → returns (try_catch m h).
Proof.
  intros Hh s. unfold try_catch. destruct (m s) as [[a|e] s']; [by exists a, s'|apply Hh].
Qed.

Lemma returns_try_ (m : M S unit) : returns (try_ m).
Proof. apply returns_try_catch. intros _. apply returns_ret. Qed.

Lemma returns_when_ (c : bool) (m : M S unit) : returns m → returns (when_ c m).
Proof. destruct c; [done|]. intros _. apply returns_ret. Qed.

Lemma returns_forEach {A} (l : list A) (body : A → M S unit) :
  (∀ x, returns (body x)) → returns (forEach l body).
Proof.
  intros Hb. induction l as [|x l IH]; simpl; [apply returns_ret|].
  apply returns_bind; [apply Hb|by intros _].
Qed.

End Returns.

(** closes a goal [returns m] for [m] built from the combinators, leaving
    what it cannot decide *)
Ltac returns_step :=
  first
    [ apply returns_ret | apply returns_get | apply returns_modify
    | apply returns_try_ | apply returns_when_
    | apply returns_try_catch; intros ?
    | apply returns_bind; [|intros ?]
    | apply returns_forEach; intros ?
    | match goal with
      | |- returns (if ?b then _ else _) => destruct b
      | |- returns (match ?x with _ => _ end) => destruct x
      | |- returns (let '(_, _) := ?x in _) => destruct x
      end ].

Section Safety.
Variable net : Sources.Net.
Variable env : Server.Env.
Variable req : Server.Request.

Lemma acquirePreviewForTrack_returns t :
  returns (Server.acquirePreviewForTrack net env req t).
Proof.
  unfold Server.acquirePreviewForTrack, Server.startResolution, Server.earlySoundCloud,
    Server.relaxedSoundCloud, Server.applePrimary, Server.spotifyRecovery,
    Server.noteRecoveryDisabled, Server.balancedAppleExact, Server.balancedAppleBroad,
    Server.explicitSoundCloud, Server.aggregator, Server.fallbackOriginal,
    Server.restoreApple, Server.restoreSpotify.
  repeat returns_step.
Qed.

Lemma analyzeTrack_returns round t : returns (Server.analyzeTrack net env req round t).
Proof. unfold Server.analyzeTrack. apply returns_try_. Qed.

Lemma runRound_returns round l : returns (Server.runRound net env req round l).
Proof. apply returns_forEach. intros t. apply analyzeTrack_returns. Qed.

Lemma runRounds_returns tracks : returns (Server.runRounds net env req tracks).
Proof.
  unfold Server.runRounds.
  apply returns_bind; [apply runRound_returns|intros _].
  apply returns_bind; [apply returns_get|intros s].
  destruct (Server.round2Gate _ _ _ _); [|apply returns_ret].
  apply returns_bind; [apply runRound_returns|intros _]. apply returns_ret.
Qed.

Variable catalog : Server.Catalog.

Lemma fetchOr_returns tracks request f reason :
  returns (Server.fetchOr tracks request f reason).
Proof. unfold Server.fetchOr. repeat returns_step. Qed.

Lemma addAlbumTracks_returns l tracks :
  returns (Server.addAlbumTracks catalog l tracks).
Proof.
  revert tracks. induction l as [|a l IH]; intros tracks; simpl; [apply returns_ret|].
  apply returns_bind; [apply fetchOr_returns|]. intros tracks'. apply IH.
Qed.

Lemma fetchTracks_returns : returns (Server.fetchTracks env req catalog).
Proof.
  unfold Server.fetchTracks.
  apply returns_bind.
  { destruct (_ && _); [|apply returns_ret].
    apply returns_bind; [apply fetchOr_returns|intros top].
    destruct (Server.includeRecentReleases req); [|apply returns_ret].
    apply returns_try_catch. intros e. repeat returns_step. }
  intros tracks1. apply returns_bind.
  { destruct tracks1; [|apply returns_ret].
    destruct (Js.truthy _); [apply fetchOr_returns|apply returns_ret]. }
  intros tracks2. destruct tracks2; [|apply returns_ret].
  destruct (_ || _); repeat returns_step.
Qed.

Lemma analyzeArtistBody_returns profiles :
  returns (Server.analyzeArtistBody net env req catalog profiles).
Proof.
  unfold Server.analyzeArtistBody.
  apply returns_bind; [apply fetchTracks_returns|intros tracks].
  destruct tracks as [|t tracks]; [apply returns_ret|].
  apply returns_bind; [apply returns_modify|intros _].
  apply returns_bind; [apply runRounds_returns|intros rounds].
  apply returns_bind; [apply returns_get|intros s].
  repeat returns_step.
Qed.

End Safety.

(** ** The gate between the rounds *)

Lemma atLeast40Percent_spec (succeeded attempted : Z) :
  0 < attempted →
  Server.atLeast40Percent (Server.successRate succeeded attempted) = true
  ↔ (4 # 10 <= inject_Z succeeded / inject_Z attempted)%Q.
Proof.
  intros Hpos. unfold Server.successRate, Server.atLeast40Percent.
  destruct (attempted =? 0) eqn:E; [apply Z.eqb_eq in E; lia|].
  rewrite Qle_bool_iff, (Qmake_Qdiv succeeded (Z.to_pos attempted)), Z2Pos.id by done.
  reflexivity.
Qed.

Lemma round1Tracks_nonempty req (tracks : list Track.t) :
  tracks ≠ [] → Server.fastMode req = false → Server.round1Tracks req tracks ≠ [].
Proof.
  intros Hne Hfast. unfold Server.round1Tracks. rewrite Hfast.
  destruct tracks as [|t l]; [done|].
  unfold Server.topOf, Server.recentOf. simpl.
  destruct (Track.isRecentRelease t); simpl.
  - destruct (take 5 _); done.
  - done.
Qed.

(** C2, as amended.  For a request whose fetched track list is not empty,
    round 1 runs to its end, and round 2 runs if and only if fast mode is
    off, the elapsed time is at most 22000 ms (the guard is
    [elapsedMs > 22000]), the successes of round 1 divided by its attempts
    are at least 0.4, and [maxTracks] exceeds 10.  When the four conditions
    hold, the rounds are round 1 followed by the loop of round 2 over the
    next five top tracks and the next five recent ones, and the tracks of
    both count as attempted.  When one of them fails, the handler leaves the
    rounds in the state round 1 left: no track of round 2 is resolved or
    analysed, no provider is asked, no profile, counter or failure reason is
    added, and only the tracks of round 1 count as attempted.  A rate below
    0.4 keeps round 2 from running whatever the time and the target. *)
Theorem round2_runs_iff_gate_open
    (net : Sources.Net) (env : Server.Env) (req : Server.Request)
    (tracks : list Track.t) (s : Server.St) :
  tracks ≠ [] →
  ∃ s1 : Server.St,
    Server.runRound net env req 1 (Server.round1Tracks req tracks) s = (Returns tt, s1)
    ∧ let succeeded := Server.counter "round1Success" s1 in
      let n := Z.of_nat (length (Server.round1Tracks req tracks)) in
      let gateOpen :=
        Server.fastMode req = false
        ∧ Server.elapsedMs env <= 22000
        ∧ (4 # 10 <= inject_Z succeeded / inject_Z n)%Q
        ∧ 10 < default 20 (Server.maxTracks req) in
      (gateOpen →
       ∃ s2, Server.runRound net env req 2 (Server.round2Tracks tracks) s1
             = (Returns tt, s2)
             ∧ Server.runRounds net env req tracks s
               = (Returns (true, n + Z.of_nat (length (Server.round2Tracks tracks))), s2))
      ∧ (¬ gateOpen →
         Server.runRounds net env req tracks s = (Returns (false, n), s1))
      ∧ (0 < n → (inject_Z succeeded / inject_Z n < 4 # 10)%Q →
         Server.runRounds net env req tracks s = (Returns (false, n), s1)).
Proof.
  intros Hne.
  destruct (runRound_returns net env req 1 (Server.round1Tracks req tracks) s)
    as ([] & s1 & H1).
  exists s1. split; [exact H1|].
  unfold Server.runRounds, bind, get. rewrite H1.
  set (n := Z.of_nat (length (Server.round1Tracks req tracks))).
  set (succeeded := Server.counter "round1Success" s1).
  cbv zeta.
  assert (Hgate : Server.round2Gate env req succeeded n = true
                  ↔ Server.fastMode req = false
                    ∧ Server.elapsedMs env <= 22000
                    ∧ (4 # 10 <= inject_Z succeeded / inject_Z n)%Q
                    ∧ 10 < default 20 (Server.maxTracks req)).
  { unfold Server.round2Gate, Server.nearingTimeout.
    rewrite !andb_true_iff, !negb_true_iff, Z.ltb_ge, Z.ltb_lt.
    destruct (Server.fastMode req) eqn:Hfast; [by intuition|].
    assert (0 < n).
    { pose proof (round1Tracks_nonempty req tracks Hne Hfast) as Hr.
      subst n. destruct (Server.round1Tracks req tracks); [done|]. simpl. lia. }
    rewrite atLeast40Percent_spec by done. tauto. }
  assert (Hlow : 0 < n → (inject_Z succeeded / inject_Z n < 4 # 10)%Q →
                 Server.round2Gate env req succeeded n = false).
  { intros Hpos Hlt. apply not_true_is_false. intros Hg.
    unfold Server.round2Gate in Hg. rewrite !andb_true_iff in Hg.
    destruct Hg as [[[_ _] Hrate] _].
    apply atLeast40Percent_spec in Hrate; [|done].
    apply (Qlt_not_le _ _ Hlt Hrate). }
  destruct (Server.round2Gate env req succeeded n) eqn:Hg.
  - destruct (runRound_returns net env req 2 (Server.round2Tracks tracks) s1)
      as ([] & s2 & H2).
    rewrite H2. split; [|split].
    + intros _. by exists s2.
    + intros Hclosed. destruct Hclosed. by apply Hgate.
    + intros Hpos Hlt. pose proof (Hlow Hpos Hlt) as Hf. congruence.
  - split; [|split].
    + intros Hopen. apply Hgate in Hopen. discriminate Hopen.
    + done.
    + done.
Qed.

Lemma round2_runs_iff_gate_open_witness :
  ∃ s1 s2 : Server.St,
    Server.runRound quietNet thresholdEnv fullRequest 1
      (Server.round1Tracks fullRequest sixTracks) Server.initialSt = (Returns tt, s1)
    ∧ Server.runRound quietNet thresholdEnv fullRequest 2
        (Server.round2Tracks sixTracks) s1 = (Returns tt, s2)
    ∧ Server.runRounds quietNet thresholdEnv fullRequest sixTracks Server.initialSt
      = (Returns (true, 6), s2)
    ∧ map analysisRound (Server.trackProfiles s1) = [1; 1; 1; 1; 1]
    ∧ map analysisRound (Server.trackProfiles s2) = [1; 1; 1; 1; 1; 2].
Proof.
  destruct (round2_runs_iff_gate_open quietNet thresholdEnv fullRequest sixTracks
              Server.initialSt) as (s1 & H1 & Hopen & _ & _).
  { discriminate. }
  assert (Hs1 : s1 = (Server.runRound quietNet thresholdEnv fullRequest 1
                        (Server.round1Tracks fullRequest sixTracks)
                        Server.initialSt).2)
    by (by rewrite H1).
  destruct Hopen as (s2 & H2 & Hrounds).
  { rewrite Hs1. vm_compute. repeat split; discriminate. }
  assert (Hs2 : s2 = (Server.runRounds quietNet thresholdEnv fullRequest sixTracks
                        Server.initialSt).2)
    by (by rewrite Hrounds).
  exists s1, s2. split; [exact H1|]. split; [exact H2|]. split; [exact Hrounds|].
  split; [rewrite Hs1|rewrite Hs2]; vm_compute; reflexivity.
Defined.

(** C2, as stated, fails at the threshold itself: 22000 ms after the start
    the elapsed time is not below 22 seconds, and round 2 runs. *)
Lemma round2_runs_at_the_threshold :
  (Server.elapsedMs thresholdEnv <? 22000) = false
  ∧ (Server.runRounds quietNet thresholdEnv fullRequest sixTracks Server.initialSt).1
    = Returns (true, 6)
  ∧ map analysisRound
      (Server.trackProfiles
         (Server.runRounds quietNet thresholdEnv fullRequest sixTracks
            Server.initialSt).2)
    = [1; 1; 1; 1; 1; 2].
Proof. vm_compute. repeat split; reflexivity. Qed.

(** ** Answers without audio *)

(** the order in which [buildGenreMapping] looks for genres *)
Lemma buildGenreMapping_priority (l : list TrackProfile) (name : string)
    (known : list string) :
  (known ≠ [] →
   Server.buildGenreMapping l name known = mkGenreMapping (take 5 known) "spotify" 100)
  ∧ (known = [] → Server.inferGenresFromTracks l ≠ [] →
     Server.buildGenreMapping l name known
     = mkGenreMapping (Server.inferGenresFromTracks l) "audio_analysis" 80)
  ∧ (known = [] → Server.inferGenresFromTracks l = [] →
     Server.inferGenreFromArtistName name ≠ [] →
     Server.buildGenreMapping l name known
     = mkGenreMapping (Server.inferGenreFromArtistName name) "name_inference" 60)
  ∧ (known = [] → Server.inferGenresFromTracks l = [] →
     Server.inferGenreFromArtistName name = [] →
     Server.buildGenreMapping l name known = mkGenreMapping [] "none" 0).
Proof.
  unfold Server.buildGenreMapping.
  destruct known as [|k ks]; [|by repeat split].
  destruct (Server.inferGenresFromTracks l) as [|g gs]; [|by repeat split].
  destruct (Server.inferGenreFromArtistName name) as [|g gs]; by repeat split.
Qed.

(** the handler after a fetch that found tracks: the rounds run from the
    state the fetch left, and the answer is read off the state they leave *)
Lemma analyzeArtist_after_fetch
    (net : Sources.Net) (env : Server.Env) (req : Server.Request)
    (catalog : Server.Catalog) (profiles : list (gmap string value))
    (t : Track.t) (l : list Track.t) (s0 : Server.St) :
  Server.artistName req ≠ "" →
  Server.fetchTracks env req catalog Server.initialSt = (Returns (t :: l), s0) →
  ∃ rounds s2,
    (∃ s1, Server.runRounds net env req (t :: l) s1 = (Returns rounds, s2)
           ∧ Server.trackProfiles s1 = Server.trackProfiles s0)
    ∧ Server.analyzeArtist net env req catalog profiles
      = (let g := Server.buildGenreMapping (Server.trackProfiles s2)
                    (Server.artistName req) (Server.existingGenres req) in
         match Server.trackProfiles s2 with
         | [] =>
             match inferredGenres g with
             | _ :: _ => (Server.partialResponse env req g rounds.2, profiles)
             | [] => (Server.failedResponse rounds.2, profiles)
             end
         | _ :: _ =>
             (Server.successResponse s2 g,
              Server.persistProfile env req s2 (Server.successResponse s2 g) profiles)
         end, s2).
Proof.
  intros Hname Hfetch. unfold Server.analyzeArtist.
  destruct (String.eqb_spec (Server.artistName req) ""); [done|].
  unfold Server.analyzeArtistBody, bind at 1. rewrite Hfetch.
  unfold bind at 1, modify.
  set (s1 := Server.mkSt _ _ _ _ _ _ _ _ _ _).
  destruct (runRounds_returns net env req (t :: l) s1) as (rounds & s2 & Hr).
  exists rounds, s2. split; [by exists s1|].
  unfold bind at 1. rewrite Hr. unfold bind, get.
  destruct (Server.trackProfiles s2) as [|p ps]; simpl.
  - by destruct (inferredGenres _).
  - done.
Qed.

(** C6, as amended.  When the fetched track list is not empty and no track
    profile was produced, the handler answers with a partial success
    ([success = true], an empty [trackMatrix]) exactly when the genre mapping
    has genres, and stores nothing; with known genres the mapping is the
    first five of them with [source = "spotify"].  [buildGenreMapping] takes
    known genres first, then genres inferred from the feature averages, then
    genres inferred from the artist's name. *)
Theorem partial_success_without_audio
    (net : Sources.Net) (env : Server.Env) (req : Server.Request)
    (catalog : Server.Catalog) (profiles : list (gmap string value))
    (t : Track.t) (l : list Track.t) (s0 : Server.St) :
  Server.artistName req ≠ "" →
  Server.fetchTracks env req catalog Server.initialSt = (Returns (t :: l), s0) →
  Server.trackProfiles (Server.analyzeArtist net env req catalog profiles).2 = [] →
  let r := (Server.analyzeArtist net env req catalog profiles).1.1 in
  let g := Server.buildGenreMapping [] (Server.artistName req) (Server.existingGenres req) in
  (Server.analyzeArtist net env req catalog profiles).1.2 = profiles
  ∧ (inferredGenres g ≠ [] →
     Resp.status r = 200 ∧ Resp.success r = true ∧ Resp.partial r = true
     ∧ Resp.trackMatrix r = Some [] ∧ Resp.genreMapping r = Some g)
  ∧ (inferredGenres g = [] → Resp.success r = false)
  ∧ (Server.existingGenres req ≠ [] →
     g = mkGenreMapping (take 5 (Server.existingGenres req)) "spotify" 100
     ∧ inferredGenres g ≠ [])
  ∧ ∀ (m : list TrackProfile) (name : string) (known : list string),
      (known ≠ [] →
       Server.buildGenreMapping m name known = mkGenreMapping (take 5 known) "spotify" 100)
      ∧ (known = [] → Server.inferGenresFromTracks m ≠ [] →
         Server.buildGenreMapping m name known
         = mkGenreMapping (Server.inferGenresFromTracks m) "audio_analysis" 80)
      ∧ (known = [] → Server.inferGenresFromTracks m = [] →
         Server.inferGenreFromArtistName name ≠ [] →
         Server.buildGenreMapping m name known
         = mkGenreMapping (Server.inferGenreFromArtistName name) "name_inference" 60)
      ∧ (known = [] → Server.inferGenresFromTracks m = [] →
         Server.inferGenreFromArtistName name = [] →
         Server.buildGenreMapping m name known = mkGenreMapping [] "none" 0).
Proof.
  intros Hname Hfetch.
  destruct (analyzeArtist_after_fetch net env req catalog profiles t l s0 Hname Hfetch)
    as (rounds & s2 & _ & ->).
  simpl. destruct (Server.trackProfiles s2) as [|p ps] eqn:Hp.
  2:{ simpl. intros Hnil. try rewrite Hp in Hnil. discriminate. }
  intros _.
  set (g := Server.buildGenreMapping [] (Server.artistName req) (Server.existingGenres req)).
  assert (Hknown : Server.existingGenres req ≠ [] →
            g = mkGenreMapping (take 5 (Server.existingGenres req)) "spotify" 100
            ∧ inferredGenres g ≠ []).
  { intros Hk. subst g.
    rewrite (proj1 (buildGenreMapping_priority [] _ _) Hk). split; [done|].
    simpl. by destruct (Server.existingGenres req). }
  destruct (inferredGenres g) as [|x xs] eqn:Hg; simpl.
  - split; [done|]. split; [done|]. split; [done|]. split; [exact Hknown|].
    apply buildGenreMapping_priority.
  - split; [done|]. split; [done|]. split; [done|]. split; [exact Hknown|].
    apply buildGenreMapping_priority.
Qed.

Lemma partial_success_without_audio_witness :
  let answer :=
    Server.analyzeArtist quietNet tokenEnv taggedRequest
      (catalogOf [silentTrack "s1"]) [] in
  answer.1.2 = []
  ∧ Resp.success answer.1.1 = true
  ∧ Resp.trackMatrix answer.1.1 = Some []
  ∧ Resp.genreMapping answer.1.1
    = Some (mkGenreMapping ["house"; "techno"; "trance"] "spotify" 100).
Proof.
  pose proof (partial_success_without_audio quietNet tokenEnv taggedRequest
                (catalogOf [silentTrack "s1"]) [] (silentTrack "s1") []
                (Server.fetchTracks tokenEnv taggedRequest (catalogOf [silentTrack "s1"])
                   Server.initialSt).2) as H.
  destruct H as (Hcol & Hpartial & _ & _ & _).
  - discriminate.
  - vm_compute. reflexivity.
  - vm_compute. reflexivity.
  - destruct Hpartial as (_ & Hs & _ & Hm & Hg); [discriminate|].
    split; [exact Hcol|]. split; [exact Hs|]. split; [exact Hm|exact Hg].
Defined.

(** C6, as stated, fails on the source tag: with three known genres and no
    resolvable track the answer is a partial success with an empty
    [trackMatrix], and its [genreMapping.source] is ["spotify"]. *)
Lemma known_genres_are_tagged_spotify :
  Resp.success
    (Server.analyzeArtist quietNet tokenEnv taggedRequest
       (catalogOf [silentTrack "s1"]) []).1.1 = true
  ∧ Resp.trackMatrix
      (Server.analyzeArtist quietNet tokenEnv taggedRequest
         (catalogOf [silentTrack "s1"]) []).1.1 = Some []
  ∧ genreSource
      <$> Resp.genreMapping
            (Server.analyzeArtist quietNet tokenEnv taggedRequest
               (catalogOf [silentTrack "s1"]) []).1.1 = Some "spotify"
  ∧ String.eqb "spotify" "known" = false.
Proof. vm_compute. repeat split; reflexivity. Qed.

(** ** One track in both slices *)

(** C10.  A track that is on the artist's top-track list and on a recent
    album is fetched twice, once without and once with the recent-release
    flag; it is selected in both slices of round 1, resolved and analysed
    twice, and the returned and the stored track matrix hold two entries
    with its id. *)
Theorem duplicate_track_in_both_slices :
  (∃ tracks s0,
     Server.fetchTracks tokenEnv fullRequest dupCatalog Server.initialSt
     = (Returns tracks, s0)
     ∧ map Track.id tracks = ["d1"; "d1"]
     ∧ map Track.isRecentRelease tracks = [false; true]
     ∧ map Track.id (Server.topOf tracks) = ["d1"]
     ∧ map Track.id (Server.recentOf tracks) = ["d1"]
     ∧ map Track.id (Server.round1Tracks fullRequest tracks) = ["d1"; "d1"])
  ∧ trackIds
      <$> Resp.trackMatrix
            (Server.analyzeArtist quietNet tokenEnv fullRequest dupCatalog []).1.1
    = Some ["d1"; "d1"]
  ∧ map storedIds (Server.analyzeArtist quietNet tokenEnv fullRequest dupCatalog []).1.2
    = [Some ["d1"; "d1"]]
  ∧ Server.calls (Server.analyzeArtist quietNet tokenEnv fullRequest dupCatalog []).2
    = [Server.Essentia "https://p.scdn.co/mp3-preview/d1";
       Server.Essentia "https://p.scdn.co/mp3-preview/d1"].
Proof.
  split.
  - eexists _, _. split; [reflexivity|]. vm_compute. repeat split; reflexivity.
  - vm_compute. repeat split; reflexivity.
Qed.

(** ** What a computation keeps *)

Section Preserves.
Context {S : Type} (R : S → S → Prop) `{!Reflexive R} `{!Transitive R}.

Lemma preserves_ret {A} (a : A) : preserves R (ret a).
Proof. intros s. simpl. reflexivity. Qed.

Lemma preserves_get : preserves R get.
Proof. intros s. simpl. reflexivity. Qed.

Lemma preserves_call {A} (o : outcome A) : preserves R (call o).
Proof. intros s. simpl. reflexivity. Qed.

Lemma preserves_throw {A} e : preserves R (throw e : M S A).
Proof. intros s. simpl. reflexivity. Qed.

Lemma preserves_modify (f : S → S) : (∀ s, R s (f s)) → preserves R (modify f).
Proof. intros Hf s. apply Hf. Qed.

Lemma preserves_bind {A B} (m : M S A) (f : A → M S B) :
  preserves R m → (∀ a, preserves R (f a)) → preserves R (bind m f).
Proof.
  intros Hm Hf s. unfold bind. specialize (Hm s).
  destruct (m s) as [[a|e] s']; simpl in *; [|done].
  etrans; [exact Hm|apply Hf].
Qed.

Lemma preserves_try_catch {A} (m : M S A) (h : string → M S A) :
  preserves R m → (∀ e, preserves R (h e)) → preserves R (try_catch m h).
Proof.
  intros Hm Hh s. unfold try_catch. specialize (Hm s).
  destruct (m s) as [[a|e] s']; simpl in *; [done|].
  etrans; [exact Hm|apply Hh].
Qed.

Lemma preserves_try_ (m : M S unit) : preserves R m → preserves R (try_ m).
Proof. intros Hm. apply preserves_try_catch; [done|]. intros _. apply preserves_ret. Qed.

Lemma preserves_when_ (c : bool) (m : M S unit) :
  preserves R m → preserves R (when_ c m).
Proof. destruct c; [done|]. intros _. apply preserves_ret. Qed.

Lemma preserves_forEach {A} (l : list A) (body : A → M S unit) :
  (∀ x, preserves R (body x)) → preserves R (forEach l body).
Proof.
  intros Hb. induction l as [|x l IH]; simpl; [apply preserves_ret|].
  apply preserves_bind; [apply Hb|by intros _].
Qed.

End Preserves.

(** reduces a goal [preserves R m] to the state changes [m] makes *)
Ltac preserves_step :=
  lazymatch goal with
  | |- preserves _ (ret _) => apply preserves_ret; apply _
  | |- preserves _ get => apply preserves_get; apply _
  | |- preserves _ (call _) => apply preserves_call; apply _
  | |- preserves _ (throw _) => apply preserves_throw; apply _
  | |- preserves _ (try_ _) => apply preserves_try_; [apply _ | apply _ |]
  | |- preserves _ (when_ _ _) => apply preserves_when_; [apply _ |]
  | |- preserves _ (try_catch _ _) =>
      apply preserves_try_catch; [apply _ | | intros ?]
  | |- preserves _ (bind _ _) => apply preserves_bind; [apply _ | | intros ?]
  | |- preserves _ (forEach _ _) =>
      apply preserves_forEach; [apply _ | apply _ | intros ?]
  | |- preserves _ (modify _) => apply preserves_modify
  | |- preserves _ (if ?b then _ else _) => destruct b
  | |- preserves _ (match ?x with _ => _ end) => destruct x
  end.

#[local] Instance sameProfiles_refl : Reflexive sameProfiles.
Proof. intros s. reflexivity. Qed.
#[local] Instance sameProfiles_trans : Transitive sameProfiles.
Proof. unfold sameProfiles. intros s1 s2 s3 H1 H2. congruence. Qed.
#[local] Instance moreCalls_refl : Reflexive moreCalls.
Proof. intros s. unfold moreCalls. set_solver. Qed.
#[local] Instance moreCalls_trans : Transitive moreCalls.
Proof. unfold moreCalls. intros s1 s2 s3 H1 H2. set_solver. Qed.

Ltac unfold_resolver :=
  unfold Server.acquirePreviewForTrack, Server.startResolution, Server.earlySoundCloud,
    Server.relaxedSoundCloud, Server.applePrimary, Server.spotifyRecovery,
    Server.noteRecoveryDisabled, Server.balancedAppleExact, Server.balancedAppleBroad,
    Server.explicitSoundCloud, Server.aggregator, Server.fallbackOriginal,
    Server.restoreApple, Server.restoreSpotify, Server.soundcloudAttempt,
    Server.takeSoundCloud, Server.appleExact, Server.firstArtistName.

Ltac state_change :=
  intros ?; unfold sameProfiles, moreCalls, Server.noteQuery, Server.setPreviewUrl,
    Server.setAudioSource;
  try match goal with |- context [if ?b then _ else _] => destruct b end;
  simpl; first [done | set_solver].

Lemma acquirePreviewForTrack_sameProfiles net env req t :
  preserves sameProfiles (Server.acquirePreviewForTrack net env req t).
Proof.
  unfold_resolver.
  repeat first [preserves_step | state_change].
Qed.

Lemma acquirePreviewForTrack_moreCalls net env req t :
  preserves moreCalls (Server.acquirePreviewForTrack net env req t).
Proof.
  unfold_resolver.
  repeat first [preserves_step | state_change].
Qed.

(** ** The steps of the resolver *)

(** the resolution has a reference *)
Abbreviation hasPreview s := (Js.truthy (Server.previewUrl s)).

Ltac run :=
  unfold bind, get, modify, when_, try_, try_catch, ret, call, throw.

Section Steps.
Variable net : Sources.Net.
Variable env : Server.Env.
Variable req : Server.Request.
Variable t : Track.t.

(** a step that finds a reference in place leaves the state alone *)
Ltac skips HU :=
  run; rewrite ?HU; simpl; rewrite ?andb_false_r; simpl; try done.

Lemma earlySoundCloud_skip s :
  hasPreview s = true → Server.earlySoundCloud net env req t s = (Returns tt, s).
Proof. intros HU. unfold Server.earlySoundCloud. skips HU. Qed.

Lemma relaxedSoundCloud_skip s :
  hasPreview s = true → Server.relaxedSoundCloud net env req t s = (Returns tt, s).
Proof. intros HU. unfold Server.relaxedSoundCloud. skips HU. Qed.

Lemma spotifyRecovery_skip s :
  hasPreview s = true → Server.spotifyRecovery net env req t s = (Returns tt, s).
Proof. intros HU. unfold Server.spotifyRecovery. skips HU. Qed.

Lemma noteRecoveryDisabled_skip s :
  hasPreview s = true → Server.noteRecoveryDisabled req s = (Returns tt, s).
Proof. intros HU. unfold Server.noteRecoveryDisabled. skips HU. Qed.

Lemma balancedAppleExact_skip s :
  hasPreview s = true → Server.balancedAppleExact net req t s = (Returns tt, s).
Proof. intros HU. unfold Server.balancedAppleExact. skips HU. Qed.

Lemma balancedAppleBroad_skip s :
  hasPreview s = true → Server.balancedAppleBroad net req t s = (Returns tt, s).
Proof. intros HU. unfold Server.balancedAppleBroad. skips HU. Qed.

Lemma explicitSoundCloud_skip s :
  hasPreview s = true → Server.explicitSoundCloud net env t s = (Returns tt, s).
Proof. intros HU. unfold Server.explicitSoundCloud. skips HU. Qed.

Lemma aggregator_skip s :
  hasPreview s = true → Server.aggregator net env t s = (Returns tt, s).
Proof. intros HU. unfold Server.aggregator. skips HU. Qed.

Lemma fallbackOriginal_skip s :
  hasPreview s = true → Server.fallbackOriginal req t s = (Returns tt, s).
Proof. intros HU. unfold Server.fallbackOriginal. skips HU. Qed.

Lemma restoreApple_skip s :
  hasPreview s = true → Server.restoreApple req t s = (Returns tt, s).
Proof. intros HU. unfold Server.restoreApple. skips HU. Qed.

Lemma restoreSpotify_skip s :
  hasPreview s = true → Server.restoreSpotify req t s = (Returns tt, s).
Proof. intros HU. unfold Server.restoreSpotify. skips HU. Qed.

Lemma applePrimary_keeps s :
  hasPreview s = true → hasPreview (Server.applePrimary net req t s).2 = true.
Proof.
  intros HU. unfold Server.applePrimary. run.
  destruct (Server.useApplePrimary req && negb (Server.innerForceSoundCloudTest req));
    [|done].
  destruct (match Track.artists t with _ :: _ => true | [] => false end
            && negb (String.eqb (Track.name t) ""));
    simpl; repeat (rewrite HU; simpl);
    destruct (Js.truthy (Server.audioSource s) && true
              && Js.startsWith (default "" (Server.audioSource s)) "apple"); done.
Qed.

(** *** a step that ends without a reference has asked its provider *)

Lemma earlySoundCloud_asked s :
  hasPreview (Server.earlySoundCloud net env req t s).2 = false →
  Server.innerForceSoundCloudTest req = true → Server.soundcloudConfigured env = true →
  Server.SoundCloudQuery (Server.primaryArtist t) (Track.name t)
  ∈ Server.calls (Server.earlySoundCloud net env req t s).2.
Proof.
  intros Hexit Hforce Hconf. revert Hexit.
  destruct (hasPreview s) eqn:HU.
  { rewrite (earlySoundCloud_skip s HU). simpl. congruence. }
  unfold Server.earlySoundCloud, Server.soundcloudAttempt, Server.takeSoundCloud. run.
  rewrite HU, Hforce, Hconf. simpl.
  destruct (Js.truthy (Server.soundcloudUrl _)) eqn:Hhit; simpl.
  - rewrite Hhit. done.
  - unfold Server.noteQuery. intros _.
    destruct (_ && _); simpl; set_solver.
Qed.

Lemma explicitSoundCloud_asked s :
  hasPreview (Server.explicitSoundCloud net env t s).2 = false →
  Server.soundcloudConfigured env = true →
  Server.SoundCloudQuery (Server.primaryArtist t) (Track.name t)
  ∈ Server.calls (Server.explicitSoundCloud net env t s).2.
Proof.
  intros Hexit Hconf. revert Hexit.
  destruct (hasPreview s) eqn:HU.
  { rewrite (explicitSoundCloud_skip s HU). simpl. congruence. }
  unfold Server.explicitSoundCloud, Server.soundcloudAttempt, Server.takeSoundCloud. run.
  rewrite HU, Hconf. simpl.
  destruct (Js.truthy (Server.soundcloudUrl _)) eqn:Hhit; simpl.
  - rewrite Hhit. done.
  - unfold Server.noteQuery. intros _.
    destruct (_ && _); simpl; set_solver.
Qed.

Lemma aggregator_asked s :
  hasPreview (Server.aggregator net env t s).2 = false →
  Server.Aggregator (Server.primaryArtist t) (Track.name t)
  ∈ Server.calls (Server.aggregator net env t s).2.
Proof.
  destruct (hasPreview s) eqn:HU.
  { rewrite (aggregator_skip s HU). simpl. congruence. }
  unfold Server.aggregator. run. rewrite HU. simpl.
  destruct (head _) as [best|]; simpl; [|set_solver].
  destruct (Js.truthy (Sources.streamUrl best)) eqn:Hs; simpl; [|set_solver].
  rewrite Hs. done.
Qed.

Lemma noteQuery_previewUrl q s :
  Server.previewUrl (Server.noteQuery q s) = Server.previewUrl s.
Proof. unfold Server.noteQuery. by destruct (_ && _). Qed.

Lemma noteQuery_calls q s : Server.calls (Server.noteQuery q s) = Server.calls s.
Proof. unfold Server.noteQuery. by destruct (_ && _). Qed.

Ltac tidy :=
  repeat (progress (simpl; rewrite ?noteQuery_previewUrl, ?noteQuery_calls));
  repeat match goal with
         | H : ?b = _ |- context [?b] => rewrite !H; simpl
         end.

Ltac branches :=
  tidy;
  repeat (match goal with
          | |- context [if ?b then _ else _] => destruct b eqn:?
          | |- context [match ?o with Some _ => _ | None => _ end] => destruct o eqn:?
          | |- context [match ?l with _ :: _ => _ | [] => _ end] => destruct l eqn:?
          | |- context [match ?o with Returns _ => _ | Throws _ => _ end] =>
              destruct o eqn:?
          end; tidy).

Lemma relaxedSoundCloud_asked s :
  hasPreview (Server.relaxedSoundCloud net env req t s).2 = false →
  Server.innerForceSoundCloudTest req = true → Server.soundcloudConfigured env = true →
  Server.SoundCloudQuery (Server.primaryArtist t) ""
  ∈ Server.calls (Server.relaxedSoundCloud net env req t s).2.
Proof.
  intros Hexit Hforce Hconf. revert Hexit.
  destruct (hasPreview s) eqn:HU.
  { rewrite (relaxedSoundCloud_skip s HU). simpl. congruence. }
  unfold Server.relaxedSoundCloud, Server.soundcloudAttempt, Server.takeSoundCloud. run.
  destruct (Server.simplifyName (Track.name t)) as [simple stripped].
  branches; intros; first [congruence | set_solver].
Qed.

Lemma balancedOnly_true :
  Server.balancedOnly req = true →
  Server.useApplePrimary req = false ∧ Server.innerForceSoundCloudTest req = false
  ∧ Server.soundcloudPrimary req = false.
Proof.
  unfold Server.balancedOnly.
  destruct (Server.useApplePrimary req), (Server.innerForceSoundCloudTest req),
    (Server.soundcloudPrimary req); done.
Qed.

Lemma primaryArtist_some a :
  Server.primaryArtist t = Some a → ∃ others, Track.artists t = a :: others.
Proof.
  unfold Server.primaryArtist. destruct (Track.artists t) as [|b l]; [done|].
  intros [= ->]. by exists l.
Qed.

Lemma applePrimary_asked s a :
  hasPreview (Server.applePrimary net req t s).2 = false →
  Server.useApplePrimary req = true → Server.innerForceSoundCloudTest req = false →
  Server.primaryArtist t = Some a → Track.name t ≠ "" →
  Server.AppleExact a (Track.name t) ∈ Server.calls (Server.applePrimary net req t s).2
  ∧ Server.AppleBroad a (Track.name t) ∈ Server.calls (Server.applePrimary net req t s).2.
Proof.
  intros Hexit Happle Hforce [others Ha]%primaryArtist_some Hname%String.eqb_neq.
  revert Hexit.
  destruct (hasPreview s) eqn:HU.
  { by rewrite (applePrimary_keeps s HU). }
  unfold Server.applePrimary, Server.appleExact, Server.firstArtistName,
    Server.setPreviewUrl, Server.setAudioSource.
  run. rewrite Happle, Hforce, Ha, Hname.
  branches; intros; first [congruence | set_solver].
Qed.

Lemma spotifyRecovery_asked s :
  hasPreview (Server.spotifyRecovery net env req t s).2 = false →
  Server.balancedOnly req = true → Js.truthy (Server.spotifyToken env) = true →
  Server.SpotifyRecovery (Track.id t)
  ∈ Server.calls (Server.spotifyRecovery net env req t s).2.
Proof.
  intros Hexit (Happle & Hforce & Hsc)%balancedOnly_true Htoken. revert Hexit.
  destruct (hasPreview s) eqn:HU.
  { rewrite (spotifyRecovery_skip s HU). simpl. congruence. }
  unfold Server.spotifyRecovery. run. rewrite Happle, Hforce, Hsc, Htoken.
  branches; intros; first [congruence | set_solver].
Qed.

Lemma balancedAppleExact_asked s a :
  hasPreview (Server.balancedAppleExact net req t s).2 = false →
  Server.balancedOnly req = true → Server.primaryArtist t = Some a →
  Server.AppleExact a (Track.name t)
  ∈ Server.calls (Server.balancedAppleExact net req t s).2.
Proof.
  intros Hexit Hbal [others Ha]%primaryArtist_some. revert Hexit.
  destruct (hasPreview s) eqn:HU.
  { rewrite (balancedAppleExact_skip s HU). simpl. congruence. }
  unfold Server.balancedAppleExact, Server.appleExact, Server.firstArtistName,
    Server.setPreviewUrl, Server.setAudioSource.
  run. rewrite Hbal, Ha.
  branches; intros; first [congruence | set_solver].
Qed.

Lemma balancedAppleBroad_asked s a :
  hasPreview (Server.balancedAppleBroad net req t s).2 = false →
  Server.balancedOnly req = true → Server.primaryArtist t = Some a →
  Server.AppleBroad a (Track.name t)
  ∈ Server.calls (Server.balancedAppleBroad net req t s).2.
Proof.
  intros Hexit Hbal [others Ha]%primaryArtist_some. revert Hexit.
  destruct (hasPreview s) eqn:HU.
  { rewrite (balancedAppleBroad_skip s HU). simpl. congruence. }
  unfold Server.balancedAppleBroad, Server.firstArtistName,
    Server.setPreviewUrl, Server.setAudioSource.
  run. rewrite Hbal, Ha.
  branches; intros; first [congruence | set_solver].
Qed.

(** *** every step returns, and only adds to the calls *)

Ltac step_returns := unfold_resolver; repeat returns_step.
Ltac step_preserves := unfold_resolver; repeat first [preserves_step | state_change].

Lemma startResolution_returns : returns (Server.startResolution req t).
Proof. step_returns. Qed.

Lemma earlySoundCloud_returns : returns (Server.earlySoundCloud net env req t).
Proof. step_returns. Qed.

Lemma relaxedSoundCloud_returns : returns (Server.relaxedSoundCloud net env req t).
Proof. step_returns. Qed.

Lemma applePrimary_returns : returns (Server.applePrimary net req t).
Proof. step_returns. Qed.

Lemma spotifyRecovery_returns : returns (Server.spotifyRecovery net env req t).
Proof. step_returns. Qed.

Lemma noteRecoveryDisabled_returns : returns (Server.noteRecoveryDisabled req).
Proof. step_returns. Qed.

Lemma balancedAppleExact_returns : returns (Server.balancedAppleExact net req t).
Proof. step_returns. Qed.

Lemma balancedAppleBroad_returns : returns (Server.balancedAppleBroad net req t).
Proof. step_returns. Qed.

Lemma explicitSoundCloud_returns : returns (Server.explicitSoundCloud net env t).
Proof. step_returns. Qed.

Lemma aggregator_returns : returns (Server.aggregator net env t).
Proof. step_returns. Qed.

Lemma fallbackOriginal_returns : returns (Server.fallbackOriginal req t).
Proof. step_returns. Qed.

Lemma restoreApple_returns : returns (Server.restoreApple req t).
Proof. step_returns. Qed.

Lemma restoreSpotify_returns : returns (Server.restoreSpotify req t).
Proof. step_returns. Qed.

Lemma startResolution_calls : preserves moreCalls (Server.startResolution req t).
Proof. step_preserves. Qed.

Lemma earlySoundCloud_calls : preserves moreCalls (Server.earlySoundCloud net env req t).
Proof. step_preserves. Qed.

Lemma relaxedSoundCloud_calls : preserves moreCalls (Server.relaxedSoundCloud net env req t).
Proof. step_preserves. Qed.

Lemma applePrimary_calls : preserves moreCalls (Server.applePrimary net req t).
Proof. step_preserves. Qed.

Lemma spotifyRecovery_calls : preserves moreCalls (Server.spotifyRecovery net env req t).
Proof. step_preserves. Qed.

Lemma noteRecoveryDisabled_calls : preserves moreCalls (Server.noteRecoveryDisabled req).
Proof. step_preserves. Qed.

Lemma balancedAppleExact_calls : preserves moreCalls (Server.balancedAppleExact net req t).
Proof. step_preserves. Qed.

Lemma balancedAppleBroad_calls : preserves moreCalls (Server.balancedAppleBroad net req t).
Proof. step_preserves. Qed.

Lemma explicitSoundCloud_calls : preserves moreCalls (Server.explicitSoundCloud net env t).
Proof. step_preserves. Qed.

Lemma aggregator_calls : preserves moreCalls (Server.aggregator net env t).
Proof. step_preserves. Qed.

Lemma fallbackOriginal_calls : preserves moreCalls (Server.fallbackOriginal req t).
Proof. step_preserves. Qed.

Lemma restoreApple_calls : preserves moreCalls (Server.restoreApple req t).
Proof. step_preserves. Qed.

Lemma restoreSpotify_calls : preserves moreCalls (Server.restoreSpotify req t).
Proof. step_preserves. Qed.

(** *** the steps in sequence *)

Lemma seq_unit {A} (m : M Server.St unit) (k : M Server.St A) s :
  returns m → (m ;;; k) s = k (m s).2.
Proof. intros Hm. unfold bind. by destruct (Hm s) as ([] & s' & ->). Qed.

Lemma later_call (m : M Server.St unit) s c :
  preserves moreCalls m → c ∈ Server.calls s → c ∈ Server.calls (m s).2.
Proof. intros Hm Hc. by apply (Hm s). Qed.

Lemma unresolved_before (m : M Server.St unit) s :
  (hasPreview s = true → hasPreview (m s).2 = true) →
  hasPreview (m s).2 = false → hasPreview s = false.
Proof. destruct (hasPreview s); [|done]. intros H. rewrite H; done. Qed.

Lemma skipped_keeps (m : M Server.St unit) s :
  (hasPreview s = true → m s = (Returns tt, s)) →
  hasPreview s = true → hasPreview (m s).2 = true.
Proof. intros H HU. by rewrite (H HU). Qed.

(** a call made by one step is still among the calls after the later ones *)
Ltac made_by lem :=
  repeat first
    [ solve [eapply lem; eauto]
    | apply later_call;
      [ first [ apply restoreSpotify_calls | apply restoreApple_calls
              | apply fallbackOriginal_calls | apply aggregator_calls
              | apply explicitSoundCloud_calls | apply balancedAppleBroad_calls
              | apply balancedAppleExact_calls | apply noteRecoveryDisabled_calls
              | apply spotifyRecovery_calls | apply applePrimary_calls
              | apply relaxedSoundCloud_calls | apply earlySoundCloud_calls ] |] ].

Lemma acquirePreviewForTrack_steps s :
  Server.acquirePreviewForTrack net env req t s =
  (let s' := (Server.restoreSpotify req t
                (Server.restoreApple req t (alternatives net env req t s)).2).2 in
   (Returns (resolutionOf s'), s')).
Proof.
  unfold Server.acquirePreviewForTrack, alternatives.
  rewrite (seq_unit _ _ _ startResolution_returns).
  rewrite (seq_unit _ _ _ earlySoundCloud_returns).
  rewrite (seq_unit _ _ _ relaxedSoundCloud_returns).
  rewrite (seq_unit _ _ _ applePrimary_returns).
  rewrite (seq_unit _ _ _ spotifyRecovery_returns).
  rewrite (seq_unit _ _ _ noteRecoveryDisabled_returns).
  rewrite (seq_unit _ _ _ balancedAppleExact_returns).
  rewrite (seq_unit _ _ _ balancedAppleBroad_returns).
  rewrite (seq_unit _ _ _ explicitSoundCloud_returns).
  rewrite (seq_unit _ _ _ aggregator_returns).
  rewrite (seq_unit _ _ _ fallbackOriginal_returns).
  rewrite (seq_unit _ _ _ restoreApple_returns).
  rewrite (seq_unit _ _ _ restoreSpotify_returns).
  reflexivity.
Qed.

Lemma alternatives_exhausted s :
  hasPreview (alternatives net env req t s) = false →
  exhausted env req t (Server.calls (alternatives net env req t s)).
Proof.
  unfold alternatives. cbv zeta. intros H11.
  pose proof (unresolved_before _ _ (skipped_keeps _ _ (fallbackOriginal_skip _)) H11) as H10.
  pose proof (unresolved_before _ _ (skipped_keeps _ _ (aggregator_skip _)) H10) as H9.
  pose proof (unresolved_before _ _ (skipped_keeps _ _ (explicitSoundCloud_skip _)) H9) as H8.
  pose proof (unresolved_before _ _ (skipped_keeps _ _ (balancedAppleBroad_skip _)) H8) as H7.
  pose proof (unresolved_before _ _ (skipped_keeps _ _ (balancedAppleExact_skip _)) H7) as H6.
  pose proof (unresolved_before _ _ (skipped_keeps _ _ (noteRecoveryDisabled_skip _)) H6) as H5.
  pose proof (unresolved_before _ _ (skipped_keeps _ _ (spotifyRecovery_skip _)) H5) as H4.
  pose proof (unresolved_before _ _ (applePrimary_keeps _) H4) as H3.
  pose proof (unresolved_before _ _ (skipped_keeps _ _ (relaxedSoundCloud_skip _)) H3) as H2.
  unfold exhausted. split_and!.
  - made_by aggregator_asked.
  - intros Hconf. made_by explicitSoundCloud_asked.
  - intros Hconf Hforce. made_by relaxedSoundCloud_asked.
  - intros a Ha [(Happle & Hforce & Hname)|Hbal]; split.
    + made_by applePrimary_asked.
    + made_by applePrimary_asked.
    + made_by balancedAppleExact_asked.
    + made_by balancedAppleBroad_asked.
  - intros Hbal Htoken. made_by spotifyRecovery_asked.
Qed.

Lemma exhausted_mono cs cs' :
  cs ⊆ cs' → exhausted env req t cs → exhausted env req t cs'.
Proof.
  unfold exhausted. intros Hsub (H1 & H2 & H3 & H4 & H5). split_and!.
  - by apply Hsub.
  - intros. by apply Hsub, H2.
  - intros. by apply Hsub, H3.
  - intros a Ha Hs. destruct (H4 a Ha Hs). split; by apply Hsub.
  - intros. by apply Hsub, H5.
Qed.

Lemma acquirePreviewForTrack_exhausts s :
  ∃ res s', Server.acquirePreviewForTrack net env req t s = (Returns res, s')
    ∧ (Js.truthy (Server.resPreviewUrl res) = false →
       exhausted env req t (Server.calls s')).
Proof.
  rewrite acquirePreviewForTrack_steps. cbv zeta.
  eexists _, _. split; [reflexivity|]. cbn [resolutionOf Server.resPreviewUrl].
  intros H13.
  pose proof (unresolved_before _ _ (skipped_keeps _ _ (restoreSpotify_skip _)) H13) as H12.
  pose proof (unresolved_before _ _ (skipped_keeps _ _ (restoreApple_skip _)) H12) as H11.
  eapply exhausted_mono; [|by apply alternatives_exhausted].
  etrans; [apply restoreApple_calls|apply restoreSpotify_calls].
Qed.

End Steps.

(** ** The forced run *)

Section Forced.
Variable net : Sources.Net.
Variable env : Server.Env.
Variable req : Server.Request.
Variable t : Track.t.


Lemma knownSource_cases :
  Js.truthy (Track.preview_url t) = true →
  Js.truthy (Server.originalApplePreview t) = true
  ∧ Server.originalApplePreview t = Track.preview_url t
  ∧ Server.knownSource t = Some "apple"
  ∨ Server.originalApplePreview t = None ∧ Server.knownSource t = Some "spotify".
Proof.
  intros Hknown. unfold Server.knownSource, Server.originalApplePreview.
  rewrite Hknown. simpl.
  destruct (Track.applePreview t || Server.looksApple _); simpl.
  - left. by rewrite Hknown.
  - right. done.
Qed.

Lemma startResolution_forced s :
  Js.truthy (Track.preview_url t) = true →
  Server.innerForceSoundCloudTest req = true →
  resolutionOf (Server.startResolution req t s).2 =
    if Server.forceSoundCloudTest req
       || bool_decide (Server.knownSource t = Some "spotify")
    then Server.mkResolution None None None
    else Server.mkResolution (Track.preview_url t) (Some "apple") None.
Proof.
  intros Hknown Hforce. unfold Server.innerForceSoundCloudTest in Hforce.
  unfold Server.statsForceSoundCloudTest in Hforce.
  unfold Server.startResolution, resolutionOf, Server.statsForceSoundCloudTest.
  unfold bind, get, modify, when_, ret. simpl. rewrite Hknown. simpl.
  destruct (knownSource_cases Hknown) as [(_ & _ & ->)|[_ ->]]; simpl.
  - destruct (Server.soundcloudPrimary req); simpl;
      rewrite ?Hknown; simpl; destruct (Server.forceSoundCloudTest req) eqn:Hf; try done.
  - destruct (Server.soundcloudPrimary req); simpl;
      rewrite ?Hknown; simpl; destruct (Server.forceSoundCloudTest req) eqn:Hf; try done.
    all: rewrite ?orb_true_r; simpl; try done.
Qed.

Lemma soundcloudPrimary_not_apple :
  Server.soundcloudPrimary req = true → Server.useApplePrimary req = false.
Proof.
  unfold Server.soundcloudPrimary, Server.useApplePrimary.
  intros ->%String.eqb_eq. reflexivity.
Qed.

Lemma acquirePreviewForTrack_alternative s :
  hasPreview (alternatives net env req t s) = true →
  Server.acquirePreviewForTrack net env req t s =
  (Returns (resolutionOf (alternatives net env req t s)), alternatives net env req t s).
Proof.
  intros Ha. rewrite acquirePreviewForTrack_steps. cbv zeta.
  rewrite (restoreApple_skip req t _ Ha). simpl.
  rewrite (restoreSpotify_skip req t _ Ha). reflexivity.
Qed.

Lemma acquirePreviewForTrack_restores s :
  Server.innerForceSoundCloudTest req = true →
  hasPreview (alternatives net env req t s) = false →
  Js.truthy (Server.originalApplePreview t) = true →
  ∃ res, (Server.acquirePreviewForTrack net env req t s).1 = Returns res
    ∧ Server.resPreviewUrl res = Server.originalApplePreview t
    ∧ Server.resAudioSource res = Some "apple".
Proof.
  intros Hforce Ha Happle. rewrite acquirePreviewForTrack_steps. cbv zeta.
  eexists. split; [reflexivity|].
  assert (Server.restoreApple req t (alternatives net env req t s) =
          (Returns tt, Server.setPreview (Server.originalApplePreview t) (Some "apple")
                         (alternatives net env req t s))) as ->.
  { unfold Server.restoreApple. run. rewrite Ha, Hforce, Happle, orb_true_r. done. }
  rewrite restoreSpotify_skip; done.
Qed.

Lemma acquirePreviewForTrack_keeps_apple s :
  Server.soundcloudPrimary req = true → Server.forceSoundCloudTest req = false →
  Js.truthy (Server.originalApplePreview t) = true →
  (Server.acquirePreviewForTrack net env req t s).1
    = Returns (Server.mkResolution (Track.preview_url t) (Some "apple") None)
  ∧ Server.calls (Server.acquirePreviewForTrack net env req t s).2 = Server.calls s.
Proof.
  intros Hsc Hflag Happle.
  assert (Js.truthy (Track.preview_url t) = true) as Hknown.
  { revert Happle. unfold Server.originalApplePreview.
    destruct (Js.truthy (Track.preview_url t)); done. }
  destruct (knownSource_cases Hknown) as [(_ & _ & Hsrc)|[Hnone _]];
    [|by rewrite Hnone in Happle].
  set (s1 := Server.setAlternative None
               (Server.setPreview (Track.preview_url t) (Some "apple") s)).
  assert (Server.startResolution req t s = (Returns tt, s1)) as Hstart.
  { unfold Server.startResolution, Server.statsForceSoundCloudTest. run.
    rewrite Hsrc. simpl. rewrite Hknown, Hsc, Hflag. simpl. by rewrite andb_false_r. }
  assert (hasPreview s1 = true) as H1 by done.
  assert (alternatives net env req t s = s1) as Halt.
  { unfold alternatives. cbv zeta. rewrite Hstart. cbn [snd].
    rewrite (earlySoundCloud_skip net env req t s1 H1). cbn [snd].
    rewrite (relaxedSoundCloud_skip net env req t s1 H1). cbn [snd].
    assert (Server.applePrimary net req t s1 = (Returns tt, s1)) as ->.
    { unfold Server.applePrimary. by rewrite (soundcloudPrimary_not_apple Hsc). }
    cbn [snd].
    rewrite (spotifyRecovery_skip net env req t s1 H1). cbn [snd].
    rewrite (noteRecoveryDisabled_skip req s1 H1). cbn [snd].
    rewrite (balancedAppleExact_skip net req t s1 H1). cbn [snd].
    rewrite (balancedAppleBroad_skip net req t s1 H1). cbn [snd].
    rewrite (explicitSoundCloud_skip net env t s1 H1). cbn [snd].
    rewrite (aggregator_skip net env t s1 H1). cbn [snd].
    by rewrite (fallbackOriginal_skip req t s1 H1). }
  rewrite acquirePreviewForTrack_alternative; rewrite Halt; done.
Qed.

End Forced.

Lemma acquirePreviewForTrack_unrestored net env req t s :
  Server.soundcloudPrimary req = false →
  hasPreview (alternatives net env req t s) = false →
  Js.truthy (Server.originalApplePreview t) = false →
  ∃ res, (Server.acquirePreviewForTrack net env req t s).1 = Returns res
    ∧ Js.truthy (Server.resPreviewUrl res) = false.
Proof.
  intros Hsc Ha Happle. rewrite acquirePreviewForTrack_steps. cbv zeta.
  eexists. split; [reflexivity|].
  assert (Server.restoreApple req t (alternatives net env req t s) =
          (Returns tt, alternatives net env req t s)) as ->.
  { unfold Server.restoreApple. run. by rewrite Ha, Happle, andb_false_r. }
  cbn [snd].
  assert (Server.restoreSpotify req t (alternatives net env req t s) =
          (Returns tt, alternatives net env req t s)) as ->.
  { unfold Server.restoreSpotify. run. by rewrite Ha, Hsc. }
  exact Ha.
Qed.

(** C5, as amended.  In a forced run ([soundcloud_primary], or the request's
    [forceSoundCloudTest]) a track's known preview is suppressed when the
    request has the flag or the preview is counted as Spotify's; an Apple
    preview in a [soundcloud_primary] run without the flag is kept, and the
    track resolves to it without a provider call.  When the provider steps
    end with a reference, that reference is returned and nothing is
    restored.  When they end without one, the aggregator was asked and, with
    a SoundCloud client id configured, so were SoundCloud for the title and
    for the artist alone; an original Apple preview is then returned with
    [audioSource = "apple"], and in a run forced by the flag alone a track
    without one gets no reference. *)
Theorem forced_run_restores_apple_preview_last
    (net : Sources.Net) (env : Server.Env) (req : Server.Request) (t : Track.t)
    (s : Server.St) :
  Js.truthy (Track.preview_url t) = true →
  Server.innerForceSoundCloudTest req = true →
  let suppressed :=
    Server.forceSoundCloudTest req
    || bool_decide (Server.knownSource t = Some "spotify") in
  let a := alternatives net env req t s in
  let r := Server.acquirePreviewForTrack net env req t s in
  resolutionOf (Server.startResolution req t s).2 =
    (if suppressed then Server.mkResolution None None None
     else Server.mkResolution (Track.preview_url t) (Some "apple") None)
  ∧ (suppressed = false →
     r.1 = Returns (Server.mkResolution (Track.preview_url t) (Some "apple") None)
     ∧ Server.calls r.2 = Server.calls s)
  ∧ (Js.truthy (Server.previewUrl a) = true → r.1 = Returns (resolutionOf a))
  ∧ (Js.truthy (Server.previewUrl a) = false →
     Server.Aggregator (Server.primaryArtist t) (Track.name t) ∈ Server.calls r.2
     ∧ (Server.soundcloudConfigured env = true →
        Server.SoundCloudQuery (Server.primaryArtist t) (Track.name t) ∈ Server.calls r.2
        ∧ Server.SoundCloudQuery (Server.primaryArtist t) "" ∈ Server.calls r.2)
     ∧ (Js.truthy (Server.originalApplePreview t) = true →
        ∃ res, r.1 = Returns res
          ∧ Server.resPreviewUrl res = Server.originalApplePreview t
          ∧ Server.resAudioSource res = Some "apple")
     ∧ (Server.soundcloudPrimary req = false →
        Js.truthy (Server.originalApplePreview t) = false →
        ∃ res, r.1 = Returns res ∧ Js.truthy (Server.resPreviewUrl res) = false)).
Proof.
  intros Hknown Hforce suppressed a r. split_and!.
  - by apply startResolution_forced.
  - intros [Hflag Hsrc]%orb_false_elim.
    apply acquirePreviewForTrack_keeps_apple; [|done|].
    + unfold Server.innerForceSoundCloudTest, Server.statsForceSoundCloudTest in Hforce.
      by rewrite Hflag, orb_false_r in Hforce.
    + destruct (knownSource_cases t Hknown) as [(? & _)|[_ Hs]]; [done|].
      by rewrite Hs, bool_decide_eq_true_2 in Hsrc.
  - intros Ha. subst r. by rewrite acquirePreviewForTrack_alternative.
  - intros Ha.
    destruct (acquirePreviewForTrack_exhausts net env req t s) as (res & s' & Hr & _).
    pose proof (alternatives_exhausted net env req t s Ha) as (Hagg & Hsc & Hrelaxed & _).
    assert (Server.calls a ⊆ Server.calls r.2) as Hsub.
    { subst r. rewrite acquirePreviewForTrack_steps. cbv zeta. cbn [snd].
      etrans; [apply restoreApple_calls|apply restoreSpotify_calls]. }
    split_and!.
    + by apply Hsub.
    + intros Hconf. split; apply Hsub; auto.
    + by apply acquirePreviewForTrack_restores.
    + intros Hflag Happle. by apply acquirePreviewForTrack_unrestored.
Qed.

Lemma forced_run_restores_apple_preview_last_witness :
  Js.truthy (Track.preview_url (appleTrack "f1")) = true
  ∧ Server.innerForceSoundCloudTest flagRequest = true
  ∧ Server.SoundCloudQuery (Some "Rezz") ""
    ∈ Server.calls (Server.acquirePreviewForTrack quietNet soundcloudEnv flagRequest
                      (appleTrack "f1") Server.initialSt).2
  ∧ ∃ res,
      (Server.acquirePreviewForTrack quietNet soundcloudEnv flagRequest
         (appleTrack "f1") Server.initialSt).1 = Returns res
      ∧ Server.resPreviewUrl res = Server.originalApplePreview (appleTrack "f1")
      ∧ Server.resAudioSource res = Some "apple".
Proof.
  split; [reflexivity|]. split; [reflexivity|].
  destruct (forced_run_restores_apple_preview_last quietNet soundcloudEnv flagRequest
              (appleTrack "f1") Server.initialSt eq_refl eq_refl)
    as (_ & _ & _ & H).
  destruct H as (_ & Hsc & Hres & _); [vm_compute; reflexivity|].
  split.
  - apply Hsc. reflexivity.
  - apply Hres. reflexivity.
Defined.

(** a forced run that finds no alternative returns no reference for a track
    whose known preview is Spotify's; an Apple preview in a
    [soundcloud_primary] run without the flag is not suppressed; and without
    a SoundCloud client id no relaxed query is made *)
Lemma forced_run_drops_spotify_preview :
  Server.knownSource (spotifyTrack "f1") = Some "spotify"
  ∧ Server.acquirePreviewForTrack quietNet soundcloudEnv flagRequest (spotifyTrack "f1")
      Server.initialSt
    = (Returns (Server.mkResolution None None None),
       Server.mkSt
         {[ "soundcloudDiagnostics.attempts" := 3 ]} ∅
         ["Rezz :: Song f1"; "Rezz"] true [] [] None None None
         [Server.SoundCloudQuery (Some "Rezz") "Song f1";
          Server.SoundCloudQuery (Some "Rezz") "";
          Server.SoundCloudQuery (Some "Rezz") "Song f1";
          Server.Aggregator (Some "Rezz") "Song f1"])
  ∧ (Server.acquirePreviewForTrack quietNet soundcloudEnv primaryRequest (appleTrack "f2")
       Server.initialSt).1
    = Returns (Server.mkResolution (Track.preview_url (appleTrack "f2")) (Some "apple") None)
  ∧ Server.calls
      (Server.acquirePreviewForTrack quietNet soundcloudEnv primaryRequest (appleTrack "f2")
         Server.initialSt).2 = []
  ∧ Server.calls
      (Server.acquirePreviewForTrack quietNet plainEnv flagRequest (appleTrack "f3")
         Server.initialSt).2 = [Server.Aggregator (Some "Rezz") "Song f3"].
Proof. split_and!; vm_compute; reflexivity. Qed.

(** ** Failures stay inside the track that met them *)

Lemma findApplePreviewUrl_failed net a n :
  (∀ r, Sources.itunesSearch net (Sources.stripPunctuation (a ++ " " ++ n)) 1 = Returns r →
        Sources.ok r = false) →
  Sources.findApplePreviewUrl net a n = None.
Proof.
  intros H. unfold Sources.findApplePreviewUrl.
  destruct (Sources.itunesSearch _ _ _) as [r|e]; [|done]. by rewrite (H r).
Qed.

Lemma findApplePreviewUrlBroader_failed net a n :
  (∀ r, Sources.itunesSearch net a 10 = Returns r → Sources.ok r = false) →
  Sources.findApplePreviewUrlBroader net a n = None.
Proof.
  intros H. unfold Sources.findApplePreviewUrlBroader.
  destruct (Sources.itunesSearch _ _ _) as [r|e]; [|done]. by rewrite (H r).
Qed.

Lemma searchSoundCloudAudio_failed net cid a n e :
  Sources.soundcloudSearch net (Js.show a ++ " " ++ n) = Throws e →
  Sources.searchSoundCloudAudio net cid a n = None.
Proof. intros H. unfold Sources.searchSoundCloudAudio. by rewrite H. Qed.

Lemma searchYouTubeAudio_failed net a n e :
  Sources.youtubeSearch net (Js.show a ++ " " ++ n) = Throws e →
  Sources.searchYouTubeAudio net a n = None.
Proof. intros H. unfold Sources.searchYouTubeAudio. by rewrite H. Qed.

Lemma analyzeTrack_outcome net env req round t s :
  ∃ res s1,
    Server.acquirePreviewForTrack net env req t s = (Returns res, s1)
    ∧ (Server.analyzeTrack net env req round t s).1 = Returns tt
    ∧ Server.trackProfiles (Server.analyzeTrack net env req round t s).2 =
        if Js.truthy (Server.resPreviewUrl res) then
          match Sources.essentia net (default "" (Server.resPreviewUrl res)) with
          | Returns features =>
              Server.trackProfiles s ++ [profileFor env round t res features]
          | Throws _ => Server.trackProfiles s
          end
        else Server.trackProfiles s.
Proof.
  destruct (acquirePreviewForTrack_exhausts net env req t s) as (res & s1 & Heq & _).
  pose proof (acquirePreviewForTrack_sameProfiles net env req t s) as Hsame.
  rewrite Heq in Hsame. unfold sameProfiles in Hsame. simpl in Hsame.
  exists res, s1. split; [done|].
  unfold Server.analyzeTrack, Server.analyzeAudioWithEssentia, profileFor.
  unfold bind, get, modify, when_, try_, try_catch, ret, call, throw.
  rewrite Heq, <- Hsame.
  destruct (Js.truthy (Server.resPreviewUrl res)); simpl.
  - destruct (Js.truthy (Server.resAudioSource res)); simpl;
      destruct (Sources.essentia net _); done.
  - done.
Qed.

Lemma runRound_next net env req round t l s :
  Server.runRound net env req round (t :: l) s =
  Server.runRound net env req round l (Server.analyzeTrack net env req round t s).2.
Proof.
  unfold Server.runRound. simpl.
  apply seq_unit, analyzeTrack_returns.
Qed.

Lemma analyzeArtist_answers net env req catalog profiles :
  Resp.status (Server.analyzeArtist net env req catalog profiles).1.1 = 200
  ∨ Resp.status (Server.analyzeArtist net env req catalog profiles).1.1 = 400.
Proof.
  destruct (String.eqb_spec (Server.artistName req) "") as [Hname|Hname].
  { right. unfold Server.analyzeArtist. by rewrite Hname. }
  left.
  destruct (fetchTracks_returns env req catalog Server.initialSt)
    as ([|t l] & s0 & Hfetch).
  - unfold Server.analyzeArtist, Server.analyzeArtistBody, bind.
    rewrite Hfetch. by destruct (String.eqb_spec (Server.artistName req) "").
  - destruct (analyzeArtist_after_fetch net env req catalog profiles t l s0 Hname Hfetch)
      as (rounds & s2 & _ & ->).
    cbv zeta. destruct (Server.trackProfiles s2); [|done].
    by destruct (inferredGenres (Server.buildGenreMapping _ _ _)).
Qed.

(** C8.  A provider request that is rejected, or answered without success,
    gives no candidate: the Apple, SoundCloud and YouTube adapters return
    nothing.  Resolving a track always returns, and it returns without a
    reference only after every provider step of the strategy was asked.  The
    body of the round loop always returns: it adds the track's profile when
    the track resolved and the extraction returned, and otherwise leaves the
    profiles as they were, so the track is skipped.  The round goes on with
    the next track from the state the track left, neither round nor the pair
    of rounds throws, and the handler answers 200 or 400, never through its
    outer catch. *)
Theorem provider_failures_are_contained
    (net : Sources.Net) (env : Server.Env) (req : Server.Request) :
  (∀ a n,
     (∀ r, Sources.itunesSearch net (Sources.stripPunctuation (a ++ " " ++ n)) 1
           = Returns r → Sources.ok r = false) →
     Sources.findApplePreviewUrl net a n = None)
  ∧ (∀ a n,
       (∀ r, Sources.itunesSearch net a 10 = Returns r → Sources.ok r = false) →
       Sources.findApplePreviewUrlBroader net a n = None)
  ∧ (∀ cid a n e,
       Sources.soundcloudSearch net (Js.show a ++ " " ++ n) = Throws e →
       Sources.searchSoundCloudAudio net cid a n = None)
  ∧ (∀ a n e,
       Sources.youtubeSearch net (Js.show a ++ " " ++ n) = Throws e →
       Sources.searchYouTubeAudio net a n = None)
  ∧ (∀ t s, ∃ res,
       (Server.acquirePreviewForTrack net env req t s).1 = Returns res
       ∧ (Js.truthy (Server.resPreviewUrl res) = false →
          exhausted env req t
            (Server.calls (Server.acquirePreviewForTrack net env req t s).2)))
  ∧ (∀ round t s, ∃ res,
       (Server.acquirePreviewForTrack net env req t s).1 = Returns res
       ∧ (Server.analyzeTrack net env req round t s).1 = Returns tt
       ∧ Server.trackProfiles (Server.analyzeTrack net env req round t s).2 =
           if Js.truthy (Server.resPreviewUrl res) then
             match Sources.essentia net (default "" (Server.resPreviewUrl res)) with
             | Returns features =>
                 Server.trackProfiles s ++ [profileFor env round t res features]
             | Throws _ => Server.trackProfiles s
             end
           else Server.trackProfiles s)
  ∧ (∀ round t l s,
       Server.runRound net env req round (t :: l) s =
       Server.runRound net env req round l (Server.analyzeTrack net env req round t s).2)
  ∧ (∀ round l, returns (Server.runRound net env req round l))
  ∧ (∀ tracks, returns (Server.runRounds net env req tracks))
  ∧ (∀ catalog profiles,
       Resp.status (Server.analyzeArtist net env req catalog profiles).1.1 = 200
       ∨ Resp.status (Server.analyzeArtist net env req catalog profiles).1.1 = 400).
Proof.
  split_and!.
  - apply findApplePreviewUrl_failed.
  - apply findApplePreviewUrlBroader_failed.
  - apply searchSoundCloudAudio_failed.
  - apply searchYouTubeAudio_failed.
  - intros t s.
    destruct (acquirePreviewForTrack_exhausts net env req t s) as (res & s' & -> & H).
    by exists res.
  - intros round t s.
    destruct (analyzeTrack_outcome net env req round t s) as (res & s1 & Heq & H).
    exists res. by rewrite Heq.
  - apply runRound_next.
  - apply runRound_returns.
  - apply runRounds_returns.
  - apply analyzeArtist_answers.
Qed.

Lemma provider_failures_are_contained_witness :
  Sources.findApplePreviewUrl downNet "Rezz" "Song x1" = None
  ∧ exhausted plainEnv plainRequest (silentTrack "x1")
      (Server.calls
         (Server.acquirePreviewForTrack downNet plainEnv plainRequest
            (silentTrack "x1") Server.initialSt).2)
  ∧ Server.trackProfiles
      (Server.analyzeTrack downNet plainEnv plainRequest 1 (spotifyTrack "x2")
         Server.initialSt).2 = [].
Proof.
  destruct (provider_failures_are_contained downNet plainEnv plainRequest)
    as (Happle & _ & _ & _ & Hres & Htrack & _).
  split_and!.
  - apply Happle. intros r Hr. vm_compute in Hr. discriminate Hr.
  - destruct (Hres (silentTrack "x1") Server.initialSt) as (res & Heq & Hex).
    apply Hex. vm_compute in Heq. injection Heq as <-. reflexivity.
  - destruct (Htrack 1 (spotifyTrack "x2") Server.initialSt) as (res & Heq & _ & ->).
    vm_compute in Heq. injection Heq as <-. reflexivity.
Defined.

(* ================================================================== *)
(** * Further properties *)
(* ================================================================== *)

(** ** The scripts that repair the built flag *)

(** with a limit that covers the cursor, the scan collects every flagged
    document without a usable matrix *)
Lemma toClear_complete limit (col : gmap string (gmap string value)) id d :
  (length (Scanner.cursor col) ≤ Z.to_nat limit)%nat →
  col !! id = Some d → Scanner.isBuilt d = true → Scanner.hasMatrix d = false →
  id ∈ Scanner.toClear limit col.
Proof.
  intros Hlimit Hd Hb Hm. unfold Scanner.toClear.
  rewrite take_ge by done.
  apply list_elem_of_fmap. exists (id, d). split; [done|].
  apply list_elem_of_filter. split; [done|].
  apply list_elem_of_filter. split; [done|].
  by apply elem_of_map_to_list.
Qed.

Lemma toClear_nil limit (col : gmap string (gmap string value)) :
  (∀ id d, col !! id = Some d → Scanner.isBuilt d = true → Scanner.hasMatrix d = true) →
  Scanner.toClear limit col = [].
Proof.
  intros Hall. destruct (Scanner.toClear limit col) as [|id ids] eqn:E; [done|].
  assert (id ∈ Scanner.toClear limit col) as Hin by (rewrite E; left).
  apply toClear_sound in Hin as (d & Hd & Hb & Hm).
  rewrite (Hall id d Hd Hb) in Hm. discriminate.
Qed.

Lemma isBuilt_cleared (d : gmap string value) :
  Scanner.isBuilt (delete "essentiaProfileBuilt" (delete "essentiaProfileDate" d)) = false.
Proof.
  unfold Scanner.isBuilt. apply bool_decide_eq_false. by rewrite lookup_delete_eq.
Qed.

(** X1.  After a scanner run with [--clear] whose limit covers every
    document flagged built, no document is left that is flagged built
    without a usable track matrix: a further scan, with any limit, collects
    nothing, and a further run changes nothing. *)
Theorem scanner_clear_leaves_nothing_to_clear
    (limit limit' : Z) (col : gmap string (gmap string value)) :
  (length (Scanner.cursor col) ≤ Z.to_nat limit)%nat →
  (∀ id d, Scanner.run true false limit col !! id = Some d →
           Scanner.isBuilt d = true → Scanner.hasMatrix d = true)
  ∧ Scanner.toClear limit' (Scanner.run true false limit col) = []
  ∧ ∀ clear dryRun,
      Scanner.run clear dryRun limit' (Scanner.run true false limit col)
      = Scanner.run true false limit col.
Proof.
  intros Hlimit.
  assert (Hall : ∀ id d, Scanner.run true false limit col !! id = Some d →
                         Scanner.isBuilt d = true → Scanner.hasMatrix d = true).
  { intros id d. rewrite scanner_run_lookup. simpl.
    destruct (col !! id) as [d0|] eqn:Hd0; [|done]. simpl. intros [= <-].
    destruct (bool_decide (id ∈ Scanner.toClear limit col)) eqn:Hin.
    - by rewrite isBuilt_cleared.
    - intros Hb. apply bool_decide_eq_false in Hin.
      destruct (Scanner.hasMatrix d0) eqn:Hm; [done|].
      destruct Hin. by apply (toClear_complete limit col id d0). }
  split; [exact Hall|]. split; [by apply toClear_nil|].
  intros clear dryRun. unfold Scanner.run at 1.
  rewrite (toClear_nil limit' _ Hall). simpl. by rewrite andb_false_r.
Qed.

Lemma scanner_clear_leaves_nothing_to_clear_witness :
  Scanner.toClear 1 (Scanner.run true false 500 {["a1" := brokenDoc]}) = []
  ∧ Scanner.run true false 500 (Scanner.run true false 500 {["a1" := brokenDoc]})
    = Scanner.run true false 500 {["a1" := brokenDoc]}.
Proof.
  destruct (scanner_clear_leaves_nothing_to_clear 500 1 {["a1" := brokenDoc]})
    as (_ & Hnil & Hrun).
  - vm_compute. lia.
  - split; [exact Hnil|]. destruct (scanner_clear_leaves_nothing_to_clear 500 500
                                     {["a1" := brokenDoc]}) as (_ & _ & Hsame).
    + vm_compute. lia.
    + apply Hsame.
Defined.

(** the selector of [clear_empty_essentia_flags] picks the documents the
    scanner collects *)
Lemma toUpdateSelector_spec (d : gmap string value) :
  ClearEmptyFlags.toUpdateSelector d = Scanner.isBuilt d && negb (Scanner.hasMatrix d).
Proof.
  unfold ClearEmptyFlags.toUpdateSelector, ClearEmptyFlags.matrixPathMissing,
    ClearEmptyFlags.matrixSizeZero, ClearEmptyFlags.profileMissing,
    Scanner.hasMatrix, Mongo.trackMatrixOf.
  destruct (Scanner.isBuilt d); [|done]. simpl.
  destruct (d !! "essentiaAudioProfile") as [[| | | | | | |p| | |]|]; try done.
  destruct (trackMatrix p) as [[|t m]|]; done.
Qed.

(** X2.  [clear_empty_essentia_flags] and a scanner run with [--clear] whose
    limit covers every document flagged built leave the same collection. *)
Theorem clear_empty_flags_agrees_with_scanner
    (limit : Z) (col : gmap string (gmap string value)) :
  (length (Scanner.cursor col) ≤ Z.to_nat limit)%nat →
  ClearEmptyFlags.run col = Scanner.run true false limit col.
Proof.
  intros Hlimit. apply map_eq. intros id.
  rewrite scanner_run_lookup. simpl.
  assert (Hrun : ClearEmptyFlags.run col !! id
                 = (λ d, if ClearEmptyFlags.toUpdateSelector d
                         then delete "essentiaProfileBuilt"
                                (delete "essentiaProfileDate" d)
                         else d) <$> col !! id).
  { unfold ClearEmptyFlags.run, ClearEmptyFlags.toFixCount.
    destruct (filter _ (map_to_list col)) as [|p ps] eqn:E; simpl.
    - destruct (col !! id) as [d|] eqn:Hd; [|done]. simpl.
      destruct (ClearEmptyFlags.toUpdateSelector d) eqn:Hs; [|done].
      assert ((id, d) ∈ filter (λ p, ClearEmptyFlags.toUpdateSelector p.2 = true)
                          (map_to_list col)) as Hin.
      { apply list_elem_of_filter. split; [done|]. by apply elem_of_map_to_list. }
      rewrite E in Hin. by apply elem_of_nil in Hin.
    - rewrite lookup_fmap. destruct (col !! id) as [d|]; [|done]. simpl.
      by destruct (ClearEmptyFlags.toUpdateSelector d). }
  rewrite Hrun. destruct (col !! id) as [d|] eqn:Hd; [|done]. simpl. f_equal.
  rewrite toUpdateSelector_spec.
  destruct (bool_decide (id ∈ Scanner.toClear limit col)) eqn:Hin.
  - apply bool_decide_eq_true in Hin. apply toClear_sound in Hin as (d0 & Hd0 & Hb & Hm).
    rewrite Hd in Hd0. injection Hd0 as <-. by rewrite Hb, Hm.
  - apply bool_decide_eq_false in Hin.
    destruct (Scanner.isBuilt d) eqn:Hb; [|done].
    destruct (Scanner.hasMatrix d) eqn:Hm; [done|].
    destruct Hin. by apply (toClear_complete limit col id d).
Qed.

Lemma clear_empty_flags_agrees_with_scanner_witness :
  ClearEmptyFlags.run {["a1" := brokenDoc]} = Scanner.run true false 500 {["a1" := brokenDoc]}.
Proof.
  apply (clear_empty_flags_agrees_with_scanner 500 {["a1" := brokenDoc]}).
  vm_compute. lia.
Defined.

Lemma clearIds_sound (col : gmap string (gmap string value)) id :
  id ∈ DiagClear.clearIds col →
  ∃ d, col !! id = Some d ∧ Scanner.isBuilt d = true ∧ Scanner.hasMatrix d = false.
Proof.
  unfold DiagClear.clearIds, DiagClear.sample, Scanner.cursor.
  intros Hin. do 2 apply subseteq_take in Hin.
  apply list_elem_of_fmap in Hin as [[i d] [-> Hin]].
  apply list_elem_of_filter in Hin as [Hm Hin].
  apply list_elem_of_filter in Hin as [Hb Hin].
  apply elem_of_map_to_list in Hin.
  exists d. simpl in *. auto.
Qed.

Lemma diag_run_lookup (col : gmap string (gmap string value)) id :
  DiagClear.run col !! id
  = (λ d, if bool_decide (id ∈ DiagClear.clearIds col)
          then delete "essentiaProfileBuilt" (delete "essentiaProfileDate" d)
          else d) <$> col !! id.
Proof.
  unfold DiagClear.run, Mongo.updateManyIn.
  destruct (DiagClear.clearIds col) as [|i0 ids] eqn:E.
  { simpl. by destruct (col !! id). }
  change (0 <? Z.of_nat (length (i0 :: ids))) with true. cbv iota.
  rewrite map_lookup_imap. by destruct (col !! id).
Qed.

(** X3.  One run of the one-off diagnosis clears at most twenty documents.
    Each of them was flagged built without a usable track matrix and loses
    [essentiaProfileBuilt] and [essentiaProfileDate]; every other document
    is as before; and when such a document exists, at least one is
    cleared. *)
Theorem diag_clear_is_bounded (col : gmap string (gmap string value)) :
  (length (DiagClear.clearIds col) ≤ 20)%nat
  ∧ (∀ id, id ∈ DiagClear.clearIds col →
       ∃ d, col !! id = Some d
            ∧ Scanner.isBuilt d = true ∧ Scanner.hasMatrix d = false
            ∧ DiagClear.run col !! id
              = Some (delete "essentiaProfileBuilt" (delete "essentiaProfileDate" d)))
  ∧ (∀ id, id ∉ DiagClear.clearIds col → DiagClear.run col !! id = col !! id)
  ∧ (∀ id d, col !! id = Some d → Scanner.isBuilt d = true →
             Scanner.hasMatrix d = false → DiagClear.clearIds col ≠ []).
Proof.
  split_and!.
  - unfold DiagClear.clearIds. rewrite length_take. lia.
  - intros id Hin. destruct (clearIds_sound col id Hin) as (d & Hd & Hb & Hm).
    exists d. split_and!; try done.
    rewrite diag_run_lookup, Hd. simpl. by rewrite bool_decide_eq_true_2.
  - intros id Hin. rewrite diag_run_lookup.
    rewrite bool_decide_eq_false_2 by done. by destruct (col !! id).
  - intros id d Hd Hb Hm.
    assert ((id, d) ∈ filter (λ p, Scanner.hasMatrix p.2 = false) (Scanner.cursor col))
      as Hin.
    { apply list_elem_of_filter. split; [done|].
      apply list_elem_of_filter. split; [done|]. by apply elem_of_map_to_list. }
    unfold DiagClear.clearIds, DiagClear.sample.
    destruct (filter _ (Scanner.cursor col)) as [|p l]; [by apply elem_of_nil in Hin|].
    done.
Qed.

(** ** The migration, document by document *)

(** the profile the migration stores: the legacy matrix, and the other
    fields of the profile the document had *)
Lemma migrateDoc_applied removeOld now (d : gmap string value) t m :
  d !! "essentiaTrackMatrix" = Some (VTracks (t :: m)) →
  (∀ v, d !! "essentiaAudioProfile" = Some v → ∃ p, v = VProfile p) →
  ∃ p',
    trackMatrix p' = Some (t :: m)
    ∧ (∀ p, d !! "essentiaAudioProfile" = Some (VProfile p) →
            p' = mkProfile (Some (t :: m)) (genreMapping p) (recentEvolution p)
                   (averageFeatures p) (spectralFeatures p) (metadataVersion p))
    ∧ (d !! "essentiaAudioProfile" = None →
       p' = mkProfile (Some (t :: m)) None None None None None)
    ∧ Migration.migrateDoc removeOld now d
      = (if removeOld then delete "essentiaTrackMatrix" else id)
          (<["essentiaProfileDate" := VDate now]>
             (<["essentiaProfileBuilt" := VBool true]>
                (<["essentiaAudioProfile" := VProfile p']> d))).
Proof.
  intros Hl Hp. unfold Migration.migrateDoc, Migration.hasLegacy, Migration.legacyMatrix.
  rewrite Hl.
  unfold Mongo.applyUpdate, Migration.migrationUpdate, Mongo.setAll, Mongo.set_,
    Mongo.unset_.
  rewrite setPath_trackMatrix.
  destruct (d !! "essentiaAudioProfile") as [v|] eqn:E.
  - destruct (Hp v eq_refl) as [p ->].
    exists (mkProfile (Some (t :: m)) (genreMapping p) (recentEvolution p)
              (averageFeatures p) (spectralFeatures p) (metadataVersion p)).
    split; [done|]. split; [by intros ? [= <-]|]. split; [done|].
    by destruct removeOld.
  - exists (mkProfile (Some (t :: m)) None None None None None).
    split; [done|]. split; [done|]. split; [done|].
    by destruct removeOld.
Qed.

(** X4.  The migration moves a non-empty legacy matrix into the profile and
    keeps the rest of the document.  For a document whose
    [essentiaAudioProfile] is absent or a sub-document, the nested
    [trackMatrix] afterwards is the legacy array, the other fields of the
    profile are as before, [essentiaProfileBuilt] is true and
    [essentiaProfileDate] is the time of the run; the legacy field is gone
    with [--remove-old] and untouched without; every other field of the
    document is unchanged. *)
Theorem migration_moves_the_legacy_matrix
    (removeOld : bool) (now : Z) (d : gmap string value)
    (t : TrackProfile) (m : list TrackProfile) :
  d !! "essentiaTrackMatrix" = Some (VTracks (t :: m)) →
  (∀ v, d !! "essentiaAudioProfile" = Some v → ∃ p, v = VProfile p) →
  let d' := Migration.migrateDoc removeOld now d in
  Mongo.trackMatrixOf d' = Some (t :: m)
  ∧ (∀ p, d !! "essentiaAudioProfile" = Some (VProfile p) →
          d' !! "essentiaAudioProfile"
          = Some (VProfile (mkProfile (Some (t :: m)) (genreMapping p)
                              (recentEvolution p) (averageFeatures p)
                              (spectralFeatures p) (metadataVersion p))))
  ∧ d' !! "essentiaProfileBuilt" = Some (VBool true)
  ∧ d' !! "essentiaProfileDate" = Some (VDate now)
  ∧ d' !! "essentiaTrackMatrix"
    = (if removeOld then None else Some (VTracks (t :: m)))
  ∧ ∀ k, k ≠ "essentiaAudioProfile" → k ≠ "essentiaProfileBuilt" →
         k ≠ "essentiaProfileDate" → k ≠ "essentiaTrackMatrix" →
         d' !! k = d !! k.
Proof.
  intros Hl Hp d'.
  destruct (migrateDoc_applied removeOld now d t m Hl Hp) as (p' & Hm & Hsome & _ & Heq).
  subst d'. rewrite Heq. clear Heq.
  assert (Hprofile :
            (<["essentiaProfileDate" := VDate now]>
               (<["essentiaProfileBuilt" := VBool true]>
                  (<["essentiaAudioProfile" := VProfile p']> d)))
            !! "essentiaAudioProfile" = Some (VProfile p')).
  { rewrite !lookup_insert_ne by done. apply lookup_insert_eq. }
  destruct removeOld; unfold id; split_and!.
  - unfold Mongo.trackMatrixOf. by rewrite lookup_delete_ne, Hprofile.
  - intros p Ep. by rewrite lookup_delete_ne, Hprofile, (Hsome p Ep).
  - rewrite lookup_delete_ne, lookup_insert_ne by done. apply lookup_insert_eq.
  - rewrite lookup_delete_ne by done. apply lookup_insert_eq.
  - apply lookup_delete_eq.
  - intros k H1 H2 H3 H4. by rewrite lookup_delete_ne, !lookup_insert_ne.
  - unfold Mongo.trackMatrixOf. by rewrite Hprofile.
  - intros p Ep. by rewrite Hprofile, (Hsome p Ep).
  - rewrite lookup_insert_ne by done. apply lookup_insert_eq.
  - apply lookup_insert_eq.
  - by rewrite !lookup_insert_ne.
  - intros k H1 H2 H3 H4. by rewrite !lookup_insert_ne.
Qed.

Lemma migration_moves_the_legacy_matrix_witness :
  let d' := Migration.migrateDoc true 9 legacyDoc in
  Mongo.trackMatrixOf d' = Some [sampleProfile "t1" "apple"]
  ∧ d' !! "essentiaProfileBuilt" = Some (VBool true)
  ∧ d' !! "essentiaTrackMatrix" = None
  ∧ d' !! "name" = Some (VStr "Rezz").
Proof.
  intros d'.
  destruct (migration_moves_the_legacy_matrix true 9 legacyDoc
              (sampleProfile "t1" "apple") [])
    as (Hm & _ & Hb & _ & Hl & Hrest).
  - reflexivity.
  - intros v Hv. vm_compute in Hv. discriminate Hv.
  - split; [exact Hm|]. split; [exact Hb|]. split; [exact Hl|].
    subst d'. rewrite Hrest by discriminate. reflexivity.
Defined.

Lemma migrateDoc_skipped removeOld now (d : gmap string value) :
  Migration.legacyMatrix d = None → Migration.migrateDoc removeOld now d = d.
Proof.
  intros H. unfold Migration.migrateDoc. rewrite H. by destruct (Migration.hasLegacy d).
Qed.

Lemma legacyMatrix_some (d : gmap string value) top :
  Migration.legacyMatrix d = Some top →
  ∃ t m, top = t :: m ∧ d !! "essentiaTrackMatrix" = Some (VTracks (t :: m)).
Proof.
  unfold Migration.legacyMatrix.
  destruct (d !! "essentiaTrackMatrix") as [[| | | | | |[|t m]| | | |]|]; try done.
  intros [= <-]. by exists t, m.
Qed.

(** a document the migration changes ends flagged built over a non-empty
    matrix *)
Lemma migrateDoc_changed removeOld now (d : gmap string value) :
  Migration.migrateDoc removeOld now d ≠ d →
  Scanner.isBuilt (Migration.migrateDoc removeOld now d) = true
  ∧ Scanner.hasMatrix (Migration.migrateDoc removeOld now d) = true.
Proof.
  intros Hne.
  destruct (Migration.legacyMatrix d) as [top|] eqn:El;
    [|by rewrite migrateDoc_skipped in Hne].
  destruct (legacyMatrix_some d top El) as (t & m & -> & Hl).
  assert (∀ v, d !! "essentiaAudioProfile" = Some v → ∃ p, v = VProfile p) as Hp.
  { intros v Hv. destruct v; eauto.
    all: destruct Hne; unfold Migration.migrateDoc, Migration.hasLegacy;
      rewrite El, Hl; unfold Mongo.applyUpdate, Migration.migrationUpdate,
      Mongo.setAll, Mongo.set_; rewrite setPath_trackMatrix, Hv; done. }
  destruct (migrateDoc_applied removeOld now d t m Hl Hp) as (p' & Hm & _ & _ & ->).
  unfold Scanner.isBuilt, Scanner.hasMatrix, Mongo.trackMatrixOf.
  destruct removeOld; unfold id; rewrite ?lookup_delete_ne by done.
  - rewrite (lookup_insert_ne _ "essentiaProfileDate" "essentiaProfileBuilt") by done.
    rewrite lookup_insert_eq, !lookup_insert_ne, lookup_insert_eq, Hm by done.
    split; [by apply bool_decide_eq_true|done].
  - rewrite (lookup_insert_ne _ "essentiaProfileDate" "essentiaProfileBuilt") by done.
    rewrite lookup_insert_eq, !lookup_insert_ne, lookup_insert_eq, Hm by done.
    split; [by apply bool_decide_eq_true|done].
Qed.

(** ** The migration run *)

Lemma migrateDoc_legacy removeOld now (d : gmap string value) :
  Migration.migrateDoc removeOld now d
  = match Migration.legacyMatrix d with
    | Some top => default d (Mongo.applyUpdate (Migration.migrationUpdate removeOld now top) d)
    | None => d
    end.
Proof.
  unfold Migration.migrateDoc, Migration.hasLegacy, Migration.legacyMatrix.
  by destruct (d !! "essentiaTrackMatrix").
Qed.

Lemma legacyMatrix_hasLegacy (d : gmap string value) :
  Migration.legacyMatrix d ≠ None → Migration.hasLegacy d = true.
Proof.
  unfold Migration.hasLegacy, Migration.legacyMatrix.
  by destruct (d !! "essentiaTrackMatrix").
Qed.

(** the [$set] of the nested path fails exactly on a document whose profile
    field holds something else than a sub-document *)
Lemma applyUpdate_migration removeOld now top (d : gmap string value) :
  if writable d
  then is_Some (Mongo.applyUpdate (Migration.migrationUpdate removeOld now top) d)
  else Mongo.applyUpdate (Migration.migrationUpdate removeOld now top) d = None.
Proof.
  unfold writable, Mongo.applyUpdate, Migration.migrationUpdate, Mongo.setAll,
    Mongo.set_, Mongo.unset_.
  rewrite setPath_trackMatrix.
  destruct (d !! "essentiaAudioProfile") as [[]|]; simpl; by eauto.
Qed.

Lemma writable_profile (d : gmap string value) :
  writable d = true ↔ ∀ v, d !! "essentiaAudioProfile" = Some v → ∃ p, v = VProfile p.
Proof.
  unfold writable. split.
  - intros H v Hv. rewrite Hv in H. destruct v; try done. by eexists.
  - intros H. destruct (d !! "essentiaAudioProfile") as [v|]; [|done].
    by destruct (H v eq_refl) as [p ->].
Qed.

(** one operation of a batch *)
Lemma updateOne_migration removeOld now top id (d : gmap string value)
    (col : gmap string (gmap string value)) :
  col !! id = Some d → Migration.legacyMatrix d = Some top →
  (writable d = true
   ∧ ∃ r col', Mongo.updateOne (Some id) (Migration.migrationUpdate removeOld now top) col
               = Some (r, col')
               ∧ col' !! id = Some (Migration.migrateDoc removeOld now d)
               ∧ ∀ j, j ≠ id → col' !! j = col !! j)
  ∨ (writable d = false
     ∧ Mongo.updateOne (Some id) (Migration.migrationUpdate removeOld now top) col = None
     ∧ Migration.migrateDoc removeOld now d = d).
Proof.
  intros Hd Hl. rewrite migrateDoc_legacy, Hl. unfold Mongo.updateOne. rewrite Hd.
  pose proof (applyUpdate_migration removeOld now top d) as Hw.
  destruct (writable d); [left|right].
  - destruct Hw as [d' ->]. split; [done|]. simpl.
    destruct (decide (d' = d)) as [->|Hne].
    + by eexists _, col.
    + eexists _, _. split; [reflexivity|]. split; [apply lookup_insert_eq|].
      intros j Hj. by apply lookup_insert_ne.
  - by rewrite Hw.
Qed.

(** the operations of one batch, written without order *)
Lemma writeAll_docs removeOld clock (docs : list (string * gmap string value))
    (col : gmap string (gmap string value)) :
  NoDup (docs.*1) →
  (∀ id d, (id, d) ∈ docs → col !! id = Some d) →
  let r := Migration.writeAll (omap (Migration.batchOp removeOld clock) docs) col in
  (∀ id, id ∉ docs.*1 → r.2 !! id = col !! id)
  ∧ (∀ id d, (id, d) ∈ docs →
       r.2 !! id = Some (Migration.migrateDoc removeOld (clock id) d))
  ∧ (r.1 = true
     ↔ ∀ id d, (id, d) ∈ docs → Migration.legacyMatrix d ≠ None → writable d = true).
Proof.
  revert col. induction docs as [|[id d] docs IH]; intros col Hnd Hcol.
  { simpl. split; [done|]. split; [by intros ? ? ?%elem_of_nil|].
    split; [by intros _ ? ? ?%elem_of_nil|done]. }
  rewrite fmap_cons in Hnd. apply NoDup_cons in Hnd as [Hid Hnd].
  assert (Hd : col !! id = Some d) by (apply Hcol, elem_of_cons; by left).
  assert (Hrest : ∀ col' : gmap string (gmap string value),
            (∀ j, j ≠ id → col' !! j = col !! j) →
            ∀ j dj, (j, dj) ∈ docs → col' !! j = Some dj).
  { intros col' Hsame j dj Hin. rewrite Hsame.
    - apply Hcol, elem_of_cons. by right.
    - intros ->. apply Hid. by apply (list_elem_of_fmap_2 fst _ (id, dj)). }
  assert (Hops : omap (Migration.batchOp removeOld clock) ((id, d) :: docs)
                 = match Migration.legacyMatrix d with
                   | Some top =>
                       (id, Migration.migrationUpdate removeOld (clock id) top)
                         :: omap (Migration.batchOp removeOld clock) docs
                   | None => omap (Migration.batchOp removeOld clock) docs
                   end).
  { cbn [omap list_omap]. unfold Migration.batchOp at 1. cbn [fst snd].
    by destruct (Migration.legacyMatrix d). }
  cbv zeta. rewrite Hops. clear Hops.
  destruct (Migration.legacyMatrix d) as [top|] eqn:El.
  - cbn [Migration.writeAll].
    destruct (updateOne_migration removeOld (clock id) top id d col Hd El)
      as [(Hw & r & col' & -> & Hid' & Hsame)|(Hw & -> & Hmig)].
    + destruct (IH col' Hnd (Hrest col' Hsame)) as (Hout & Hin & Hflag).
      split_and!.
      * intros j Hj. rewrite Hout.
        -- apply Hsame. intros ->. apply Hj. simpl. apply elem_of_cons. by left.
        -- intros Hj'. apply Hj. simpl. apply elem_of_cons. by right.
      * intros j dj [[= -> ->]|Hj]%elem_of_cons; [|by apply Hin].
        by rewrite Hout.
      * rewrite Hflag. split.
        -- intros H j dj [[= -> ->]|Hj]%elem_of_cons; [done|by apply (H j dj)].
        -- intros H j dj Hj. apply (H j dj), elem_of_cons. by right.
    + destruct (IH col Hnd (Hrest col (λ _ _, eq_refl))) as (Hout & Hin & Hflag).
      cbn [fst snd]. split_and!.
      * intros j Hj. apply Hout. intros Hj'. apply Hj. simpl. apply elem_of_cons.
        by right.
      * intros j dj [[= -> ->]|Hj]%elem_of_cons; [|by apply Hin].
        by rewrite Hout, Hmig.
      * split; [done|]. intros H.
        assert (writable d = true) as Hw'.
        { apply (H id d); [apply elem_of_cons; by left|by rewrite El]. }
        by rewrite Hw in Hw'.
  - destruct (IH col Hnd (Hrest col (λ _ _, eq_refl))) as (Hout & Hin & Hflag).
    split_and!.
    + intros j Hj. apply Hout. intros Hj'. apply Hj. simpl. apply elem_of_cons.
      by right.
    + intros j dj [[= -> ->]|Hj]%elem_of_cons; [|by apply Hin].
      rewrite Hout by done. by rewrite migrateDoc_legacy, El.
    + rewrite Hflag. split.
      * intros H j dj [[= -> ->]|Hj]%elem_of_cons; [by rewrite El|by apply (H j dj)].
      * intros H j dj Hj. apply (H j dj), elem_of_cons. by right.
Qed.

(** one round of the [while] loop *)
Lemma applyBatch_writeAll removeOld clock (docs : list (string * gmap string value))
    (col : gmap string (gmap string value)) :
  let r := Migration.writeAll (omap (Migration.batchOp removeOld clock) docs) col in
  Migration.applyBatch removeOld clock docs col
  = (if r.1 then Returns tt else Throws "BulkWriteError", r.2).
Proof.
  unfold Migration.applyBatch, when_.
  destruct (omap (Migration.batchOp removeOld clock) docs) as [|op ops]; done.
Qed.

Lemma concat_chunks {A : Type} (fuel n : nat) (l : list A) :
  (0 < n)%nat → (length l ≤ fuel)%nat → concat (Migration.chunks fuel n l) = l.
Proof.
  intros Hn. revert l. induction fuel as [|fuel IH]; intros l Hl.
  - destruct l; [done|simpl in Hl; lia].
  - destruct l as [|x l]; [done|]. cbn [Migration.chunks concat].
    rewrite IH; [apply take_drop|].
    rewrite length_drop. simpl in *. lia.
Qed.

(** the cursor hands out each document with the legacy field once *)
Lemma cursor_spec (col : gmap string (gmap string value)) :
  NoDup ((Migration.cursor col).*1)
  ∧ ∀ id d, (id, d) ∈ Migration.cursor col
            ↔ col !! id = Some d ∧ Migration.hasLegacy d = true.
Proof.
  unfold Migration.cursor. split.
  - apply (sublist_NoDup _ ((map_to_list col).*1)); [apply NoDup_fst_map_to_list|].
    apply fmap_sublist, sublist_filter.
  - intros id d. rewrite list_elem_of_filter, elem_of_map_to_list. simpl. tauto.
Qed.

(** a document the rounds have not reached is as it was; one they reached
    is migrated, at its own time; the loop ends normally exactly when no
    operation has a write error *)
Lemma forEach_batches removeOld clock (bs : list (list (string * gmap string value)))
    (col : gmap string (gmap string value)) :
  NoDup ((concat bs).*1) →
  (∀ id d, (id, d) ∈ concat bs → col !! id = Some d) →
  let r := forEach bs (Migration.applyBatch removeOld clock) col in
  (∀ id, id ∉ (concat bs).*1 → r.2 !! id = col !! id)
  ∧ (∀ id d, (id, d) ∈ concat bs →
       r.2 !! id = Some d
       ∨ r.2 !! id = Some (Migration.migrateDoc removeOld (clock id) d))
  ∧ (r.1 = Returns tt →
     ∀ id d, (id, d) ∈ concat bs →
       r.2 !! id = Some (Migration.migrateDoc removeOld (clock id) d)
       ∧ (Migration.legacyMatrix d ≠ None → writable d = true))
  ∧ ((∀ id d, (id, d) ∈ concat bs → Migration.legacyMatrix d ≠ None → writable d = true)
     → r.1 = Returns tt).
Proof.
  revert col. induction bs as [|docs bs IH]; intros col Hnd Hcol.
  { simpl. split; [done|]. split; [by intros ? ? ?%elem_of_nil|].
    split; [by intros _ ? ? ?%elem_of_nil|done]. }
  cbn [concat] in Hnd, Hcol. rewrite fmap_app in Hnd.
  apply NoDup_app in Hnd as (Hnd1 & Hdisj & Hnd2).
  destruct (writeAll_docs removeOld clock docs col Hnd1) as (Hout & Hin & Hflag).
  { intros id d Hd. apply Hcol, elem_of_app. by left. }
  cbn [forEach concat]. unfold bind. rewrite applyBatch_writeAll.
  set (w := Migration.writeAll _ col) in *.
  assert (Hin1 : ∀ id d, (id, d) ∈ docs → id ∈ docs.*1).
  { intros id d Hd. by apply (list_elem_of_fmap_2 fst _ (id, d)). }
  assert (Hrest : ∀ id d, (id, d) ∈ concat bs → w.2 !! id = Some d).
  { intros id d Hd. rewrite Hout.
    - apply Hcol, elem_of_app. by right.
    - intros Hid. apply (Hdisj id Hid). by apply (list_elem_of_fmap_2 fst _ (id, d)). }
  destruct (w.1) eqn:Hw1.
  - destruct (IH (w.2) Hnd2 Hrest) as (Hout' & Hin' & Hret' & Hok').
    assert (Hkeep : ∀ id d, (id, d) ∈ docs →
              (forEach bs (Migration.applyBatch removeOld clock) w.2).2 !! id
              = Some (Migration.migrateDoc removeOld (clock id) d)).
    { intros id d Hd. rewrite Hout'; [by apply Hin|]. apply Hdisj. by eapply Hin1. }
    split_and!.
    + intros id Hid. rewrite fmap_app, elem_of_app in Hid.
      rewrite Hout' by tauto. apply Hout. tauto.
    + intros id d [Hd|Hd]%elem_of_app; [right; by apply Hkeep|by apply Hin'].
    + intros Hret id d [Hd|Hd]%elem_of_app.
      * split; [by apply Hkeep|]. by apply (proj1 Hflag eq_refl id d).
      * by apply Hret'.
    + intros Hall. apply Hok'. intros id d Hd. apply (Hall id d), elem_of_app. by right.
  - cbn [fst snd]. split_and!.
    + intros id Hid. rewrite fmap_app, elem_of_app in Hid. apply Hout. tauto.
    + intros id d [Hd|Hd]%elem_of_app; [right; by apply Hin|left; by apply Hrest].
    + done.
    + intros Hall. assert (false = true) as Hw'; [|done].
      apply Hflag. intros id d Hd. apply (Hall id d), elem_of_app. by left.
Qed.

(** The run with [--apply].  Every document is as before or migrated at
    its own time; after a run that ended normally every document is
    migrated and no operation had a write error; and without a possible
    write error the run ends normally. *)
Lemma run_spec removeOld clock batchSize (col : gmap string (gmap string value)) :
  let r := Migration.run true removeOld clock batchSize col in
  (∀ id, r.2 !! id = col !! id
         ∨ ∃ d, col !! id = Some d
                ∧ r.2 !! id = Some (Migration.migrateDoc removeOld (clock id) d))
  ∧ (r.1 = Returns tt →
     (∀ id, r.2 !! id = Migration.migrateDoc removeOld (clock id) <$> col !! id)
     ∧ ∀ id d, col !! id = Some d → Migration.legacyMatrix d ≠ None → writable d = true)
  ∧ ((∀ id d, col !! id = Some d → Migration.legacyMatrix d ≠ None → writable d = true)
     → r.1 = Returns tt).
Proof.
  destruct (cursor_spec col) as [Hnd Hcur].
  assert (Hout : ∀ id d, col !! id = Some d → (id, d) ∉ Migration.cursor col →
            Migration.migrateDoc removeOld (clock id) d = d
            ∧ Migration.legacyMatrix d = None).
  { intros id d Hd Hno. rewrite Hcur in Hno.
    destruct (Migration.hasLegacy d) eqn:Hh; [tauto|].
    unfold Migration.migrateDoc. rewrite Hh. split; [done|].
    destruct (Migration.legacyMatrix d) eqn:El; [|done].
    rewrite legacyMatrix_hasLegacy in Hh; [done|by rewrite El]. }
  unfold Migration.run, bind, get. cbn [negb].
  destruct (length (Migration.cursor col) =? 0)%nat eqn:Hlen.
  { apply Nat.eqb_eq in Hlen. apply nil_length_inv in Hlen.
    assert (Hnone : ∀ id d, col !! id = Some d → (id, d) ∉ Migration.cursor col).
    { intros id d _. rewrite Hlen. apply not_elem_of_nil. }
    cbn [fst snd ret]. split_and!.
    - by left.
    - intros _. split.
      + intros id. destruct (col !! id) as [d|] eqn:Hd; [|done]. simpl.
        by rewrite (proj1 (Hout id d Hd (Hnone id d Hd))).
      + intros id d Hd Hl. by rewrite (proj2 (Hout id d Hd (Hnone id d Hd))) in Hl.
    - done. }
  set (bs := Migration.chunks _ _ _).
  assert (Hbs : concat bs = Migration.cursor col).
  { apply concat_chunks; [lia|done]. }
  destruct (forEach_batches removeOld clock bs col) as (Hfar & Hnear & Hret & Hok).
  { by rewrite Hbs. }
  { intros id d Hd. rewrite Hbs in Hd. by apply Hcur in Hd as [? _]. }
  rewrite Hbs in Hfar, Hnear, Hret, Hok.
  assert (Hmem : ∀ id d, (id, d) ∈ Migration.cursor col → id ∈ (Migration.cursor col).*1).
  { intros id d Hd. by apply (list_elem_of_fmap_2 fst _ (id, d)). }
  assert (Hfar' : ∀ id d, col !! id = Some d → (id, d) ∉ Migration.cursor col →
            id ∉ (Migration.cursor col).*1).
  { intros id d Hd Hno [[id' d'] [Hid Hin]]%list_elem_of_fmap. simpl in Hid. subst id'.
    pose proof (proj1 (proj1 (Hcur id d') Hin)) as Hd'. rewrite Hd in Hd'.
    injection Hd' as ->. done. }
  split_and!.
  - intros id. destruct (col !! id) as [d|] eqn:Hd.
    + destruct (decide ((id, d) ∈ Migration.cursor col)) as [Hin|Hno].
      * destruct (Hnear id d Hin) as [H|H]; [by left|right; by exists d].
      * left. rewrite <- Hd. apply Hfar. by eapply Hfar'.
    + left. rewrite Hfar; [done|].
      intros [[id' d'] [Hid Hin]]%list_elem_of_fmap. simpl in Hid. subst id'.
      apply Hcur in Hin as [Hd' _]. by rewrite Hd in Hd'.
  - intros Hr. split.
    + intros id. destruct (col !! id) as [d|] eqn:Hd; simpl.
      * destruct (decide ((id, d) ∈ Migration.cursor col)) as [Hin|Hno].
        -- by apply Hret.
        -- rewrite Hfar by (by eapply Hfar').
           by rewrite Hd, (proj1 (Hout id d Hd Hno)).
      * rewrite Hfar; [done|].
        intros [[id' d'] [Hid Hin]]%list_elem_of_fmap. simpl in Hid. subst id'.
        apply Hcur in Hin as [Hd' _]. by rewrite Hd in Hd'.
    + intros id d Hd Hl. apply (Hret Hr id d); [|done].
      apply Hcur. split; [done|]. by apply legacyMatrix_hasLegacy.
  - intros Hall. apply Hok. intros id d Hd. apply Hcur in Hd as [Hd _]. by apply (Hall id d).
Qed.

(** X5.  The scanner, run after the migration, clears no document the
    migration wrote, whether the migration ended normally or with a rejected
    batch: a document that the run changed is the migrated one, flagged
    built over a non-empty matrix, and reads after the scan as the migration
    left it; and every document the scan collects is one the migration did
    not change, flagged built without a usable matrix before it. *)
Theorem scanner_spares_migrated_documents
    (removeOld : bool) (clock : string → Z) (batchSize : positive)
    (clear dryRun : bool) (limit : Z) (col : gmap string (gmap string value)) :
  let after := (Migration.run true removeOld clock batchSize col).2 in
  (∀ id d d', col !! id = Some d → after !! id = Some d' → d' ≠ d →
     d' = Migration.migrateDoc removeOld (clock id) d
     ∧ Scanner.isBuilt d' = true ∧ Scanner.hasMatrix d' = true
     ∧ Scanner.run clear dryRun limit after !! id = Some d')
  ∧ (∀ id, id ∈ Scanner.toClear limit after →
       ∃ d, col !! id = Some d ∧ after !! id = Some d
            ∧ Scanner.isBuilt d = true ∧ Scanner.hasMatrix d = false).
Proof.
  intros after.
  destruct (run_spec removeOld clock batchSize col) as (Hlookup & _ & _).
  fold after in Hlookup.
  assert (Hchanged : ∀ id d d', col !! id = Some d → after !! id = Some d' → d' ≠ d →
            d' = Migration.migrateDoc removeOld (clock id) d
            ∧ Scanner.isBuilt d' = true ∧ Scanner.hasMatrix d' = true).
  { intros id d d' Hd Hd' Hne.
    destruct (Hlookup id) as [Heq|(d0 & Hd0 & Hmig)].
    - rewrite Hd, Hd' in Heq. by injection Heq as ->.
    - rewrite Hd in Hd0. injection Hd0 as <-. rewrite Hd' in Hmig. injection Hmig as ->.
      split; [done|]. by apply migrateDoc_changed. }
  assert (Hcollected : ∀ id, id ∈ Scanner.toClear limit after →
            ∃ d, col !! id = Some d ∧ after !! id = Some d
                 ∧ Scanner.isBuilt d = true ∧ Scanner.hasMatrix d = false).
  { intros id Hin. apply toClear_sound in Hin as (d' & Hd' & Hb & Hm).
    destruct (Hlookup id) as [Heq|(d & Hd & Hmig)].
    - exists d'. by rewrite <- Heq.
    - destruct (decide (d' = d)) as [->|Hne]; [by exists d|].
      destruct (Hchanged id d d' Hd Hd' Hne) as (_ & _ & Hm').
      rewrite Hm' in Hm. discriminate. }
  split; [|exact Hcollected].
  intros id d d' Hd Hd' Hne.
  destruct (Hchanged id d d' Hd Hd' Hne) as (Hmig & Hb & Hm).
  split; [done|]. split; [done|]. split; [done|].
  rewrite scanner_run_lookup, Hd'. simpl. f_equal.
  destruct (bool_decide (id ∈ _)) eqn:Hin; [|by rewrite andb_false_r].
  apply bool_decide_eq_true in Hin.
  destruct (Hcollected id Hin) as (d0 & Hd0 & Hd0' & _).
  rewrite Hd in Hd0. injection Hd0 as <-. rewrite Hd' in Hd0'. by injection Hd0' as ->.
Qed.

Lemma scanner_spares_migrated_documents_witness :
  let r := Migration.run true false (λ _, 9) 2 unwritableFirst in
  (r.1, r.2 !! "b1", r.2 !! "b2")
  = (Throws "BulkWriteError", Some unwritableDoc,
     Some (Migration.migrateDoc false 9 legacyDoc))
  ∧ Scanner.run true false 500 r.2 !! "b2" = Some (Migration.migrateDoc false 9 legacyDoc)
  ∧ Scanner.isBuilt (Migration.migrateDoc false 9 legacyDoc) = true.
Proof.
  intros r.
  assert (Hrun : (let r' := Migration.run true false (λ _, 9) 2 unwritableFirst in
                  (r'.1, r'.2 !! "b1", r'.2 !! "b2"))
                 = (Throws "BulkWriteError", Some unwritableDoc,
                    Some (Migration.migrateDoc false 9 legacyDoc)))
    by (vm_compute; reflexivity).
  cbv zeta in Hrun. fold r in Hrun. split; [exact Hrun|].
  assert (Hb2 : r.2 !! "b2" = Some (Migration.migrateDoc false 9 legacyDoc))
    by congruence.
  destruct (proj1 (scanner_spares_migrated_documents false (λ _, 9) 2 true false 500
                     unwritableFirst) "b2" legacyDoc _ eq_refl Hb2)
    as (_ & Hbuilt & _ & Hscan).
  { intros Heq.
    assert (Migration.migrateDoc false 9 legacyDoc !! "essentiaProfileBuilt"
            = legacyDoc !! "essentiaProfileBuilt") as H by (by rewrite Heq).
    vm_compute in H. discriminate H. }
  split; [exact Hscan|exact Hbuilt].
Defined.

(** a document after its migration: a later migration can write it, and
    changes its date only *)
Lemma migrateDoc_again removeOld now now' (d : gmap string value) :
  (Migration.legacyMatrix d ≠ None → writable d = true) →
  let d1 := Migration.migrateDoc removeOld now d in
  (Migration.legacyMatrix d1 ≠ None → writable d1 = true)
  ∧ (removeOld = true → Migration.legacyMatrix d1 = None)
  ∧ (∀ k, k ≠ "essentiaProfileDate" →
          Migration.migrateDoc removeOld now' d1 !! k = d1 !! k)
  ∧ (Migration.legacyMatrix d1 ≠ None →
     Migration.migrateDoc removeOld now' d1 !! "essentiaProfileDate"
     = Some (VDate now')).
Proof.
  intros Hw d1.
  destruct (Migration.legacyMatrix d) as [top|] eqn:El.
  2:{ assert (d1 = d) as -> by (by apply migrateDoc_skipped).
      rewrite El. split; [done|]. split; [done|].
      rewrite (migrateDoc_skipped _ _ _ El). by split. }
  destruct (legacyMatrix_some d top El) as (t & m & -> & Hl).
  assert (Hp : ∀ v, d !! "essentiaAudioProfile" = Some v → ∃ p, v = VProfile p).
  { apply writable_profile, Hw. done. }
  destruct (migrateDoc_applied removeOld now d t m Hl Hp) as (p' & Hm & _ & _ & Heq).
  fold d1 in Heq. clearbody d1. subst d1. destruct removeOld; unfold id.
  - set (d1 := delete "essentiaTrackMatrix" _).
    assert (Migration.legacyMatrix d1 = None) as Hnone.
    { unfold Migration.legacyMatrix. subst d1. by rewrite lookup_delete_eq. }
    rewrite Hnone, (migrateDoc_skipped _ _ _ Hnone). by split_and!.
  - set (d1 := <["essentiaProfileDate" := VDate now]> _).
    assert (d1 !! "essentiaTrackMatrix" = Some (VTracks (t :: m))) as Hl1.
    { subst d1. by rewrite !lookup_insert_ne. }
    assert (d1 !! "essentiaAudioProfile" = Some (VProfile p')) as Hp1.
    { subst d1. rewrite !lookup_insert_ne by done. apply lookup_insert_eq. }
    assert (d1 !! "essentiaProfileBuilt" = Some (VBool true)) as Hb1.
    { subst d1. rewrite lookup_insert_ne by done. apply lookup_insert_eq. }
    destruct (migrateDoc_applied false now' d1 t m Hl1) as (p'' & _ & Hsome & _ & ->).
    { intros v Hv. rewrite Hp1 in Hv. injection Hv as <-. by exists p'. }
    rewrite (Hsome p' Hp1). unfold id.
    assert (mkProfile (Some (t :: m)) (genreMapping p') (recentEvolution p')
              (averageFeatures p') (spectralFeatures p') (metadataVersion p') = p')
      as ->.
    { destruct p' as [tm ? ? ? ? ?]. simpl in *. by rewrite Hm. }
    split_and!.
    + intros _. unfold writable. by rewrite Hp1.
    + done.
    + intros k Hk. rewrite lookup_insert_ne by done.
      rewrite (insert_id d1 "essentiaAudioProfile") by done.
      by rewrite (insert_id d1 "essentiaProfileBuilt").
    + intros _. apply lookup_insert_eq.
Qed.

(** X6.  What a second run of the migration does.  A run without [--apply]
    writes nothing.  A run with [--apply] ends normally exactly when no
    document with a non-empty legacy matrix holds something else than a
    sub-document in [essentiaAudioProfile]; it has then migrated every
    document, each at its own time.  After such a run a second run with the
    same [--remove-old] choice, at any later times and with any batch size,
    ends normally too and keeps every document and every field but
    [essentiaProfileDate]: with [--remove-old] it changes nothing at all,
    and without it the date of every document that still has its legacy
    matrix is written again. *)
Theorem migration_rerun_only_restamps
    (removeOld : bool) (clock clock' : string → Z) (batchSize batchSize' : positive)
    (col : gmap string (gmap string value)) :
  let first := Migration.run true removeOld clock batchSize col in
  let second := Migration.run true removeOld clock' batchSize' first.2 in
  Migration.run false removeOld clock batchSize col = (Returns tt, col)
  ∧ (first.1 = Returns tt
     ↔ ∀ id d, col !! id = Some d → Migration.legacyMatrix d ≠ None → writable d = true)
  ∧ (first.1 = Returns tt →
     (∀ id, first.2 !! id = Migration.migrateDoc removeOld (clock id) <$> col !! id)
     ∧ second.1 = Returns tt
     ∧ (removeOld = true → second.2 = first.2)
     ∧ ∀ id,
         match first.2 !! id with
         | Some d1 =>
             ∃ d2, second.2 !! id = Some d2
                   ∧ (∀ k, k ≠ "essentiaProfileDate" → d2 !! k = d1 !! k)
                   ∧ (Migration.legacyMatrix d1 ≠ None →
                      d2 !! "essentiaProfileDate" = Some (VDate (clock' id)))
         | None => second.2 !! id = None
         end).
Proof.
  intros first second.
  destruct (run_spec removeOld clock batchSize col) as (_ & Hret & Hok).
  fold first in Hret, Hok.
  split.
  { unfold Migration.run, bind, get. cbn [negb].
    by destruct (length (Migration.cursor col) =? 0)%nat. }
  split; [split; [intros Hr; by apply Hret|exact Hok]|].
  intros Hr. destruct (Hret Hr) as [Hmig Hw].
  split; [exact Hmig|].
  destruct (run_spec removeOld clock' batchSize' first.2) as (_ & Hret' & Hok').
  fold second in Hret', Hok'.
  assert (Hagain : ∀ id d1, first.2 !! id = Some d1 →
            ∃ d, col !! id = Some d
                 ∧ d1 = Migration.migrateDoc removeOld (clock id) d
                 ∧ (Migration.legacyMatrix d ≠ None → writable d = true)).
  { intros id d1 Hd1. rewrite Hmig in Hd1.
    destruct (col !! id) as [d|] eqn:Hd; [|done]. simpl in Hd1. injection Hd1 as <-.
    exists d. split; [done|]. split; [done|]. by apply (Hw id d). }
  assert (Hr' : second.1 = Returns tt).
  { apply Hok'. intros id d1 Hd1.
    destruct (Hagain id d1 Hd1) as (d & _ & -> & Hwd).
    apply (migrateDoc_again removeOld (clock id) (clock' id) d Hwd). }
  destruct (Hret' Hr') as [Hmig' _].
  split; [exact Hr'|]. split.
  - intros ->. apply map_eq. intros id. rewrite Hmig'.
    destruct (first.2 !! id) as [d1|] eqn:Hd1; [|done]. simpl. f_equal.
    destruct (Hagain id d1 Hd1) as (d & _ & -> & Hwd).
    apply migrateDoc_skipped.
    by apply (migrateDoc_again true (clock id) (clock' id) d Hwd).
  - intros id. rewrite Hmig'.
    destruct (first.2 !! id) as [d1|] eqn:Hd1; [|done]. simpl.
    destruct (Hagain id d1 Hd1) as (d & _ & -> & Hwd).
    destruct (migrateDoc_again removeOld (clock id) (clock' id) d Hwd)
      as (_ & _ & Hkeep & Hdate).
    eexists. split; [reflexivity|]. by split.
Qed.

Lemma migration_rerun_only_restamps_witness :
  let first := Migration.run true false (λ _, 9) 200 {["a1" := legacyDoc]} in
  let second := Migration.run true false (λ _, 12) 1 first.2 in
  first.1 = Returns tt
  ∧ second.1 = Returns tt
  ∧ (∃ d1 d2, first.2 !! "a1" = Some d1 ∧ second.2 !! "a1" = Some d2
              ∧ d1 !! "essentiaProfileDate" = Some (VDate 9)
              ∧ d2 !! "essentiaProfileDate" = Some (VDate 12)
              ∧ Mongo.trackMatrixOf d2 = Mongo.trackMatrixOf d1)
  ∧ (Migration.run true false (λ _, 9) 1 unwritableFirst).1 ≠ Returns tt.
Proof.
  intros first second.
  destruct (migration_rerun_only_restamps false (λ _, 9) (λ _, 12) 200 1
              {["a1" := legacyDoc]}) as (_ & Hiff & Hrerun).
  fold first in Hiff, Hrerun. fold second in Hrerun.
  assert (Hfirst : first.1 = Returns tt).
  { apply Hiff. intros id d [<- <-]%lookup_singleton_Some _. reflexivity. }
  destruct (Hrerun Hfirst) as (Hmig & Hsecond & _ & Hall).
  specialize (Hall "a1"). rewrite Hmig in Hall.
  change (({["a1" := legacyDoc]} : gmap string (gmap string value)) !! "a1")
    with (Some legacyDoc) in Hall.
  destruct Hall as (d2 & Hd2 & Hkeep & Hdate).
  split; [exact Hfirst|]. split; [exact Hsecond|]. split.
  - exists (Migration.migrateDoc false 9 legacyDoc), d2.
    split; [by rewrite Hmig|]. split; [exact Hd2|]. split; [vm_compute; reflexivity|].
    split; [apply Hdate; vm_compute; discriminate|].
    unfold Mongo.trackMatrixOf. by rewrite Hkeep.
  - destruct (migration_rerun_only_restamps false (λ _, 9) (λ _, 12) 1 1 unwritableFirst)
      as (_ & Hiff' & _).
    intros Hr.
    assert (writable unwritableDoc = true) as Hw.
    { apply (proj1 Hiff' Hr "b1" unwritableDoc eq_refl). vm_compute. discriminate. }
    vm_compute in Hw. discriminate Hw.
Defined.

(** ** The batch driver, artist by artist *)

#[local] Instance sameTally_refl : Reflexive sameTally.
Proof. intros w. reflexivity. Qed.
#[local] Instance sameTally_trans : Transitive sameTally.
Proof. unfold sameTally. intros w1 w2 w3 H1 H2. congruence. Qed.

Lemma updateOne_sameTally id u : preserves sameTally (Batch.updateOne id u).
Proof.
  intros w. unfold Batch.updateOne.
  destruct (match Batch.faults w with b :: _ => b | [] => false end); [done|].
  by destruct (Mongo.updateOne id u (Batch.artistCol w)) as [[r col']|].
Qed.

(** a step of the driver that is a record update *)
Ltac world_change :=
  intros ?; unfold sameTally, tally; simpl; first [done | lia].

Lemma callAnalyze_sameTally svc cli a nm strategy forceSC n :
  preserves sameTally (Batch.callAnalyze svc cli a nm strategy forceSC n).
Proof.
  unfold Batch.callAnalyze. repeat first [preserves_step | world_change].
Qed.

Lemma analysisPasses_sameTally svc cli inp a nm :
  preserves sameTally (Batch.analysisPasses svc cli inp a nm).
Proof.
  unfold Batch.analysisPasses.
  repeat first [apply callAnalyze_sameTally | preserves_step | world_change].
Qed.

Lemma writeArtistProfile_sameTally cli a t r :
  preserves sameTally (Batch.writeArtistProfile cli a t r).
Proof.
  unfold Batch.writeArtistProfile.
  repeat first [apply updateOne_sameTally | preserves_step | world_change].
Qed.

Lemma markBuiltFromStaged_sameTally a t :
  preserves sameTally (Batch.markBuiltFromStaged a t).
Proof.
  unfold Batch.markBuiltFromStaged.
  repeat first [apply updateOne_sameTally | preserves_step | world_change].
Qed.

Lemma writeArtistProfile_returns cli a t r : returns (Batch.writeArtistProfile cli a t r).
Proof. unfold Batch.writeArtistProfile. apply returns_try_. Qed.

Lemma markBuiltFromStaged_returns a t : returns (Batch.markBuiltFromStaged a t).
Proof.
  unfold Batch.markBuiltFromStaged. apply returns_try_catch. intros e.
  apply returns_modify.
Qed.

(** one artist: the body returns a status and counts the artist once *)
Lemma processArtist_tally svc cli inp a (w : Batch.World) :
  ∃ st w', Batch.processArtist svc cli inp a w = (Returns st, w')
           ∧ tally w' = tally w + 1.
Proof.
  unfold Batch.processArtist.
  destruct (Batch.aName a) as [nm|].
  2:{ eexists _, _. split; [reflexivity|]. unfold tally. simpl. lia. }
  destruct (_ && _).
  { unfold bind.
    pose proof (markBuiltFromStaged_sameTally a (Batch.now inp) w) as Hs.
    destruct (markBuiltFromStaged_returns a (Batch.now inp) w) as ([] & w1 & E).
    rewrite E in Hs |- *. simpl in *.
    eexists _, _. split; [reflexivity|]. unfold sameTally, tally in *. simpl. lia. }
  destruct (_ && _).
  { eexists _, _. split; [reflexivity|]. unfold tally. simpl. lia. }
  destruct (_ <=? _).
  { eexists _, _. split; [reflexivity|]. unfold tally. simpl. lia. }
  destruct (Batch.dryRun cli).
  { eexists _, _. split; [reflexivity|]. unfold tally. simpl. lia. }
  unfold try_catch, bind.
  pose proof (analysisPasses_sameTally svc cli inp a nm w) as Hs.
  destruct (Batch.analysisPasses svc cli inp a nm w) as [[last|e] w1]; simpl in Hs.
  2:{ eexists _, _. split; [reflexivity|]. unfold sameTally, tally in *. simpl. lia. }
  assert (∃ w2, (match last with
                 | Some r => when_ (Resp.success r && negb false)
                               (Batch.writeArtistProfile cli a (Batch.now inp) r)
                 | None => ret tt
                 end) w1 = (Returns tt, w2) ∧ sameTally w1 w2) as (w2 & -> & Hs2).
  { destruct last as [r|]; [|by exists w1].
    destruct (Resp.success r); simpl; [|by exists w1].
    pose proof (writeArtistProfile_sameTally cli a (Batch.now inp) r w1) as Hw.
    destruct (writeArtistProfile_returns cli a (Batch.now inp) r w1) as ([] & w2 & E).
    rewrite E in Hw |- *. by exists w2. }
  eexists _, _. split; [reflexivity|]. unfold sameTally, tally in *. simpl. lia.
Qed.

(** X7.  The main loop never throws, whatever the analysis service answers
    and whichever writes to [artistGenres] fail (the vector counts read from
    [audio_features] are inputs here), and its summary accounts for every
    artist exactly once: after the loop [improved + skipped + errors] has
    grown by the number of artists. *)
Theorem batch_summary_accounts_for_every_artist
    (svc : Batch.Service) (cli : Batch.Cli) (l : list (Batch.Artist * Batch.Inputs))
    (w : Batch.World) :
  ∃ w', Batch.mainLoop svc cli l w = (Returns tt, w')
        ∧ Batch.improved w' + Batch.skipped w' + Batch.errors w'
          = Batch.improved w + Batch.skipped w + Batch.errors w + Z.of_nat (length l).
Proof.
  unfold Batch.mainLoop. revert w.
  induction l as [|[a inp] l IH]; intros w.
  { exists w. split; [done|]. simpl. lia. }
  simpl. unfold bind at 1. unfold bind at 1.
  destruct (processArtist_tally svc cli inp a w) as (st & w1 & -> & H1).
  simpl. destruct (IH w1) as (w' & -> & H').
  exists w'. split; [done|]. unfold tally in H1. lia.
Qed.

#[local] Instance wroteOnly_refl id : Reflexive (wroteOnly id).
Proof.
  intros w. split; [|done]. exists []. rewrite app_nil_r. split; [done|].
  by intros e ?%elem_of_nil.
Qed.
#[local] Instance wroteOnly_trans id : Transitive (wroteOnly id).
Proof.
  intros w1 w2 w3 [(n1 & E1 & H1) F1] [(n2 & E2 & H2) F2]. split.
  - exists (n1 ++ n2). rewrite E2, E1, app_assoc. split; [done|].
    intros e [?|?]%elem_of_app; auto.
  - intros j Hj. by rewrite F2, F1.
Qed.

Lemma mongo_updateOne_others id u (col col' : gmap string (gmap string value)) r j :
  Mongo.updateOne id u col = Some (r, col') → id ≠ Some j → col' !! j = col !! j.
Proof.
  unfold Mongo.updateOne. intros H Hj.
  destruct id as [i|]; [|by injection H as <- <-].
  destruct (col !! i) as [d|]; [|by injection H as <- <-].
  destruct (Mongo.applyUpdate u d) as [d'|]; [|done].
  destruct (decide (d' = d)); injection H as <- <-; [done|].
  apply lookup_insert_ne. congruence.
Qed.

Lemma updateOne_wroteOnly id u : preserves (wroteOnly id) (Batch.updateOne id u).
Proof.
  intros w. unfold Batch.updateOne.
  destruct (match Batch.faults w with b :: _ => b | [] => false end); simpl.
  { split; [|done]. eexists [_]. split; [done|]. by intros e ->%list_elem_of_singleton. }
  destruct (Mongo.updateOne id u (Batch.artistCol w)) as [[r col']|] eqn:E; simpl.
  - split.
    + eexists [_]. split; [done|]. by intros e ->%list_elem_of_singleton.
    + intros j Hj. by apply (mongo_updateOne_others id u _ _ r).
  - split; [|done]. eexists [_]. split; [done|]. by intros e ->%list_elem_of_singleton.
Qed.

(** a step that leaves the store and the write log alone *)
Ltac store_kept :=
  intros ?; split; [exists []; rewrite app_nil_r; split; [done|];
                    by intros ? ?%elem_of_nil | done].

(** X8.  Processing one artist sends every store write with that artist's
    own [_id] as the filter and changes no other document of the
    collection, whatever the service answers and whether or not a write
    fails. *)
Theorem batch_writes_only_the_artists_document
    (svc : Batch.Service) (cli : Batch.Cli) (inp : Batch.Inputs) (a : Batch.Artist)
    (w : Batch.World) :
  (∃ news, Batch.writes (Batch.processArtist svc cli inp a w).2 = Batch.writes w ++ news
           ∧ ∀ e, e ∈ news → Batch.evId e = Batch._id a)
  ∧ ∀ j, Batch._id a ≠ Some j →
         Batch.artistCol (Batch.processArtist svc cli inp a w).2 !! j
         = Batch.artistCol w !! j.
Proof.
  assert (preserves (wroteOnly (Batch._id a)) (Batch.processArtist svc cli inp a)) as H.
  { unfold Batch.processArtist, Batch.markBuiltFromStaged, Batch.writeArtistProfile,
      Batch.analysisPasses, Batch.callAnalyze.
    repeat first [apply updateOne_wroteOnly | preserves_step | store_kept]. }
  apply (H w).
Qed.

Lemma updateOne_requests id u (w : Batch.World) :
  Batch.requests (Batch.updateOne id u w).2 = Batch.requests w.
Proof.
  unfold Batch.updateOne.
  destruct (match Batch.faults w with b :: _ => b | [] => false end); [done|].
  by destruct (Mongo.updateOne id u (Batch.artistCol w)) as [[r col']|].
Qed.

(** the shortcut for a complete staged profile: one write, the built flag,
    and no request *)
Lemma markBuiltFromStaged_effect a t (w : Batch.World) :
  ∃ w' e, Batch.markBuiltFromStaged a t w = (Returns tt, w')
          ∧ Batch.writes w' = Batch.writes w ++ [e]
          ∧ Batch.evUpdate e = Batch.markBuilt t
          ∧ Batch.requests w' = Batch.requests w.
Proof.
  unfold Batch.markBuiltFromStaged, try_catch, bind, when_, modify, ret.
  destruct (updateOne_event (Batch._id a) (Batch.markBuilt t) w) as (e & Hw & _ & Hu & _).
  pose proof (updateOne_requests (Batch._id a) (Batch.markBuilt t) w) as Hr.
  destruct (Batch.updateOne (Batch._id a) (Batch.markBuilt t) w) as [[r|err] w1];
    simpl in *.
  - destruct (0 <? Mongo.modifiedCount r); eexists _, e; done.
  - eexists _, e. done.
Qed.

(** X9.  An artist the loop skips is left alone: with the status
    [missing_name], [skip_profile], [skip] or [dry-skip] the collection, the
    write log and the request log are as before.  An artist whose profile
    is flagged built is skipped in this way unless the run has [--force].
    Under [--dry] no request is sent, but a staged profile that already has
    [maxTracks] tracks is still marked built: that one write is the only
    one a dry run makes. *)
Theorem skipped_artists_are_left_alone
    (svc : Batch.Service) (cli : Batch.Cli) (inp : Batch.Inputs) (a : Batch.Artist)
    (w : Batch.World) :
  let r := Batch.processArtist svc cli inp a w in
  (∀ st, r.1 = Returns st →
         st ∈ [Batch.missing_name; Batch.skip_profile; Batch.skip; Batch.dry_skip] →
         untouched w r.2)
  ∧ (Mongo.truthyField (Batch.doc a) "essentiaProfileBuilt" = true →
     Batch.force cli = false →
     (r.1 = Returns Batch.skip_profile ∨ r.1 = Returns Batch.missing_name)
     ∧ untouched w r.2)
  ∧ (Batch.dryRun cli = true →
     Batch.requests r.2 = Batch.requests w
     ∧ (Batch.writes r.2 = Batch.writes w
        ∨ r.1 = Returns Batch.already_staged_built
          ∧ Batch.maxTracks cli <= Batch.stagedLen a
          ∧ ∃ e, Batch.writes r.2 = Batch.writes w ++ [e]
                 ∧ Batch.evUpdate e = Batch.markBuilt (Batch.now inp))).
Proof.
  intros r. subst r. unfold Batch.processArtist.
  assert (Hnot : ∀ st, st = Batch.already_staged_built ∨ st = Batch.done
                       ∨ st = Batch.error →
            st ∈ [Batch.missing_name; Batch.skip_profile; Batch.skip; Batch.dry_skip] →
            False).
  { intros st Hst. rewrite !elem_of_cons, elem_of_nil.
    intros [->|[->|[->|[->|[]]]]]; destruct Hst as [?|[?|?]]; discriminate. }
  destruct (Batch.aName a) as [nm|]; [|solve [repeat split; intros; try done; auto]].
  destruct (Mongo.truthyField (Batch.doc a) "essentiaProfileBuilt") eqn:Hb;
    simpl; rewrite ?andb_false_r; simpl.
  { destruct (Batch.force cli); simpl.
    2:{ solve [repeat split; intros; try done; auto]. }
    destruct (Batch.maxTracks cli <=? Batch.existingVectors inp); [solve [repeat split; intros; try done; auto]|].
    destruct (Batch.dryRun cli) eqn:Hdry; [solve [repeat split; intros; try done; auto]|].
    split; [|done]. intros st Hst Hin. exfalso. apply (Hnot st); [|done].
    revert Hst. unfold try_catch, bind.
    destruct (Batch.analysisPasses svc cli inp a nm w) as [[last|e] w1]; simpl;
      [|intros [= <-]; auto].
      destruct last as [r0|]; simpl; [|intros [= <-]; auto].
    destruct (when_ _ _ w1) as [[[]|e] w2]; simpl; intros [= <-]; auto. }
  rewrite andb_true_r.
  destruct (Batch.maxTracks cli <=? Batch.stagedLen a) eqn:Hlen.
  { unfold bind.
    destruct (markBuiltFromStaged_effect a (Batch.now inp) w)
      as (w' & e & -> & Hw & Hu & Hr). simpl.
    split; [|split; [done|]].
    - intros st [= <-] Hin. exfalso. apply (Hnot Batch.already_staged_built); auto.
    - intros _. split; [done|]. right. split; [done|]. split; [by apply Z.leb_le|].
      by exists e. }
  destruct (Batch.maxTracks cli <=? Batch.existingVectors inp); [solve [repeat split; intros; try done; auto]|].
  destruct (Batch.dryRun cli) eqn:Hdry; [solve [repeat split; intros; try done; auto]|].
  split; [|done]. intros st Hst Hin. exfalso. apply (Hnot st); [|done].
  revert Hst. unfold try_catch, bind.
  destruct (Batch.analysisPasses svc cli inp a nm w) as [[last|e] w1]; simpl;
    [|intros [= <-]; auto].
  destruct last as [r0|]; simpl; [|intros [= <-]; auto].
  destruct (when_ _ _ w1) as [[[]|e] w2]; simpl; intros [= <-]; auto.
Qed.

(** one call of the service: the request is logged, and the call returns
    exactly a 2xx answer *)
Lemma callAnalyze_effect svc cli a nm strategy forceSC n (w : Batch.World) :
  ∃ b, (Batch.callAnalyze svc cli a nm strategy forceSC n w).2 = Batch.withRequest b w
       ∧ Batch.bodyMaxTracks b = n
       ∧ ∀ r, (Batch.callAnalyze svc cli a nm strategy forceSC n w).1 = Returns r →
              svc b = Returns r ∧ 200 <= Resp.status r < 300.
Proof.
  unfold Batch.callAnalyze, bind, modify, call, ret, throw. simpl.
  exists (Batch.mkAnalyzeBody nm (Batch.strField (Batch.doc a) "spotifyId")
            (Batch.genresOf (Batch.doc a)) n (Batch.fastModeFlag cli) strategy forceSC).
  split; [|split; [reflexivity|]].
  - destruct (svc _) as [r|e]; simpl; [|reflexivity].
    destruct (_ && _); reflexivity.
  - intros r. destruct (svc _) as [r0|e]; simpl; [|done].
    destruct ((200 <=? Resp.status r0) && (Resp.status r0 <? 300)) eqn:E; simpl; [|done].
    intros [= <-]. split; [done|]. apply andb_true_iff in E as [?%Z.leb_le ?%Z.ltb_lt]. lia.
Qed.

(** the passes: at most two requests and no write; the analysis handed on
    is the answer to the last request *)
Lemma analysisPasses_last svc cli inp a nm (w : Batch.World) :
  let after := Batch.analysisPasses svc cli inp a nm w in
  Batch.artistCol after.2 = Batch.artistCol w
  ∧ Batch.writes after.2 = Batch.writes w
  ∧ ∃ news, Batch.requests after.2 = Batch.requests w ++ news
            ∧ (length news ≤ 2)%nat
            ∧ ∀ lastAnalysis, after.1 = Returns lastAnalysis →
                match lastAnalysis with
                | None => news = []
                | Some r => ∃ b, last news = Some b ∧ b ∈ news
                                 ∧ svc b = Returns r ∧ 200 <= Resp.status r < 300
                end.
Proof.
  intros after. subst after.
  destruct (Batch.analysisPasses svc cli inp a nm w) as [o w'] eqn:E.
  unfold Batch.analysisPasses in E. unfold bind at 1 in E.
  set (first := if negb (Batch.soundcloudOnly cli) && Batch.appleFirst cli then _ else _)
    in E.
  assert (∃ news1, Batch.artistCol (first w).2 = Batch.artistCol w
                   ∧ Batch.writes (first w).2 = Batch.writes w
                   ∧ Batch.requests (first w).2 = Batch.requests w ++ news1
                   ∧ (length news1 ≤ 1)%nat
                   ∧ ∀ last, (first w).1 = Returns last →
                       match last with
                       | None => news1 = []
                       | Some r => ∃ b, news1 = [b] ∧ svc b = Returns r
                                        ∧ 200 <= Resp.status r < 300
                       end) as (news1 & Hc1 & Hw1 & Hr1 & Hl1 & Hlast1).
  { subst first. destruct (_ && _).
    - unfold bind.
      destruct (callAnalyze_effect svc cli a nm "apple_primary" false
                  (Batch.requestedTracks cli a) w) as (b & Hs & _ & Hret).
      destruct (Batch.callAnalyze _ _ _ _ _ _ _ w) as [[r|e] w1]; simpl in *; subst w1.
      + exists [b]. split_and!; try done. intros last [= <-].
        exists b. split; [done|]. by apply Hret.
      + exists [b]. split_and!; done.
    - exists []. rewrite app_nil_r.
      split_and!; try done; [simpl; lia | by intros last [= <-]]. }
  clearbody first.
  destruct (first w) as [[last1|e] w1]; simpl in *.
  2:{ injection E as <- <-. simpl.
      split; [done|]. split; [done|]. exists news1. split; [done|]. split; [lia|done]. }
  assert (Hkeep : ∃ news, Batch.requests w1 = Batch.requests w ++ news
            ∧ (length news ≤ 2)%nat
            ∧ ∀ lastAnalysis, Returns last1 = Returns lastAnalysis →
                match lastAnalysis with
                | None => news = []
                | Some r => ∃ b, last news = Some b ∧ b ∈ news
                                 ∧ svc b = Returns r ∧ 200 <= Resp.status r < 300
                end).
  { exists news1. split; [done|]. split; [lia|].
    intros last [= <-]. specialize (Hlast1 last1 eq_refl).
    destruct last1 as [r|]; [|done].
    destruct Hlast1 as (b & -> & Hb). exists b. split; [done|]. split; [by left|done]. }
  destruct (Batch.soundcloudPass cli || Batch.soundcloudOnly cli).
  2:{ injection E as <- <-. simpl. done. }
  destruct (Batch.postAppleVectors inp <? Batch.maxTracks cli - 1).
  2:{ injection E as <- <-. simpl. done. }
  unfold bind, modify in E. simpl in E.
  destruct (callAnalyze_effect svc cli a nm "apple_primary" true
              (Batch.requestedTracks cli a) (Batch.bump_scTriggered w1))
    as (b & Hs & _ & Hret).
  destruct (Batch.callAnalyze _ _ _ _ _ _ _ (Batch.bump_scTriggered w1)) as [[r|e] w2];
    simpl in *; subst w2; injection E as <- <-; simpl.
  - split; [done|]. split; [done|]. exists (news1 ++ [b]).
    rewrite Hr1, app_assoc. split; [done|]. split; [rewrite length_app; simpl; lia|].
    intros last [= <-]. exists b. split; [by rewrite last_snoc|].
    split; [apply elem_of_app; right; by left|]. by apply Hret.
  - split; [done|]. split; [done|]. exists (news1 ++ [b]).
    rewrite Hr1, app_assoc. split; [done|]. split; [rewrite length_app; simpl; lia|done].
Qed.

#[local] Instance sameRequests_refl : Reflexive sameRequests.
Proof. intros w. reflexivity. Qed.
#[local] Instance sameRequests_trans : Transitive sameRequests.
Proof. unfold sameRequests. intros w1 w2 w3 H1 H2. congruence. Qed.

Lemma writeArtistProfile_sameRequests cli a t r :
  preserves sameRequests (Batch.writeArtistProfile cli a t r).
Proof.
  unfold Batch.writeArtistProfile.
  repeat first [ preserves_step
               | intros ?; apply updateOne_requests
               | intros ?; reflexivity ].
Qed.

(** the log of one artist: at most two requests, then at most two writes;
    a write is a flag or the profile of the answer to the last request *)
Lemma processArtist_log svc cli inp a (w : Batch.World) :
  ∃ (newR : list Batch.AnalyzeBody) (newW : list Batch.WriteEvent),
    Batch.requests (Batch.processArtist svc cli inp a w).2 = Batch.requests w ++ newR
    ∧ Batch.writes (Batch.processArtist svc cli inp a w).2 = Batch.writes w ++ newW
    ∧ (length newR ≤ 2)%nat ∧ (length newW ≤ 2)%nat
    ∧ ∀ e, e ∈ newW →
        flagOrProfileOf (Batch.now inp)
          (match last newR with
           | Some b => match svc b with Returns r => Some r | Throws _ => None end
           | None => None
           end) e.
Proof.
  assert (Hnil : ∀ w' : Batch.World,
            Batch.requests w' = Batch.requests w → Batch.writes w' = Batch.writes w →
            ∃ (newR : list Batch.AnalyzeBody) (newW : list Batch.WriteEvent),
              Batch.requests w' = Batch.requests w ++ newR
              ∧ Batch.writes w' = Batch.writes w ++ newW
              ∧ (length newR ≤ 2)%nat ∧ (length newW ≤ 2)%nat
              ∧ ∀ e, e ∈ newW →
                  flagOrProfileOf (Batch.now inp)
                    (match last newR with
                     | Some b => match svc b with Returns r => Some r | Throws _ => None end
                     | None => None
                     end) e).
  { intros w' Hr Hw. exists [], []. rewrite !app_nil_r.
    split_and!; try done; [simpl; lia..|]. by intros e ?%elem_of_nil. }
  unfold Batch.processArtist.
  destruct (Batch.aName a) as [nm|]; [|by apply Hnil].
  destruct (_ && _).
  { unfold bind.
    destruct (markBuiltFromStaged_effect a (Batch.now inp) w)
      as (w' & e & -> & Hw & Hu & Hr). simpl.
    exists [], [e]. rewrite app_nil_r. split_and!; try done; [simpl; lia..|].
    intros e' ->%list_elem_of_singleton. by left. }
  destruct (_ && _); [by apply Hnil|].
  destruct (Batch.maxTracks cli <=? Batch.existingVectors inp); [by apply Hnil|].
  destruct (Batch.dryRun cli); [by apply Hnil|].
  unfold try_catch, bind.
  destruct (analysisPasses_last svc cli inp a nm w) as (_ & Hw1 & newR & Hr1 & Hlen & Hlast).
  destruct (Batch.analysisPasses svc cli inp a nm w) as [[lastAnalysis|err] w1];
    simpl in *.
  2:{ exists newR, []. rewrite app_nil_r. split_and!; try done; [simpl; lia|].
      by intros e ?%elem_of_nil. }
  specialize (Hlast lastAnalysis eq_refl).
  destruct lastAnalysis as [r|]; simpl.
  2:{ exists newR, []. rewrite app_nil_r. split_and!; try done; [simpl; lia|].
      by intros e ?%elem_of_nil. }
  destruct Hlast as (b & Hb & _ & Hsvc & _).
  destruct (Resp.success r) eqn:Hsucc; simpl.
  2:{ exists newR, []. rewrite app_nil_r. split_and!; try done; [simpl; lia|].
      by intros e ?%elem_of_nil. }
  destruct (writeArtistProfile_flag_writes cli a (Batch.now inp) r w1)
    as (_ & flagWrites & Hw & Hfl & Hflag & _).
  destruct (updateOne_event (Batch._id a) (Batch.writeProfileOp r) w1)
    as (ev & Hev & _ & Hu & _).
  pose proof (writeArtistProfile_sameRequests cli a (Batch.now inp) r w1) as Hsame.
  destruct (Batch.writeArtistProfile cli a (Batch.now inp) r w1) as [[[]|err] w2];
    simpl in *.
  - exists newR, (ev :: flagWrites). rewrite Hsame, Hw, Hev, Hw1, <- app_assoc.
    split_and!; try done; [simpl; lia|].
    rewrite Hb, Hsvc. intros e [->|Hin]%elem_of_cons.
    + right. right. by exists r.
    + destruct (Hflag e Hin) as [?|?]; [by left|right; by left].
  - exists newR, (ev :: flagWrites). rewrite Hsame, Hw, Hev, Hw1, <- app_assoc.
    split_and!; try done; [simpl; lia|].
    rewrite Hb, Hsvc. intros e [->|Hin]%elem_of_cons.
    + right. right. by exists r.
    + destruct (Hflag e Hin) as [?|?]; [by left|right; by left].
Qed.

Lemma mainLoop_cons svc cli a inp l (w : Batch.World) :
  Batch.mainLoop svc cli ((a, inp) :: l) w
  = Batch.mainLoop svc cli l (Batch.processArtist svc cli inp a w).2.
Proof.
  unfold Batch.mainLoop. simpl. unfold bind.
  by destruct (processArtist_tally svc cli inp a w) as (st & w1 & -> & _).
Qed.

(** X10.  For one artist the driver sends at most two requests to the
    service and at most two writes to the store; over a run the request log
    and the write log grow by at most twice the number of artists. *)
Theorem batch_is_bounded_per_artist
    (svc : Batch.Service) (cli : Batch.Cli) (l : list (Batch.Artist * Batch.Inputs))
    (w : Batch.World) :
  (∀ a inp w0,
     (length (Batch.requests (Batch.processArtist svc cli inp a w0).2)
      ≤ length (Batch.requests w0) + 2)%nat
     ∧ (length (Batch.writes (Batch.processArtist svc cli inp a w0).2)
        ≤ length (Batch.writes w0) + 2)%nat)
  ∧ (length (Batch.requests (Batch.mainLoop svc cli l w).2)
     ≤ length (Batch.requests w) + 2 * length l)%nat
  ∧ (length (Batch.writes (Batch.mainLoop svc cli l w).2)
     ≤ length (Batch.writes w) + 2 * length l)%nat.
Proof.
  assert (Hone : ∀ a inp w0,
            (length (Batch.requests (Batch.processArtist svc cli inp a w0).2)
             ≤ length (Batch.requests w0) + 2)%nat
            ∧ (length (Batch.writes (Batch.processArtist svc cli inp a w0).2)
               ≤ length (Batch.writes w0) + 2)%nat).
  { intros a inp w0.
    destruct (processArtist_log svc cli inp a w0) as (newR & newW & -> & -> & ? & ? & _).
    rewrite !length_app. lia. }
  split; [exact Hone|].
  revert w. induction l as [|[a inp] l IH]; intros w; [simpl; lia|].
  rewrite mainLoop_cons. destruct (Hone a inp w) as [Hr Hw].
  destruct (IH (Batch.processArtist svc cli inp a w).2). simpl. lia.
Qed.

(** X11.  What the driver writes for an artist is a lifecycle flag or the
    profile of the answer to the last request it sent for that artist, an
    answer with [success]: an earlier answer is never stored once a later
    request was sent, and when the last request fails or reports no success
    no profile is written. *)
Theorem batch_stores_the_last_answer
    (svc : Batch.Service) (cli : Batch.Cli) (inp : Batch.Inputs) (a : Batch.Artist)
    (w : Batch.World) :
  ∃ (newR : list Batch.AnalyzeBody) (newW : list Batch.WriteEvent),
    Batch.requests (Batch.processArtist svc cli inp a w).2 = Batch.requests w ++ newR
    ∧ Batch.writes (Batch.processArtist svc cli inp a w).2 = Batch.writes w ++ newW
    ∧ ∀ e, e ∈ newW →
        Batch.evUpdate e = Batch.markBuilt (Batch.now inp)
        ∨ Batch.evUpdate e = Batch.markStaged (Batch.now inp)
        ∨ ∃ b r, last newR = Some b ∧ svc b = Returns r
                 ∧ Resp.success r = true
                 ∧ Batch.evUpdate e = Batch.writeProfileOp r.
Proof.
  destruct (processArtist_log svc cli inp a w) as (newR & newW & Hr & Hw & _ & _ & He).
  exists newR, newW. split; [done|]. split; [done|].
  intros e Hin. destruct (He e Hin) as [?|[?|(r & Hans & Hs & Hu)]]; [by left|right; by left|].
  right. right.
  destruct (last newR) as [b|]; [|done].
  destruct (svc b) as [r0|] eqn:Hsvc; [|done].
  injection Hans as ->. by exists b, r.
Qed.

(** without store failures, the document of the artist after the profile
    step *)
Lemma writeArtistProfile_final cli a t r (w : Batch.World) i (d : gmap string value) :
  Batch.faults w = [] → Batch._id a = Some i → Batch.artistCol w !! i = Some d →
  let d' := <["essentiaVersion" := VStr (Batch.versionOf r)]>
              (<["essentiaAudioProfile" := VProfile (Batch.profileOf r)]> d) in
  let tmLen := Z.of_nat (length (default [] (Resp.trackMatrix r))) in
  Batch.artistCol (Batch.writeArtistProfile cli a t r w).2 !! i
  = Some (if decide (d' = d) then d
          else if Batch.maxTracks cli <=? tmLen then
                 delete "essentiaProfileStaged"
                   (<["essentiaProfileDate" := VDate t]>
                      (<["essentiaProfileBuilt" := VBool true]> d'))
          else if 0 <? tmLen then
                 <["essentiaProfileDate" := VDate t]>
                   (<["essentiaProfileStaged" := VBool true]> d')
          else d').
Proof.
  intros Hf Hi Hd d' tmLen.
  unfold Batch.writeArtistProfile, try_, try_catch, bind.
  rewrite Hi.
  pose proof (updateOne_found i (Batch.writeProfileOp r) _ d d' Hd
                (applyUpdate_writeProfileOp r d)) as Hm.
  destruct (decide (d' = d)) as [Heq|Hne];
    rewrite (updateOne_no_fault _ _ w _ _ Hf Hm); simpl; [done|].
  set (w1 := Batch.withStore w _ _ _).
  assert (Hf1 : Batch.faults w1 = []) by done.
  assert (Hd1 : Batch.artistCol w1 !! i = Some d') by apply lookup_insert_eq.
  change (Z.of_nat (length (default [] (Resp.trackMatrix r)))) with tmLen.
  destruct (Batch.maxTracks cli <=? tmLen); simpl.
  - pose proof (updateOne_found i (Batch.markBuilt t) _ d' _ Hd1
                  (applyUpdate_markBuilt t d')) as Hm1.
    match type of Hm1 with context [decide (?x = d')] =>
      destruct (decide (x = d')) as [E|E] end;
      rewrite (updateOne_no_fault _ _ w1 _ _ Hf1 Hm1); simpl.
    + by rewrite E.
    + by rewrite lookup_insert_eq.
  - destruct (0 <? tmLen); simpl; [|done].
    pose proof (updateOne_found i (Batch.markStaged t) _ d' _ Hd1
                  (applyUpdate_markStaged t d')) as Hm1.
    match type of Hm1 with context [decide (?x = d')] =>
      destruct (decide (x = d')) as [E|E] end;
      rewrite (updateOne_no_fault _ _ w1 _ _ Hf1 Hm1); simpl.
    + by rewrite E.
    + by rewrite lookup_insert_eq.
Qed.

(** X12.  Storing an analysis and selecting artists for the next run fit
    together.  When the profile write changes the stored document (no store
    failure, a target of at least one track), the document afterwards is
    selected by the next run's query exactly when the stored matrix has
    fewer than [maxTracks] tracks: with [maxTracks] or more it is flagged
    built and no longer staged; with fewer, but some, it is flagged staged
    and its built flag is as it was. *)
Theorem stored_profile_is_resumed_until_complete
    (cli : Batch.Cli) (a : Batch.Artist) (t : Z) (r : Resp.t) (w : Batch.World)
    (i : string) (d : gmap string value) :
  Batch.faults w = [] → Batch._id a = Some i → Batch.artistCol w !! i = Some d →
  d !! "essentiaAudioProfile" ≠ Some (VProfile (Batch.profileOf r)) →
  1 <= Batch.maxTracks cli →
  let tmLen := Z.of_nat (length (default [] (Resp.trackMatrix r))) in
  ∃ d1,
    Batch.artistCol (Batch.writeArtistProfile cli a t r w).2 !! i = Some d1
    ∧ Mongo.trackMatrixOf d1 = Some (default [] (Resp.trackMatrix r))
    ∧ (Batch.needsWork d1 = true ↔ tmLen < Batch.maxTracks cli)
    ∧ (Batch.maxTracks cli <= tmLen →
       d1 !! "essentiaProfileBuilt" = Some (VBool true)
       ∧ d1 !! "essentiaProfileStaged" = None)
    ∧ (0 < tmLen < Batch.maxTracks cli →
       d1 !! "essentiaProfileStaged" = Some (VBool true)
       ∧ d1 !! "essentiaProfileBuilt" = d !! "essentiaProfileBuilt").
Proof.
  intros Hf Hi Hd Hp Hmax tmLen.
  pose proof (writeArtistProfile_final cli a t r w i d Hf Hi Hd) as Hfinal.
  cbv zeta in Hfinal. fold tmLen in Hfinal.
  set (d' := <["essentiaVersion" := VStr (Batch.versionOf r)]> _) in Hfinal.
  assert (Hp' : d' !! "essentiaAudioProfile" = Some (VProfile (Batch.profileOf r))).
  { subst d'. by rewrite lookup_insert_ne, lookup_insert_eq. }
  destruct (decide (d' = d)) as [Heq|Hne]; [by rewrite Heq in Hp'|].
  assert (Hm : ∀ d1 : gmap string value,
            d1 !! "essentiaAudioProfile" = Some (VProfile (Batch.profileOf r)) →
            Mongo.trackMatrixOf d1 = Some (default [] (Resp.trackMatrix r))).
  { intros d1 H1. unfold Mongo.trackMatrixOf. by rewrite H1. }
  assert (Hneeds : ∀ d1 : gmap string value,
            d1 !! "essentiaAudioProfile" = Some (VProfile (Batch.profileOf r)) →
            Batch.needsWork d1
            = if (0 <? tmLen)
              then bool_decide (d1 !! "essentiaProfileStaged" = Some (VBool true))
              else true).
  { intros d1 H1. unfold Batch.needsWork. rewrite H1. simpl. subst tmLen.
    by destruct (default [] (Resp.trackMatrix r)). }
  destruct (Batch.maxTracks cli <=? tmLen) eqn:Hlen.
  - apply Z.leb_le in Hlen. eexists. split; [exact Hfinal|].
    assert (Hprofile : delete "essentiaProfileStaged"
                         (<["essentiaProfileDate" := VDate t]>
                            (<["essentiaProfileBuilt" := VBool true]> d'))
                       !! "essentiaAudioProfile"
                       = Some (VProfile (Batch.profileOf r))).
    { by rewrite lookup_delete_ne, !lookup_insert_ne. }
    split; [by apply Hm|]. split; [|split].
    + rewrite Hneeds by done. rewrite lookup_delete_eq.
      destruct (0 <? tmLen) eqn:E; [|apply Z.ltb_ge in E; lia].
      rewrite bool_decide_eq_false_2 by done. split; [done|lia].
    + intros _. split; [|apply lookup_delete_eq].
      rewrite lookup_delete_ne, lookup_insert_ne by done. apply lookup_insert_eq.
    + lia.
  - apply Z.leb_gt in Hlen. destruct (0 <? tmLen) eqn:Hpos.
    + apply Z.ltb_lt in Hpos. eexists. split; [exact Hfinal|].
      assert (Hprofile : <["essentiaProfileDate" := VDate t]>
                           (<["essentiaProfileStaged" := VBool true]> d')
                         !! "essentiaAudioProfile"
                         = Some (VProfile (Batch.profileOf r))).
      { by rewrite !lookup_insert_ne. }
      split; [by apply Hm|]. split; [|split].
      * rewrite Hneeds by done.
        destruct (0 <? tmLen) eqn:E; [|apply Z.ltb_ge in E; lia].
        rewrite lookup_insert_ne, lookup_insert_eq by done.
        by rewrite bool_decide_eq_true_2.
      * lia.
      * intros _. split.
        -- rewrite lookup_insert_ne by done. apply lookup_insert_eq.
        -- subst d'. by rewrite !lookup_insert_ne.
    + apply Z.ltb_ge in Hpos. eexists. split; [exact Hfinal|].
      split; [by apply Hm|]. split; [|split].
      * rewrite Hneeds by done.
        destruct (0 <? tmLen) eqn:E; [apply Z.ltb_lt in E; lia|done].
      * lia.
      * lia.
Qed.

Lemma stored_profile_is_resumed_until_complete_witness :
  let w := Batch.initialWorld {["a1" := stagedTwo]} [] in
  let a := Batch.mkArtist (Some "a1") stagedTwo in
  ∃ d1,
    Batch.artistCol (Batch.writeArtistProfile defaultCli a 9 (answerWith sixNew) w).2
    !! "a1" = Some d1
    ∧ Batch.needsWork d1 = true
    ∧ d1 !! "essentiaProfileStaged" = Some (VBool true).
Proof.
  intros w a.
  destruct (stored_profile_is_resumed_until_complete defaultCli a 9 (answerWith sixNew)
              w "a1" stagedTwo)
    as (d1 & Hd1 & _ & Hneeds & _ & Hstaged).
  - reflexivity.
  - reflexivity.
  - reflexivity.
  - intros H. vm_compute in H. discriminate H.
  - vm_compute. discriminate.
  - exists d1. split; [exact Hd1|]. split.
    + apply Hneeds. vm_compute. reflexivity.
    + apply Hstaged. vm_compute. split; reflexivity.
Defined.

(** *** a run without a pass flag *)

Lemma markBuiltFromStaged_improved a t (w : Batch.World) :
  Batch.improved (Batch.markBuiltFromStaged a t w).2 = Batch.improved w.
Proof.
  unfold Batch.markBuiltFromStaged, try_catch, bind, when_, modify, ret, Batch.updateOne.
  destruct (match Batch.faults w with b :: _ => b | [] => false end); [done|].
  destruct (Mongo.updateOne _ _ (Batch.artistCol w)) as [[r col']|]; simpl; [|done].
  by destruct (0 <? Mongo.modifiedCount r).
Qed.

Lemma processArtist_idle svc cli inp a (w : Batch.World) :
  Batch.appleFirst cli = false → Batch.soundcloudPass cli = false →
  Batch.soundcloudOnly cli = false →
  ∃ st, (Batch.processArtist svc cli inp a w).1 = Returns st
        ∧ (st = Batch.done ↔ reachesPasses cli (a, inp) = true)
        ∧ idleRun (if reachesPasses cli (a, inp) then 1 else 0) w
            (Batch.processArtist svc cli inp a w).2.
Proof.
  intros Ha Hp Ho. unfold Batch.processArtist, reachesPasses. cbn [fst snd].
  assert (Hsame : ∀ w0 : Batch.World,
            Batch.requests w0 = Batch.requests w → Batch.improved w0 = Batch.improved w →
            Batch.writes w0 = Batch.writes w →
            idleRun 0 w w0).
  { intros w0 H1 H2 H3. unfold idleRun. rewrite H1, H2, H3.
    split; [done|]. split; [lia|]. exists []. by rewrite app_nil_r. }
  destruct (Batch.aName a) as [nm|].
  2:{ exists Batch.missing_name. split; [done|]. split; [done|]. by apply Hsame. }
  destruct ((Batch.maxTracks cli <=? Batch.stagedLen a) && _).
  { destruct (markBuiltFromStaged_effect a (Batch.now inp) w)
      as (w1 & e & Hw1 & Hwrites & He & Hreq).
    pose proof (markBuiltFromStaged_improved a (Batch.now inp) w) as Himp.
    rewrite Hw1 in Himp. simpl in Himp.
    unfold bind. rewrite Hw1. simpl.
    exists Batch.already_staged_built. split; [done|]. split; [done|].
    unfold idleRun. simpl. rewrite Hreq, Himp, Hwrites.
    split; [done|]. split; [lia|]. exists [e]. split; [done|].
    constructor; [by eexists|constructor]. }
  destruct (Mongo.truthyField (Batch.doc a) "essentiaProfileBuilt" && negb (Batch.force cli)).
  { exists Batch.skip_profile. split; [done|]. split; [done|]. by apply Hsame. }
  destruct (Batch.maxTracks cli <=? Batch.existingVectors inp).
  { exists Batch.skip. split; [done|]. split; [done|]. by apply Hsame. }
  destruct (Batch.dryRun cli); cbn [negb].
  { exists Batch.dry_skip. split; [done|]. split; [done|]. by apply Hsame. }
  unfold Batch.analysisPasses. rewrite Ha, Hp, Ho. simpl.
  exists Batch.done. split; [done|]. split; [done|].
  unfold idleRun. simpl. split; [done|]. split; [done|].
  exists []. by rewrite app_nil_r.
Qed.

(** X23.  A run without a pass flag analyses nothing.  Without
    [--appleFirst], [--soundcloudPass] and [--soundcloudOnly] the driver
    sends no request to the service and writes no profile: its only writes
    mark built a staged profile that already has [maxTracks] tracks.  Yet
    every artist that gets past the skip checks is given the status [done],
    and the summary counts it as improved. *)
Theorem run_without_a_pass_flag_analyses_nothing
    (svc : Batch.Service) (cli : Batch.Cli) (l : list (Batch.Artist * Batch.Inputs))
    (w : Batch.World) :
  Batch.appleFirst cli = false → Batch.soundcloudPass cli = false →
  Batch.soundcloudOnly cli = false →
  (∀ a inp w0, ∃ st,
     (Batch.processArtist svc cli inp a w0).1 = Returns st
     ∧ (st = Batch.done ↔ reachesPasses cli (a, inp) = true)
     ∧ Batch.requests (Batch.processArtist svc cli inp a w0).2 = Batch.requests w0)
  ∧ Batch.requests (Batch.mainLoop svc cli l w).2 = Batch.requests w
  ∧ Batch.improved (Batch.mainLoop svc cli l w).2
    = Batch.improved w + Z.of_nat (length (List.filter (reachesPasses cli) l))
  ∧ ∃ news, Batch.writes (Batch.mainLoop svc cli l w).2 = Batch.writes w ++ news
            ∧ Forall (λ e, ∃ t, Batch.evUpdate e = Batch.markBuilt t) news.
Proof.
  intros Ha Hp Ho. split.
  { intros a inp w0.
    destruct (processArtist_idle svc cli inp a w0 Ha Hp Ho) as (st & H1 & H2 & H3 & _).
    by exists st. }
  assert (Hloop : idleRun (Z.of_nat (length (List.filter (reachesPasses cli) l))) w
                    (Batch.mainLoop svc cli l w).2).
  { revert w. induction l as [|[a inp] l IH]; intros w.
    - unfold idleRun. simpl. split; [done|]. split; [lia|].
      exists []. by rewrite app_nil_r.
    - rewrite mainLoop_cons.
      destruct (processArtist_idle svc cli inp a w Ha Hp Ho)
        as (st & _ & _ & R1 & I1 & n1 & W1 & F1).
      destruct (IH (Batch.processArtist svc cli inp a w).2) as (R2 & I2 & n2 & W2 & F2).
      unfold idleRun. rewrite R2, R1, I2, I1, W2, W1. split; [done|]. split.
      + simpl. destruct (reachesPasses cli (a, inp)); simpl length; lia.
      + exists (n1 ++ n2). rewrite app_assoc. split; [done|]. by apply Forall_app. }
  destruct Hloop as (R & I & n & W & F). split; [done|]. split; [done|]. by exists n.
Qed.

Lemma run_without_a_pass_flag_analyses_nothing_witness :
  let w := Batch.initialWorld {["a1" := stagedTwo]} [] in
  let a := Batch.mkArtist (Some "a1") stagedTwo in
  let w' := (Batch.mainLoop idleService defaultCli [(a, Batch.mkInputs 0 0 5)] w).2 in
  Batch.requests w' = [] ∧ Batch.improved w' = 1.
Proof.
  intros w a w'.
  destruct (run_without_a_pass_flag_analyses_nothing idleService defaultCli
              [(a, Batch.mkInputs 0 0 5)] w) as (_ & Hr & Hi & _).
  - reflexivity.
  - reflexivity.
  - reflexivity.
  - split; [exact Hr|]. etrans; [exact Hi|]. vm_compute. reflexivity.
Defined.

(** ** The fallback aggregator *)

Lemma searchSoundCloudAudio_shape net cid a n sc :
  Sources.searchSoundCloudAudio net cid a n = Some sc →
  Sources.source sc = "soundcloud" ∧ Sources.confidence sc = Some (8 # 10)%Q
  ∧ Sources.previewUrl sc = None.
Proof.
  unfold Sources.searchSoundCloudAudio.
  destruct (Sources.soundcloudSearch net _) as [[[|first rest]|]|]; try done.
  destruct (Sources.findBestMatch a n (first :: rest)); [|done].
  by intros [= <-].
Qed.

Lemma searchYouTubeAudio_shape net a n y :
  Sources.searchYouTubeAudio net a n = Some y →
  Sources.confidence y = Some (7 # 10)%Q ∧ Sources.streamUrl y = None.
Proof.
  unfold Sources.searchYouTubeAudio.
  destruct (Sources.youtubeSearch net _) as [[u|]|]; try done.
  by intros [= <-].
Qed.

(** the sorted candidates, by what the two searches returned *)
Lemma findAlternativeAudioSource_sources net cid a n :
  Sources.alternativeSources (Sources.findAlternativeAudioSource net cid a n)
  = match Sources.searchSoundCloudAudio net cid a n, Sources.searchYouTubeAudio net a n with
    | Some sc, Some y =>
        [sc; y; mkBandcamp; mkBeatport]
    | Some sc, None => [sc; mkBandcamp; mkBeatport]
    | None, Some y => [y; mkBandcamp; mkBeatport]
    | None, None => [mkBandcamp; mkBeatport]
    end.
Proof.
  unfold Sources.findAlternativeAudioSource. cbn [Sources.alternativeSources].
  destruct (Sources.searchSoundCloudAudio net cid a n) as [sc|] eqn:Hsc;
    destruct (Sources.searchYouTubeAudio net a n) as [y|] eqn:Hy;
    try (apply searchSoundCloudAudio_shape in Hsc as (_ & Hc & _));
    try (apply searchYouTubeAudio_shape in Hy as (Hcy & _));
    unfold Sources.sortSources, Sources.searchBeatportAudio, Sources.searchBandcampAudio,
      mkBandcamp, mkBeatport;
    simpl; repeat (unfold Sources.keepsOrder; rewrite ?Hc, ?Hcy; simpl); reflexivity.
Qed.

(** X13.  The fallback aggregator can only deliver SoundCloud audio.  Of the
    candidates it lists, only the SoundCloud hit can carry a stream; whenever
    the SoundCloud search has a hit, that hit is the best source, ahead of
    YouTube and of the Beatport and Bandcamp search links; and the best
    source has a stream exactly when the SoundCloud hit has one.  So the
    aggregator step of the resolver, entered without a reference, ends with
    one only as source [soundcloud], with the stream of the SoundCloud
    hit. *)
Theorem aggregator_only_delivers_soundcloud
    (net : Sources.Net) (env : Server.Env) (cid : string) (a : option string)
    (n : string) :
  let r := Sources.findAlternativeAudioSource net cid a n in
  (∀ src, src ∈ Sources.alternativeSources r →
          Js.truthy (Sources.streamUrl src) = true →
          Sources.searchSoundCloudAudio net cid a n = Some src)
  ∧ (∀ sc, Sources.searchSoundCloudAudio net cid a n = Some sc →
           Sources.bestSource r = Some sc)
  ∧ (∀ best, Sources.bestSource r = Some best →
             Js.truthy (Sources.streamUrl best) = true →
             Sources.searchSoundCloudAudio net cid a n = Some best)
  ∧ (∀ t s, hasPreview s = false →
            hasPreview (Server.aggregator net env t s).2 = true →
            Server.audioSource (Server.aggregator net env t s).2 = Some "soundcloud"
            ∧ ∃ sc, Sources.searchSoundCloudAudio net (Server.clientId env)
                      (Server.primaryArtist t) (Track.name t) = Some sc
                    ∧ Server.previewUrl (Server.aggregator net env t s).2
                      = Sources.streamUrl sc).
Proof.
  assert (Hmem : ∀ net cid a n src,
            src ∈ Sources.alternativeSources
                    (Sources.findAlternativeAudioSource net cid a n) →
            Js.truthy (Sources.streamUrl src) = true →
            Sources.searchSoundCloudAudio net cid a n = Some src).
  { clear. intros net cid a n src. rewrite findAlternativeAudioSource_sources.
    destruct (Sources.searchSoundCloudAudio net cid a n) as [sc|] eqn:Hsc;
      destruct (Sources.searchYouTubeAudio net a n) as [y|] eqn:Hy;
      try (apply searchYouTubeAudio_shape in Hy as (_ & Hys));
      rewrite ?elem_of_cons, elem_of_nil;
      intros Hin Hstream; destruct_or!; subst; try done;
      by rewrite ?Hys in Hstream. }
  assert (Hbest : ∀ net cid a n,
            Sources.bestSource (Sources.findAlternativeAudioSource net cid a n)
            = head (Sources.alternativeSources
                      (Sources.findAlternativeAudioSource net cid a n))) by done.
  intros r. split_and!.
  - apply Hmem.
  - intros sc Hsc. subst r. rewrite Hbest, findAlternativeAudioSource_sources, Hsc.
    by destruct (Sources.searchYouTubeAudio net a n).
  - intros best Hb. apply Hmem. subst r. rewrite Hbest in Hb.
    by apply head_Some_elem_of.
  - intros t s HU.
    unfold Server.aggregator. run. rewrite HU. cbn [negb].
    cbv iota beta.
    destruct (Sources.bestSource _) as [best|] eqn:Hb;
      [|simpl; by rewrite HU].
    destruct (Js.truthy (Sources.streamUrl best)) eqn:Hs;
      [|simpl; by rewrite HU].
    simpl. intros _.
    assert (Hsc : Sources.searchSoundCloudAudio net (Server.clientId env)
                    (Server.primaryArtist t) (Track.name t) = Some best).
    { apply Hmem; [|done]. rewrite Hbest in Hb. by apply head_Some_elem_of. }
    split.
    + by destruct (searchSoundCloudAudio_shape _ _ _ _ _ Hsc) as (-> & _).
    + by exists best.
Qed.

(** ** A track that comes with a preview *)

Lemma applePrimary_known net req t s :
  hasPreview s = true →
  Server.applePrimary net req t s
  = (Returns tt,
     if Server.useApplePrimary req && negb (Server.innerForceSoundCloudTest req)
        && (Js.truthy (Server.audioSource s)
            && Js.startsWith (default "" (Server.audioSource s)) "apple")
     then Server.bump "appleOverrideSpotify" s else s).
Proof.
  intros HU. unfold Server.applePrimary. run.
  destruct (Server.useApplePrimary req && negb (Server.innerForceSoundCloudTest req));
    [|done].
  destruct (match Track.artists t with _ :: _ => true | [] => false end
            && negb (String.eqb (Track.name t) ""));
    simpl; repeat (rewrite HU; simpl);
    destruct (Js.truthy (Server.audioSource s)); simpl; try done;
    destruct (Js.startsWith (default "" (Server.audioSource s)) "apple"); done.
Qed.

Lemma bump_counter k s :
  Server.counter k (Server.bump k s) = Server.counter k s + 1.
Proof. unfold Server.counter, Server.bump. simpl. by rewrite lookup_insert_eq. Qed.

(** X14.  Outside a forced run (a strategy other than [soundcloud_primary],
    no [forceSoundCloudTest]) a track that comes with a preview resolves to
    that preview, counted as Apple's or Spotify's as it came, and no
    provider is asked.  In particular [apple_primary] does not replace a
    Spotify preview by an Apple one; its counter [appleOverrideSpotify]
    grows exactly for the tracks that came with an Apple preview. *)
Theorem known_preview_is_used_as_is
    (net : Sources.Net) (env : Server.Env) (req : Server.Request) (t : Track.t)
    (s : Server.St) :
  Js.truthy (Track.preview_url t) = true →
  Server.soundcloudPrimary req = false → Server.forceSoundCloudTest req = false →
  ∃ s', Server.acquirePreviewForTrack net env req t s
        = (Returns (Server.mkResolution (Track.preview_url t) (Server.knownSource t) None),
           s')
        ∧ Server.calls s' = Server.calls s
        ∧ Server.counter "appleOverrideSpotify" s'
          = Server.counter "appleOverrideSpotify" s
            + (if Server.useApplePrimary req
                  && bool_decide (Server.knownSource t = Some "apple")
               then 1 else 0).
Proof.
  intros Hknown Hsc Hflag.
  assert (Hforce : Server.innerForceSoundCloudTest req = false).
  { unfold Server.innerForceSoundCloudTest, Server.statsForceSoundCloudTest.
    by rewrite Hsc, Hflag. }
  set (s1 := Server.setAlternative None
               (Server.setPreview (Track.preview_url t) (Server.knownSource t) s)).
  assert (Hstart : Server.startResolution req t s = (Returns tt, s1)).
  { unfold Server.startResolution, Server.statsForceSoundCloudTest. run.
    simpl. rewrite Hknown, Hsc, Hflag. simpl. by rewrite andb_false_r. }
  assert (H1 : hasPreview s1 = true) by done.
  set (s2 := if Server.useApplePrimary req && negb (Server.innerForceSoundCloudTest req)
                && (Js.truthy (Server.audioSource s1)
                    && Js.startsWith (default "" (Server.audioSource s1)) "apple")
             then Server.bump "appleOverrideSpotify" s1 else s1).
  assert (H2 : hasPreview s2 = true).
  { subst s2. by destruct (_ && _). }
  assert (Halt : alternatives net env req t s = s2).
  { unfold alternatives. cbv zeta. rewrite Hstart. cbn [snd].
    rewrite (earlySoundCloud_skip net env req t s1 H1). cbn [snd].
    rewrite (relaxedSoundCloud_skip net env req t s1 H1). cbn [snd].
    rewrite (applePrimary_known net req t s1 H1). cbn [snd]. fold s2.
    rewrite (spotifyRecovery_skip net env req t s2 H2). cbn [snd].
    rewrite (noteRecoveryDisabled_skip req s2 H2). cbn [snd].
    rewrite (balancedAppleExact_skip net req t s2 H2). cbn [snd].
    rewrite (balancedAppleBroad_skip net req t s2 H2). cbn [snd].
    rewrite (explicitSoundCloud_skip net env t s2 H2). cbn [snd].
    rewrite (aggregator_skip net env t s2 H2). cbn [snd].
    by rewrite (fallbackOriginal_skip req t s2 H2). }
  exists s2. rewrite acquirePreviewForTrack_alternative by (by rewrite Halt).
  rewrite Halt. split_and!.
  - f_equal. subst s2. by destruct (_ && _).
  - subst s2. by destruct (_ && _).
  - subst s2. rewrite Hforce. cbn [negb]. rewrite andb_true_r.
    change (Server.audioSource s1) with (Server.knownSource t).
    destruct (knownSource_cases t Hknown) as [(_ & _ & ->)|[_ ->]]; simpl.
    + destruct (Server.useApplePrimary req); simpl.
      * rewrite bump_counter. reflexivity.
      * unfold Server.counter. simpl. lia.
    + rewrite andb_false_r. unfold Server.counter. simpl. lia.
Qed.

Lemma known_preview_is_used_as_is_witness :
  ∃ s', Server.acquirePreviewForTrack downNet tokenEnv fullRequest (spotifyTrack "s1")
          Server.initialSt
        = (Returns (Server.mkResolution (Some "https://p.scdn.co/mp3-preview/s1")
                      (Some "spotify") None), s')
        ∧ Server.calls s' = []
        ∧ Server.counter "appleOverrideSpotify" s' = 0.
Proof.
  destruct (known_preview_is_used_as_is downNet tokenEnv fullRequest (spotifyTrack "s1")
              Server.initialSt)
    as (s' & Heq & Hcalls & Hcount).
  - reflexivity.
  - reflexivity.
  - reflexivity.
  - exists s'. split; [exact Heq|]. split; [exact Hcalls|exact Hcount].
Defined.

(** ** What the rounds add to the matrix *)

#[local] Instance sameAnalysis_refl : Reflexive sameAnalysis.
Proof. intros s. by split_and!. Qed.
#[local] Instance sameAnalysis_trans : Transitive sameAnalysis.
Proof.
  unfold sameAnalysis. intros s1 s2 s3 (H1 & H2 & H3) (H4 & H5 & H6).
  split_and!; congruence.
Qed.

(** a state change that touches neither the profiles nor the two tallies *)
Ltac analysis_kept :=
  intros ?; unfold sameAnalysis, Server.noteQuery, Server.setPreviewUrl,
    Server.setAudioSource, Server.counter;
  try match goal with |- context [if ?b then _ else _] => destruct b end;
  simpl; rewrite ?lookup_insert_ne by done; done.

Lemma acquirePreviewForTrack_sameAnalysis net env req t :
  preserves sameAnalysis (Server.acquirePreviewForTrack net env req t).
Proof. unfold_resolver. repeat first [preserves_step | analysis_kept]. Qed.

Lemma fetchOr_sameAnalysis tracks request f reason :
  preserves sameAnalysis (Server.fetchOr tracks request f reason).
Proof. unfold Server.fetchOr. repeat first [preserves_step | analysis_kept]. Qed.

Lemma addAlbumTracks_sameAnalysis catalog l tracks :
  preserves sameAnalysis (Server.addAlbumTracks catalog l tracks).
Proof.
  revert tracks. induction l as [|a l IH]; intros tracks; simpl.
  - apply preserves_ret; apply _.
  - apply preserves_bind; [apply _|apply fetchOr_sameAnalysis|].
    intros tracks'. apply IH.
Qed.

Lemma fetchTracks_sameAnalysis env req catalog :
  preserves sameAnalysis (Server.fetchTracks env req catalog).
Proof.
  unfold Server.fetchTracks.
  repeat first [ apply fetchOr_sameAnalysis | apply addAlbumTracks_sameAnalysis
               | preserves_step | analysis_kept ].
Qed.

Lemma analyzeTrack_produced net env req round t s :
  ∃ news, produced round [t] news s (Server.analyzeTrack net env req round t s).2.
Proof.
  destruct (acquirePreviewForTrack_returns net env req t s) as (res & s1 & Heq).
  pose proof (acquirePreviewForTrack_sameAnalysis net env req t s) as Hsame.
  rewrite Heq in Hsame. destruct Hsame as (Hp & H1 & H2). simpl in Hp, H1, H2.
  unfold Server.analyzeTrack, Server.analyzeAudioWithEssentia.
  unfold bind, get, modify, when_, try_, try_catch, ret, call, throw.
  rewrite Heq.
  assert (Hnone : produced round [t] [] s s1).
  { unfold produced. rewrite app_nil_r. split_and!; try done.
    - apply sublist_nil_l.
    - destruct (round =? 1); simpl; lia.
    - destruct (round =? 1); simpl; lia. }
  assert (Hkeep : ∀ k s', produced round [t] [] s s' →
                          produced round [t] [] s (Server.bumpSource k s')) by done.
  destruct (Js.truthy (Server.resPreviewUrl res)); simpl.
  - destruct (Js.truthy (Server.resAudioSource res)); simpl;
      (destruct (Sources.essentia net _) as [features|e]; simpl;
       [|exists []; auto]).
    all: eexists [_]; unfold produced; simpl; rewrite Hp; split_and!;
      [ reflexivity | reflexivity | by repeat constructor | | ].
    all: destruct (round =? 1); simpl;
      unfold Server.bump, Server.counter, Server.pushProfile, Server.bumpSource in *;
      simpl; rewrite ?lookup_insert_ne by done; simpl;
      change ("round1" +:+ "Success") with "round1Success";
      change ("round2" +:+ "Success") with "round2Success";
      rewrite ?lookup_insert_eq; simpl; lia.
  - exists []. apply (Hkeep "none"). unfold produced in *. simpl.
    destruct Hnone as (Ha & Hb & Hc & Hd & He). split_and!; try done.
Qed.

Lemma produced_cons round t l n1 n2 s s1 s2 :
  produced round [t] n1 s s1 → produced round l n2 s1 s2 →
  produced round (t :: l) (n1 ++ n2) s s2.
Proof.
  unfold produced. intros (A1 & A2 & A3 & A4 & A5) (B1 & B2 & B3 & B4 & B5).
  split_and!.
  - by rewrite B1, A1, app_assoc.
  - unfold trackIds in *. rewrite map_app.
    change (map Track.id (t :: l)) with (map Track.id [t] ++ map Track.id l).
    by apply sublist_app.
  - by apply Forall_app.
  - rewrite B4, A4, length_app, Nat2Z.inj_add. destruct (round =? 1); lia.
  - rewrite B5, A5, length_app, Nat2Z.inj_add. destruct (round =? 1); lia.
Qed.

Lemma runRound_produced net env req round l s :
  ∃ news, produced round l news s (Server.runRound net env req round l s).2.
Proof.
  revert s. induction l as [|t l IH]; intros s.
  - exists []. unfold produced. simpl. rewrite app_nil_r.
    split_and!; try done; destruct (round =? 1); lia.
  - rewrite runRound_next.
    destruct (analyzeTrack_produced net env req round t s) as (n1 & H1).
    destruct (IH (Server.analyzeTrack net env req round t s).2) as (n2 & H2).
    exists (n1 ++ n2). by eapply produced_cons.
Qed.

(** the two rounds: what each added, and that round 2 adds nothing unless
    the request is not in fast mode and asks for more than ten tracks *)
Lemma runRounds_produced net env req tracks s :
  ∃ m1 m2 s1,
    produced 1 (Server.round1Tracks req tracks) m1 s s1
    ∧ produced 2 (Server.round2Tracks tracks) m2 s1
        (Server.runRounds net env req tracks s).2
    ∧ (m2 ≠ [] → Server.fastMode req = false ∧ 10 < default 20 (Server.maxTracks req)).
Proof.
  destruct (runRound_returns net env req 1 (Server.round1Tracks req tracks) s)
    as ([] & s1 & H1).
  destruct (runRound_produced net env req 1 (Server.round1Tracks req tracks) s)
    as (m1 & Hm1).
  rewrite H1 in Hm1. simpl in Hm1.
  unfold Server.runRounds, bind, get. rewrite H1.
  destruct (Server.round2Gate env req _ _) eqn:Hgate.
  - destruct (runRound_returns net env req 2 (Server.round2Tracks tracks) s1)
      as ([] & s2 & H2).
    destruct (runRound_produced net env req 2 (Server.round2Tracks tracks) s1)
      as (m2 & Hm2).
    rewrite H2 in Hm2 |- *. simpl in Hm2 |- *.
    exists m1, m2, s1. split_and!; [done|done|]. intros _.
    unfold Server.round2Gate in Hgate.
    rewrite !andb_true_iff, negb_true_iff, Z.ltb_lt in Hgate. tauto.
  - exists m1, [], s1. split_and!; [done| |done].
    unfold produced. simpl. rewrite app_nil_r. split_and!; try done; try lia.
    apply sublist_nil_l.
Qed.

(** the handler after a fetch that found tracks: the rounds run from the
    state the fetch left, with the attempted tracks noted *)
Lemma analyzeArtist_rounds
    (net : Sources.Net) (env : Server.Env) (req : Server.Request)
    (catalog : Server.Catalog) (profiles : list (gmap string value))
    (t : Track.t) (l : list Track.t) (s0 : Server.St) :
  Server.artistName req ≠ "" →
  Server.fetchTracks env req catalog Server.initialSt = (Returns (t :: l), s0) →
  ∃ rounds s2,
    Server.runRounds net env req (t :: l) (noteAttempted req (t :: l) s0)
    = (Returns rounds, s2)
    ∧ Server.analyzeArtist net env req catalog profiles
      = (let g := Server.buildGenreMapping (Server.trackProfiles s2)
                    (Server.artistName req) (Server.existingGenres req) in
         match Server.trackProfiles s2 with
         | [] =>
             match inferredGenres g with
             | _ :: _ => (Server.partialResponse env req g rounds.2, profiles)
             | [] => (Server.failedResponse rounds.2, profiles)
             end
         | _ :: _ =>
             (Server.successResponse s2 g,
              Server.persistProfile env req s2 (Server.successResponse s2 g) profiles)
         end, s2).
Proof.
  intros Hname Hfetch. unfold Server.analyzeArtist.
  destruct (String.eqb_spec (Server.artistName req) ""); [done|].
  unfold Server.analyzeArtistBody, bind at 1. rewrite Hfetch.
  unfold bind at 1, modify. fold (noteAttempted req (t :: l) s0).
  destruct (runRounds_returns net env req (t :: l) (noteAttempted req (t :: l) s0))
    as (rounds & s2 & Hr).
  exists rounds, s2. split; [done|].
  unfold bind at 1. rewrite Hr. unfold bind, get.
  destruct (Server.trackProfiles s2) as [|p ps]; simpl.
  - by destruct (inferredGenres _).
  - done.
Qed.

Lemma fetched_sameAnalysis env req catalog tracks s0 :
  Server.fetchTracks env req catalog Server.initialSt = (Returns tracks, s0) →
  sameAnalysis Server.initialSt (noteAttempted req tracks s0).
Proof.
  intros Hfetch.
  pose proof (fetchTracks_sameAnalysis env req catalog Server.initialSt) as Hsame.
  rewrite Hfetch in Hsame. simpl in Hsame.
  destruct Hsame as (Hp & H1 & H2). unfold sameAnalysis, Server.counter in *.
  simpl. rewrite !lookup_insert_ne by done. done.
Qed.

Lemma round1Tracks_length req tracks :
  (length (Server.round1Tracks req tracks) ≤ 10)%nat
  ∧ (Server.fastMode req = true → length (Server.round1Tracks req tracks) ≤ 5)%nat.
Proof.
  unfold Server.round1Tracks.
  destruct (Server.fastMode req); rewrite ?length_app, !length_take; split; intros; lia.
Qed.

Lemma round2Tracks_length tracks : (length (Server.round2Tracks tracks) ≤ 10)%nat.
Proof. unfold Server.round2Tracks. rewrite length_app, !length_take. lia. Qed.

Lemma trackIds_sublist_length m (l : list Track.t) :
  sublist (trackIds m) (map Track.id l) → (length m ≤ length l)%nat.
Proof.
  intros H%sublist_length. unfold trackIds in H. by rewrite !length_map in H.
Qed.

(** the matrix of the answer splits into what the two rounds produced *)
Lemma analyzeArtist_matrix
    (net : Sources.Net) (env : Server.Env) (req : Server.Request)
    (catalog : Server.Catalog) (profiles : list (gmap string value)) :
  ∃ tracks s0 m1 m2,
    Server.fetchTracks env req catalog Server.initialSt = (Returns tracks, s0)
    ∧ sublist (trackIds m1) (map Track.id (Server.round1Tracks req tracks))
    ∧ sublist (trackIds m2) (map Track.id (Server.round2Tracks tracks))
    ∧ Forall (λ p, analysisRound p = 1) m1 ∧ Forall (λ p, analysisRound p = 2) m2
    ∧ (m2 ≠ [] → Server.fastMode req = false ∧ 10 < default 20 (Server.maxTracks req))
    ∧ (∀ m, Resp.trackMatrix (Server.analyzeArtist net env req catalog profiles).1.1
            = Some m → m = m1 ++ m2
              ∧ Server.counter "round1Success"
                  (Server.analyzeArtist net env req catalog profiles).2
                = Z.of_nat (length m1)
              ∧ Server.counter "round2Success"
                  (Server.analyzeArtist net env req catalog profiles).2
                = Z.of_nat (length m2)).
Proof.
  destruct (fetchTracks_returns env req catalog Server.initialSt)
    as (tracks & s0 & Hfetch).
  exists tracks, s0.
  destruct (String.eqb_spec (Server.artistName req) "") as [Hname|Hname].
  { exists [], []. split_and!; try done; try apply sublist_nil_l.
    unfold Server.analyzeArtist. rewrite Hname. simpl. done. }
  destruct tracks as [|t l].
  { exists [], []. split_and!; try done; try apply sublist_nil_l.
    unfold Server.analyzeArtist, Server.analyzeArtistBody, bind.
    rewrite Hfetch. by destruct (String.eqb_spec (Server.artistName req) ""). }
  destruct (analyzeArtist_rounds net env req catalog profiles t l s0 Hname Hfetch)
    as (rounds & s2 & Hr & ->).
  destruct (fetched_sameAnalysis env req catalog (t :: l) s0 Hfetch) as (Hp & Hc1 & Hc2).
  destruct (runRounds_produced net env req (t :: l) (noteAttempted req (t :: l) s0))
    as (m1 & m2 & s1' & (A1 & A2 & A3 & A4 & A5) & (B1 & B2 & B3 & B4 & B5) & Hgate).
  rewrite Hr in B1, B4, B5. simpl in A4, A5, B1, B4, B5.
  exists m1, m2. split_and!; try done.
  assert (Hall : Server.trackProfiles s2 = m1 ++ m2).
  { rewrite B1, A1, Hp. done. }
  assert (H1 : Server.counter "round1Success" s2 = Z.of_nat (length m1)).
  { rewrite B4, A4, Hc1. unfold Server.counter. simpl. rewrite lookup_empty. simpl. lia. }
  assert (H2 : Server.counter "round2Success" s2 = Z.of_nat (length m2)).
  { rewrite B5, A5, Hc2. unfold Server.counter. simpl. rewrite lookup_empty. simpl. lia. }
  cbv zeta. intros m. destruct (Server.trackProfiles s2) as [|p ps] eqn:Hps.
  - destruct (inferredGenres _); simpl; [done|].
    intros [= <-]. by rewrite <- Hall.
  - simpl. rewrite Hps. intros [= <-]. by rewrite <- Hall.
Qed.

(** X15.  The matrix of an answer holds profiles of the selected tracks
    only, in the order of the selection: first profiles of round 1 for
    tracks of the round-1 slice, then profiles of round 2 for tracks of the
    round-2 slice.  Round 2 contributes only when the request is not in fast
    mode and asks for more than ten tracks.  So an answer never holds more
    than twenty profiles, never more than ten when [maxTracks] is ten or
    less, and never more than five in fast mode: beyond the threshold of
    ten, [maxTracks] does not bound or extend the matrix. *)
Theorem matrix_comes_from_the_round_slices
    (net : Sources.Net) (env : Server.Env) (req : Server.Request)
    (catalog : Server.Catalog) (profiles : list (gmap string value)) :
  ∃ tracks s0,
    Server.fetchTracks env req catalog Server.initialSt = (Returns tracks, s0)
    ∧ ∀ m, Resp.trackMatrix (Server.analyzeArtist net env req catalog profiles).1.1
           = Some m →
        (∃ m1 m2,
           m = m1 ++ m2
           ∧ sublist (trackIds m1) (map Track.id (Server.round1Tracks req tracks))
           ∧ sublist (trackIds m2) (map Track.id (Server.round2Tracks tracks))
           ∧ Forall (λ p, analysisRound p = 1) m1
           ∧ Forall (λ p, analysisRound p = 2) m2
           ∧ (m2 ≠ [] →
              Server.fastMode req = false ∧ 10 < default 20 (Server.maxTracks req)))
        ∧ (length m ≤ 20)%nat
        ∧ (default 20 (Server.maxTracks req) <= 10 → (length m ≤ 10)%nat)
        ∧ (Server.fastMode req = true → (length m ≤ 5)%nat).
Proof.
  destruct (analyzeArtist_matrix net env req catalog profiles)
    as (tracks & s0 & m1 & m2 & Hfetch & Hs1 & Hs2 & Hr1 & Hr2 & Hgate & Hm).
  exists tracks, s0. split; [done|]. intros m (-> & _ & _)%Hm.
  pose proof (trackIds_sublist_length _ _ Hs1) as L1.
  pose proof (trackIds_sublist_length _ _ Hs2) as L2.
  destruct (round1Tracks_length req tracks) as [R1 R1f].
  pose proof (round2Tracks_length tracks) as R2.
  split; [by exists m1, m2|]. rewrite length_app. split_and!.
  - lia.
  - intros Hmax. destruct m2 as [|p m2]; [simpl; lia|].
    destruct Hgate as [_ Hgt]; [done|lia].
  - intros Hfast. destruct m2 as [|p m2]; [simpl; specialize (R1f Hfast); lia|].
    destruct Hgate as [Hf _]; [done|congruence].
Qed.

(** X16.  The success tallies agree with the matrix of the answer: when the
    handler answers with a matrix, [round1Success] is the number of its
    round-1 profiles and [round2Success] the number of its round-2 profiles,
    every profile is of round 1 or 2, and in a full success
    [totalTracksAnalyzed] is the length of the matrix and [analysisRounds]
    is 2 exactly when the matrix has a round-2 profile. *)
Theorem success_tallies_match_the_matrix
    (net : Sources.Net) (env : Server.Env) (req : Server.Request)
    (catalog : Server.Catalog) (profiles : list (gmap string value)) :
  let r := (Server.analyzeArtist net env req catalog profiles).1.1 in
  let s := (Server.analyzeArtist net env req catalog profiles).2 in
  ∀ m, Resp.trackMatrix r = Some m →
    Server.counter "round1Success" s = ofRound 1 m
    ∧ Server.counter "round2Success" s = ofRound 2 m
    ∧ ofRound 1 m + ofRound 2 m = Z.of_nat (length m)
    ∧ (Resp.partial r = false →
       Resp.totalTracksAnalyzed r = Some (Z.of_nat (length m))
       ∧ Resp.analysisRounds r = Some (if 0 <? ofRound 2 m then 2 else 1)).
Proof.
  intros r s m Hm.
  destruct (analyzeArtist_matrix net env req catalog profiles)
    as (tracks & s0 & m1 & m2 & Hfetch & _ & _ & Hr1 & Hr2 & _ & Hall).
  destruct (Hall m Hm) as (-> & H1 & H2). fold s in H1, H2.
  assert (Hcount : ∀ (k k' : Z) (l : list TrackProfile),
            Forall (λ p, analysisRound p = k') l →
            ofRound k l = if k =? k' then Z.of_nat (length l) else 0).
  { intros k k' l Hl. unfold ofRound. induction Hl as [|p l Hp Hl IH]; simpl.
    - by destruct (k =? k').
    - rewrite Hp, (Z.eqb_sym k' k). destruct (k =? k'); simpl in *; lia. }
  assert (Hof : ∀ k, ofRound k (m1 ++ m2) = ofRound k m1 + ofRound k m2).
  { intros k. unfold ofRound. rewrite List.filter_app, length_app. lia. }
  assert (E1 : ofRound 1 (m1 ++ m2) = Z.of_nat (length m1)).
  { rewrite Hof, (Hcount 1 1 m1 Hr1), (Hcount 1 2 m2 Hr2). simpl. lia. }
  assert (E2 : ofRound 2 (m1 ++ m2) = Z.of_nat (length m2)).
  { rewrite Hof, (Hcount 2 1 m1 Hr1), (Hcount 2 2 m2 Hr2). simpl. lia. }
  split_and!.
  - by rewrite E1.
  - by rewrite E2.
  - rewrite E1, E2, length_app. lia.
  - intros Hpartial. rewrite E2, <- H2.
    revert Hm Hpartial. subst r s. clear.
    destruct (fetchTracks_returns env req catalog Server.initialSt)
      as ([|t l] & s0 & Hfetch).
    + unfold Server.analyzeArtist, Server.analyzeArtistBody, bind.
      rewrite Hfetch. by destruct (String.eqb_spec (Server.artistName req) "").
    + destruct (String.eqb_spec (Server.artistName req) "") as [Hname|Hname].
      { unfold Server.analyzeArtist. rewrite Hname. simpl. done. }
      destruct (analyzeArtist_rounds net env req catalog profiles t l s0 Hname Hfetch)
        as (rounds & s2 & _ & ->).
      cbv zeta. destruct (Server.trackProfiles s2) as [|p ps] eqn:Hps.
      * by destruct (inferredGenres _).
      * simpl. rewrite Hps. by intros [= <-] _.
Qed.

Lemma success_tallies_match_the_matrix_witness :
  let out := Server.analyzeArtist quietNet tokenEnv fullRequest dupCatalog [] in
  Server.counter "round1Success" out.2 = 2
  ∧ Resp.totalTracksAnalyzed out.1.1 = Some 2
  ∧ Resp.analysisRounds out.1.1 = Some 1.
Proof.
  intros out.
  pose (m := default [] (Resp.trackMatrix out.1.1)).
  assert (Hm : Resp.trackMatrix out.1.1 = Some m) by (vm_compute; reflexivity).
  destruct (success_tallies_match_the_matrix quietNet tokenEnv fullRequest dupCatalog []
              m Hm) as (H1 & _ & _ & H4).
  destruct H4 as [H4 H5]; [vm_compute; reflexivity|].
  split; [|split].
  - etrans; [exact H1|]. vm_compute. reflexivity.
  - etrans; [exact H4|]. vm_compute. reflexivity.
  - etrans; [exact H5|]. vm_compute. reflexivity.
Defined.

(** ** The handler and the database *)

Lemma fetchTracks_withDb c f env req catalog :
  Server.fetchTracks (withDb c f env) req catalog = Server.fetchTracks env req catalog.
Proof. destruct env. reflexivity. Qed.

Lemma runRounds_withDb net c f env req tracks :
  Server.runRounds net (withDb c f env) req tracks = Server.runRounds net env req tracks.
Proof. destruct env. reflexivity. Qed.

Lemma upsertOne_stored k v l (col : list (gmap string value)) :
  ∃ d0, Mongo.setFields l d0 ∈ Mongo.upsertOne k v l col.
Proof.
  unfold Mongo.upsertOne.
  destruct (list_find _ col) as [[i d0]|] eqn:Hfind.
  - exists d0. apply list_find_Some in Hfind as (Hi & _).
    apply list_elem_of_lookup. exists i. apply list_lookup_insert_eq.
    eauto using lookup_lt_Some.
  - eexists. apply elem_of_app. right. by apply list_elem_of_singleton.
Qed.

(** the answer and the collection after a request, by cases *)
Lemma analyzeArtist_cases net env req catalog profiles :
  let out := Server.analyzeArtist net env req catalog profiles in
  out.1.2 = profiles ∧ (Resp.success out.1.1 = false ∨ Resp.partial out.1.1 = true)
  ∨ Resp.success out.1.1 = true ∧ Resp.partial out.1.1 = false
    ∧ Resp.trackMatrix out.1.1 = Some (Server.trackProfiles out.2)
    ∧ out.1.2 = Server.persistProfile env req out.2 out.1.1 profiles.
Proof.
  cbv zeta.
  destruct (String.eqb_spec (Server.artistName req) "") as [Hname|Hname].
  { left. unfold Server.analyzeArtist. rewrite Hname. simpl. auto. }
  destruct (fetchTracks_returns env req catalog Server.initialSt)
    as ([|t l] & s0 & Hfetch).
  - left. unfold Server.analyzeArtist, Server.analyzeArtistBody, bind.
    rewrite Hfetch. destruct (String.eqb_spec (Server.artistName req) ""); simpl; auto.
  - destruct (analyzeArtist_after_fetch net env req catalog profiles t l s0 Hname Hfetch)
      as (rounds & s2 & _ & ->).
    cbv zeta. destruct (Server.trackProfiles s2) as [|p ps] eqn:Hps.
    + left. destruct (inferredGenres _); simpl; auto.
    + right. simpl. by rewrite Hps.
Qed.

(** X17.  The database is no part of the answer.  The response and the
    request state are the same whether or not a database is connected and
    whether or not the upsert is rejected.  The collection
    [artist_genre_profiles] is changed only by a full success with a
    connected database whose upsert is accepted; a partial success, a
    failure and a bad request store nothing.  After such a full success the
    collection holds a document with the request's artist name and exactly
    the matrix of the answer. *)
Theorem database_is_no_part_of_the_answer
    (net : Sources.Net) (env : Server.Env) (req : Server.Request)
    (catalog : Server.Catalog) (profiles : list (gmap string value)) :
  let out := Server.analyzeArtist net env req catalog profiles in
  (∀ c f, (Server.analyzeArtist net (withDb c f env) req catalog profiles).1.1 = out.1.1
          ∧ (Server.analyzeArtist net (withDb c f env) req catalog profiles).2 = out.2)
  ∧ (out.1.2 ≠ profiles →
     Resp.success out.1.1 = true ∧ Resp.partial out.1.1 = false
     ∧ Server.dbConnected env = true ∧ Server.storeFails env = false)
  ∧ (Resp.success out.1.1 = true → Resp.partial out.1.1 = false →
     Server.dbConnected env = true → Server.storeFails env = false →
     ∃ d m, d ∈ out.1.2 ∧ Resp.trackMatrix out.1.1 = Some m
            ∧ d !! "trackMatrix" = Some (VTracks m)
            ∧ d !! "artistName" = Some (VStr (Server.artistName req))).
Proof.
  intros out. subst out. split_and!.
  - intros c f. unfold Server.analyzeArtist.
    destruct (String.eqb (Server.artistName req) ""); [done|].
    unfold Server.analyzeArtistBody, bind. rewrite fetchTracks_withDb.
    destruct (Server.fetchTracks env req catalog Server.initialSt) as [[[|t l]|e] s0];
      [done| |done].
    unfold modify. rewrite runRounds_withDb.
    destruct (Server.runRounds net env req (t :: l) _) as [[rounds|e] s2]; [|done].
    unfold get. destruct (Server.trackProfiles s2); [|done].
    by destruct (inferredGenres _).
  - intros Hchanged.
    destruct (analyzeArtist_cases net env req catalog profiles)
      as [[Hsame _]|(Hs & Hp & _ & Hcol)]; [done|].
    split; [done|]. split; [done|].
    unfold Server.persistProfile in Hcol.
    destruct (Server.dbConnected env), (Server.storeFails env); simpl in Hcol; done.
  - intros Hs Hp Hdb Hok.
    destruct (analyzeArtist_cases net env req catalog profiles)
      as [[_ [H|H]]|(_ & _ & Hm & Hcol)]; [congruence|congruence|].
    rewrite Hcol. unfold Server.persistProfile. rewrite Hdb, Hok. simpl.
    destruct (upsertOne_stored "artistName"
                (VStr (Js.toLowerCase (Server.artistName req)))
                (Server.profileFields env req
                   (Server.analyzeArtist net env req catalog profiles).2
                   (Server.analyzeArtist net env req catalog profiles).1.1) profiles)
      as (d0 & Hd0).
    eexists _, _. split; [exact Hd0|]. split; [exact Hm|]. split.
    + apply profileFields_trackMatrix.
    + apply profileFields_artistName.
Qed.

Lemma persistProfile_unmatched env req s r (col : list (gmap string value)) :
  Server.dbConnected env = true → Server.storeFails env = false →
  Js.toLowerCase (Server.artistName req) ≠ Server.artistName req →
  unmatched (Server.artistName req) col →
  ∃ d, Server.persistProfile env req s r col = col ++ [d]
       ∧ d !! "artistName" = Some (VStr (Server.artistName req))
       ∧ d !! "trackMatrix" = Some (VTracks (Server.trackProfiles s))
       ∧ unmatched (Server.artistName req) (col ++ [d]).
Proof.
  intros Hdb Hok Hcase Hun. unfold Server.persistProfile, Mongo.upsertOne.
  rewrite Hdb, Hok. simpl.
  destruct (list_find _ col) as [[i d0]|] eqn:Hfind.
  { apply list_find_Some in Hfind as (Hi & Hd0 & _).
    unfold unmatched in Hun. rewrite Forall_lookup in Hun. by destruct (Hun i d0 Hi). }
  match goal with |- ∃ d, col ++ [?x] = _ ∧ _ => set (d := x) end.
  assert (Hn : d !! "artistName" = Some (VStr (Server.artistName req)))
    by apply profileFields_artistName.
  exists d. split; [reflexivity|]. split; [exact Hn|].
  split; [apply profileFields_trackMatrix|].
  apply Forall_app. split; [exact Hun|]. apply Forall_singleton.
  rewrite Hn. intros [= Heq]. by apply Hcase.
Qed.

(** X18.  For an artist name with an upper-case letter the upsert never
    finds what it stored: the filter is the lower-cased name, the stored
    [artistName] is the name as sent.  When no document of the collection
    has the lower-cased name, every accepted upsert for that name appends a
    document and leaves the earlier ones as they were, so [n] analyses of
    the artist leave [n] documents for it, the last one with the matrix of
    the last analysis. *)
Theorem upper_case_names_are_stored_again
    (env : Server.Env) (req : Server.Request) (runs : list (Server.St * Resp.t))
    (col : list (gmap string value)) :
  Server.dbConnected env = true → Server.storeFails env = false →
  Js.toLowerCase (Server.artistName req) ≠ Server.artistName req →
  unmatched (Server.artistName req) col →
  ∃ added,
    persistAll env req runs col = col ++ added
    ∧ length added = length runs
    ∧ Forall (λ d, d !! "artistName" = Some (VStr (Server.artistName req))) added
    ∧ (map (λ d, d !! "trackMatrix") added
       = map (λ sr, Some (VTracks (Server.trackProfiles sr.1))) runs).
Proof.
  intros Hdb Hok Hcase. revert col.
  induction runs as [|[s r] runs IH]; intros col Hun.
  - exists []. by rewrite app_nil_r.
  - destruct (persistProfile_unmatched env req s r col Hdb Hok Hcase Hun)
      as (d & Hd & Hname & Hm & Hun').
    destruct (IH (col ++ [d]) Hun') as (added & Hall & Hlen & Hnames & Hms).
    exists (d :: added). unfold persistAll in *. simpl. rewrite Hd, Hall.
    split_and!.
    + by rewrite <- app_assoc.
    + simpl. by rewrite Hlen.
    + by constructor.
    + simpl. by rewrite Hm, Hms.
Qed.

Lemma upper_case_names_are_stored_again_witness :
  ∃ added,
    persistAll plainEnv fullRequest [(sixAnalysed, answerWith sixNew);
                                     (sixAnalysed, answerWith sixNew)] []
    = added ∧ length added = 2%nat.
Proof.
  destruct (upper_case_names_are_stored_again plainEnv fullRequest
              [(sixAnalysed, answerWith sixNew); (sixAnalysed, answerWith sixNew)] [])
    as (added & Hall & Hlen & _).
  - reflexivity.
  - reflexivity.
  - vm_compute. discriminate.
  - constructor.
  - exists added. split; [exact Hall|exact Hlen].
Defined.

(** ** Every attempted track is counted under one preview source *)

#[local] Instance keepsSourced_refl : Reflexive keepsSourced.
Proof. intros s H. exact H. Qed.
#[local] Instance keepsSourced_trans : Transitive keepsSourced.
Proof. unfold keepsSourced. intros s1 s2 s3 H1 H2. auto. Qed.
#[local] Instance sameSourceCounts_refl : Reflexive sameSourceCounts.
Proof. intros s. reflexivity. Qed.
#[local] Instance sameSourceCounts_trans : Transitive sameSourceCounts.
Proof. unfold sameSourceCounts. intros s1 s2 s3 H1 H2. congruence. Qed.

Lemma sum_insert (k : string) (v : Z) (m : gmap string Z) :
  map_fold (λ (_ : string) (v acc : Z), v + acc) 0 (<[k := v]> m)
  = map_fold (λ (_ : string) (v acc : Z), v + acc) 0 m - default 0 (m !! k) + v.
Proof.
  assert (Hnew : ∀ m' : gmap string Z, m' !! k = None → ∀ x,
            map_fold (λ (_ : string) (v acc : Z), v + acc) 0 (<[k := x]> m')
            = x + map_fold (λ (_ : string) (v acc : Z), v + acc) 0 m').
  { intros m' Hk x. apply (map_fold_insert_L (λ (_ : string) (v acc : Z), v + acc));
      [|done]. intros. lia. }
  destruct (m !! k) as [y|] eqn:Hk; simpl.
  - rewrite <- (insert_delete_eq m k v).
    rewrite <- (insert_delete_id m k y Hk) at 2.
    rewrite !Hnew by apply lookup_delete_eq. lia.
  - rewrite Hnew by done. lia.
Qed.

Lemma sourceTotal_bumpSource k s :
  sourceTotal (Server.bumpSource k s) = sourceTotal s + 1.
Proof. unfold sourceTotal, Server.bumpSource. simpl. rewrite sum_insert. lia. Qed.

(** a state change that keeps a sourced reference *)
Ltac sourced_kept :=
  intros ?; unfold keepsSourced, sourced, Server.noteQuery;
  try match goal with |- context [if ?b then _ else _] => destruct b end;
  simpl;
  first [ done | tauto
        | intros; unfold resolverSources; rewrite !elem_of_cons; auto 10 ].

(** a state change that leaves the source counts alone *)
Ltac counts_kept :=
  intros ?; unfold sameSourceCounts, Server.noteQuery, Server.setPreviewUrl,
    Server.setAudioSource;
  try match goal with |- context [if ?b then _ else _] => destruct b end;
  simpl; done.

Lemma appleExact_keepsSourced net a t :
  preserves keepsSourced (Server.appleExact net a t).
Proof.
  intros s. unfold Server.appleExact, Server.setPreviewUrl, Server.setAudioSource. run.
  destruct (Js.truthy (Sources.findApplePreviewUrl net a (Track.name t))) eqn:Hf;
    simpl; unfold keepsSourced, sourced; simpl; intros _; [|congruence].
  intros _. unfold resolverSources. rewrite !elem_of_cons. auto.
Qed.

Lemma balancedAppleBroad_keepsSourced net req t :
  preserves keepsSourced (Server.balancedAppleBroad net req t).
Proof.
  intros s. unfold Server.balancedAppleBroad, Server.firstArtistName,
    Server.setPreviewUrl, Server.setAudioSource. run.
  destruct (negb (hasPreview s) && Server.balancedOnly req); simpl; [|reflexivity].
  destruct (Track.artists t) as [|a l]; simpl; [reflexivity|].
  destruct (Js.truthy (Sources.findApplePreviewUrlBroader net a (Track.name t))) eqn:Hf;
    simpl; unfold keepsSourced, sourced; simpl; intros _; [|congruence].
  intros _. unfold resolverSources. rewrite !elem_of_cons. auto.
Qed.

Lemma aggregator_keepsSourced net env t :
  preserves keepsSourced (Server.aggregator net env t).
Proof.
  intros s. unfold Server.aggregator. run.
  destruct (negb (hasPreview s)); cbv iota beta; [|reflexivity].
  destruct (Sources.bestSource _) as [best|] eqn:Hb; simpl; [|by unfold keepsSourced].
  destruct (Js.truthy (Sources.streamUrl best)) eqn:Hs; simpl; [|by unfold keepsSourced].
  unfold keepsSourced, sourced. simpl. intros _ _.
  assert (Hin : best ∈ Sources.alternativeSources
                         (Sources.findAlternativeAudioSource net (Server.clientId env)
                            (Server.primaryArtist t) (Track.name t))).
  { by apply head_Some_elem_of. }
  rewrite findAlternativeAudioSource_sources in Hin.
  destruct (Sources.searchSoundCloudAudio _ _ _ _) as [sc|] eqn:Hsc;
    destruct (Sources.searchYouTubeAudio _ _ _) as [y|] eqn:Hy;
    try (apply searchSoundCloudAudio_shape in Hsc as (Hsrc & _));
    try (apply searchYouTubeAudio_shape in Hy as (_ & Hys));
    rewrite ?elem_of_cons, elem_of_nil in Hin; destruct_or!; subst;
    rewrite ?Hsrc; try done; try (by rewrite ?Hys in Hs).
  all: unfold resolverSources; rewrite !elem_of_cons; auto.
Qed.

Lemma knownSource_named t :
  Js.truthy (Track.preview_url t) = true → Server.knownSource t ∈ resolverSources.
Proof.
  intros H. unfold Server.knownSource, resolverSources. rewrite H.
  destruct (Js.truthy (Server.originalApplePreview t)); rewrite !elem_of_cons; auto.
Qed.

Lemma resolverSources_truthy (o : option string) :
  o ∈ resolverSources → Js.truthy o = true.
Proof.
  unfold resolverSources. rewrite !elem_of_cons, elem_of_nil.
  intros [->|[->|[->|[->|[]]]]]; reflexivity.
Qed.

(** whatever the state held, the known preview is taken with its source *)
Lemma startResolution_sourced req t s : sourced (Server.startResolution req t s).2.
Proof.
  unfold Server.startResolution. run. simpl. unfold sourced.
  repeat (match goal with |- context [if ?b then _ else _] => destruct b eqn:? end;
          simpl); try done.
  all: apply knownSource_named.
Qed.

Lemma established {A} (m : M Server.St unit) (k : M Server.St A) s :
  returns m → (∀ s0, sourced (m s0).2) → preserves keepsSourced k →
  sourced ((m ;;; k) s).2.
Proof.
  intros Hm Hs Hk. rewrite (seq_unit _ _ _ Hm). apply Hk, Hs.
Qed.

(** a resolution with a reference has a source *)
Lemma acquirePreviewForTrack_sourced net env req t s :
  sourced (Server.acquirePreviewForTrack net env req t s).2.
Proof.
  unfold Server.acquirePreviewForTrack.
  apply established;
    [apply startResolution_returns|apply startResolution_sourced|].
  apply preserves_bind; [apply _| |intros _].
  { unfold Server.earlySoundCloud, Server.soundcloudAttempt, Server.takeSoundCloud.
    repeat first [preserves_step | sourced_kept]. }
  apply preserves_bind; [apply _| |intros _].
  { unfold Server.relaxedSoundCloud, Server.soundcloudAttempt, Server.takeSoundCloud.
    repeat first [preserves_step | sourced_kept]. }
  apply preserves_bind; [apply _| |intros _].
  { unfold Server.applePrimary, Server.firstArtistName.
    repeat first [apply appleExact_keepsSourced | preserves_step | sourced_kept]. }
  apply preserves_bind; [apply _| |intros _].
  { unfold Server.spotifyRecovery. repeat first [preserves_step | sourced_kept]. }
  apply preserves_bind; [apply _| |intros _].
  { unfold Server.noteRecoveryDisabled. repeat first [preserves_step | sourced_kept]. }
  apply preserves_bind; [apply _| |intros _].
  { unfold Server.balancedAppleExact, Server.firstArtistName.
    repeat first [apply appleExact_keepsSourced | preserves_step | sourced_kept]. }
  apply preserves_bind; [apply _|apply balancedAppleBroad_keepsSourced|intros _].
  apply preserves_bind; [apply _| |intros _].
  { unfold Server.explicitSoundCloud, Server.soundcloudAttempt, Server.takeSoundCloud.
    repeat first [preserves_step | sourced_kept]. }
  apply preserves_bind; [apply _|apply aggregator_keepsSourced|intros _].
  apply preserves_bind; [apply _| |intros _].
  { unfold Server.fallbackOriginal. repeat first [preserves_step | sourced_kept]. }
  apply preserves_bind; [apply _| |intros _].
  { unfold Server.restoreApple. repeat first [preserves_step | sourced_kept]. }
  apply preserves_bind; [apply _| |intros _].
  { unfold Server.restoreSpotify. repeat first [preserves_step | sourced_kept]. }
  apply preserves_bind; [apply _|apply preserves_get; apply _|intros s0].
  apply preserves_ret; apply _.
Qed.

Lemma acquirePreviewForTrack_sameSourceCounts net env req t :
  preserves sameSourceCounts (Server.acquirePreviewForTrack net env req t).
Proof. unfold_resolver. repeat first [preserves_step | counts_kept]. Qed.

Lemma fetchOr_sameSourceCounts tracks request f reason :
  preserves sameSourceCounts (Server.fetchOr tracks request f reason).
Proof. unfold Server.fetchOr. repeat first [preserves_step | counts_kept]. Qed.

Lemma addAlbumTracks_sameSourceCounts catalog l tracks :
  preserves sameSourceCounts (Server.addAlbumTracks catalog l tracks).
Proof.
  revert tracks. induction l as [|a l IH]; intros tracks; simpl.
  - apply preserves_ret; apply _.
  - apply preserves_bind; [apply _|apply fetchOr_sameSourceCounts|].
    intros tracks'. apply IH.
Qed.

Lemma fetchTracks_sameSourceCounts env req catalog :
  preserves sameSourceCounts (Server.fetchTracks env req catalog).
Proof.
  unfold Server.fetchTracks.
  repeat first [ apply fetchOr_sameSourceCounts | apply addAlbumTracks_sameSourceCounts
               | preserves_step | counts_kept ].
Qed.

(** the resolver returns the resolution its final state holds *)
Lemma acquirePreviewForTrack_resolution net env req t s :
  ∃ s1, Server.acquirePreviewForTrack net env req t s = (Returns (resolutionOf s1), s1).
Proof. rewrite acquirePreviewForTrack_steps. cbv zeta. eexists. reflexivity. Qed.

Lemma analyzeTrack_counted net env req round t s :
  counted 1 s (Server.analyzeTrack net env req round t s).2.
Proof.
  destruct (acquirePreviewForTrack_resolution net env req t s) as (s1 & Heq).
  pose proof (acquirePreviewForTrack_sameSourceCounts net env req t s) as Hpsc.
  pose proof (acquirePreviewForTrack_sourced net env req t s) as Hsrc.
  rewrite Heq in Hpsc, Hsrc. cbn [snd] in Hpsc, Hsrc.
  assert (Htotal : sourceTotal s1 = sourceTotal s).
  { unfold sourceTotal. by rewrite Hpsc. }
  unfold counted, Server.analyzeTrack, Server.analyzeAudioWithEssentia.
  unfold bind, get, modify, when_, try_, try_catch, ret, call, throw.
  rewrite Heq. unfold resolutionOf. cbn [Server.resPreviewUrl Server.resAudioSource].
  destruct (hasPreview s1) eqn:HU.
  - rewrite (resolverSources_truthy _ (Hsrc HU)). cbn [andb].
    destruct (Sources.essentia net _) as [features|e]; cbn [snd];
      match goal with
      | |- sourceTotal ?x = _ =>
          change (sourceTotal x)
            with (sourceTotal (Server.bumpSource (default "" (Server.audioSource s1)) s1))
      end;
      rewrite sourceTotal_bumpSource; lia.
  - cbn [andb snd].
    match goal with
    | |- sourceTotal ?x = _ =>
        change (sourceTotal x) with (sourceTotal (Server.bumpSource "none" s1))
    end.
    rewrite sourceTotal_bumpSource. lia.
Qed.

Lemma runRound_counted net env req round l s :
  counted (Z.of_nat (length l)) s (Server.runRound net env req round l s).2.
Proof.
  revert s. induction l as [|t l IH]; intros s.
  - unfold counted. simpl. lia.
  - rewrite runRound_next.
    pose proof (analyzeTrack_counted net env req round t s) as H1.
    specialize (IH (Server.analyzeTrack net env req round t s).2).
    unfold counted in *. rewrite IH, H1. simpl length. lia.
Qed.

(** X19.  Every track the rounds attempt is counted under exactly one
    preview source: over the two rounds the sum of [previewSourceCounts]
    grows by the number of attempted tracks (the round-1 slice, and the
    round-2 slice when round 2 ran), whether a track resolved or not and
    whether or not its extraction failed.  A resolved track always has a
    source to be counted under.  For a whole request the sum is the number
    of attempted tracks that a partial or failed answer reports. *)
Theorem every_attempted_track_is_counted_once
    (net : Sources.Net) (env : Server.Env) (req : Server.Request) :
  (∀ t s, ∃ res,
     (Server.acquirePreviewForTrack net env req t s).1 = Returns res
     ∧ (Js.truthy (Server.resPreviewUrl res) = true →
        Js.truthy (Server.resAudioSource res) = true))
  ∧ (∀ tracks s, ∃ ran attempted s',
       Server.runRounds net env req tracks s = (Returns (ran, attempted), s')
       ∧ attempted = Z.of_nat (length (Server.round1Tracks req tracks))
                     + (if ran then Z.of_nat (length (Server.round2Tracks tracks)) else 0)
       ∧ sourceTotal s' = sourceTotal s + attempted)
  ∧ (∀ catalog profiles n,
       Resp.tracksAttempted (Server.analyzeArtist net env req catalog profiles).1.1
       = Some n →
       sourceTotal (Server.analyzeArtist net env req catalog profiles).2 = n).
Proof.
  assert (Hrounds : ∀ tracks s, ∃ ran attempted s',
            Server.runRounds net env req tracks s = (Returns (ran, attempted), s')
            ∧ attempted = Z.of_nat (length (Server.round1Tracks req tracks))
                          + (if ran then Z.of_nat (length (Server.round2Tracks tracks))
                             else 0)
            ∧ sourceTotal s' = sourceTotal s + attempted).
  { intros tracks s.
    destruct (runRound_returns net env req 1 (Server.round1Tracks req tracks) s)
      as ([] & s1 & H1).
    pose proof (runRound_counted net env req 1 (Server.round1Tracks req tracks) s) as C1.
    rewrite H1 in C1. unfold counted in C1. simpl in C1.
    unfold Server.runRounds, bind, get. rewrite H1.
    destruct (Server.round2Gate env req _ _).
    - destruct (runRound_returns net env req 2 (Server.round2Tracks tracks) s1)
        as ([] & s2 & H2).
      pose proof (runRound_counted net env req 2 (Server.round2Tracks tracks) s1) as C2.
      rewrite H2 in C2 |- *. unfold counted in C2. simpl in C2.
      exists true. eexists _, _. split; [reflexivity|]. split; [done|]. lia.
    - exists false. eexists _, _. split; [reflexivity|]. split; [lia|]. lia. }
  split_and!.
  - intros t s.
    destruct (acquirePreviewForTrack_resolution net env req t s) as (s1 & Heq).
    pose proof (acquirePreviewForTrack_sourced net env req t s) as Hsrc.
    rewrite Heq in Hsrc |- *. exists (resolutionOf s1). split; [done|].
    intros HU. apply resolverSources_truthy. by apply Hsrc.
  - exact Hrounds.
  - intros catalog profiles n.
    destruct (String.eqb_spec (Server.artistName req) "") as [Hname|Hname].
    { unfold Server.analyzeArtist. rewrite Hname. simpl. done. }
    destruct (fetchTracks_returns env req catalog Server.initialSt)
      as ([|t l] & s0 & Hfetch).
    { unfold Server.analyzeArtist, Server.analyzeArtistBody, bind.
      rewrite Hfetch. by destruct (String.eqb_spec (Server.artistName req) ""). }
    pose proof (fetchTracks_sameSourceCounts env req catalog Server.initialSt) as Hsame.
    rewrite Hfetch in Hsame. unfold sameSourceCounts in Hsame. simpl in Hsame.
    destruct (analyzeArtist_rounds net env req catalog profiles t l s0 Hname Hfetch)
      as (rounds & s2 & Hr & ->).
    assert (H0 : sourceTotal (noteAttempted req (t :: l) s0) = 0).
    { unfold sourceTotal. simpl. rewrite Hsame. apply map_fold_empty. }
    destruct (Hrounds (t :: l) (noteAttempted req (t :: l) s0))
      as (ran & attempted & s2' & Hr' & _ & Hsum).
    rewrite Hr in Hr'. injection Hr' as -> <-.
    cbv zeta. destruct (Server.trackProfiles s2) as [|p ps]; [|done].
    destruct (inferredGenres _); cbn [fst snd Server.failedResponse
      Server.partialResponse Resp.tracksAttempted]; intros [= <-]; lia.
Qed.

(** ** The sources of the analysed tracks *)

Lemma analyzeTrack_sourcedProfiles net env req round t s :
  keepsSourcedProfiles s (Server.analyzeTrack net env req round t s).2.
Proof.
  intros Hall.
  destruct (analyzeTrack_outcome net env req round t s) as (res & s1 & Heq & _ & ->).
  destruct (acquirePreviewForTrack_resolution net env req t s) as (s1' & Heq').
  pose proof (acquirePreviewForTrack_sourced net env req t s) as Hsrc.
  rewrite Heq' in Hsrc. cbn [snd] in Hsrc.
  rewrite Heq in Heq'. injection Heq' as -> ->.
  destruct (Js.truthy (Server.resPreviewUrl (resolutionOf s1'))) eqn:HU; [|done].
  destruct (Sources.essentia net _) as [features|e]; [|done].
  apply Forall_app. split; [done|]. apply Forall_singleton.
  split; [exact HU|]. by apply Hsrc.
Qed.

Lemma runRound_sourcedProfiles net env req round l s :
  keepsSourcedProfiles s (Server.runRound net env req round l s).2.
Proof.
  revert s. induction l as [|t l IH]; intros s; [intros H; exact H|].
  rewrite runRound_next. intros H.
  exact (IH _ (analyzeTrack_sourcedProfiles net env req round t s H)).
Qed.

Lemma runRounds_sourcedProfiles net env req tracks s :
  keepsSourcedProfiles s (Server.runRounds net env req tracks s).2.
Proof.
  intros H.
  destruct (runRound_returns net env req 1 (Server.round1Tracks req tracks) s)
    as ([] & s1 & H1).
  pose proof (runRound_sourcedProfiles net env req 1 (Server.round1Tracks req tracks) s H)
    as P1.
  rewrite H1 in P1. cbn [snd] in P1.
  unfold Server.runRounds, bind, get. rewrite H1.
  destruct (Server.round2Gate env req _ _); [|done].
  destruct (runRound_returns net env req 2 (Server.round2Tracks tracks) s1)
    as ([] & s2 & H2).
  pose proof (runRound_sourcedProfiles net env req 2 (Server.round2Tracks tracks) s1 P1)
    as P2.
  rewrite H2 in P2 |- *. exact P2.
Qed.

Lemma sourced_summary (m : list TrackProfile) :
  Forall sourcedProfile m →
  Summary.countSource m "youtube" = 0 ∧ Summary.countSource m "beatport" = 0
  ∧ Summary.countSource m "bandcamp" = 0
  ∧ Summary.countSource m "spotify"
    + (Summary.countSource m "apple" + Summary.countSource m "apple_broad")
    + Summary.countSource m "soundcloud" = Z.of_nat (length m).
Proof.
  unfold Summary.countSource.
  induction 1 as [|p m [_ Hp] Hm (IH1 & IH2 & IH3 & IH4)]; [done|].
  unfold resolverSources in Hp. rewrite !elem_of_cons, elem_of_nil in Hp.
  cbn [List.filter].
  destruct Hp as [->|[->|[->|[->|[]]]]]; simpl bool_decide; cbn [length]; lia.
Qed.

(** X24.  Every profile of an answer was analysed from a preview whose
    source is [spotify], [apple], [apple_broad] or [soundcloud]: the
    resolver names no other source, also when the aggregator found the
    audio.  So in [metadata.audioSources] the counts of [youtube],
    [beatport] and [bandcamp] are always zero, and the counts of [spotify],
    [apple] and [soundcloud] add up to the number of profiles. *)
Theorem answer_sources_are_spotify_apple_or_soundcloud
    (net : Sources.Net) (env : Server.Env) (req : Server.Request)
    (catalog : Server.Catalog) (profiles : list (gmap string value))
    (m : list TrackProfile) :
  Resp.trackMatrix (Server.analyzeArtist net env req catalog profiles).1.1 = Some m →
  Forall sourcedProfile m
  ∧ Summary.audioSources m !! "youtube" = Some 0
  ∧ Summary.audioSources m !! "beatport" = Some 0
  ∧ Summary.audioSources m !! "bandcamp" = Some 0
  ∧ ∃ sp ap sc,
      Summary.audioSources m !! "spotify" = Some sp
      ∧ Summary.audioSources m !! "apple" = Some ap
      ∧ Summary.audioSources m !! "soundcloud" = Some sc
      ∧ sp + ap + sc = Z.of_nat (length m).
Proof.
  intros Hm.
  assert (Hall : Forall sourcedProfile m).
  { revert Hm.
    destruct (String.eqb_spec (Server.artistName req) "") as [Hname|Hname].
    { unfold Server.analyzeArtist. rewrite Hname. simpl. done. }
    destruct (fetchTracks_returns env req catalog Server.initialSt)
      as ([|t l] & s0 & Hfetch).
    { unfold Server.analyzeArtist, Server.analyzeArtistBody, bind.
      rewrite Hfetch. by destruct (String.eqb_spec (Server.artistName req) ""). }
    destruct (analyzeArtist_rounds net env req catalog profiles t l s0 Hname Hfetch)
      as (rounds & s2 & Hr & ->).
    destruct (fetched_sameAnalysis env req catalog (t :: l) s0 Hfetch) as (Hp & _).
    pose proof (runRounds_sourcedProfiles net env req (t :: l)
                  (noteAttempted req (t :: l) s0)) as Hkept.
    rewrite Hr in Hkept. cbn [snd] in Hkept.
    assert (Hs2 : Forall sourcedProfile (Server.trackProfiles s2)).
    { apply Hkept. rewrite Hp. constructor. }
    cbv zeta. destruct (Server.trackProfiles s2) as [|p ps] eqn:Hps.
    - destruct (inferredGenres _); simpl; [done|]. intros [= <-]. constructor.
    - simpl. rewrite Hps. by intros [= <-]. }
  split; [exact Hall|].
  destruct (sourced_summary m Hall) as (Hy & Hb & Hc & Hsum).
  unfold Summary.audioSources. simpl list_to_map.
  split_and!.
  - rewrite !lookup_insert_ne by done. rewrite lookup_insert_eq. by rewrite Hy.
  - rewrite !lookup_insert_ne by done. rewrite lookup_insert_eq. by rewrite Hb.
  - rewrite !lookup_insert_ne by done. rewrite lookup_insert_eq. by rewrite Hc.
  - eexists _, _, _. split; [apply lookup_insert_eq|].
    split; [rewrite lookup_insert_ne by done; apply lookup_insert_eq|].
    split; [rewrite !lookup_insert_ne by done; apply lookup_insert_eq|]. lia.
Qed.

Lemma answer_sources_are_spotify_apple_or_soundcloud_witness :
  let m := default [] (Resp.trackMatrix
                         (Server.analyzeArtist quietNet tokenEnv fullRequest dupCatalog
                            []).1.1) in
  length m = 2%nat ∧ Summary.audioSources m !! "youtube" = Some 0.
Proof.
  intros m.
  destruct (answer_sources_are_spotify_apple_or_soundcloud quietNet tokenEnv fullRequest
              dupCatalog [] m) as (_ & Hy & _).
  - vm_compute. reflexivity.
  - split; [vm_compute; reflexivity|exact Hy].
Defined.

(** ** The other endpoints of the service *)

(** one element of [audioUrls]: a result is pushed, unless the element is
    one that a template literal cannot print *)
Lemma batchItem_cases net (audioUrl : Endpoints.json) (rs : list Endpoints.BatchResult) :
  (Endpoints.stringifies audioUrl = true
   ∧ ∃ r, Endpoints.batchItem net audioUrl rs = (Returns tt, rs ++ [r])
          ∧ Endpoints.brAudioUrl r = audioUrl ∧ Endpoints.batchResultOf net r)
  ∨ (Endpoints.stringifies audioUrl = false
     ∧ Endpoints.batchItem net audioUrl rs
       = (Throws "Cannot convert object to primitive value", rs)).
Proof.
  unfold Endpoints.batchItem, Endpoints.batchResultOf.
  destruct audioUrl as [|b|n|u|l|fields].
  - left. split; [done|]. eexists. split; [reflexivity|]. simpl.
    split; [done|]. split; [done|]. right. by left.
  - left. split; [done|]. eexists. split; [reflexivity|]. simpl.
    split; [done|]. split; [done|]. right. right. by split_and!.
  - left. split; [done|]. eexists. split; [reflexivity|]. simpl.
    split; [done|]. split; [done|]. right. right. by split_and!.
  - left. split; [done|].
    unfold try_catch, bind, ret, call, modify.
    destruct (Sources.essentia net u) as [f|e] eqn:He.
    + eexists. split; [reflexivity|]. simpl. split; [done|]. by exists u, f.
    + eexists. split; [reflexivity|]. simpl. split; [done|]. split; [done|].
      left. by exists u, e.
  - unfold try_catch, bind, throw.
    destruct (Endpoints.stringifies (Endpoints.JArr l)) eqn:Hs; [left|right; done].
    split; [done|]. eexists. split; [reflexivity|]. simpl.
    split; [done|]. split; [done|]. right. right. by split_and!.
  - unfold try_catch, bind, throw.
    destruct (Endpoints.stringifies (Endpoints.JObj fields)) eqn:Hs; [left|right; done].
    split; [done|]. eexists. split; [reflexivity|]. simpl.
    split; [done|]. split; [done|]. right. right. by split_and!.
Qed.

(** the loop over [audioUrls] *)
Lemma batchLoop net (l : list Endpoints.json) (rs : list Endpoints.BatchResult) :
  (Forall (λ v, Endpoints.stringifies v = true) l
   ∧ ∃ news, forEach l (Endpoints.batchItem net) rs = (Returns tt, rs ++ news)
             ∧ map Endpoints.brAudioUrl news = l
             ∧ Forall (Endpoints.batchResultOf net) news)
  ∨ (∃ v rs', v ∈ l ∧ Endpoints.stringifies v = false
              ∧ forEach l (Endpoints.batchItem net) rs
                = (Throws "Cannot convert object to primitive value", rs')).
Proof.
  revert rs. induction l as [|v l IH]; intros rs.
  - left. split; [done|]. exists []. by rewrite app_nil_r.
  - cbn [forEach]. unfold bind.
    destruct (batchItem_cases net v rs) as [(Hv & r & -> & Hr & Hof)|[Hv ->]].
    + destruct (IH (rs ++ [r])) as [(Hall & news & -> & Hmap & Hnews)|
                                    (v' & rs' & Hin & Hv' & ->)].
      * left. split; [by constructor|]. exists (r :: news).
        split; [by rewrite <- app_assoc|]. split; [simpl; by rewrite Hr, Hmap|].
        by constructor.
      * right. exists v', rs'. split; [apply elem_of_cons; by right|done].
    + right. exists v, rs. split; [apply elem_of_cons; by left|done].
Qed.

(** X20.  What [/api/batch] answers.  It answers 400 exactly when
    [audioUrls] is not an array.  For an array it answers 200 with one
    result per element, in the order of the array, unless an element that is
    not a string cannot be printed by a template literal (an object with an
    own [toString] property, or an array that holds one): the [catch] block
    of the loop then throws itself and the answer is 500.  In the 200 answer
    every element can be printed, a failed extraction and an element that is
    not a string give a result with [success = false] and the error, and a
    result has [success = true] exactly when its URL was analysed;
    [totalProcessed] is the length of the array and [successful] the number
    of successes. *)
Theorem batch_gives_one_result_per_url
    (net : Sources.Net) (audioUrls : option Endpoints.json) :
  match Endpoints.batch net audioUrls with
  | Endpoints.BatchBadRequest => ∀ l, audioUrls ≠ Some (Endpoints.JArr l)
  | Endpoints.BatchDone results totalProcessed successful =>
      ∃ l, audioUrls = Some (Endpoints.JArr l)
           ∧ Forall (λ v, Endpoints.stringifies v = true) l
           ∧ map Endpoints.brAudioUrl results = l
           ∧ totalProcessed = Z.of_nat (length l)
           ∧ successful = Z.of_nat (length (List.filter Endpoints.brSuccess results))
           ∧ Forall (Endpoints.batchResultOf net) results
  | Endpoints.BatchError e =>
      e = "Cannot convert object to primitive value"
      ∧ ∃ l v, audioUrls = Some (Endpoints.JArr l) ∧ v ∈ l
               ∧ (∀ u, v ≠ Endpoints.JStr u)
               ∧ Endpoints.stringifies v = false
  end.
Proof.
  unfold Endpoints.batch.
  destruct audioUrls as [[|b|n|u|l|fields]|]; try done.
  destruct (batchLoop net l []) as [(Hall & news & -> & Hmap & Hnews)|
                                    (v & rs' & Hin & Hv & ->)].
  - exists l. split; [done|]. split; [done|]. split; [done|]. split; [|done].
    by rewrite <- Hmap, length_map.
  - split; [done|]. exists l, v. split; [done|]. split; [done|]. split; [|done].
    intros u ->. discriminate Hv.
Qed.

Section Cache.
Variable hashAudioUrl : string → string.

Lemma find_app_miss {A} (f : A → bool) (l : list A) (x : A) :
  List.find f l = None → List.find f (l ++ [x]) = if f x then Some x else None.
Proof.
  induction l as [|y l IH]; simpl; [done|].
  destruct (f y); [done|]. exact IH.
Qed.

Lemma upsertOne_miss k v fields (col : list (gmap string value)) :
  List.find (λ d, bool_decide (d !! k = Some v)) col = None →
  Mongo.upsertOne k v fields col = col ++ [Mongo.setFields fields {[k := v]}].
Proof.
  intros Hmiss. unfold Mongo.upsertOne.
  destruct (list_find _ col) as [[i d]|] eqn:Hfind; [|done].
  apply list_find_Some in Hfind as (Hi & Hd & _).
  apply list_elem_of_lookup_2 in Hi. apply list_elem_of_In in Hi.
  eapply List.find_none in Hmiss; [|exact Hi].
  by rewrite bool_decide_eq_true_2 in Hmiss.
Qed.

Lemma findCached_miss tid h (col : list (gmap string value)) :
  Endpoints.findCached tid h col = None →
  List.find (λ d, bool_decide (d !! "audioHash" = Some (VStr h))) col = None.
Proof.
  unfold Endpoints.findCached, Endpoints.matchesHash.
  induction col as [|d col IH]; simpl; [done|].
  destruct (Endpoints.matchesTrackId tid d); simpl; [done|].
  destruct (bool_decide _); [done|]. exact IH.
Qed.

(** X21.  The cache of [/api/analyze] round-trips.  A request for a URL
    that no stored document matches, by [trackId] or by the hash of the URL,
    is analysed, answered with [source = "essentia"] and not [cached], and
    stored as one new document.  From then on a request that no older
    document matches and that has the same URL, or the same [trackId], is
    answered from the store: the same features, [cached], without calling
    the extraction and without a write, whatever the extraction or the store
    would do.  The [trackId] decides before the URL: with the stored
    [trackId] a request for another URL gets these features, and so does a
    request without [trackId] after one without [trackId]. *)
Theorem analyze_cache_round_trip
    (net : Sources.Net) (col : list (gmap string value)) (url : string)
    (trackId : option string) (features : Features) (now analysisTime : Z) :
  url ≠ "" →
  Endpoints.findCached trackId (hashAudioUrl url) col = None →
  Sources.essentia net url = Returns features →
  ∃ d,
    Endpoints.analyze hashAudioUrl net (Some col) false (Some url) trackId now
      analysisTime
    = (Endpoints.AnalyzeOk (VFeatures features) (VStr "essentia") false,
       Some (col ++ [d]), true)
    ∧ (∀ net' fails url' trackId' now' time',
         url' ≠ "" →
         Endpoints.findCached trackId' (hashAudioUrl url') col = None →
         url' = url ∨ trackId' = trackId →
         Endpoints.analyze hashAudioUrl net' (Some (col ++ [d])) fails (Some url')
           trackId' now' time'
         = (Endpoints.AnalyzeOk (VFeatures features) (VStr "essentia") true,
            Some (col ++ [d]), false)).
Proof.
  intros Hurl Hmiss Hf.
  set (h := hashAudioUrl url) in *.
  set (d := Mongo.setFields
              (Endpoints.analyzeFields h url trackId features now analysisTime)
              {["audioHash" := VStr h]}).
  assert (Htruthy : ∀ u, u ≠ "" → Js.truthy (Some u) = true).
  { intros u Hu. simpl. by destruct (String.eqb_spec u ""). }
  assert (Hhash : d !! "audioHash" = Some (VStr h)).
  { subst d. unfold Mongo.setFields, Endpoints.analyzeFields. simpl.
    rewrite !lookup_insert_ne by done. apply lookup_insert_eq. }
  assert (Hfeat : d !! "features" = Some (VFeatures features)).
  { subst d. unfold Mongo.setFields, Endpoints.analyzeFields. simpl.
    rewrite !lookup_insert_ne by done. apply lookup_insert_eq. }
  assert (Hsrc : d !! "source" = Some (VStr "essentia")).
  { subst d. unfold Mongo.setFields, Endpoints.analyzeFields. simpl.
    rewrite !lookup_insert_ne by done. apply lookup_insert_eq. }
  assert (Htid : d !! "trackId"
                 = Some (match trackId with Some i => VStr i | None => VNull end)).
  { subst d. unfold Mongo.setFields, Endpoints.analyzeFields. simpl.
    rewrite !lookup_insert_ne by done. apply lookup_insert_eq. }
  exists d. split.
  - unfold Endpoints.analyze. rewrite (Htruthy url Hurl). cbn [negb].
    change (default "" (Some url)) with url. cbv zeta. fold h. rewrite Hmiss. unfold Endpoints.analyzeFresh. rewrite Hf.
    rewrite (upsertOne_miss _ _ _ _ (findCached_miss _ _ _ Hmiss)). reflexivity.
  - intros net' fails url' trackId' now' time' Hurl' Hmiss' Hkey.
    assert (Hfound : Endpoints.findCached trackId' (hashAudioUrl url') (col ++ [d])
                     = Some d).
    { unfold Endpoints.findCached in *. rewrite (find_app_miss _ _ _ Hmiss').
      destruct Hkey as [-> | ->].
      - unfold Endpoints.matchesHash. fold h. rewrite Hhash.
        rewrite bool_decide_eq_true_2 by done. by rewrite orb_true_r.
      - unfold Endpoints.matchesTrackId. rewrite Htid.
        destruct trackId as [i|]; [|done].
        by rewrite bool_decide_eq_true_2. }
    unfold Endpoints.analyze. rewrite (Htruthy url' Hurl'). cbn [negb].
    change (default "" (Some url')) with url'. cbv zeta. rewrite Hfound.
    unfold Mongo.truthyField. rewrite Hfeat, Hsrc. reflexivity.
Qed.

End Cache.

Lemma analyze_cache_round_trip_witness :
  ∃ d,
    Endpoints.analyze (λ u, u) quietNet (Some []) false (Some "https://a/1.mp3")
      (Some "t1") 7 3
    = (Endpoints.AnalyzeOk (VFeatures (mkFeatures None None None None None))
         (VStr "essentia") false, Some [d], true)
    ∧ Endpoints.analyze (λ u, u) downNet (Some [d]) true (Some "https://b/2.mp3")
        (Some "t1") 8 4
      = (Endpoints.AnalyzeOk (VFeatures (mkFeatures None None None None None))
           (VStr "essentia") true, Some [d], false).
Proof.
  destruct (analyze_cache_round_trip (λ u, u) quietNet [] "https://a/1.mp3" (Some "t1")
              (mkFeatures None None None None None) 7 3) as (d & H1 & H2).
  - discriminate.
  - reflexivity.
  - reflexivity.
  - exists d. split; [exact H1|].
    apply (H2 downNet true "https://b/2.mp3" (Some "t1") 8 4).
    + discriminate.
    + reflexivity.
    + right. reflexivity.
Defined.

(** ** The providers a strategy asks *)

#[local] Instance sameCallsOf_refl f : Reflexive (sameCallsOf f).
Proof. intros s. reflexivity. Qed.
#[local] Instance sameCallsOf_trans f : Transitive (sameCallsOf f).
Proof. unfold sameCallsOf. intros s1 s2 s3 H1 H2. congruence. Qed.

(** a state change that adds no call of the kind *)
Ltac calls_kept :=
  intros ?; unfold sameCallsOf, Server.noteQuery, Server.setPreviewUrl,
    Server.setAudioSource;
  try match goal with |- context [if ?b then _ else _] => destruct b end;
  simpl; rewrite ?List.filter_app; simpl; rewrite ?app_nil_r; done.

Ltac kept := repeat first [preserves_step | calls_kept].

Section CallsOf.
Variable net : Sources.Net.
Variable env : Server.Env.
Variable req : Server.Request.
Variable f : Server.Call → bool.
Hypothesis Hessentia : ∀ u, f (Server.Essentia u) = false.
Hypothesis Hresolver :
  ∀ t, preserves (sameCallsOf f) (Server.acquirePreviewForTrack net env req t).

Lemma analyzeTrack_sameCallsOf round t :
  preserves (sameCallsOf f) (Server.analyzeTrack net env req round t).
Proof.
  unfold Server.analyzeTrack, Server.analyzeAudioWithEssentia.
  apply preserves_try_; [apply _|apply _|].
  apply preserves_bind; [apply _|apply Hresolver|intros res].
  repeat first [ preserves_step | calls_kept
               | intros ?; unfold sameCallsOf; simpl; rewrite List.filter_app; simpl;
                 rewrite Hessentia, app_nil_r; done ].
Qed.

Lemma runRounds_sameCallsOf tracks :
  preserves (sameCallsOf f) (Server.runRounds net env req tracks).
Proof.
  unfold Server.runRounds, Server.runRound.
  repeat first [apply analyzeTrack_sameCallsOf | preserves_step | calls_kept].
Qed.

Lemma fetchTracks_sameCallsOf catalog :
  preserves (sameCallsOf f) (Server.fetchTracks env req catalog).
Proof.
  assert (Hor : ∀ tracks request g reason,
            preserves (sameCallsOf f) (Server.fetchOr tracks request g reason)).
  { intros. unfold Server.fetchOr. kept. }
  assert (Halbums : ∀ l tracks,
            preserves (sameCallsOf f) (Server.addAlbumTracks catalog l tracks)).
  { induction l as [|a l IH]; intros tracks; simpl.
    - apply preserves_ret; apply _.
    - apply preserves_bind; [apply _|apply Hor|]. intros tracks'. apply IH. }
  unfold Server.fetchTracks.
  repeat first [apply Hor | apply Halbums | preserves_step | calls_kept].
Qed.

Lemma analyzeArtist_callsOf catalog profiles :
  List.filter f (Server.calls (Server.analyzeArtist net env req catalog profiles).2) = [].
Proof.
  unfold Server.analyzeArtist.
  destruct (String.eqb (Server.artistName req) ""); [done|].
  assert (Hbody : preserves (sameCallsOf f)
                    (Server.analyzeArtistBody net env req catalog profiles)).
  { unfold Server.analyzeArtistBody.
    repeat first [ apply fetchTracks_sameCallsOf | apply runRounds_sameCallsOf
                 | preserves_step | calls_kept ]. }
  specialize (Hbody Server.initialSt). unfold sameCallsOf in Hbody.
  destruct (Server.analyzeArtistBody net env req catalog profiles Server.initialSt)
    as [[[r col]|e] s]; exact Hbody.
Qed.

End CallsOf.

Lemma filter_nil_not_in (f : Server.Call → bool) (l : list Server.Call) c :
  List.filter f l = [] → f c = true → c ∉ l.
Proof.
  intros Hnil Hc Hin. apply list_elem_of_In in Hin.
  assert (Hf : In c (List.filter f l)) by (apply List.filter_In; done).
  by rewrite Hnil in Hf.
Qed.

Lemma not_balanced req :
  Server.balancedOnly req = false →
  ∀ b, b && negb (Server.useApplePrimary req)
       && negb (Server.innerForceSoundCloudTest req)
       && negb (Server.soundcloudPrimary req) = false.
Proof.
  unfold Server.balancedOnly. intros H b.
  destruct (Server.useApplePrimary req), (Server.innerForceSoundCloudTest req),
    (Server.soundcloudPrimary req), b; done.
Qed.

(** the resolver under a strategy that is not the balanced one makes no
    Spotify recovery *)
Lemma resolver_no_recovery net env req t :
  Server.balancedOnly req = false ∨ Js.truthy (Server.spotifyToken env) = false →
  preserves (sameCallsOf isSpotifyRecovery) (Server.acquirePreviewForTrack net env req t).
Proof.
  intros Hoff. unfold Server.acquirePreviewForTrack.
  apply preserves_bind; [apply _|unfold Server.startResolution; kept|intros _].
  apply preserves_bind; [apply _| |intros _].
  { unfold Server.earlySoundCloud, Server.soundcloudAttempt, Server.takeSoundCloud. kept. }
  apply preserves_bind; [apply _| |intros _].
  { unfold Server.relaxedSoundCloud, Server.soundcloudAttempt, Server.takeSoundCloud.
    kept. }
  apply preserves_bind; [apply _| |intros _].
  { unfold Server.applePrimary, Server.appleExact, Server.firstArtistName. kept. }
  apply preserves_bind; [apply _| |intros _].
  { intros s. unfold Server.spotifyRecovery. run.
    assert (negb (hasPreview s) && Js.truthy (Server.spotifyToken env)
            && negb (Server.useApplePrimary req)
            && negb (Server.innerForceSoundCloudTest req)
            && negb (Server.soundcloudPrimary req) = false) as ->; [|reflexivity].
    destruct Hoff as [Hbal|Htoken].
    - by apply not_balanced.
    - rewrite Htoken. by rewrite andb_false_r. }
  apply preserves_bind; [apply _|unfold Server.noteRecoveryDisabled; kept|intros _].
  apply preserves_bind; [apply _| |intros _].
  { unfold Server.balancedAppleExact, Server.appleExact, Server.firstArtistName. kept. }
  apply preserves_bind; [apply _| |intros _].
  { unfold Server.balancedAppleBroad, Server.firstArtistName. kept. }
  apply preserves_bind; [apply _| |intros _].
  { unfold Server.explicitSoundCloud, Server.soundcloudAttempt, Server.takeSoundCloud.
    kept. }
  apply preserves_bind; [apply _|unfold Server.aggregator; kept|intros _].
  apply preserves_bind; [apply _|unfold Server.fallbackOriginal; kept|intros _].
  apply preserves_bind; [apply _|unfold Server.restoreApple; kept|intros _].
  apply preserves_bind; [apply _|unfold Server.restoreSpotify; kept|intros _].
  kept.
Qed.

(** a forced run asks Apple for nothing *)
Lemma resolver_no_apple net env req t :
  Server.innerForceSoundCloudTest req = true →
  preserves (sameCallsOf isAppleSearch) (Server.acquirePreviewForTrack net env req t).
Proof.
  intros Hforce.
  assert (Hbal : Server.balancedOnly req = false).
  { unfold Server.balancedOnly. rewrite Hforce. by rewrite andb_false_r. }
  unfold Server.acquirePreviewForTrack.
  apply preserves_bind; [apply _|unfold Server.startResolution; kept|intros _].
  apply preserves_bind; [apply _| |intros _].
  { unfold Server.earlySoundCloud, Server.soundcloudAttempt, Server.takeSoundCloud. kept. }
  apply preserves_bind; [apply _| |intros _].
  { unfold Server.relaxedSoundCloud, Server.soundcloudAttempt, Server.takeSoundCloud.
    kept. }
  apply preserves_bind; [apply _| |intros _].
  { intros s. unfold Server.applePrimary. rewrite Hforce, andb_false_r. reflexivity. }
  apply preserves_bind; [apply _|unfold Server.spotifyRecovery; kept|intros _].
  apply preserves_bind; [apply _|unfold Server.noteRecoveryDisabled; kept|intros _].
  apply preserves_bind; [apply _| |intros _].
  { intros s. unfold Server.balancedAppleExact. run. rewrite Hbal, andb_false_r.
    reflexivity. }
  apply preserves_bind; [apply _| |intros _].
  { intros s. unfold Server.balancedAppleBroad. run. rewrite Hbal, andb_false_r.
    reflexivity. }
  apply preserves_bind; [apply _| |intros _].
  { unfold Server.explicitSoundCloud, Server.soundcloudAttempt, Server.takeSoundCloud.
    kept. }
  apply preserves_bind; [apply _|unfold Server.aggregator; kept|intros _].
  apply preserves_bind; [apply _|unfold Server.fallbackOriginal; kept|intros _].
  apply preserves_bind; [apply _|unfold Server.restoreApple; kept|intros _].
  apply preserves_bind; [apply _|unfold Server.restoreSpotify; kept|intros _].
  kept.
Qed.

(** without a client id the resolver makes no SoundCloud search of its own *)
Lemma resolver_no_soundcloud net env req t :
  Server.soundcloudConfigured env = false →
  preserves (sameCallsOf isSoundCloudQuery) (Server.acquirePreviewForTrack net env req t).
Proof.
  intros Hconf. unfold Server.acquirePreviewForTrack.
  apply preserves_bind; [apply _|unfold Server.startResolution; kept|intros _].
  apply preserves_bind; [apply _| |intros _].
  { intros s. unfold Server.earlySoundCloud. run. rewrite Hconf, andb_false_r.
    reflexivity. }
  apply preserves_bind; [apply _| |intros _].
  { intros s. unfold Server.relaxedSoundCloud. run. rewrite Hconf, andb_false_r.
    reflexivity. }
  apply preserves_bind; [apply _| |intros _].
  { unfold Server.applePrimary, Server.appleExact, Server.firstArtistName. kept. }
  apply preserves_bind; [apply _|unfold Server.spotifyRecovery; kept|intros _].
  apply preserves_bind; [apply _|unfold Server.noteRecoveryDisabled; kept|intros _].
  apply preserves_bind; [apply _| |intros _].
  { unfold Server.balancedAppleExact, Server.appleExact, Server.firstArtistName. kept. }
  apply preserves_bind; [apply _| |intros _].
  { unfold Server.balancedAppleBroad, Server.firstArtistName. kept. }
  apply preserves_bind; [apply _| |intros _].
  { intros s. unfold Server.explicitSoundCloud. run. rewrite Hconf, andb_false_r.
    reflexivity. }
  apply preserves_bind; [apply _|unfold Server.aggregator; kept|intros _].
  apply preserves_bind; [apply _|unfold Server.fallbackOriginal; kept|intros _].
  apply preserves_bind; [apply _|unfold Server.restoreApple; kept|intros _].
  apply preserves_bind; [apply _|unfold Server.restoreSpotify; kept|intros _].
  kept.
Qed.

(** X25.  Which providers a request can reach is fixed by its strategy.
    During a whole [/api/analyze-artist] request the Spotify preview
    recovery is called only under a strategy other than [apple_primary] and
    [soundcloud_primary], without [forceSoundCloudTest], and with a Spotify
    token: for a request that names no strategy (the default,
    [apple_primary]) it never runs.  A forced run ([soundcloud_primary] or the flag)
    makes no Apple search.  Without [SOUNDCLOUD_CLIENT_ID] the resolver makes
    no SoundCloud search of its own. *)
Theorem strategy_decides_the_providers
    (net : Sources.Net) (env : Server.Env) (req : Server.Request)
    (catalog : Server.Catalog) (profiles : list (gmap string value)) :
  let s := (Server.analyzeArtist net env req catalog profiles).2 in
  (Server.balancedOnly req = false ∨ Js.truthy (Server.spotifyToken env) = false →
   ∀ i, Server.SpotifyRecovery i ∉ Server.calls s)
  ∧ (Server.previewStrategy req = None → Server.balancedOnly req = false)
  ∧ (Server.innerForceSoundCloudTest req = true →
     ∀ a n, (Server.AppleExact a n ∉ Server.calls s)
            ∧ (Server.AppleBroad a n ∉ Server.calls s))
  ∧ (Server.soundcloudConfigured env = false →
     ∀ a n, Server.SoundCloudQuery a n ∉ Server.calls s).
Proof.
  intros s. subst s. split_and!.
  - intros Hoff i.
    eapply (filter_nil_not_in isSpotifyRecovery); [|reflexivity].
    apply analyzeArtist_callsOf; [done|].
    intros t. by apply resolver_no_recovery.
  - intros Hdefault. unfold Server.balancedOnly, Server.useApplePrimary, Server.strategy.
    rewrite Hdefault. reflexivity.
  - intros Hforce a n.
    assert (Hnone : List.filter isAppleSearch
                      (Server.calls (Server.analyzeArtist net env req catalog profiles).2)
                    = []).
    { apply analyzeArtist_callsOf; [done|]. intros t. by apply resolver_no_apple. }
    split; eapply (filter_nil_not_in isAppleSearch); try exact Hnone; reflexivity.
  - intros Hconf a n.
    eapply (filter_nil_not_in isSoundCloudQuery); [|reflexivity].
    apply analyzeArtist_callsOf; [done|].
    intros t. by apply resolver_no_soundcloud.
Qed.

(** ** Features inferred from genres *)

Lemma clamp_range (lo hi x : Q) :
  (lo <= hi)%Q →
  (lo <= Inference.qmax lo (Inference.qmin hi x) <= hi)%Q.
Proof.
  intros Hle. unfold Inference.qmax, Inference.qmin.
  destruct (Qle_bool hi x) eqn:Hx.
  - destruct (Qle_bool lo hi) eqn:Hh.
    + split; [exact Hle|apply Qle_refl].
    + split; [apply Qle_refl|exact Hle].
  - destruct (Qle_bool lo x) eqn:Hl.
    + apply Qle_bool_iff in Hl. split; [exact Hl|].
      apply Qlt_le_weak, Qnot_le_lt. intros H%Qle_bool_iff. congruence.
    + split; [apply Qle_refl|exact Hle].
Qed.

Lemma addVariance_range r v e : (0 <= Inference.addVariance r v e <= 1)%Q.
Proof. apply clamp_range. done. Qed.

Lemma addTempoVariance_range r v : (60 <= Inference.addTempoVariance r v <= 200)%Q.
Proof. apply clamp_range. done. Qed.

Lemma lookupGenre_electronic : is_Some (Inference.lookupGenre "electronic").
Proof. vm_compute. by eexists. Qed.

Lemma lookupGenre_pop : is_Some (Inference.lookupGenre "pop").
Proof. vm_compute. by eexists. Qed.

(** X26.  [inferAudioFeaturesFromGenres] always has a genre entry to work
    from, whatever the genres, the names and the random draws: a contained
    key, an artist hint, or the electronic or pop default.  Its tempo and
    beats per minute lie between 60 and 200, its rhythm strength, energy,
    danceability, valence, arousal, chroma mean, zero-crossing rate,
    harmonic ratio, pitch salience and inharmonicity between 0 and 1, and
    its confidence between 0.6 and 0.8. *)
Theorem inferred_features_are_in_range
    (random : nat → Q) (genres : list string) (artistName : string)
    (trackName : option string) :
  ∃ f, Inference.inferAudioFeaturesFromGenres random genres artistName trackName = Some f
       ∧ (60 <= Inference.tempo f <= 200)%Q
       ∧ (60 <= Inference.beats_per_minute f <= 200)%Q
       ∧ Forall (λ v, (0 <= v <= 1)%Q)
           [Inference.rhythm_strength f; Inference.energy f; Inference.danceability f;
            Inference.valence f; Inference.arousal f; Inference.chroma_mean f;
            Inference.zero_crossing_rate f; Inference.harmonic_ratio f;
            Inference.pitch_salience f; Inference.inharmonicity f]
       ∧ (6 # 10 <= Inference.confidence f <= 8 # 10)%Q.
Proof.
  unfold Inference.inferAudioFeaturesFromGenres. cbv zeta.
  set (m := Inference.applyHints _ _ _).
  assert (Hsome : ∃ g matched,
            Inference.withDefault genres (Js.toLowerCase artistName) m = (Some g, matched)).
  { unfold Inference.withDefault. destruct (Inference.bestMatch m) as [g|].
    - by eexists _, _.
    - destruct (Inference.hasElectronicTerms _ _).
      + destruct lookupGenre_electronic as [g ->]. by eexists _, _.
      + destruct lookupGenre_pop as [g ->]. by eexists _, _. }
  destruct Hsome as (g & matched & ->). clearbody m.
  eexists. split; [reflexivity|].
  cbn [Inference.tempo Inference.beats_per_minute Inference.rhythm_strength
       Inference.energy Inference.danceability Inference.valence Inference.arousal
       Inference.chroma_mean Inference.zero_crossing_rate Inference.harmonic_ratio
       Inference.pitch_salience Inference.inharmonicity Inference.confidence].
  split; [apply addTempoVariance_range|]. split; [apply addTempoVariance_range|].
  split; [repeat constructor; apply addVariance_range|].
  set (c := ((6 # 10) + inject_Z (Z.of_nat (Inference.bestScore m)) * (2 # 100))%Q).
  assert (Hc : (6 # 10 <= c)%Q).
  { subst c. rewrite <- (Qplus_0_r (6 # 10)) at 1. apply Qplus_le_r.
    apply Qmult_le_0_compat; [|done].
    change 0%Q with (inject_Z 0). rewrite <- Zle_Qle. lia. }
  unfold Inference.qmax, Inference.qmin.
  destruct (Qle_bool (8 # 10) c) eqn:H8.
  - change (Qle_bool (5 # 10) (8 # 10)) with true. cbv iota. done.
  - destruct (Qle_bool (5 # 10) c) eqn:H5.
    + split; [exact Hc|]. apply Qlt_le_weak, Qnot_le_lt.
      intros H%Qle_bool_iff. congruence.
    + exfalso. assert (Qle_bool (5 # 10) c = true); [|congruence].
      apply Qle_bool_iff. eapply Qle_trans; [|exact Hc]. done.
Qed.

(** the inner loop over a table: the score only grows, covers every
    contained key of the table, and the match is the old one or an entry
    that the genre contains *)
Lemma matchLoop (genreLower : string) (tbl : list (string * Inference.GenreFeatures))
    (m : Inference.Match) :
  let step := λ (acc : Inference.Match) (e : string * Inference.GenreFeatures),
                if Js.includes genreLower (fst e) then
                  if (Inference.bestScore acc <? String.length (fst e))%nat
                  then Inference.mkMatch (Some (snd e)) (String.length (fst e)) (fst e)
                  else acc
                else acc in
  let m' := fold_left step tbl m in
  (Inference.bestScore m ≤ Inference.bestScore m')%nat
  ∧ (∀ e, e ∈ tbl → Js.includes genreLower (fst e) = true →
          (String.length (fst e) ≤ Inference.bestScore m')%nat)
  ∧ (m' = m
     ∨ ∃ e, e ∈ tbl ∧ Js.includes genreLower (fst e) = true
            ∧ m' = Inference.mkMatch (Some (snd e)) (String.length (fst e)) (fst e)).
Proof.
  intros step. revert m. induction tbl as [|e tbl IH]; intros m; cbn [fold_left].
  - split; [done|]. split; [by intros e []%elem_of_nil|]. by left.
  - destruct (IH (step m e)) as (Hmono & Hcover & Hwhich).
    assert (Hstep : (Inference.bestScore m ≤ Inference.bestScore (step m e))%nat
                    ∧ (Js.includes genreLower (fst e) = true →
                       (String.length (fst e) ≤ Inference.bestScore (step m e))%nat)
                    ∧ (step m e = m
                       ∨ Js.includes genreLower (fst e) = true
                         ∧ step m e = Inference.mkMatch (Some (snd e))
                                        (String.length (fst e)) (fst e))).
    { unfold step. destruct (Js.includes genreLower (fst e));
        [|split; [done|]; split; [done|]; by left].
      destruct (Nat.ltb_spec (Inference.bestScore m) (String.length (fst e))); simpl.
      - split; [lia|]. split; [done|]. by right.
      - split; [done|]. split; [done|]. by left. }
    destruct Hstep as (S1 & S2 & S3).
    split; [lia|]. split.
    + intros e' [->|Hin]%elem_of_cons Hinc.
      * specialize (S2 Hinc). lia.
      * by apply Hcover.
    + destruct Hwhich as [->|(e' & Hin & Hinc & ->)].
      * destruct S3 as [->|[Hinc ->]]; [by left|].
        right. exists e. split; [apply elem_of_cons; by left|done].
      * right. exists e'. split; [apply elem_of_cons; by right|done].
Qed.

Lemma matchGenre_spec (genreLower : string) (m : Inference.Match) :
  (Inference.bestScore m ≤ Inference.bestScore (Inference.matchGenre genreLower m))%nat
  ∧ (∀ e, e ∈ Inference.genreMappings → Js.includes genreLower (fst e) = true →
          (String.length (fst e)
           ≤ Inference.bestScore (Inference.matchGenre genreLower m))%nat)
  ∧ (Inference.matchGenre genreLower m = m
     ∨ ∃ e, e ∈ Inference.genreMappings ∧ Js.includes genreLower (fst e) = true
            ∧ Inference.matchGenre genreLower m
              = Inference.mkMatch (Some (snd e)) (String.length (fst e)) (fst e)).
Proof. exact (matchLoop genreLower Inference.genreMappings m). Qed.

Section Loop.
Variable tbl : list (string * Inference.GenreFeatures).
Variable step : string → Inference.Match → Inference.Match.
Hypothesis step_spec : ∀ genreLower m,
  (Inference.bestScore m ≤ Inference.bestScore (step genreLower m))%nat
  ∧ (∀ e, e ∈ tbl → Js.includes genreLower (fst e) = true →
          (String.length (fst e) ≤ Inference.bestScore (step genreLower m))%nat)
  ∧ (step genreLower m = m
     ∨ ∃ e, e ∈ tbl ∧ Js.includes genreLower (fst e) = true
            ∧ step genreLower m
              = Inference.mkMatch (Some (snd e)) (String.length (fst e)) (fst e)).

Lemma matchGenres_loop (genres : list string) (m : Inference.Match) :
  let m' := fold_left (λ acc genre, step (Js.toLowerCase genre) acc)
              genres m in
  (Inference.bestScore m ≤ Inference.bestScore m')%nat
  ∧ (∀ genre e, genre ∈ genres → e ∈ tbl →
                Js.includes (Js.toLowerCase genre) (fst e) = true →
                (String.length (fst e) ≤ Inference.bestScore m')%nat)
  ∧ (m' = m
     ∨ ∃ genre e, genre ∈ genres ∧ e ∈ tbl
                  ∧ Js.includes (Js.toLowerCase genre) (fst e) = true
                  ∧ m' = Inference.mkMatch (Some (snd e)) (String.length (fst e)) (fst e)).
Proof.
  revert m. induction genres as [|genre genres IH]; intros m; cbn [fold_left].
  - split; [done|]. split; [by intros ? ? []%elem_of_nil|]. by left.
  - destruct (step_spec (Js.toLowerCase genre) m) as (S1 & S2 & S3).
    destruct (IH (step (Js.toLowerCase genre) m))
      as (Hmono & Hcover & Hwhich).
    split; [lia|]. split.
    + intros genre' e [->|Hin]%elem_of_cons He Hinc.
      * specialize (S2 e He Hinc). lia.
      * by apply (Hcover genre' e).
    + destruct Hwhich as [->|(genre' & e & Hin & He & Hinc & ->)].
      * destruct S3 as [->|(e & He & Hinc & ->)]; [by left|].
        right. exists genre, e. split; [apply elem_of_cons; by left|done].
      * right. exists genre', e. split; [apply elem_of_cons; by right|done].
Qed.

End Loop.

Lemma matchGenres_spec (genres : list string) :
  (∀ genre e, genre ∈ genres → e ∈ Inference.genreMappings →
              Js.includes (Js.toLowerCase genre) (fst e) = true →
              (String.length (fst e)
               ≤ Inference.bestScore (Inference.matchGenres genres))%nat)
  ∧ (Inference.matchGenres genres = Inference.mkMatch None 0 ""
     ∨ ∃ genre e, genre ∈ genres ∧ e ∈ Inference.genreMappings
                  ∧ Js.includes (Js.toLowerCase genre) (fst e) = true
                  ∧ Inference.matchGenres genres
                    = Inference.mkMatch (Some (snd e)) (String.length (fst e)) (fst e)).
Proof.
  exact (proj2 (matchGenres_loop Inference.genreMappings Inference.matchGenre
                  matchGenre_spec genres (Inference.mkMatch None 0 ""))).
Qed.

Lemma genreMappings_keys :
  Forall (λ e : string * Inference.GenreFeatures, (0 < String.length (fst e))%nat)
    Inference.genreMappings.
Proof. repeat constructor. Qed.

Lemma applyHints_cases (artistLower : string) (m : Inference.Match) :
  Inference.applyHints Inference.artistHints artistLower m = m
  ∨ ∃ h g, h ∈ ["techno"; "house"; "trance"; "dubstep"]
           ∧ Inference.lookupGenre h = Some g
           ∧ Inference.applyHints Inference.artistHints artistLower m
             = Inference.mkMatch (Some g) (Inference.bestScore m) (h +:+ " (artist_hint)").
Proof.
  unfold Inference.artistHints. cbn [Inference.applyHints].
  destruct (existsb _ _).
  { right. eexists "techno", _. split; [set_solver|]. split; reflexivity. }
  destruct (existsb _ _).
  { right. eexists "house", _. split; [set_solver|]. split; reflexivity. }
  destruct (existsb _ _).
  { right. eexists "trance", _. split; [set_solver|]. split; reflexivity. }
  destruct (existsb _ _).
  { right. eexists "dubstep", _. split; [set_solver|]. split; reflexivity. }
  left. by destruct (existsb _ _).
Qed.

(** X27.  The genre that [inferAudioFeaturesFromGenres] matches.  The loop
    over the genres ends with a longest key of the table that some genre of
    the request contains (lower-cased): whenever a genre contains a key, a
    match is found and no contained key is longer than the matched one; and
    a match is an entry of the table that a genre contains.  The inferred
    [matched_genre] is then an artist hint (techno, house, trance or
    dubstep, which replaces any match), or that match, or, when no genre
    contains a key, the electronic or the pop default. *)
Theorem matched_genre_is_a_longest_contained_key (genres : list string) :
  let m := Inference.matchGenres genres in
  (∀ genre k g, genre ∈ genres → (k, g) ∈ Inference.genreMappings →
     Js.includes (Js.toLowerCase genre) k = true →
     is_Some (Inference.bestMatch m)
     ∧ (String.length k ≤ String.length (Inference.matchedGenre m))%nat)
  ∧ (∀ g, Inference.bestMatch m = Some g →
       (Inference.matchedGenre m, g) ∈ Inference.genreMappings
       ∧ Inference.bestScore m = String.length (Inference.matchedGenre m)
       ∧ ∃ genre, genre ∈ genres
                  ∧ Js.includes (Js.toLowerCase genre) (Inference.matchedGenre m) = true)
  ∧ (∀ random artistName trackName f,
       Inference.inferAudioFeaturesFromGenres random genres artistName trackName = Some f →
       (∃ h, h ∈ ["techno"; "house"; "trance"; "dubstep"]
             ∧ Inference.matched_genre f = h +:+ " (artist_hint)")
       ∨ (is_Some (Inference.bestMatch m)
          ∧ Inference.matched_genre f = Inference.matchedGenre m)
       ∨ (Inference.bestMatch m = None
          ∧ Inference.matched_genre f ∈ ["electronic (fallback)"; "pop (default)"])).
Proof.
  intros m.
  destruct (matchGenres_spec genres) as (Hcover & Hwhich).
  change (Inference.matchGenres genres) with m in Hcover, Hwhich.
  assert (Hmatch : ∀ g, Inference.bestMatch m = Some g →
            (Inference.matchedGenre m, g) ∈ Inference.genreMappings
            ∧ Inference.bestScore m = String.length (Inference.matchedGenre m)
            ∧ ∃ genre, genre ∈ genres
                       ∧ Js.includes (Js.toLowerCase genre) (Inference.matchedGenre m)
                         = true).
  { intros g Hg. destruct Hwhich as [Hm|(genre & [k g'] & Hin & He & Hinc & Hm)];
      rewrite Hm in Hg |- *; [done|]. simpl in *. injection Hg as <-.
    split; [done|]. split; [done|]. by exists genre. }
  split_and!.
  - intros genre k g Hin He Hinc.
    pose proof (Hcover genre (k, g) Hin He Hinc) as Hlen. simpl in Hlen.
    assert (Hpos : (0 < String.length k)%nat).
    { pose proof genreMappings_keys as Hkeys. rewrite Forall_forall in Hkeys.
      apply (Hkeys (k, g) He). }
    destruct (Inference.bestMatch m) as [g'|] eqn:Hb.
    + split; [by eexists|]. destruct (Hmatch g' eq_refl) as (_ & <- & _). exact Hlen.
    + destruct Hwhich as [Hm|(genre' & e & _ & _ & _ & Hm)]; rewrite Hm in Hb, Hlen;
        simpl in *; [lia|done].
  - exact Hmatch.
  - intros random artistName trackName f.
    unfold Inference.inferAudioFeaturesFromGenres. cbv zeta. fold m.
    destruct (applyHints_cases (Js.toLowerCase artistName) m)
      as [->|(h & g & Hh & Hg & ->)].
    + unfold Inference.withDefault.
      destruct (Inference.bestMatch m) as [g|] eqn:Hb.
      * intros [= <-]. right. left. split; [by eexists|done].
      * intros H. right. right. split; [done|]. revert H.
        destruct (Inference.hasElectronicTerms _ _);
          [destruct lookupGenre_electronic as [g' ->]
          |destruct lookupGenre_pop as [g' ->]];
          intros [= <-]; cbn [Inference.matched_genre];
          [apply elem_of_cons; by left
          |apply elem_of_cons; right; apply elem_of_cons; by left].
    + unfold Inference.withDefault. simpl. intros [= <-]. left. by exists h.
Qed.
